(* ===== verification/_CoqProject ===== *)
-Q . S2P
Prelude.v
Str.v
External.v
MgConfig.v
CommitToken.v
Owners.v
Buckets.v
Gaps.v
Observability.v
Amqp.v
Rabbit.v
Protocol.v
MgDb.v
Auth.v
Service.v
MgHttp.v
Mailbox.v
Membership.v
Publish.v
GwValue.v
Contracts.v
GwModels.v
Verify.v
Identity.v
NetworkNode.v
UiHub.v
GwDb.v
GwStore.v
Normalize.v
Space.v
ReadModels.v
Ingest.v
GwSamples.v
Progress.v
Ingestion.v
Trust.v
WsStream.v
Registry.v
Limiter.v
GwSync.v
Gossip.v
Reconcile.v
PublicApi.v
Federation.v
Sources.v
Pull.v
GwBoot.v
SpaceQuery.v
