(* ===== verification/Prelude.v ===== *)
(** * Verification of the Watt gateways

    The repository holds two services of a peer-to-peer network.

    The _message gateway_ ([crates/message-gateway]) is a mailbox service.  Principals prove
    possession of a key and get a bearer session; they publish signed frames to a scope; the
    gateway checks the authority of a frame, applies membership changes to its database and
    to the bindings of a RabbitMQ broker, and delivers each frame to the mailbox queues of the
    members; a recipient pulls a page of its mailbox under a lease, and commits it with a
    token.

    The _gateway_ ([crates/gateway]) collects what nodes publish.  Nodes push signed events
    and snapshots; the gateway verifies them, stores them with derived read models, streams
    events to subscribers, keeps a registry of other gateways, and exchanges announcements
    with gateways that are its peers.  It also pulls the snapshots of registered sources, and
    answers queries, for some of which it asks other gateways.  Its peer-to-peer node is in a
    crate of its own ([crates/gateway-p2p]).

    ** How the code is modelled

    Rust's [Result] is [result], and [async] code that touches state is a function in the
    monad [M S E A := S -> result E A * S] of this file: the state after an error is the state
    at the error, so a theorem can speak about what a failed request leaves behind.  [?] is
    the monadic bind; [for] loops are [for_each].  Clocks, random numbers and the outcome of
    each database statement come from an environment ([Host] of [Protocol], [GwHost] of
    [GwDb]) indexed by the number of steps taken, so that a statement about all environments
    covers every clock and every pattern of failures.  A transaction writes to a view that
    replaces the committed database when it commits.  Machine integers are [Z] with the
    saturating, wrapping or checked arithmetic of the source written out; a [&str] is its
    UTF-8 bytes; timestamps are microseconds.  Crates outside the repository (signatures, hashes, JSON, the
    broker, the peer-to-peer runtime, the protocol types) are type classes of operations with
    separate classes of laws for what a theorem relies on, and each has an executable instance
    with which the witnesses run the theorems on concrete inputs.

    ** Shared files

    [Prelude]: results, the monad, its rules ([always] with the hint database [gw_always]),
    machine integers, lists.  [Str]: Rust's string operations.  [External]: hashing,
    encodings and signatures.

    ** Message gateway

    - [MgConfig] ([config.rs]): the configuration and the admission of tenants.
    - [CommitToken] ([commit_token.rs]), [Owners], [Buckets], [MgDb] ([db.rs]), [Gaps]
      ([gaps.rs]), [Observability] ([observability.rs]): one file for each group of tables or
      counters, one definition for each statement.
    - [Amqp] and [Rabbit] ([rabbit.rs]): the broker interface and the adapter.
    - [Protocol]: the interface of the protocol crates.  [Auth] ([auth.rs]): sessions.
      [Service] ([service.rs]): validation, publishing, control, membership.  [MgHttp]
      ([http.rs]): the handlers.
    - [Mailbox], [Membership], [Publish]: theorems about the handlers.

    The theorems: a record reaches the broker only when its author and its fan-out allow it
    ([publish_guarded]), at most once ([publish_at_most_once]), and a
    failed publish changes nothing ([publish_atomic]); a membership change leaves exactly the
    desired members, routes and bindings of its scope and touches no other
    ([membership_cutover]) and a snapshot needs the signatures it declares
    ([snapshot_quorum]; [own_signature_suffices] shows how few that can be); a lease is
    exclusive ([lease_exclusive]), every message received for a page is listed or its own and
    the page is committed as it was pulled ([page_pull_commit]) and only by its session, token and lease
    ([commit_page_guarded]), and the commit of a pulled page succeeds
    ([pulled_page_commits]); sessions need a signed fresh challenge
    ([session_proof_of_possession], [challenge_single_use]); the shared buckets bound the
    admitted publishes ([global_rate_bound]); lost messages become gaps that are delivered
    until they are acknowledged ([dead_letter_recorded], [gap_redelivery]).

    ** Gateway

    - [GwValue], [Contracts] ([contracts.rs], [source_policy.rs]), [GwModels] ([models.rs]):
      JSON values, data kinds with their policies, records.
    - [Verify] ([verify.rs]), [Identity] ([gateway_identity.rs], [registry_client.rs]):
      signatures and the gateway's own identity.
    - [UiHub] ([state.rs]), [GwDb] ([db.rs]) with its properties in [GwStore].
    - [Normalize] and [Ingest] ([streaming.rs], [http.rs]), [Space] ([space.rs]),
      [ReadModels] ([read_models.rs]): ingestion of events and snapshots.
    - [GwSamples]: executable instances.  [Progress], [Ingestion], [Trust]: the invariants of
      ingestion.
    - [WsStream] ([streaming.rs]): the event stream.  [Registry] ([http.rs],
      [registry_client.rs]): the registry of gateways.
    - [Limiter], [GwSync] ([gateway_sync.rs]): the exchange between gateways, with its
      theorems in [Gossip] and [Reconcile].
    - [PublicApi] ([public_api.rs]): the queries with their federation, and [Federation]:
      theorems about them.  [SpaceQuery] ([space.rs]): the queries on the space.
    - [Sources] ([http.rs], [collectors.rs], [node_client.rs]): registration and
      synchronisation of sources, and [Pull]: theorems about them.
    - [NetworkNode] ([gateway-p2p]): the state directory of the peer-to-peer node, and its
      start and stop.  [GwBoot] ([config.rs], [main.rs]): the configuration from the
      environment and the start of the gateway.

    The theorems: only signed payloads have an effect, and pushed ones only from the signer
    their source is registered with ([ingest_authentic]), nothing that
    was accepted is lost or replaced by older data ([ingest_never_loses]), an accepted event
    is stored, published and announced once ([event_stored_once]), what is served is signed by
    the right key ([served_records_signed]), the newest snapshot wins in every order of
    arrival ([snapshots_converge]) and a projected record keeps its fields
    ([projection_faithful]); a subscriber receives the events of the log it may see, in order
    and once ([stream_refines_log], [stream_in_order], [stream_confined],
    [hub_stream_exact]); the registry implements the administrator's decisions
    ([registry_refines_decisions], [listed_gateways_approved], [discovery_complete]); the
    limiter of fetches keeps its bounds and never sleeps with work to do ([limiter_bounds],
    [limiter_drains]); announcements are kept until they are published, and their turn comes
    ([outbox_at_least_once], [drain_accounts]), arrive as they were sent ([gossip_carries_event]), are bound to the
    peer that made them ([gossiped_snapshot_bound]) and are not echoed ([gossip_not_echoed]);
    a reconciliation announces everything, each snapshot once when nothing fails, and ends
    ([full_reconcile_covers], [full_reconcile_terminates]); no payload makes the reception panic
    ([reception_never_panics]).  A query asks only configured peers and, unless the
    gateway is restricted to these, gateways that a registry has approved for it
    ([federation_confined]), and they answer from their own data ([federation_one_hop]); a federated view has the newest records once
    ([federated_view_newest]), board messages of others are checked like the gateway's own
    ([board_view_trusted]), the members of a hive are counted by their last subscription
    ([hive_member_counts_exact]), which is the collected one
    ([collected_subscription_counted]), and a merged status is well formed
    ([merged_status_typed]); the presences that are shown are exactly the present ones
    ([presence_view_exact]).  A registration adds one source ([register_node_exact]); a
    synchronisation loses nothing ([sync_never_loses]) and what it reports has been verified
    and stored ([sync_reports]).  However the file accesses of gateways that start, stop and
    are killed interleave, one at a time runs on a state directory ([state_dir_exclusive]) and
    all that run on it have one identity ([identity_stable]); a gateway that was stopped
    starts again ([clean_restart]), one that was killed does not
    ([killed_gateway_stays_down]), and a failed start leaves no lock once the node is up
    ([failed_boot_unlocks]).

    ** Fuel and bounds

    Loops over data are structural.  Loops that wait are step relations ([Limiter.fetch_step])
    or functions of the sequence of inputs ([WsStream]); the only fuel is that of
    [Reconcile.full_reconcile], the repeated calls of a pass, and
    [full_reconcile_terminates] gives the number of calls that suffices and shows that one
    less does not.  The queue, cache and page capacities are those of the source.

    ** Not modelled

    Routing, the start of the message gateway and its TLS set-up ([http.rs] routers, [main.rs]
    and [internal_tls.rs] of the message gateway): wiring of library calls.  Schema creation
    and migration, apart from the constraints that the statements run into.  The rendering of
    operational metrics and their database and broker queries ([observability.rs]).  The
    select loop of the synchronisation and its dispatcher tasks, which call the modelled
    functions in an order that the scheduler of the runtime chooses.  In [gateway-p2p], the
    calls that only pass their arguments to the network crate (publishing, fetching, artifact
    storage).  Statements run alone between the start and the end of their
    transaction: the row and advisory locks of the source make them so, and isolation
    anomalies of the database are not modelled.  A statement that fails, [COMMIT] among them,
    has no effect: a commit that takes place although its acknowledgement is lost is not
    modelled, so what is said about a failed request is about one whose commit was not
    carried out.  [create_new] is one access to the file system, which is what [O_EXCL]
    guarantees on a local one.

    ** Idealisations

    The codecs of the gossip messages invert each other on everything that can be written
    ([Gossip.MessageLaws]).  The build uses [serde_json] without [float_roundtrip] and with
    its recursion limit of 128: for payloads with floats that do not survive printing, or
    nested deeper than that, the law does not hold and [gossip_carries_event] says nothing.
    Floating-point token counts are exact rationals in [Buckets]. *)

From Stdlib Require Export Ascii String ZArith Lia.
From stdpp Require Export base gmap strings list fin_maps pretty.


(** * Results

    Rust's [Result<A, E>], with the [?] operator as the monadic bind. *)

Inductive result (E A : Type) : Type :=
| Ok (a : A)
| Err (e : E).
Arguments Ok {E A} a.
Arguments Err {E A} e.

Global Instance result_eq_dec {E A} `{EqDecision E, EqDecision A} :
  EqDecision (result E A).
Proof. solve_decision. Defined.

Global Instance result_ret {E} : MRet (result E) := fun A => @Ok E A.
Global Instance result_bind {E} : MBind (result E) :=
  fun A B f m => match m with Ok a => f a | Err e => Err e end.
Global Instance result_fmap {E} : FMap (result E) :=
  fun A B f m => match m with Ok a => Ok (f a) | Err e => Err e end.

(** [bail!] behind a condition: [if b { bail!(e) }]. *)
Definition bail_if {E} (b : bool) (e : E) : result E () :=
  if b then Err e else Ok ().

(** [Option::context] and [Option::ok_or_else]. *)
Definition ok_or {E A} (o : option A) (e : E) : result E A :=
  match o with Some a => Ok a | None => Err e end.

(** [Result::context]: the outermost message replaces the error. *)
Definition with_context {E A} (r : result E A) (e : E) : result E A :=
  match r with Ok a => Ok a | Err _ => Err e end.

Definition is_ok {E A} (r : result E A) : bool :=
  match r with Ok _ => true | Err _ => false end.

(** * Stateful fallible computations

    [M S E A] is a computation over a mutable state [S] that can return early
    with an error.  The state reached when the error is raised is kept: a Rust
    function that returns [Err] has performed every effect before it. *)

Definition M (S E A : Type) : Type := S -> result E A * S.

Global Instance M_ret {S E} : MRet (M S E) := fun A a s => (Ok a, s).
Global Instance M_bind {S E} : MBind (M S E) :=
  fun A B f m s =>
    match m s with
    | (Ok a, s') => f a s'
    | (Err e, s') => (Err e, s')
    end.

Definition get_state {S E} : M S E S := fun s => (Ok s, s).
Definition gets {S E A} (f : S -> A) : M S E A := fun s => (Ok (f s), s).
Definition modify {S E} (f : S -> S) : M S E () := fun s => (Ok (), f s).
Definition throw {S E A} (e : E) : M S E A := fun s => (Err e, s).
Definition lift {S E A} (r : result E A) : M S E A := fun s => (r, s).
Definition whenM {S E} (b : bool) (m : M S E ()) : M S E () :=
  if b then m else mret ().

(** [a && f().await?]: the second operand runs only when it is needed. *)
Definition and_also {S E} (b : bool) (m : M S E bool) : M S E bool :=
  if b then m else mret false.

(** [let r = f().await; ...]: the outcome is inspected, not propagated. *)
Definition attempt {S E A} (m : M S E A) : M S E (result E A) :=
  fun s => let '(r, s') := m s in (Ok r, s').

(** [for x in xs { f(x)?; }] *)
Fixpoint for_each {S E A} (xs : list A) (f : A -> M S E ()) : M S E () :=
  match xs with
  | [] => mret ()
  | x :: xs => f x ≫= fun _ => for_each xs f
  end.

(** A computation on a part of a larger state. *)
Definition zoom {S T E A} (get : T -> S) (put : S -> T -> T) (m : M S E A) : M T E A :=
  fun t => let '(r, s) := m (get t) in (r, put s t).

(** * Machine integers

    Unsigned and signed 64-bit values are kept in [Z]; the operations below
    write out what the Rust operators do at the ends of the range. *)

Definition u64_max : Z := 18446744073709551615.
Definition i64_max : Z := 9223372036854775807.
Definition i64_min : Z := -9223372036854775808.

Definition is_u64 (z : Z) : Prop := (0 <= z <= u64_max)%Z.
Definition is_i64 (z : Z) : Prop := (i64_min <= z <= i64_max)%Z.

Definition sat_add (a b : Z) : Z := Z.min (a + b) u64_max.
Definition sat_sub (a b : Z) : Z := Z.max (a - b) 0.
Definition sat_mul (a b : Z) : Z := Z.min (a * b) u64_max.
Definition checked_mul (a b : Z) : option Z :=
  if (a * b <=? u64_max)%Z then Some (a * b)%Z else None.

(** [value as i64] for a [u64] and [value as u64] for an [i64]: two's
    complement reinterpretation. *)
Definition as_i64 (z : Z) : Z :=
  let m := (z mod 2 ^ 64)%Z in if (m <=? i64_max)%Z then m else (m - 2 ^ 64)%Z.
Definition as_u64 (z : Z) : Z := (z mod 2 ^ 64)%Z.

(** [i64::try_from(u64)] and [i64::try_from(u128)]. *)
Definition i64_try_from (z : Z) : option Z :=
  if (z <=? i64_max)%Z then Some z else None.

(** * Tactics and hint databases *)

Create HintDb gw discriminated.
Create HintDb gw_always discriminated.
Create Rewrite HintDb gw_str.

(** [gw_split] destructs the conjunctions and existentials of the context. *)
Ltac gw_split :=
  repeat match goal with
  | H : _ ∧ _ |- _ => destruct H
  | H : ∃ _, _ |- _ => destruct H
  | H : (_ * _)%type |- _ => destruct H
  end.

(** * Lemmas on results *)

Lemma bail_if_ok {E} (b : bool) (e : E) u : bail_if b e = Ok u ↔ b = false.
Proof. destruct b, u; naive_solver. Qed.

Lemma bail_if_err {E} (b : bool) (e e' : E) :
  bail_if b e = Err e' ↔ b = true ∧ e = e'.
Proof. destruct b; naive_solver. Qed.

Lemma ok_or_ok {E A} (o : option A) (e : E) a : ok_or o e = Ok a ↔ o = Some a.
Proof. destruct o; naive_solver. Qed.

Lemma with_context_ok {E A} (r : result E A) e a : with_context r e = Ok a ↔ r = Ok a.
Proof. destruct r; naive_solver. Qed.

Lemma result_bind_ok {E A B} (m : result E A) (f : A -> result E B) b :
  m ≫= f = Ok b ↔ ∃ a, m = Ok a ∧ f a = Ok b.
Proof. destruct m; cbn; naive_solver. Qed.

Lemma result_bind_err {E A B} (m : result E A) (f : A -> result E B) e :
  m ≫= f = Err e ↔ m = Err e ∨ ∃ a, m = Ok a ∧ f a = Err e.
Proof. destruct m; cbn; naive_solver. Qed.

Lemma is_ok_spec {E A} (r : result E A) : is_ok r = true ↔ ∃ a, r = Ok a.
Proof. destruct r; naive_solver. Qed.

(** [inv_result] takes a hypothesis [m = Ok _] apart along its binds. *)
Ltac inv_result :=
  repeat match goal with
  | H : mbind _ _ = Ok _ |- _ => apply result_bind_ok in H as (? & ? & ?)
  | H : bail_if _ _ = Ok _ |- _ => apply bail_if_ok in H
  | H : ok_or _ _ = Ok _ |- _ => apply ok_or_ok in H
  | H : with_context _ _ = Ok _ |- _ => apply with_context_ok in H
  | H : mret _ = Ok _ |- _ => cbv [mret result_ret] in H
  | H : Ok _ = Ok _ |- _ => injection H as H; try subst
  | H : Err _ = Ok _ |- _ => discriminate H
  | H : Ok _ = Err _ |- _ => discriminate H
  | H : () = () |- _ => clear H
  | u : () |- _ => destruct u
  end.

(** * Lemmas on stateful computations *)

Section M_lemmas.
Context {S E : Type}.

Lemma M_bind_ok {A B} (m : M S E A) (f : A -> M S E B) s b s' :
  (m ≫= f) s = (Ok b, s') ↔ ∃ a s1, m s = (Ok a, s1) ∧ f a s1 = (Ok b, s').
Proof.
  unfold mbind, M_bind. destruct (m s) as [[a|e] s1]; naive_solver.
Qed.

Lemma M_bind_err {A B} (m : M S E A) (f : A -> M S E B) s e s' :
  (m ≫= f) s = (Err e, s') ↔
    m s = (Err e, s') ∨ ∃ a s1, m s = (Ok a, s1) ∧ f a s1 = (Err e, s').
Proof.
  unfold mbind, M_bind. destruct (m s) as [[a|e'] s1]; naive_solver.
Qed.

Lemma M_bind_step {A B} (m : M S E A) (f : A -> M S E B) s a s1 :
  m s = (Ok a, s1) → (m ≫= f) s = f a s1.
Proof. unfold mbind, M_bind. by intros ->. Qed.

Lemma M_bind_stop {A B} (m : M S E A) (f : A -> M S E B) s e s1 :
  m s = (Err e, s1) → (m ≫= f) s = (Err e, s1).
Proof. unfold mbind, M_bind. by intros ->. Qed.

(** [always R m]: whatever the outcome of [m], the state it starts from and
    the state it ends in are related by the preorder [R]. *)
Definition always {A} (R : relation S) (m : M S E A) : Prop :=
  ∀ s, R s (m s).2.

Context (R : relation S) `{!PreOrder R}.

Lemma always_ret {A} (a : A) : always R (mret a).
Proof. intros s; cbn; reflexivity. Qed.

Lemma always_throw {A} e : always R (throw e : M S E A).
Proof. intros s; cbn; reflexivity. Qed.

Lemma always_lift {A} (r : result E A) : always R (lift r).
Proof. intros s; cbn; reflexivity. Qed.

Lemma always_gets {A} (f : S -> A) : always R (gets f).
Proof. intros s; cbn; reflexivity. Qed.

Lemma always_get : always R get_state.
Proof. intros s; cbn; reflexivity. Qed.

Lemma always_modify f : (∀ s, R s (f s)) → always R (modify f).
Proof. intros H s; apply H. Qed.

Lemma always_bind {A B} (m : M S E A) (f : A -> M S E B) :
  always R m → (∀ a, always R (f a)) → always R (m ≫= f).
Proof.
  intros Hm Hf s. unfold mbind, M_bind.
  specialize (Hm s). destruct (m s) as [[a|e] s1]; cbn in *; [|done].
  etransitivity; [exact Hm|apply Hf].
Qed.

(** The same with what the first computation says of its value. *)
Lemma always_bind_post {A B} (Q : A -> Prop) (m : M S E A) (f : A -> M S E B) :
  always R m → (∀ s a s', m s = (Ok a, s') → Q a) → (∀ a, Q a → always R (f a)) →
  always R (m ≫= f).
Proof.
  intros Hm HQ Hf s. unfold mbind, M_bind.
  specialize (Hm s). destruct (m s) as [[a|e] s1] eqn:Hr; cbn in *; [|done].
  etransitivity; [exact Hm|apply Hf; eauto].
Qed.

Lemma always_attempt {A} (m : M S E A) : always R m → always R (attempt m).
Proof.
  intros Hm s. unfold attempt. specialize (Hm s). by destruct (m s).
Qed.

Lemma always_whenM b m : always R m → always R (whenM b m).
Proof. destruct b; [done|intros _; apply always_ret]. Qed.

Lemma always_and_also b m : always R m → always R (and_also b m).
Proof. destruct b; [done|intros _; apply always_ret]. Qed.

Lemma always_for_each {A} (xs : list A) f :
  (∀ x, x ∈ xs → always R (f x)) → always R (for_each xs f).
Proof.
  induction xs as [|x xs IH]; intros Hf; cbn; [apply always_ret|].
  apply always_bind; [apply Hf; by left|].
  intros _. apply IH. intros y Hy. apply Hf. by right.
Qed.

Lemma always_if {A} (b : bool) (m1 m2 : M S E A) :
  always R m1 → always R m2 → always R (if b then m1 else m2).
Proof. by destruct b. Qed.
End M_lemmas.

(** [solve_always] follows the structure of a computation; what is left are the
    primitive steps of the component. *)
Ltac solve_always :=
  repeat first
    [ assumption
    | match goal with |- PreOrder _ => apply _ end
    | solve [eauto with gw_always nocore]
    | apply always_ret | apply always_throw | apply always_lift | apply always_gets
    | apply always_get | apply always_attempt | apply always_whenM | apply always_and_also
    | apply always_if
    | apply always_for_each; [apply _|intros ? _]
    | apply always_bind; [apply _| |intros ?]
    | match goal with
      | |- always _ (match ?x with _ => _ end) => destruct x
      | |- always _ (let '(_, _) := ?x in _) => destruct x
      end ].

(** A state relation that holds across a whole computation is read off the
    outcome equation. *)
Lemma always_run {S E A} (R : relation S) (m : M S E A) s r s' :
  always R m → m s = (r, s') → R s s'.
Proof. intros H Hm. specialize (H s). by rewrite Hm in H. Qed.

(** Either the run ends in its first part, or it goes on from there; in both
    cases [R] holds up to that point. *)
Lemma always_step {S E A B} (R : relation S) `{!PreOrder R} s0 (m : M S E A) (f : A -> M S E B)
    s r s' :
  R s0 s → always R m → (m ≫= f) s = (r, s') →
  (R s0 s' ∧ ∃ e, r = Err e) ∨ ∃ a s1, R s0 s1 ∧ m s = (Ok a, s1) ∧ f a s1 = (r, s').
Proof.
  intros H0 Hm. specialize (Hm s). assert (R s0 (m s).2) as H by (by etrans). revert H.
  unfold mbind, M_bind. destruct (m s) as [[a|e] s1]; cbn in *; intros HR Heq.
  - right. eauto.
  - left. simplify_eq. eauto.
Qed.

(** [run_always R H] adds what [R] says about the run [H]. *)
Ltac run_always R H :=
  match type of H with
  | ?m ?s = (?r, ?s') =>
      assert (R s s') by (apply (always_run R m s r s'); [solve_always|exact H])
  end.

(** An outcome computed by evaluation, with the state left as it is. *)
Lemma M_run_ok {S E A} (m : M S E A) s a : (m s).1 = Ok a → m s = (Ok a, (m s).2).
Proof. destruct (m s). cbn. by intros ->. Qed.

Lemma lift_ok {S E A} (r : result E A) (s : S) a s' :
  lift r s = (Ok a, s') ↔ r = Ok a ∧ s' = s.
Proof. unfold lift. naive_solver. Qed.

Lemma whenM_lift_ok {S E} (b : bool) (r : result E ()) (s : S) u s' :
  whenM b (lift r) s = (Ok u, s') → s' = s ∧ (b = true → r = Ok ()).
Proof. destruct b, r as [[]|]; cbn; intros H; inversion H; done. Qed.

(** [inv_M] takes a hypothesis [m s = (Ok _, _)] apart along its binds. *)
Ltac inv_M :=
  repeat (cbn beta iota in *; match goal with
  | H : mbind _ _ _ = (Ok _, _) |- _ => apply M_bind_ok in H as (? & ? & ? & ?)
  | H : mret _ _ = (_, _) |- _ => cbv [mret M_ret] in H
  | H : gets _ _ = (_, _) |- _ => cbv [gets] in H
  | H : get_state _ = (_, _) |- _ => cbv [get_state] in H
  | H : modify _ _ = (_, _) |- _ => cbv [modify] in H
  | H : throw _ _ = (_, _) |- _ => cbv [throw] in H
  | H : lift _ _ = (_, _) |- _ => cbv [lift] in H
  | H : (_, _) = (_, _) |- _ => injection H as ?; try subst
  | H : Ok _ = Ok _ |- _ => injection H as H; try subst
  | H : Err _ = Ok _ |- _ => discriminate H
  | H : Ok _ = Err _ |- _ => discriminate H
  | u : () |- _ => destruct u
  end).

(** A loop that succeeds has run its body on every element: [I done s] is the
    invariant after the elements [done]. *)
Lemma for_each_ok_ind {S E X} (I : list X -> S -> Prop) (f : X -> M S E ()) xs s s' :
  (∀ done x rest s s', xs = done ++ x :: rest → I done s → f x s = (Ok (), s') →
     I (done ++ [x]) s') →
  I [] s → for_each xs f s = (Ok (), s') → I xs s'.
Proof.
  intros Hstep. assert (∀ ys done s, xs = done ++ ys → I done s →
    for_each ys f s = (Ok (), s') → I xs s') as H.
  { induction ys as [|y ys IH]; intros done s0 Hxs HI Hr; cbn in Hr.
    - injection Hr as <-. by rewrite Hxs, app_nil_r.
    - apply M_bind_ok in Hr as ([] & s1 & Hy & Hr).
      apply (IH (done ++ [y]) s1); [by rewrite <- app_assoc|by eapply Hstep|done]. }
  intros HI Hr. by apply (H xs [] s).
Qed.

(** The two ways a sequence of two computations runs. *)
Lemma M_bind_inv {S E A B} (m : M S E A) (f : A -> M S E B) s r s' :
  (m ≫= f) s = (r, s') →
  (∃ e, m s = (Err e, s') ∧ r = Err e) ∨ ∃ a s1, m s = (Ok a, s1) ∧ f a s1 = (r, s').
Proof. unfold mbind, M_bind. destruct (m s) as [[a|e] s1]; naive_solver. Qed.

(** A run is built from its first part on; [run_step H] does one step. *)
Lemma M_bind_ex {S E A B} (Q : S -> Prop) (m : M S E A) (f : A -> M S E B) s a s1 r :
  m s = (Ok a, s1) → (∃ s', f a s1 = (r, s') ∧ Q s') → ∃ s', (m ≫= f) s = (r, s') ∧ Q s'.
Proof. unfold mbind, M_bind. by intros ->. Qed.

Lemma M_bind_run {S E A B} (m : M S E A) (f : A -> M S E B) s a s1 :
  m s = (Ok a, s1) → (m ≫= f) s = f a s1.
Proof. unfold mbind, M_bind. by intros ->. Qed.

Ltac run_step H := eapply M_bind_ex; [exact H|cbn beta iota].
Ltac run_pure := eapply M_bind_ex; [reflexivity|cbn beta iota].

(** An inspected outcome does not stop the run. *)
Lemma attempt_bind {S E A B} (m : M S E A) (f : result E A -> M S E B) s r s' :
  (attempt m ≫= f) s = (r, s') → ∃ r1 s1, m s = (r1, s1) ∧ f r1 s1 = (r, s').
Proof. unfold mbind, M_bind, attempt. destruct (m s) as [r1 s1]. eauto. Qed.

(** * Lemmas on machine integers *)

Lemma sat_add_range a b : is_u64 a → is_u64 b → is_u64 (sat_add a b).
Proof. unfold is_u64, sat_add, u64_max. lia. Qed.

Lemma sat_sub_range a b : is_u64 a → is_u64 b → is_u64 (sat_sub a b).
Proof. unfold is_u64, sat_sub, u64_max. lia. Qed.

Lemma sat_mul_range a b : is_u64 a → is_u64 b → is_u64 (sat_mul a b).
Proof. unfold is_u64, sat_mul, u64_max. nia. Qed.

(** Below the top of the range a saturated value is the exact one. *)
Lemma sat_add_exact a b c : (sat_add a b <= c)%Z → (c < u64_max)%Z → sat_add a b = (a + b)%Z.
Proof. unfold sat_add. lia. Qed.

Lemma sat_mul_exact a b c : (sat_mul a b <= c)%Z → (c < u64_max)%Z → sat_mul a b = (a * b)%Z.
Proof. unfold sat_mul. lia. Qed.

Lemma sat_mul_mono a b b' :
  (0 <= a)%Z → (b <= b')%Z → (sat_mul a b <= sat_mul a b')%Z.
Proof. unfold sat_mul. nia. Qed.

Lemma sat_mul_mono_l a a' b :
  (0 <= b)%Z → (a <= a')%Z → (sat_mul a b <= sat_mul a' b)%Z.
Proof. unfold sat_mul. nia. Qed.

Lemma sat_add_mono_l a a' b : (a <= a')%Z → (sat_add a b <= sat_add a' b)%Z.
Proof. unfold sat_add. lia. Qed.

Lemma as_i64_small z : (0 <= z <= i64_max)%Z → as_i64 z = z.
Proof.
  intros Hz. unfold as_i64, i64_max in *.
  rewrite Z.mod_small by lia. case_match eqn:Hc; [done|].
  apply Z.leb_gt in Hc. lia.
Qed.

Lemma as_u64_small z : is_u64 z → as_u64 z = z.
Proof. intros Hz. unfold as_u64, is_u64, u64_max in *. rewrite Z.mod_small; lia. Qed.

(** Storing a [u64] in a BIGINT column and reading it back is the identity. *)
Lemma as_u64_range z : is_u64 (as_u64 z).
Proof. unfold is_u64, as_u64, u64_max. pose proof (Z.mod_pos_bound z (2 ^ 64)). lia. Qed.

Lemma as_u64_as_i64 z : is_u64 z → as_u64 (as_i64 z) = z.
Proof.
  intros Hz. unfold as_u64, as_i64, is_u64, u64_max, i64_max in *.
  rewrite (Z.mod_small z) by lia.
  case_match; [by rewrite Z.mod_small by lia|].
  replace (z - 2 ^ 64)%Z with (z + (-1) * 2 ^ 64)%Z by lia.
  rewrite Z.mod_add by lia. apply Z.mod_small. lia.
Qed.

#[export] Hint Resolve sat_add_range sat_sub_range sat_mul_range : gw.

(** * Lemmas on finite maps and sets *)

(** [DELETE ... WHERE p] keeps the rows on which [p] is false. *)
Lemma map_filter_lookup_keep `{Countable K} {A} (p : K * A -> Prop)
    `{!∀ x, Decision (p x)} (m : gmap K A) k a :
  m !! k = Some a → p (k, a) → filter p m !! k = Some a.
Proof. intros ??. apply map_lookup_filter_Some. auto. Qed.

(** * Lemmas on lists *)

(** Filters that agree on the elements of a list. *)
Lemma filter_ext_elem {A} (P Q : A -> Prop) `{!∀ x, Decision (P x), !∀ x, Decision (Q x)} (l : list A) :
  (∀ x, x ∈ l → P x ↔ Q x) → filter P l = filter Q l.
Proof.
  induction l as [|x l IH]; intros Hl; [done|].
  rewrite !filter_cons, IH by set_solver. apply decide_ext. set_solver.
Qed.

Lemma filter_none {A} (P : A -> Prop) `{!∀ x, Decision (P x)} (l : list A) :
  (∀ x, x ∈ l → ¬ P x) → filter P l = [].
Proof.
  induction l as [|x l IH]; intros Hl; [done|].
  rewrite filter_cons_False, IH by set_solver. done.
Qed.

Lemma filter_all {A} (P : A -> Prop) `{!∀ x, Decision (P x)} (l : list A) :
  (∀ x, x ∈ l → P x) → filter P l = l.
Proof.
  induction l as [|x l IH]; intros Hl; [done|].
  rewrite filter_cons_True, IH by set_solver. done.
Qed.
