(* ===== verification/Str.v ===== *)
(** * Rust string operations

    The [str] methods the gateways use, on byte strings: a Rust [&str] is its
    UTF-8 encoding, and every function below that looks at characters is
    written on that encoding.  The second half proves the facts the other
    components need: separators split uniquely, a length-prefixed key
    determines its parts, and trimming is idempotent. *)

From S2P Require Import Prelude.

Open Scope string_scope.
Open Scope list_scope.
Open Scope nat_scope.

#[global] Arguments String.append !_ _ / : simpl nomatch.

(** ** Prefixes and separators *)

Fixpoint strip_prefix (p s : string) : option string :=
  match p, s with
  | "", _ => Some s
  | String a p, String b s => if Ascii.eqb a b then strip_prefix p s else None
  | String _ _, "" => None
  end.

Definition starts_with (s p : string) : bool :=
  match strip_prefix p s with Some _ => true | None => false end.

(** [s.contains(p)] for a string pattern. *)
Fixpoint contains (s p : string) : bool :=
  starts_with s p ||
  match s with "" => false | String _ s' => contains s' p end.

Fixpoint has_char (c : Ascii.ascii) (s : string) : bool :=
  match s with
  | "" => false
  | String a s => Ascii.eqb a c || has_char c s
  end.

(** [s.split_once(c)]: at the first occurrence. *)
Fixpoint split_once (c : Ascii.ascii) (s : string) : option (string * string) :=
  match s with
  | "" => None
  | String a s =>
      if Ascii.eqb a c then Some ("", s)
      else match split_once c s with
           | Some (l, r) => Some (String a l, r)
           | None => None
           end
  end.

(** [s.rsplit_once(c)]: at the last occurrence. *)
Fixpoint rsplit_once (c : Ascii.ascii) (s : string) : option (string * string) :=
  match s with
  | "" => None
  | String a s =>
      match rsplit_once c s with
      | Some (l, r) => Some (String a l, r)
      | None => if Ascii.eqb a c then Some ("", s) else None
      end
  end.

(** [s.split(c).collect::<Vec<_>>()]: never empty, [n] separators give [n + 1]
    parts. *)
Fixpoint split_char (c : Ascii.ascii) (s : string) : list string :=
  match s with
  | "" => [""]
  | String a s =>
      if Ascii.eqb a c then "" :: split_char c s
      else match split_char c s with
           | [] => [String a ""]
           | p :: ps => String a p :: ps
           end
  end.

(** [s.trim_end_matches(c)] for a character. *)
Fixpoint trim_end_matches (c : Ascii.ascii) (s : string) : string :=
  match s with
  | "" => ""
  | String a s =>
      match trim_end_matches c s with
      | "" => if Ascii.eqb a c then "" else String a ""
      | s' => String a s'
      end
  end.

(** [s.trim_start_matches(c)] for a character. *)
Fixpoint trim_start_matches (c : Ascii.ascii) (s : string) : string :=
  match s with
  | "" => ""
  | String a s' => if Ascii.eqb a c then trim_start_matches c s' else s
  end.

Definition ends_with_char (c : Ascii.ascii) (s : string) : bool :=
  match rsplit_once c s with Some (_, "") => true | _ => false end.

(** ** Trimming

    [str::trim] removes the characters with the Unicode [White_Space] property:
    U+0009-U+000D, U+0020, U+0085, U+00A0, U+1680, U+2000-U+200A, U+2028,
    U+2029, U+202F, U+205F and U+3000, here by their UTF-8 encodings. *)

Definition byte_n (a : Ascii.ascii) : N := Ascii.N_of_ascii a.

Definition ws1 (a : N) : bool := ((9 <=? a) && (a <=? 13) || (a =? 32))%N.
Definition ws2 (a b : N) : bool := ((a =? 194) && ((b =? 133) || (b =? 160)))%N.
Definition ws3 (a b c : N) : bool :=
  ((a =? 225) && (b =? 154) && (c =? 128)
   || (a =? 226) && (b =? 128)
      && ((128 <=? c) && (c <=? 138) || (c =? 168) || (c =? 169) || (c =? 175))
   || (a =? 226) && (b =? 129) && (c =? 159)
   || (a =? 227) && (b =? 128) && (c =? 128))%N.

Fixpoint trim_start (s : string) : string :=
  match s with
  | "" => ""
  | String a s1 =>
      if ws1 (byte_n a) then trim_start s1
      else match s1 with
      | "" => s
      | String b s2 =>
          if ws2 (byte_n a) (byte_n b) then trim_start s2
          else match s2 with
          | "" => s
          | String c s3 =>
              if ws3 (byte_n a) (byte_n b) (byte_n c) then trim_start s3 else s
          end
      end
  end.

(** The end of the string is trimmed on the reversed bytes: a UTF-8 lead byte is
    never a continuation byte, so the encodings are recognised the same way
    backwards. *)
Fixpoint trim_start_rev (s : string) : string :=
  match s with
  | "" => ""
  | String a s1 =>
      if ws1 (byte_n a) then trim_start_rev s1
      else match s1 with
      | "" => s
      | String b s2 =>
          if ws2 (byte_n b) (byte_n a) then trim_start_rev s2
          else match s2 with
          | "" => s
          | String c s3 =>
              if ws3 (byte_n c) (byte_n b) (byte_n a) then trim_start_rev s3 else s
          end
      end
  end.

Definition trim_end (s : string) : string := String.rev (trim_start_rev (String.rev s)).
Definition trim (s : string) : string := trim_end (trim_start s).

(** [s.trim().is_empty()] *)
Definition is_blank (s : string) : bool :=
  match trim s with "" => true | _ => false end.

(** [s.is_empty()] *)
Definition is_empty (s : string) : bool :=
  match s with "" => true | _ => false end.

(** [s.to_ascii_lowercase()] *)
Definition lower_byte (a : Ascii.ascii) : Ascii.ascii :=
  let n := byte_n a in
  if ((65 <=? n) && (n <=? 90))%N then Ascii.ascii_of_N (n + 32) else a.
Fixpoint to_ascii_lowercase (s : string) : string :=
  match s with "" => "" | String a s => String (lower_byte a) (to_ascii_lowercase s) end.

Definition is_ascii_hexdigit (a : Ascii.ascii) : bool :=
  let n := byte_n a in
  ((48 <=? n) && (n <=? 57) || (65 <=? n) && (n <=? 70) || (97 <=? n) && (n <=? 102))%N.
Fixpoint all_bytes (p : Ascii.ascii -> bool) (s : string) : bool :=
  match s with "" => true | String a s => p a && all_bytes p s end.

(** [format!("{}", n)] for an unsigned integer. *)
Definition show_u64 (n : Z) : string := pretty (Z.to_N n).

(** [s.parse::<T>()] for an unsigned integer type with maximum [max]: an optional
    plus sign, then decimal digits only, failing on the empty string and on a
    value above the maximum. *)
Definition digit_value (a : Ascii.ascii) : option Z :=
  let n := byte_n a in
  if ((48 <=? n) && (n <=? 57))%N then Some (Z.of_N n - 48)%Z else None.

Fixpoint parse_digits (acc : Z) (s : string) : option Z :=
  match s with
  | "" => Some acc
  | String a s =>
      match digit_value a with
      | Some d => parse_digits (acc * 10 + d)%Z s
      | None => None
      end
  end.

Definition parse_uint (max : Z) (s : string) : option Z :=
  let digits := default s (strip_prefix "+" s) in
  if is_empty digits then None
  else match parse_digits 0 digits with
       | Some n => if (n <=? max)%Z then Some n else None
       | None => None
       end.

(** [s.len()] *)
Definition len (s : string) : Z := Z.of_nat (String.length s).

(** The [{len}:{a}{b}] keys of the advisory locks and mailbox bindings. *)
Definition length_prefixed (a b : string) : string :=
  show_u64 (len a) +:+ ":" +:+ a +:+ b.

Arguments has_char c%_char_scope s%_string_scope.
Arguments split_once c%_char_scope s%_string_scope.
Arguments rsplit_once c%_char_scope s%_string_scope.
Arguments split_char c%_char_scope s%_string_scope.
Arguments trim_end_matches c%_char_scope s%_string_scope.
Arguments ends_with_char c%_char_scope s%_string_scope.

(** ** Lemmas *)

Lemma strip_prefix_Some p s t : strip_prefix p s = Some t ↔ s = p +:+ t.
Proof.
  revert s. induction p as [|a p IH]; intros s; cbn; [naive_solver|].
  destruct s as [|b s]; [by split|].
  destruct (Ascii.eqb_spec a b) as [->|Hab].
  - rewrite IH. split; [by intros ->|by intros [= ->]].
  - split; [done|]. by intros [= -> _].
Qed.

Lemma starts_with_spec s p : starts_with s p = true ↔ ∃ t, s = p +:+ t.
Proof.
  unfold starts_with. destruct (strip_prefix p s) as [t|] eqn:Hs.
  - apply strip_prefix_Some in Hs. naive_solver.
  - split; [done|]. intros [t Ht]. apply strip_prefix_Some in Ht. naive_solver.
Qed.

Lemma has_char_app c s t : has_char c (s +:+ t) = has_char c s || has_char c t.
Proof. induction s as [|a s IH]; cbn; [done|]. by rewrite IH, orb_assoc. Qed.

Lemma string_app_assoc (s t u : string) : (s +:+ t) +:+ u = s +:+ (t +:+ u).
Proof. induction s as [|a s IH]; cbn; [done|]. by rewrite IH. Qed.

Lemma string_app_nil_r (s : string) : s +:+ "" = s.
Proof. induction s as [|a s IH]; cbn; [done|]. by rewrite IH. Qed.

Lemma string_app_inj_l (s t u : string) : s +:+ t = s +:+ u → t = u.
Proof. induction s as [|a s IH]; cbn; [done|]. intros [= H]. auto. Qed.

Lemma string_app_inj_length (s t u v : string) :
  String.length s = String.length t → s +:+ u = t +:+ v → s = t ∧ u = v.
Proof.
  revert t. induction s as [|a s IH]; intros [|b t]; cbn; try done.
  intros [= Hl] [= -> H]. destruct (IH _ Hl H) as [-> ->]. done.
Qed.

(** A separator that does not occur in the two heads determines them. *)
Lemma split_sep_inj c s1 s2 t1 t2 :
  has_char c s1 = false → has_char c s2 = false →
  s1 +:+ String c t1 = s2 +:+ String c t2 → s1 = s2 ∧ t1 = t2.
Proof.
  revert s2. induction s1 as [|a s1 IH]; intros [|b s2]; cbn.
  - by intros _ _ [= ->].
  - intros _ Hb [= -> _]. by rewrite Ascii.eqb_refl in Hb.
  - intros Ha _ [= -> _]. by rewrite Ascii.eqb_refl in Ha.
  - intros [_ Ha]%orb_false_iff [_ Hb]%orb_false_iff [= -> H].
    destruct (IH _ Ha Hb H) as [-> ->]. done.
Qed.

Lemma split_once_app c s t :
  has_char c s = false → split_once c (s +:+ String c t) = Some (s, t).
Proof.
  induction s as [|a s IH]; cbn; [by rewrite Ascii.eqb_refl|].
  intros [Ha Hs]%orb_false_iff. by rewrite Ha, IH.
Qed.

Lemma split_once_Some c s l r :
  split_once c s = Some (l, r) → s = l +:+ String c r ∧ has_char c l = false.
Proof.
  revert l. induction s as [|a s IH]; intros l; cbn; [done|].
  destruct (Ascii.eqb_spec a c) as [->|Ha]; [by intros [= <- <-]|].
  destruct (split_once c s) as [[l' r']|]; [|done].
  intros [= <- <-]. destruct (IH l' eq_refl) as [-> Hl]. cbn.
  rewrite Hl. by destruct (Ascii.eqb_spec a c).
Qed.

Lemma rsplit_once_no_sep c s : has_char c s = false → rsplit_once c s = None.
Proof.
  induction s as [|a s IH]; cbn; [done|].
  intros [Ha Hs]%orb_false_iff. by rewrite IH, Ha.
Qed.

Lemma rsplit_once_app c s t :
  has_char c t = false → rsplit_once c (s +:+ String c t) = Some (s, t).
Proof.
  intros Ht. induction s as [|a s IH]; cbn.
  - by rewrite rsplit_once_no_sep, Ascii.eqb_refl.
  - by rewrite IH.
Qed.

Lemma split_char_app c s t :
  has_char c s = false → split_char c (s +:+ String c t) = s :: split_char c t.
Proof.
  induction s as [|a s IH]; cbn; [by rewrite Ascii.eqb_refl|].
  intros [Ha Hs]%orb_false_iff. by rewrite Ha, IH.
Qed.

Lemma split_char_no_sep c s : has_char c s = false → split_char c s = [s].
Proof.
  induction s as [|a s IH]; cbn; [done|].
  intros [Ha Hs]%orb_false_iff. by rewrite Ha, IH.
Qed.

(** *** Decimal numerals *)

Lemma pretty_N_char_not_colon x : Ascii.eqb (pretty_N_char x) ":"%char = false.
Proof. unfold pretty_N_char. by repeat case_match. Qed.

Lemma pretty_N_go_no_colon x s :
  has_char ":" s = false → has_char ":" (pretty_N_go x s) = false.
Proof.
  revert s. induction (N.lt_wf_0 x) as [x _ IH]; intros s Hs.
  destruct (decide (x = 0)%N) as [->|Hx]; [by rewrite pretty_N_go_0|].
  rewrite pretty_N_go_step by lia. apply IH; [apply N.div_lt; lia|].
  cbn [has_char]. by rewrite Hs, pretty_N_char_not_colon.
Qed.

Lemma show_u64_no_colon n : has_char ":" (show_u64 n) = false.
Proof.
  unfold show_u64, pretty, pretty_N. case_decide; [done|].
  by apply pretty_N_go_no_colon.
Qed.

Lemma pretty_N_char_digit x :
  (x < 10)%N → digit_value (pretty_N_char x) = Some (Z.of_N x).
Proof.
  intros Hx.
  assert (x = 0 ∨ x = 1 ∨ x = 2 ∨ x = 3 ∨ x = 4 ∨ x = 5 ∨ x = 6 ∨ x = 7 ∨ x = 8
    ∨ x = 9)%N as Hcases by lia.
  by repeat destruct Hcases as [->|Hcases]; [..|subst].
Qed.

(** Reading the digits printed for [x] in front of [s] shifts [x] in. *)
Lemma parse_digits_go x s r :
  parse_digits 0 (pretty_N_go x s) = r →
  parse_digits (Z.of_N x) s = r.
Proof.
  revert s. induction (N.lt_wf_0 x) as [x _ IH]; intros s Hr.
  destruct (decide (x = 0)%N) as [->|Hx]; [by rewrite pretty_N_go_0 in Hr|].
  rewrite pretty_N_go_step in Hr by lia.
  apply IH in Hr; [|apply N.div_lt; lia].
  cbn [parse_digits] in Hr. rewrite pretty_N_char_digit in Hr by (apply N.mod_lt; lia).
  replace (Z.of_N x) with (Z.of_N (x `div` 10) * 10 + Z.of_N (x `mod` 10))%Z; [done|].
  pose proof (N.div_mod' x 10). lia.
Qed.

Lemma pretty_N_go_nonempty x s : (0 < x)%N → is_empty (pretty_N_go x s) = false.
Proof.
  revert s. induction (N.lt_wf_0 x) as [x _ IH]; intros s Hx.
  rewrite pretty_N_go_step by lia.
  destruct (N.eq_dec (x `div` 10)%N 0%N) as [Hd|Hd]; [by rewrite Hd, pretty_N_go_0|].
  apply IH; [apply N.div_lt; lia|by apply N.neq_0_lt_0].
Qed.

Lemma pretty_N_go_no_plus x s :
  has_char "+" s = false → has_char "+" (pretty_N_go x s) = false.
Proof.
  revert s. induction (N.lt_wf_0 x) as [x _ IH]; intros s Hs.
  destruct (decide (x = 0)%N) as [->|Hx]; [by rewrite pretty_N_go_0|].
  rewrite pretty_N_go_step by lia. apply IH; [apply N.div_lt; lia|].
  cbn [has_char]. rewrite Hs, orb_false_r. unfold pretty_N_char. by repeat case_match.
Qed.

(** Parsing a printed number gives it back ([number]'s default path). *)
Lemma parse_show_u64 max n : (0 <= n <= max)%Z → parse_uint max (show_u64 n) = Some n.
Proof.
  intros Hn. unfold show_u64, pretty, pretty_N, parse_uint.
  case_decide as Hz.
  - replace n with 0%Z in * by lia. destruct max; [done|done|lia].
  - set (s := pretty_N_go (Z.to_N n) "").
    assert (strip_prefix "+" s = None) as ->.
    { destruct (strip_prefix "+" s) as [t|] eqn:Ht; [|done].
      apply strip_prefix_Some in Ht.
      pose proof (pretty_N_go_no_plus (Z.to_N n) "" eq_refl) as Hp.
      fold s in Hp. by rewrite Ht in Hp. }
    cbn [default]. unfold s. rewrite pretty_N_go_nonempty by lia.
    rewrite <- (parse_digits_go _ "" _ eq_refl). cbn.
    rewrite Z2N.id by lia. by rewrite (proj2 (Z.leb_le n max)) by lia.
Qed.

Lemma parse_digits_nonneg acc s n :
  (0 <= acc)%Z → parse_digits acc s = Some n → (0 <= n)%Z.
Proof.
  revert acc. induction s as [|a s IH]; cbn; intros acc Hacc; [naive_solver|].
  unfold digit_value. case_match eqn:Hd; [|done]. apply IH.
  case_match eqn:Hr; simplify_eq.
  apply andb_true_iff in Hr as [Hr _]. apply N.leb_le in Hr. lia.
Qed.

Lemma parse_uint_range max s n : parse_uint max s = Some n → (0 <= n <= max)%Z.
Proof.
  unfold parse_uint. case_match; [done|].
  destruct (parse_digits _ _) as [m|] eqn:Hm; [|done].
  apply parse_digits_nonneg in Hm; [|done]. case_match eqn:Hle; [|done].
  intros [= ->]. apply Z.leb_le in Hle. lia.
Qed.

Lemma show_u64_inj m n : (0 <= m)%Z → (0 <= n)%Z → show_u64 m = show_u64 n → m = n.
Proof. unfold show_u64. intros ?? H%(inj pretty). lia. Qed.

Lemma length_prefixed_inj a b a' b' :
  length_prefixed a b = length_prefixed a' b' → a = a' ∧ b = b'.
Proof.
  unfold length_prefixed. intros H. cbn [String.append] in H.
  apply split_sep_inj in H as [Hl H]; [|apply show_u64_no_colon..].
  apply show_u64_inj in Hl; [|unfold len; lia..].
  apply string_app_inj_length in H; [done|unfold len in *; lia].
Qed.

(** *** Trimming *)

Lemma trim_end_matches_app_self c s :
  trim_end_matches c (s +:+ String c "") = trim_end_matches c s.
Proof.
  induction s as [|a s IH]; cbn; [by rewrite Ascii.eqb_refl|]. by rewrite IH.
Qed.

Lemma trim_end_matches_idemp c s :
  trim_end_matches c (trim_end_matches c s) = trim_end_matches c s.
Proof.
  induction s as [|a s IH]; cbn; [done|].
  destruct (trim_end_matches c s) as [|b t] eqn:Ht.
  - destruct (Ascii.eqb a c) eqn:Ha; [done|]. cbn. by rewrite Ha.
  - cbn in IH |- *. by rewrite IH.
Qed.

#[export] Hint Rewrite string_app_assoc string_app_nil_r has_char_app : gw_str.

(** ** Trimming keeps what is not white space *)

Lemma has_char_rev_app c s1 : ∀ s2,
  has_char c (String.rev_app s1 s2) = has_char c s1 || has_char c s2.
Proof.
  induction s1 as [|a s1 IH]; intros s2; cbn; [done|]. rewrite IH. cbn.
  by destruct (Ascii.eqb a c), (has_char c s1).
Qed.

Lemma has_char_rev c s : has_char c (String.rev s) = has_char c s.
Proof. unfold String.rev. rewrite has_char_rev_app. apply orb_false_r. Qed.

Section visible_char.
(** An ASCII character that is not white space. *)
Context (c : Ascii.ascii) (Hws : ws1 (byte_n c) = false) (Hascii : (byte_n c < 128)%N).

Lemma byte_not_visible a : ws1 (byte_n a) = true ∨ (128 <= byte_n a)%N → Ascii.eqb a c = false.
Proof. intros Ha. destruct (Ascii.eqb_spec a c) as [->|]; [|done]. destruct Ha; [congruence|lia]. Qed.

Lemma ws_not_visible1 a : ws1 (byte_n a) = true → Ascii.eqb a c = false.
Proof. intros H. apply byte_not_visible. by left. Qed.

Lemma ws_not_visible2 a b :
  ws2 (byte_n a) (byte_n b) = true → Ascii.eqb a c = false ∧ Ascii.eqb b c = false.
Proof.
  unfold ws2. rewrite andb_true_iff, orb_true_iff, !N.eqb_eq. intros H.
  split; apply byte_not_visible; right; lia.
Qed.

Lemma ws_not_visible3 a b d : ws3 (byte_n a) (byte_n b) (byte_n d) = true →
  Ascii.eqb a c = false ∧ Ascii.eqb b c = false ∧ Ascii.eqb d c = false.
Proof.
  unfold ws3. rewrite ?orb_true_iff, ?andb_true_iff, ?orb_true_iff, ?andb_true_iff, !N.eqb_eq, !N.leb_le.
  intros H. split_and!; apply byte_not_visible; right; lia.
Qed.

Lemma trim_start_visible n : ∀ s, String.length s ≤ n →
  has_char c s = true → has_char c (trim_start s) = true.
Proof.
  induction n as [|n IH]; intros [|a s1] Hlen Hs; cbn in Hlen; try done; [lia|].
  cbn [trim_start]. destruct (ws1 (byte_n a)) eqn:H1.
  { apply IH; [lia|]. cbn in Hs. by rewrite (ws_not_visible1 _ H1) in Hs. }
  destruct s1 as [|b s2]; [done|]. destruct (ws2 (byte_n a) (byte_n b)) eqn:H2.
  { apply IH; [cbn in Hlen; lia|]. cbn in Hs. destruct (ws_not_visible2 _ _ H2) as [Ea Eb].
    by rewrite Ea, Eb in Hs. }
  destruct s2 as [|d s3]; [done|]. destruct (ws3 _ _ _) eqn:H3; [|done].
  apply IH; [cbn in Hlen; lia|]. cbn in Hs. destruct (ws_not_visible3 _ _ _ H3) as (Ea & Eb & Ed).
  by rewrite Ea, Eb, Ed in Hs.
Qed.

Lemma trim_start_rev_visible n : ∀ s, String.length s ≤ n →
  has_char c s = true → has_char c (trim_start_rev s) = true.
Proof.
  induction n as [|n IH]; intros [|a s1] Hlen Hs; cbn in Hlen; try done; [lia|].
  cbn [trim_start_rev]. destruct (ws1 (byte_n a)) eqn:H1.
  { apply IH; [lia|]. cbn in Hs. by rewrite (ws_not_visible1 _ H1) in Hs. }
  destruct s1 as [|b s2]; [done|]. destruct (ws2 (byte_n b) (byte_n a)) eqn:H2.
  { apply IH; [cbn in Hlen; lia|]. cbn in Hs. destruct (ws_not_visible2 _ _ H2) as [Ea Eb].
    by rewrite Ea, Eb in Hs. }
  destruct s2 as [|d s3]; [done|]. destruct (ws3 _ _ _) eqn:H3; [|done].
  apply IH; [cbn in Hlen; lia|]. cbn in Hs. destruct (ws_not_visible3 _ _ _ H3) as (Ea & Eb & Ed).
  by rewrite Ea, Eb, Ed in Hs.
Qed.

Lemma is_blank_visible s : has_char c s = true → is_blank s = false.
Proof.
  intros Hs. apply (trim_start_visible _ _ (le_n _)) in Hs. rewrite <- has_char_rev in Hs.
  apply (trim_start_rev_visible _ _ (le_n _)) in Hs. rewrite <- has_char_rev in Hs.
  unfold is_blank, trim, trim_end. by destruct (String.rev _).
Qed.
End visible_char.

(** A string with a dot is not blank. *)
Lemma is_blank_dot s : has_char "." s = true → is_blank s = false.
Proof. by apply is_blank_visible. Qed.
