(* ===== verification/External.v ===== *)
(** * Interfaces of the code the gateways call

    The cryptographic, hashing and encoding crates are not part of the
    repository.  Each is a type class of operations here, and the documented
    behaviour a theorem relies on is a separate class of laws.  Every class has
    an executable instance, so that the theorems that assume the laws are shown
    to be applicable: the instances are used by the witnesses only. *)

From S2P Require Import Prelude Str.

(** ** The [hex] crate *)

Class Hex := {
  hex_encode : string -> string;
  hex_decode : string -> option string;
}.

Class HexLaws `{Hex} : Prop := {
  hex_decode_encode b : hex_decode (hex_encode b) = Some b;
  hex_encode_digits b : all_bytes is_ascii_hexdigit (hex_encode b) = true;
}.

(** ** SHA-256 *)

Class Sha256 := { sha256 : string -> string }.

(** Collision freedom, the assumption under which a digest identifies its
    input. *)
Class Sha256Inj `{Sha256} : Prop := {
  sha256_inj :: Inj (=) (=) sha256;
}.

(** ** HMAC-SHA-256: the tag of a message under a key. *)

Class Hmac := { hmac_sha256 : string -> string -> string }.

(** ** Delivery classes

    [DeliveryClass] of the transport-core crate: the two variants the sources
    match on, its wire name and the list of all classes. *)

Inductive DeliveryClass := Interactive | Bulk.
Global Instance DeliveryClass_eq_dec : EqDecision DeliveryClass.
Proof. solve_decision. Defined.
Global Instance DeliveryClass_countable : Countable DeliveryClass.
Proof.
  apply (inj_countable' (fun c => match c with Interactive => true | Bulk => false end)
           (fun b : bool => if b then Interactive else Bulk)).
  by intros [].
Defined.

Class DeliveryClassOps := {
  class_as_str : DeliveryClass -> string;
  class_all : list DeliveryClass;
}.

Class DeliveryClassLaws `{DeliveryClassOps} : Prop := {
  class_as_str_interactive : class_as_str Interactive = "interactive";
  class_as_str_bulk : class_as_str Bulk = "bulk";
  class_all_complete c : c ∈ class_all;
  class_all_nodup : NoDup class_all;
}.

Definition class_impl : DeliveryClassOps := {|
  class_as_str c := match c with Interactive => "interactive" | Bulk => "bulk" end;
  class_all := [Interactive; Bulk];
|}.

Lemma class_impl_laws : @DeliveryClassLaws class_impl.
Proof.
  split; try done.
  - intros []; cbn; set_solver.
  - cbn. apply NoDup_cons. split; [set_solver|]. apply NoDup_singleton.
Qed.

Lemma class_as_str_inj `{DeliveryClassLaws} c d : class_as_str c = class_as_str d → c = d.
Proof.
  pose proof class_as_str_interactive as E1. pose proof class_as_str_bulk as E2.
  destruct c, d; rewrite ?E1, ?E2; done.
Qed.

(** ** Scopes, lanes and routes of the transport-core crate

    [SwarmScope] and [PropagationLane] have the variants the sources name.  An
    [EventTransportRoute] is opaque but for the three fields the sources read;
    its construction, its serialisations and the scope labels are operations of
    the crate. *)

Inductive SwarmScope := Global | Region (id : string) | Node (id : string) | Group (id : string).
Global Instance SwarmScope_eq_dec : EqDecision SwarmScope.
Proof. solve_decision. Defined.

Inductive PropagationLane := Events | Messages | Rules | Checkpoints | Summaries.
Global Instance PropagationLane_eq_dec : EqDecision PropagationLane.
Proof. solve_decision. Defined.

Inductive MailboxGapReason := Expired | DeliveryLimitExceeded | AdministrativeRemoval.
Global Instance MailboxGapReason_eq_dec : EqDecision MailboxGapReason.
Proof. solve_decision. Defined.

Class Transport := {
  scope_label : SwarmScope -> result string string;
  lane_as_str : PropagationLane -> string;
  EventTransportRoute : Type;
  route_eq_dec :: EqDecision EventTransportRoute;
  route_scope : EventTransportRoute -> SwarmScope;
  route_lane : EventTransportRoute -> PropagationLane;
  route_address : EventTransportRoute -> string;
  route_to_json : EventTransportRoute -> result string string;
  route_from_json : string -> result string EventTransportRoute;
  from_kind_label :
    SwarmScope -> PropagationLane -> string -> bool -> result string EventTransportRoute;
  (** [stable_delivery_id(network, record, recipient, membership version)] *)
  stable_delivery_id : string -> string -> string -> option string -> result string string;
}.

Class TransportLaws `{Transport} : Prop := {
  scope_label_global : scope_label Global = Ok "global";
  scope_label_inj s s' l : scope_label s = Ok l → scope_label s' = Ok l → s = s';
  route_json_roundtrip r j : route_to_json r = Ok j → route_from_json j = Ok r;
  from_kind_label_scope s l k b r : from_kind_label s l k b = Ok r → route_scope r = s;
  from_kind_label_lane s l k b r : from_kind_label s l k b = Ok r → route_lane r = l;
}.

(** ** Instances *)

Record sample_route := {
  sr_scope : SwarmScope; sr_lane : PropagationLane; sr_address : string
}.
Global Instance sample_route_eq_dec : EqDecision sample_route.
Proof. solve_decision. Defined.

Definition sample_label (s : SwarmScope) : string :=
  match s with
  | Global => "global" | Region i => "region:" +:+ i | Node i => "node:" +:+ i
  | Group i => "group:" +:+ i
  end.

Definition sample_lane (l : PropagationLane) : string :=
  match l with
  | Events => "events" | Messages => "messages" | Rules => "rules"
  | Checkpoints => "checkpoints" | Summaries => "summaries"
  end.

(** Three routes are serialisable, as single digits. *)
Definition sample_route_to_json (r : sample_route) : result string string :=
  if bool_decide (r = {| sr_scope := Global; sr_lane := Events; sr_address := "a" |}) then Ok "0"
  else if bool_decide (r = {| sr_scope := Group "g"; sr_lane := Events; sr_address := "b" |})
  then Ok "1"
  else if bool_decide (r = {| sr_scope := Node "bob"; sr_lane := Events; sr_address := "c" |})
  then Ok "2"
  else Err "not a sample route".

Definition sample_route_from_json (j : string) : result string sample_route :=
  if bool_decide (j = "0") then Ok {| sr_scope := Global; sr_lane := Events; sr_address := "a" |}
  else if bool_decide (j = "1")
  then Ok {| sr_scope := Group "g"; sr_lane := Events; sr_address := "b" |}
  else if bool_decide (j = "2")
  then Ok {| sr_scope := Node "bob"; sr_lane := Events; sr_address := "c" |}
  else Err "bad json".

Definition transport_impl : Transport := {|
  scope_label s := Ok (sample_label s);
  lane_as_str := sample_lane;
  EventTransportRoute := sample_route;
  route_scope := sr_scope;
  route_lane := sr_lane;
  route_address := sr_address;
  route_to_json := sample_route_to_json;
  route_from_json := sample_route_from_json;
  from_kind_label s l k b := Ok {| sr_scope := s; sr_lane := l; sr_address :=
    match s with Global => "a" | Group _ => "b" | _ => "c" end |};
  stable_delivery_id n r p v := Ok (n +:+ "/" +:+ r +:+ "/" +:+ p +:+ "/" +:+ default "" v);
|}.

Lemma transport_impl_laws : @TransportLaws transport_impl.
Proof.
  split; cbn; try naive_solver.
  - intros [] [] l; cbn; naive_solver.
  - unfold sample_route_to_json, sample_route_from_json. intros r j.
    repeat case_bool_decide; naive_solver.
Qed.

Definition hex_digit (n : N) : ascii :=
  ascii_of_N (if (n <? 10)%N then n + 48 else n + 87)%N.

Fixpoint hex_encode_bytes (s : string) : string :=
  match s with
  | "" => ""
  | String a s =>
      String (hex_digit (byte_n a / 16)) (String (hex_digit (byte_n a mod 16))
        (hex_encode_bytes s))
  end.

Definition hex_value (a : ascii) : option N :=
  let n := byte_n a in
  if ((48 <=? n) && (n <=? 57))%N then Some (n - 48)%N
  else if ((97 <=? n) && (n <=? 102))%N then Some (n - 87)%N
  else if ((65 <=? n) && (n <=? 70))%N then Some (n - 55)%N
  else None.

Fixpoint hex_decode_bytes (s : string) : option string :=
  match s with
  | "" => Some ""
  | String a (String b s) =>
      match hex_value a, hex_value b, hex_decode_bytes s with
      | Some x, Some y, Some t => Some (String (ascii_of_N (16 * x + y)) t)
      | _, _, _ => None
      end
  | String _ "" => None
  end.

Definition hex_impl : Hex := {| hex_encode := hex_encode_bytes; hex_decode := hex_decode_bytes |}.
Definition sha256_id : Sha256 := {| sha256 := id |}.
Definition hmac_pair : Hmac := {| hmac_sha256 := length_prefixed |}.

(** ** Lemmas *)

(** The sixteen digits, checked one by one. *)
Lemma hex_digit_spec n :
  (n < 16)%N → hex_value (hex_digit n) = Some n ∧ is_ascii_hexdigit (hex_digit n) = true.
Proof.
  intros Hn.
  assert (n = 0 ∨ n = 1 ∨ n = 2 ∨ n = 3 ∨ n = 4 ∨ n = 5 ∨ n = 6 ∨ n = 7 ∨ n = 8
    ∨ n = 9 ∨ n = 10 ∨ n = 11 ∨ n = 12 ∨ n = 13 ∨ n = 14 ∨ n = 15)%N as Hcases by lia.
  by repeat destruct Hcases as [->|Hcases]; [..|subst].
Qed.

Lemma byte_nibbles a : (byte_n a / 16 < 16)%N ∧ (byte_n a mod 16 < 16)%N.
Proof.
  pose proof (N_ascii_bounded a). unfold byte_n. split.
  - apply N.Div0.div_lt_upper_bound. lia.
  - apply N.mod_lt. lia.
Qed.

Lemma hex_impl_laws : @HexLaws hex_impl.
Proof.
  split; cbn; intros s; induction s as [|a s IH]; cbn -[hex_digit hex_value]; try done;
    destruct (byte_nibbles a) as [H1 H2];
    destruct (hex_digit_spec _ H1) as [E1 D1]; destruct (hex_digit_spec _ H2) as [E2 D2].
  - rewrite E1, E2, IH. f_equal. f_equal.
    rewrite <- N.div_mod'. unfold byte_n. apply ascii_N_embedding.
  - by rewrite D1, D2, IH.
Qed.

Lemma sha256_id_inj : @Sha256Inj sha256_id.
Proof. split. intros x y. done. Qed.

(** A byte that is not a hexadecimal digit never occurs in an encoding. *)
Lemma all_bytes_has_char p c s :
  all_bytes p s = true → p c = false → has_char c s = false.
Proof.
  induction s as [|a s IH]; cbn; [done|].
  intros [Ha Hs]%andb_true_iff Hc. rewrite IH by done.
  destruct (Ascii.eqb_spec a c) as [->|]; [congruence|done].
Qed.

Lemma hex_encode_no_dot `{HexLaws} b : has_char "." (hex_encode b) = false.
Proof. eapply all_bytes_has_char; [apply hex_encode_digits|done]. Qed.

Lemma hex_encode_inj `{HexLaws} b b' : hex_encode b = hex_encode b' → b = b'.
Proof. intros E. apply (f_equal hex_decode) in E. rewrite !hex_decode_encode in E. by injection E. Qed.

#[export] Hint Resolve hex_encode_no_dot : gw.
