(* ===== verification/MgConfig.v ===== *)
(** * Message Gateway configuration and tenant admission

    Models [crates/message-gateway/src/config.rs] (the [Config] record, its
    construction from the environment and its validation) together with the two
    admission checks that consult it at run time, [validate_proposed_tenant_count]
    of [service.rs] and the arithmetic of [validate_active_tenant_admission] of
    [db.rs].  The theorems show that a validated configuration admits exactly the
    tenant counts up to its own limit, on saturating 64-bit arithmetic, and that
    the compiled-in defaults do not pass the validation. *)

From S2P Require Import Prelude Str External.

(** Durations are in milliseconds. *)
Record Config := {
  bind_addr : string;
  database_url : string;
  rabbitmq_endpoint : string;
  rabbitmq_username : string;
  rabbitmq_password : string;
  rabbitmq_prefetch : Z;
  delivery_page_size : Z;
  mailbox_message_ttl_ms : Z;
  mailbox_max_length_bytes : Z;
  dead_letter_max_length_bytes : Z;
  max_delivery_attempts : Z;
  cluster_queue_limit : Z;
  mailbox_shard_admission_percent : Z;
  max_active_tenants : Z;
  max_fanout_recipients : Z;
  max_fanout_deliveries_per_second : Z;
  max_fanout_bytes_per_publish : Z;
  fanout_confirm_timeout : Z;
  max_global_publishes_per_second : Z;
  global_publish_burst : Z;
  global_interactive_reserved_per_second : Z;
  reserved_non_global_deliveries_per_second : Z;
  fanout_admission_utilization_percent : Z;
  commit_hmac_secret : string;
  session_ttl : Z;
  object_store_root : option string;
  max_object_bytes : Z;
  membership_binding_timeout : Z;
  membership_mutation_window : Z;
  max_membership_mutations_per_scope_per_window : Z;
  max_membership_binding_lag : Z;
  instance_id : string;
  internal_route : option string;
  internal_bind_addr : option string;
  internal_mtls_identity_pem : option string;
  internal_mtls_ca_pem : option string;
  delivery_owner_lease : Z;
  delivery_commit_forward_timeout : Z;
  metadata_cleanup_interval : Z;
  acknowledged_gap_retention : Z;
  trusted_network_genesis : gmap string string;
}.

(** The process environment: variables, files, a fresh UUID, and the parsers of
    the standard library ([SocketAddr]) and of [serde_json] (the genesis map)
    that the construction calls. *)
Record ProcessEnv := {
  env_var : string -> option string;
  env_file : string -> option string;
  env_fresh_uuid : string;
  env_parse_addr : string -> option string;
  env_decode_genesis : string -> option (gmap string string);
}.

Section config.
Context `{Hex}.

Definition required (e : ProcessEnv) (key : string) : result string string :=
  ok_or (env_var e key) (key +:+ " is required").

Definition optional_secret_file (e : ProcessEnv) (key : string) :
    result string (option string) :=
  match env_var e key with
  | None => Ok None
  | Some path => bytes ← ok_or (env_file e path) ("read " +:+ key); Ok (Some bytes)
  end.

Definition load_trusted_network_genesis (e : ProcessEnv) :
    result string (gmap string string) :=
  match env_var e "WATTSWARM_CS_TRUSTED_NETWORK_GENESIS_FILE" with
  | None => Ok ∅
  | Some path =>
      bytes ← ok_or (env_file e path)
                ("read WATTSWARM_CS_TRUSTED_NETWORK_GENESIS_FILE " +:+ path);
      ok_or (env_decode_genesis e bytes) "decode trusted network genesis map"
  end.

(** [number::<T>(key, default)], where [max] is the maximum of [T]. *)
Definition number (max : Z) (e : ProcessEnv) (key : string) (dflt : Z) :
    result string Z :=
  ok_or (parse_uint max (default (show_u64 dflt) (env_var e key))) ("parse " +:+ key).

Definition u16_max : Z := 65535.
Definition u32_max : Z := 4294967295.

Definition genesis_entry_ok (network_id genesis_node_id : string) : bool :=
  negb (is_blank network_id) &&
  match hex_decode genesis_node_id with
  | Some bytes => (len bytes =? 32)%Z
  | None => false
  end.

Definition validate (c : Config) : result string () :=
  _ ← bail_if (negb (starts_with (rabbitmq_endpoint c) "amqps://"))
        "RabbitMQ endpoint must use amqps";
  _ ← bail_if (is_empty (rabbitmq_password c) || (len (commit_hmac_secret c) <? 32)%Z)
        "RabbitMQ password and a 32-byte commit secret are required";
  _ ← bail_if ((delivery_page_size c =? 0) || (rabbitmq_prefetch c =? 0))%Z
        "delivery page size and RabbitMQ prefetch must be positive";
  _ ← bail_if ((max_object_bytes c =? 0) || (max_fanout_bytes_per_publish c =? 0)
               || (dead_letter_max_length_bytes c =? 0))%Z
        "CS Object Store maximum object size must be positive";
  _ ← bail_if ((max_membership_mutations_per_scope_per_window c =? 0)
               || (membership_binding_timeout c =? 0)
               || (membership_mutation_window c =? 0)
               || (max_membership_binding_lag c =? 0)
               || (delivery_owner_lease c =? 0)
               || (delivery_commit_forward_timeout c =? 0)
               || (metadata_cleanup_interval c =? 0)
               || (acknowledged_gap_retention c =? 0)
               || (fanout_confirm_timeout c =? 0))%Z
        "membership and delivery-owner limits must be positive";
  _ ← bail_if (match internal_route c with
               | Some route => negb (starts_with route "https://")
               | None => false
               end)
        "Gateway internal owner route must use HTTPS";
  let internal_values :=
    [bool_decide (is_Some (internal_route c));
     bool_decide (is_Some (internal_bind_addr c));
     bool_decide (is_Some (internal_mtls_identity_pem c));
     bool_decide (is_Some (internal_mtls_ca_pem c))] in
  _ ← bail_if (existsb id internal_values && existsb negb internal_values)
        "Gateway internal owner forwarding requires route, bind address, mTLS identity, and CA";
  _ ← bail_if (max_fanout_recipients c <? max_active_tenants c)%Z
        "MAX_FANOUT_RECIPIENTS must cover every active tenant";
  _ ← bail_if (bool_decide (¬ map_Forall (fun n g => genesis_entry_ok n g = true)
                              (trusted_network_genesis c)))
        "trusted network genesis entries require a network id and Ed25519 node id";
  let queue_budget := sat_add (sat_mul (max_active_tenants c) 2) 16 in
  let admitted_queues :=
    (sat_mul (cluster_queue_limit c) (mailbox_shard_admission_percent c) / 100)%Z in
  _ ← bail_if (admitted_queues <? queue_budget)%Z
        "two-mailbox tenant queue budget exceeds RabbitMQ admission threshold";
  _ ← bail_if ((max_global_publishes_per_second c =? 0)
               || (global_interactive_reserved_per_second c =? 0)
               || (max_global_publishes_per_second c <?
                     global_interactive_reserved_per_second c)
               || (reserved_non_global_deliveries_per_second c =? 0))%Z
        "invalid Global publish, Interactive reserve, or non-Global delivery rate";
  let required_delivery_rate :=
    sat_add (sat_mul (max_global_publishes_per_second c) (max_active_tenants c))
            (reserved_non_global_deliveries_per_second c) in
  let safe_delivery_rate :=
    (sat_mul (max_fanout_deliveries_per_second c)
             (fanout_admission_utilization_percent c) / 100)%Z in
  bail_if (safe_delivery_rate <? required_delivery_rate)%Z
    "Global fanout delivery-rate admission invariant is not satisfied".

Definition from_env (e : ProcessEnv) : result string Config :=
  _ ← bail_if (negb (bool_decide
                 (default "rabbitmq" (env_var e "WATTSWARM_CS_MESSAGE_BUS") = "rabbitmq")))
        "WATTSWARM_CS_MESSAGE_BUS must be rabbitmq in V1";
  password_file ← required e "WATTSWARM_RABBITMQ_PASSWORD_FILE";
  commit_secret_file ← required e "WATTSWARM_CS_COMMIT_HMAC_SECRET_FILE";
  bind_addr ← ok_or (env_parse_addr e
                       (default "0.0.0.0:8090" (env_var e "WATTSWARM_CS_BIND_ADDR")))
                "invalid socket address syntax";
  database_url ← required e "WATTSWARM_CS_DATABASE_URL";
  rabbitmq_endpoint ← required e "WATTSWARM_RABBITMQ_ENDPOINT";
  rabbitmq_username ← required e "WATTSWARM_RABBITMQ_USERNAME";
  password ← ok_or (env_file e password_file) "read password file";
  rabbitmq_prefetch ← number u16_max e "WATTSWARM_RABBITMQ_PREFETCH" 128;
  delivery_page_size ← number u64_max e "WATTSWARM_CS_DELIVERY_PAGE_SIZE" 64;
  mailbox_message_ttl_ms ←
    number u64_max e "WATTSWARM_RABBITMQ_MAILBOX_MESSAGE_TTL" 86400000;
  mailbox_max_length_bytes ←
    number u64_max e "WATTSWARM_RABBITMQ_MAILBOX_MAX_LENGTH_BYTES" 268435456;
  dead_letter_max_length_bytes ←
    number u64_max e "WATTSWARM_RABBITMQ_DEAD_LETTER_MAX_LENGTH_BYTES" 268435456;
  max_delivery_attempts ←
    number u32_max e "WATTSWARM_RABBITMQ_MAX_DELIVERY_ATTEMPTS" 10;
  cluster_queue_limit ← number u64_max e "WATTSWARM_RABBITMQ_CLUSTER_QUEUE_LIMIT" 1000;
  mailbox_shard_admission_percent ←
    number u64_max e "WATTSWARM_CS_MAILBOX_SHARD_ADMISSION_PERCENT" 80;
  max_active_tenants ←
    number u64_max e "WATTSWARM_CS_MAX_ACTIVE_TENANTS_PER_NETWORK_CELL" 400;
  max_fanout_recipients ← number u64_max e "WATTSWARM_CS_MAX_FANOUT_RECIPIENTS" 400;
  max_fanout_deliveries_per_second ←
    number u64_max e "WATTSWARM_CS_MAX_FANOUT_DELIVERIES_PER_SECOND" 100000;
  max_fanout_bytes_per_publish ←
    number u64_max e "WATTSWARM_CS_MAX_FANOUT_BYTES_PER_PUBLISH" 67108864;
  fanout_confirm_timeout ← number u64_max e "WATTSWARM_CS_FANOUT_CONFIRM_TIMEOUT" 10000;
  max_global_publishes_per_second ←
    number u64_max e "WATTSWARM_CS_MAX_GLOBAL_PUBLISHES_PER_SECOND" 100;
  global_publish_burst ← number u64_max e "WATTSWARM_CS_GLOBAL_PUBLISH_BURST" 20;
  global_interactive_reserved_per_second ←
    number u64_max e "WATTSWARM_CS_GLOBAL_INTERACTIVE_RESERVED_PER_SECOND" 10;
  reserved_non_global_deliveries_per_second ←
    number u64_max e "WATTSWARM_CS_RESERVED_NON_GLOBAL_DELIVERIES_PER_SECOND" 10000;
  fanout_admission_utilization_percent ←
    number u64_max e "WATTSWARM_CS_FANOUT_ADMISSION_UTILIZATION_PERCENT" 80;
  commit_hmac_secret ← ok_or (env_file e commit_secret_file) "read commit secret file";
  session_ttl_secs ← number u64_max e "WATTSWARM_CS_SESSION_TTL_SECONDS" 900;
  max_object_bytes ← number u64_max e "WATTSWARM_CS_MAX_OBJECT_BYTES" 67108864;
  membership_binding_timeout ←
    number u64_max e "WATTSWARM_CS_MEMBERSHIP_BINDING_TIMEOUT" 10000;
  membership_mutation_window ←
    number u64_max e "WATTSWARM_CS_MEMBERSHIP_MUTATION_WINDOW" 60000;
  max_membership_mutations_per_scope_per_window ←
    number u64_max e "WATTSWARM_CS_MAX_MEMBERSHIP_MUTATIONS_PER_SCOPE_PER_WINDOW" 100;
  max_membership_binding_lag ←
    number u64_max e "WATTSWARM_CS_MAX_MEMBERSHIP_BINDING_LAG" 30000;
  internal_bind_addr ←
    match env_var e "WATTSWARM_CS_INTERNAL_BIND_ADDR" with
    | None => Ok None
    | Some v => a ← ok_or (env_parse_addr e v) "invalid socket address syntax"; Ok (Some a)
    end;
  internal_mtls_identity_pem ←
    optional_secret_file e "WATTSWARM_CS_INTERNAL_MTLS_IDENTITY_FILE";
  internal_mtls_ca_pem ← optional_secret_file e "WATTSWARM_CS_INTERNAL_MTLS_CA_FILE";
  delivery_owner_lease ← number u64_max e "WATTSWARM_CS_DELIVERY_OWNER_LEASE" 30000;
  delivery_commit_forward_timeout ←
    number u64_max e "WATTSWARM_CS_DELIVERY_COMMIT_FORWARD_TIMEOUT" 5000;
  metadata_cleanup_interval ←
    number u64_max e "WATTSWARM_CS_METADATA_CLEANUP_INTERVAL" 60000;
  acknowledged_gap_retention ←
    number u64_max e "WATTSWARM_CS_ACKNOWLEDGED_GAP_RETENTION" 86400000;
  genesis ← load_trusted_network_genesis e;
  let config := {|
    bind_addr := bind_addr;
    database_url := database_url;
    rabbitmq_endpoint := rabbitmq_endpoint;
    rabbitmq_username := rabbitmq_username;
    rabbitmq_password := trim password;
    rabbitmq_prefetch := rabbitmq_prefetch;
    delivery_page_size := delivery_page_size;
    mailbox_message_ttl_ms := mailbox_message_ttl_ms;
    mailbox_max_length_bytes := mailbox_max_length_bytes;
    dead_letter_max_length_bytes := dead_letter_max_length_bytes;
    max_delivery_attempts := max_delivery_attempts;
    cluster_queue_limit := cluster_queue_limit;
    mailbox_shard_admission_percent := mailbox_shard_admission_percent;
    max_active_tenants := max_active_tenants;
    max_fanout_recipients := max_fanout_recipients;
    max_fanout_deliveries_per_second := max_fanout_deliveries_per_second;
    max_fanout_bytes_per_publish := max_fanout_bytes_per_publish;
    fanout_confirm_timeout := fanout_confirm_timeout;
    max_global_publishes_per_second := max_global_publishes_per_second;
    global_publish_burst := global_publish_burst;
    global_interactive_reserved_per_second := global_interactive_reserved_per_second;
    reserved_non_global_deliveries_per_second := reserved_non_global_deliveries_per_second;
    fanout_admission_utilization_percent := fanout_admission_utilization_percent;
    commit_hmac_secret := commit_hmac_secret;
    session_ttl := (session_ttl_secs * 1000)%Z;
    object_store_root := env_var e "WATTSWARM_CS_OBJECT_STORE_ROOT";
    max_object_bytes := max_object_bytes;
    membership_binding_timeout := membership_binding_timeout;
    membership_mutation_window := membership_mutation_window;
    max_membership_mutations_per_scope_per_window :=
      max_membership_mutations_per_scope_per_window;
    max_membership_binding_lag := max_membership_binding_lag;
    instance_id := default (env_fresh_uuid e) (env_var e "WATTSWARM_CS_INSTANCE_ID");
    internal_route := env_var e "WATTSWARM_CS_INTERNAL_ROUTE";
    internal_bind_addr := internal_bind_addr;
    internal_mtls_identity_pem := internal_mtls_identity_pem;
    internal_mtls_ca_pem := internal_mtls_ca_pem;
    delivery_owner_lease := delivery_owner_lease;
    delivery_commit_forward_timeout := delivery_commit_forward_timeout;
    metadata_cleanup_interval := metadata_cleanup_interval;
    acknowledged_gap_retention := acknowledged_gap_retention;
    trusted_network_genesis := genesis;
  |} in
  _ ← validate config;
  Ok config.
End config.

(** What the [Debug] rendering shows of the broker endpoint. *)
Definition redact_endpoint (endpoint : string) : string :=
  match rsplit_once "@" endpoint with
  | Some (_, host) => "amqps://" +:+ host
  | None => endpoint
  end.

(** ** Tenant admission at run time *)

(** The check a membership change makes on the tenant count it would lead to. *)
Definition validate_proposed_tenant_count (c : Config) (active : Z) : result string () :=
  _ ← bail_if ((max_active_tenants c <? active) || (max_fanout_recipients c <? active))%Z
        "membership would exceed ClientServer tenant or fanout admission";
  let admitted_queues :=
    (sat_mul (cluster_queue_limit c) (mailbox_shard_admission_percent c) / 100)%Z in
  _ ← bail_if (admitted_queues <? sat_add (sat_mul active 2) 16)%Z
        "membership would exceed RabbitMQ queue admission";
  let required :=
    sat_add (sat_mul (max_global_publishes_per_second c) active)
            (reserved_non_global_deliveries_per_second c) in
  let safe :=
    (sat_mul (max_fanout_deliveries_per_second c)
             (fanout_admission_utilization_percent c) / 100)%Z in
  bail_if (safe <? required)%Z "membership would exceed Global delivery-rate admission".

(** The check on the current tenant count; [active] is [active_tenant_count]. *)
Definition validate_active_tenant_count (c : Config) (active : Z) : result string Z :=
  _ ← bail_if ((max_active_tenants c <? active) || (max_fanout_recipients c <? active))%Z
        "active tenant count exceeds ClientServer cell admission";
  let admitted_queues :=
    (sat_mul (cluster_queue_limit c) (mailbox_shard_admission_percent c) / 100)%Z in
  _ ← bail_if (admitted_queues <? sat_add (sat_mul active 2) 16)%Z
        "active tenant mailbox queues exceed cell admission threshold";
  let required_delivery_rate :=
    sat_add (sat_mul (max_global_publishes_per_second c) active)
            (reserved_non_global_deliveries_per_second c) in
  let safe_delivery_rate :=
    (sat_mul (max_fanout_deliveries_per_second c)
             (fanout_admission_utilization_percent c) / 100)%Z in
  _ ← bail_if (safe_delivery_rate <? required_delivery_rate)%Z
        "active tenant count violates Global delivery-rate admission";
  Ok active.

(** ** Lemmas *)

Section config_lemmas.
Context `{Hex}.

Lemma number_range max e key dflt n :
  (0 <= dflt <= max)%Z → number max e key dflt = Ok n → (0 <= n <= max)%Z.
Proof.
  unfold number. intros Hd Hn. inv_result. by eapply parse_uint_range.
Qed.

Lemma number_default max e key dflt :
  (0 <= dflt <= max)%Z → env_var e key = None → number max e key dflt = Ok dflt.
Proof. unfold number. intros Hd ->. cbn. by rewrite parse_show_u64. Qed.

(** The three arithmetic facts [validate] establishes. *)
Lemma validate_facts c :
  validate c = Ok () →
  (max_active_tenants c <= max_fanout_recipients c)%Z ∧
  (sat_add (sat_mul (max_active_tenants c) 2) 16 <=
     sat_mul (cluster_queue_limit c) (mailbox_shard_admission_percent c) / 100)%Z ∧
  (sat_add (sat_mul (max_global_publishes_per_second c) (max_active_tenants c))
           (reserved_non_global_deliveries_per_second c) <=
     sat_mul (max_fanout_deliveries_per_second c)
             (fanout_admission_utilization_percent c) / 100)%Z.
Proof. unfold validate. intros Hv. inv_result. rewrite Z.ltb_ge in *. lia. Qed.

(** A configuration read from the environment has been validated, and its
    numbers are in the range of their types. *)
Lemma from_env_ok e c :
  from_env e = Ok c →
  validate c = Ok () ∧
  is_u64 (max_active_tenants c) ∧ is_u64 (max_global_publishes_per_second c) ∧
  is_u64 (reserved_non_global_deliveries_per_second c) ∧
  is_u64 (cluster_queue_limit c) ∧ is_u64 (mailbox_shard_admission_percent c) ∧
  is_u64 (max_fanout_deliveries_per_second c) ∧
  is_u64 (fanout_admission_utilization_percent c).
Proof.
  unfold from_env. intros Hf. inv_result. cbn -[validate].
  split; [done|]. split_and!; (eapply number_range; [|eassumption]; done).
Qed.

Lemma admission_monotone c n m :
  (0 <= max_global_publishes_per_second c)%Z → (n <= m)%Z →
  (sat_add (sat_mul n 2) 16 <= sat_add (sat_mul m 2) 16)%Z ∧
  (sat_add (sat_mul (max_global_publishes_per_second c) n)
           (reserved_non_global_deliveries_per_second c) <=
   sat_add (sat_mul (max_global_publishes_per_second c) m)
           (reserved_non_global_deliveries_per_second c))%Z.
Proof.
  intros Hg Hnm. split; apply sat_add_mono_l; [apply sat_mul_mono_l|apply sat_mul_mono]; lia.
Qed.

(** Both run-time checks accept exactly the same counts. *)
Lemma admission_checks_agree c n :
  validate_active_tenant_count c n = Ok n ↔ validate_proposed_tenant_count c n = Ok ().
Proof.
  unfold validate_active_tenant_count, validate_proposed_tenant_count, bail_if.
  repeat case_match; cbn; naive_solver.
Qed.

Lemma validated_admission_exact c n :
  validate c = Ok () → (0 <= max_global_publishes_per_second c)%Z →
  validate_proposed_tenant_count c n = Ok () ↔ (n <= max_active_tenants c)%Z.
Proof.
  intros (Hrec & Hq & Hr)%validate_facts Hg. unfold validate_proposed_tenant_count.
  split.
  - intros Hp. inv_result. apply orb_false_iff in H0 as [Hn _].
    by apply Z.ltb_ge in Hn.
  - intros Hn. destruct (admission_monotone c n _ Hg Hn) as [Hq' Hr'].
    rewrite !(proj2 (Z.ltb_ge _ _)) by lia. done.
Qed.
End config_lemmas.

(** ** Properties *)

(** A deployment used by the examples: the required variables, and a broker
    whose queue limit is raised to 1100. *)
Definition sample_env_with (limit : option string) : ProcessEnv := {|
  env_var key :=
    if bool_decide (key = "WATTSWARM_RABBITMQ_CLUSTER_QUEUE_LIMIT") then limit
    else if bool_decide (key = "WATTSWARM_RABBITMQ_PASSWORD_FILE") then Some "/run/password"
    else if bool_decide (key = "WATTSWARM_CS_COMMIT_HMAC_SECRET_FILE") then Some "/run/secret"
    else if bool_decide (key = "WATTSWARM_CS_DATABASE_URL") then Some "postgres://db/cs"
    else if bool_decide (key = "WATTSWARM_RABBITMQ_ENDPOINT") then Some "amqps://broker:5671/cs"
    else if bool_decide (key = "WATTSWARM_RABBITMQ_USERNAME") then Some "gateway"
    else None;
  env_file path :=
    if bool_decide (path = "/run/password") then Some "hunter2 "
    else if bool_decide (path = "/run/secret") then Some "0123456789abcdef0123456789abcdef"
    else None;
  env_fresh_uuid := "instance-1";
  env_parse_addr := Some;
  env_decode_genesis _ := None;
|}.

Definition sample_env : ProcessEnv := sample_env_with (Some "1100").

Definition sample_config : Config :=
  match @from_env hex_impl sample_env with
  | Ok c => c
  | Err _ => {|
      bind_addr := ""; database_url := ""; rabbitmq_endpoint := ""; rabbitmq_username := "";
      rabbitmq_password := ""; rabbitmq_prefetch := 0; delivery_page_size := 0;
      mailbox_message_ttl_ms := 0; mailbox_max_length_bytes := 0;
      dead_letter_max_length_bytes := 0; max_delivery_attempts := 0;
      cluster_queue_limit := 0; mailbox_shard_admission_percent := 0;
      max_active_tenants := 0; max_fanout_recipients := 0;
      max_fanout_deliveries_per_second := 0; max_fanout_bytes_per_publish := 0;
      fanout_confirm_timeout := 0; max_global_publishes_per_second := 0;
      global_publish_burst := 0; global_interactive_reserved_per_second := 0;
      reserved_non_global_deliveries_per_second := 0;
      fanout_admission_utilization_percent := 0; commit_hmac_secret := "";
      session_ttl := 0; object_store_root := None; max_object_bytes := 0;
      membership_binding_timeout := 0; membership_mutation_window := 0;
      max_membership_mutations_per_scope_per_window := 0; max_membership_binding_lag := 0;
      instance_id := ""; internal_route := None; internal_bind_addr := None;
      internal_mtls_identity_pem := None; internal_mtls_ca_pem := None;
      delivery_owner_lease := 0; delivery_commit_forward_timeout := 0;
      metadata_cleanup_interval := 0; acknowledged_gap_retention := 0;
      trusted_network_genesis := ∅
    |}
  end.

(** For a configuration that [Config::from_env] accepts, the two run-time
    admission checks (the one before a membership change and the one on the
    current projection) accept a tenant count exactly when it is at most
    [max_active_tenants]: the queue and delivery-rate budgets checked at start-up
    are never the reason for a later rejection, saturating arithmetic included. *)
Theorem tenant_admission_exact `{Hex} e c n :
  from_env e = Ok c →
  (validate_proposed_tenant_count c n = Ok () ↔ (n <= max_active_tenants c)%Z) ∧
  (validate_active_tenant_count c n = Ok n ↔ (n <= max_active_tenants c)%Z).
Proof.
  intros (Hv & _ & Hg & _)%from_env_ok. rewrite admission_checks_agree.
  unfold is_u64 in Hg. split; apply validated_admission_exact; (done || lia).
Qed.

Lemma tenant_admission_exact_witness :
  validate_proposed_tenant_count sample_config 400 = Ok () ∧
  validate_active_tenant_count sample_config 400 = Ok 400%Z.
Proof.
  destruct (@tenant_admission_exact hex_impl sample_env sample_config 400 eq_refl) as [H1 H2].
  split; [apply H1|apply H2]; vm_compute; discriminate.
Defined.

(** The saturating arithmetic of [Config::validate] never hides an overflow:
    an accepted configuration satisfies the queue budget (two mailboxes per tenant
    and sixteen infrastructure queues) and the Global delivery-rate budget over the
    exact integers. *)
Theorem validated_budgets_exact `{Hex} e c :
  from_env e = Ok c →
  (2 * max_active_tenants c + 16 <=
     cluster_queue_limit c * mailbox_shard_admission_percent c / 100)%Z ∧
  (max_global_publishes_per_second c * max_active_tenants c
     + reserved_non_global_deliveries_per_second c <=
     max_fanout_deliveries_per_second c * fanout_admission_utilization_percent c / 100)%Z.
Proof.
  intros (Hv & Ht & Hg & Hr & _)%from_env_ok. apply validate_facts in Hv as (_ & Hq & Hd).
  assert (∀ a b, (sat_mul a b / 100 <= a * b / 100)%Z ∧ (sat_mul a b / 100 < u64_max)%Z) as Hs.
  { intros a b. unfold sat_mul. split; [apply Z.div_le_mono; lia|].
    apply Z.div_lt_upper_bound; unfold u64_max; lia. }
  destruct (Hs (cluster_queue_limit c) (mailbox_shard_admission_percent c)) as [Hq1 Hq2].
  destruct (Hs (max_fanout_deliveries_per_second c)
              (fanout_admission_utilization_percent c)) as [Hd1 Hd2].
  unfold is_u64, sat_add, sat_mul in *. lia.
Qed.

Lemma validated_budgets_exact_witness :
  (2 * max_active_tenants sample_config + 16 <=
     cluster_queue_limit sample_config * mailbox_shard_admission_percent sample_config / 100)%Z.
Proof. apply (@validated_budgets_exact hex_impl sample_env sample_config). reflexivity. Defined.

(** With the three queue-budget variables unset, no environment yields a
    configuration: the compiled-in defaults (400 tenants, a cluster limit of 1000
    queues, 80 percent) need 816 queues where 800 are admitted. *)
Theorem default_queue_budget_rejected `{Hex} e :
  env_var e "WATTSWARM_RABBITMQ_CLUSTER_QUEUE_LIMIT" = None →
  env_var e "WATTSWARM_CS_MAILBOX_SHARD_ADMISSION_PERCENT" = None →
  env_var e "WATTSWARM_CS_MAX_ACTIVE_TENANTS_PER_NETWORK_CELL" = None →
  is_ok (from_env e) = false.
Proof.
  intros Hl Hp Ht. destruct (from_env e) as [c|] eqn:Hf; [exfalso|done].
  apply from_env_ok in Hf as HV. unfold from_env in Hf. inv_result.
  destruct HV as [(_ & Hq & _)%validate_facts _]. cbn -[sat_add sat_mul Z.div] in Hq.
  rewrite number_default in * by done. inv_result.
  vm_compute in Hq. by apply Hq.
Qed.

Lemma default_queue_budget_rejected_witness :
  is_ok (@from_env hex_impl (sample_env_with None)) = false ∧
  @from_env hex_impl (sample_env_with None)
    = Err "two-mailbox tenant queue budget exceeds RabbitMQ admission threshold".
Proof. split; [apply default_queue_budget_rejected|]; reflexivity. Defined.

(** The rendering of the broker endpoint in debug output contains none of the
    credentials: everything up to the last at sign is dropped. *)
Theorem redact_endpoint_drops_credentials (credentials host : string) :
  has_char "@" host = false →
  redact_endpoint (credentials +:+ String "@" host) = "amqps://" +:+ host.
Proof. intros Hh. unfold redact_endpoint. by rewrite rsplit_once_app. Qed.

Lemma redact_endpoint_drops_credentials_witness :
  redact_endpoint ("amqps://user:p@ss" +:+ String "@" "broker:5671/cs")
  = "amqps://broker:5671/cs".
Proof. apply (redact_endpoint_drops_credentials "amqps://user:p@ss" "broker:5671/cs"). reflexivity. Defined.
