(* ===== verification/CommitToken.v ===== *)
(** * Commit tokens

    Models [crates/message-gateway/src/commit_token.rs]: a page of mailbox
    deliveries is committed by presenting a token that carries the page's claims
    and an HMAC over their serialisation.  HMAC, the hexadecimal codec, the JSON
    codec of the claims and the token newtype are interfaces; the theorems show
    that verification accepts exactly what was issued, under the same key, before
    expiry. *)

From S2P Require Import Prelude Str External.

Record CommitClaims := {
  cc_page_id : string;
  cc_network_id : string;
  cc_principal_id : string;
  cc_delivery_class : DeliveryClass;
  cc_owner_instance_id : string;
  cc_consumer_epoch : string;
  cc_expires_at : Z;
}.

Global Instance CommitClaims_eq_dec : EqDecision CommitClaims.
Proof. solve_decision. Defined.

(** [serde_json] on [CommitClaims] and the [OpaqueCommitToken] newtype. *)
Class TokenCodec := {
  claims_to_vec : CommitClaims -> result string string;
  claims_from_slice : string -> result string CommitClaims;
  OpaqueCommitToken : Type;
  token_new : string -> result string OpaqueCommitToken;
  token_expose : OpaqueCommitToken -> string;
}.

Class TokenCodecLaws `{TokenCodec} : Prop := {
  claims_roundtrip c payload :
    claims_to_vec c = Ok payload → claims_from_slice payload = Ok c;
  token_new_expose s t : token_new s = Ok t → token_expose t = s;
}.

Section commit_token.
Context `{HX : Hex, HM : Hmac, TC : TokenCodec}.

Definition issue (secret : string) (claims : CommitClaims) :
    result string OpaqueCommitToken :=
  payload ← claims_to_vec claims;
  let signature := hmac_sha256 secret payload in
  token_new (hex_encode payload +:+ "." +:+ hex_encode signature).

Definition verify (secret : string) (token : OpaqueCommitToken) (now_ms : Z) :
    result string CommitClaims :=
  '(payload, signature) ← ok_or (split_once "." (token_expose token))
                            "malformed commit token";
  payload ← ok_or (hex_decode payload) "invalid hexadecimal";
  signature ← ok_or (hex_decode signature) "invalid hexadecimal";
  _ ← bail_if (negb (bool_decide (hmac_sha256 secret payload = signature))) "MAC tag mismatch";
  claims ← claims_from_slice payload;
  _ ← bail_if (cc_expires_at claims <=? now_ms)%Z "commit token expired";
  Ok claims.
End commit_token.

(** ** An executable codec for the examples *)

Definition sample_claims : CommitClaims := {|
  cc_page_id := "page"; cc_network_id := "network"; cc_principal_id := "principal";
  cc_delivery_class := Interactive; cc_owner_instance_id := "gateway-a";
  cc_consumer_epoch := "epoch"; cc_expires_at := 100;
|}.

(** The fields in hexadecimal, separated by dots. *)
Definition sample_codec : TokenCodec := {|
  claims_to_vec c :=
    if bool_decide (0 <= cc_expires_at c <= u64_max)%Z then
      Ok (hex_encode_bytes (cc_page_id c) +:+ "." +:+ hex_encode_bytes (cc_network_id c) +:+ "." +:+
          hex_encode_bytes (cc_principal_id c) +:+ "." +:+
          hex_encode_bytes (match cc_delivery_class c with Interactive => "i" | Bulk => "b" end)
          +:+ "." +:+ hex_encode_bytes (cc_owner_instance_id c) +:+ "." +:+
          hex_encode_bytes (cc_consumer_epoch c) +:+ "." +:+
          hex_encode_bytes (show_u64 (cc_expires_at c)))
    else Err "out of range";
  claims_from_slice s :=
    match map hex_decode_bytes (split_char "." s) with
    | [Some page; Some network; Some principal; Some class; Some owner; Some epoch; Some expires] =>
        expires ← ok_or (parse_uint u64_max expires) "bad number";
        Ok {| cc_page_id := page; cc_network_id := network; cc_principal_id := principal;
              cc_delivery_class := if bool_decide (class = "i") then Interactive else Bulk;
              cc_owner_instance_id := owner; cc_consumer_epoch := epoch;
              cc_expires_at := expires |}
    | _ => Err "bad claims"
    end;
  OpaqueCommitToken := string;
  token_new := Ok;
  token_expose := id;
|}.

Lemma sample_codec_laws : @TokenCodecLaws sample_codec.
Proof.
  split; cbn -[split_char].
  - intros c payload. case_bool_decide as Hx; [|done]. intros [= <-].
    pose proof (@hex_encode_no_dot hex_impl hex_impl_laws) as Hdot. cbn in Hdot.
    pose proof (@hex_decode_encode hex_impl hex_impl_laws) as Hhex. cbn in Hhex.
    repeat (rewrite (split_char_app "."); [|apply Hdot]). rewrite split_char_no_sep by apply Hdot.
    cbn [map]. rewrite !Hhex. rewrite parse_show_u64 by done. cbn. f_equal.
    by destruct c as [? ? ? [] ? ? ?].
  - intros s t [= ->]. done.
Qed.

(** ** Properties *)

Section commit_token_lemmas.
Context `{HexLaws, Hmac, TokenCodecLaws}.

(** What the bytes of an issued token are. *)
Lemma issue_expose secret claims token :
  issue secret claims = Ok token →
  ∃ payload, claims_to_vec claims = Ok payload ∧
    token_expose token =
      hex_encode payload +:+ String "." (hex_encode (hmac_sha256 secret payload)).
Proof.
  unfold issue. intros Hi. inv_result. exists x. split; [done|].
  by erewrite token_new_expose by eassumption.
Qed.

Lemma verify_issued secret secret' claims payload token now :
  claims_to_vec claims = Ok payload →
  token_expose token =
    hex_encode payload +:+ String "." (hex_encode (hmac_sha256 secret payload)) →
  verify secret' token now =
    (_ ← bail_if (negb (bool_decide
            (hmac_sha256 secret' payload = hmac_sha256 secret payload))) "MAC tag mismatch";
     _ ← bail_if (cc_expires_at claims <=? now)%Z "commit token expired";
     Ok claims).
Proof.
  intros Hp Ht. unfold verify. rewrite Ht, split_once_app by auto with gw.
  cbn. rewrite !hex_decode_encode. cbn. by rewrite (claims_roundtrip _ _ Hp).
Qed.
End commit_token_lemmas.

(** An issued commit token verifies exactly when it has not expired and the
    verifying key produces the tag of the issuing key on the issued claims, and
    verification then returns those claims and no others. *)
Theorem commit_token_roundtrip `{HexLaws, Hmac, TokenCodecLaws}
    secret secret' claims token now claims' :
  issue secret claims = Ok token →
  verify secret' token now = Ok claims' ↔
    claims' = claims ∧ (now < cc_expires_at claims)%Z ∧
    ∃ payload, claims_to_vec claims = Ok payload ∧
      hmac_sha256 secret' payload = hmac_sha256 secret payload.
Proof.
  intros (payload & Hp & Ht)%issue_expose.
  rewrite (verify_issued _ _ _ _ _ _ Hp Ht). split.
  - intros Hv. inv_result.
    rewrite ?negb_false_iff, ?bool_decide_eq_true, ?Z.leb_gt in *. eauto.
  - intros (-> & Hx & payload' & Hp' & Hm). rewrite Hp in Hp'. inv_result.
    rewrite (bool_decide_eq_true_2 _ Hm), (proj2 (Z.leb_gt _ _)) by done. done.
Qed.

Lemma commit_token_roundtrip_witness :
  ∃ token, @issue hex_impl hmac_pair sample_codec "key" sample_claims = Ok token ∧
    @verify hex_impl hmac_pair sample_codec "key" token 99 = Ok sample_claims.
Proof.
  eexists. split; [vm_compute; reflexivity|].
  eapply (@commit_token_roundtrip hex_impl hex_impl_laws hmac_pair sample_codec
            sample_codec_laws "key" "key" sample_claims).
  - vm_compute; reflexivity.
  - split; [done|]. split; [vm_compute; reflexivity|].
    eexists. split; [vm_compute; reflexivity|reflexivity].
Defined.

(** Whatever token is presented, a successful verification exhibits a payload
    and a tag inside the token with the tag being the HMAC of exactly that payload
    under the gateway's key, the returned claims being the decoding of that payload,
    and the claims not having expired. *)
Theorem verify_authentic `{Hex, Hmac, TokenCodec} secret token now claims :
  verify secret token now = Ok claims →
  ∃ payload_hex tag_hex payload,
    token_expose token = payload_hex +:+ String "." tag_hex ∧
    hex_decode payload_hex = Some payload ∧
    hex_decode tag_hex = Some (hmac_sha256 secret payload) ∧
    claims_from_slice payload = Ok claims ∧ (now < cc_expires_at claims)%Z.
Proof.
  unfold verify. intros Hv. inv_result. destruct x as [ph th]. inv_result.
  rewrite ?negb_false_iff, ?bool_decide_eq_true, ?Z.leb_gt in *. subst.
  match goal with Hx : split_once _ _ = _ |- _ => apply split_once_Some in Hx as [Hs _] end.
  eauto 10.
Qed.

Definition sample_token : string :=
  match @issue hex_impl hmac_pair sample_codec "key" sample_claims with
  | Ok token => token
  | Err _ => ""
  end.

Lemma verify_authentic_witness :
  ∃ payload_hex tag_hex, sample_token = payload_hex +:+ String "." tag_hex.
Proof.
  destruct (@verify_authentic hex_impl hmac_pair sample_codec "key" sample_token 99 sample_claims)
    as (ph & th & _ & He & _); [vm_compute; reflexivity|].
  exists ph, th. exact He.
Defined.
