(* ===== verification/Owners.v ===== *)
(** * Delivery ownership leases

    Models the [gateway_delivery_owners] table and its operations in
    [crates/message-gateway/src/db.rs]: [mailbox_binding_key],
    [try_acquire_delivery_owner], [load_delivery_owner],
    [release_delivery_owner] and the lease part of [cleanup_expired_metadata].
    Times are microseconds on the database clock.  The operations of the gateway
    instances that share the database are interleaved as a sequence of events,
    and the theorems show that a lease is exclusive until it expires or is
    released, and that a mailbox never stays locked. *)

From S2P Require Import Prelude Str External.

(** A row of [gateway_delivery_owners]; the key is the mailbox and the class. *)
Record OwnerRow := {
  ow_instance_id : string;
  ow_consumer_epoch : string;
  ow_lease_expires_at : Z;
  ow_owner_route : string;
  ow_updated_at : Z;
}.

(** What [load_delivery_owner] returns. *)
Record DeliveryOwner := {
  do_instance_id : string;
  do_consumer_epoch : string;
  do_owner_route : string;
}.

Abbreviation OwnerTable := (gmap (string * string) OwnerRow).

Definition mailbox_binding_key (network_id principal_id : string) : string :=
  show_u64 (len network_id) +:+ ":" +:+ network_id +:+ principal_id.

Section owners.
Context `{CL : DeliveryClassOps}.

Definition owner_key (network_id principal_id : string) (class : DeliveryClass) :
    string * string :=
  (mailbox_binding_key network_id principal_id, class_as_str class).

(** [lease] is in milliseconds; the returned boolean is
    [rows_affected() == 1]. *)
Definition try_acquire_delivery_owner (now : Z) (network_id principal_id : string)
    (class : DeliveryClass) (instance_id consumer_epoch : string)
    (owner_route : option string) (lease : Z) (owners : OwnerTable) :
    result string (bool * OwnerTable) :=
  lease_ms ← ok_or (i64_try_from lease) "owner lease is too large";
  let row := {|
    ow_instance_id := instance_id;
    ow_consumer_epoch := consumer_epoch;
    ow_lease_expires_at := now + lease_ms * 1000;
    ow_owner_route := default "" owner_route;
    ow_updated_at := now;
  |} in
  let key := owner_key network_id principal_id class in
  match owners !! key with
  | None => Ok (true, <[key := row]> owners)
  | Some held =>
      if ((ow_lease_expires_at held <=? now)%Z
          || bool_decide (ow_consumer_epoch held = consumer_epoch))
      then Ok (true, <[key := row]> owners)
      else Ok (false, owners)
  end.

Definition load_delivery_owner (now : Z) (network_id principal_id : string)
    (class : DeliveryClass) (owners : OwnerTable) : option DeliveryOwner :=
  match owners !! owner_key network_id principal_id class with
  | Some row =>
      if (now <? ow_lease_expires_at row)%Z
      then Some {| do_instance_id := ow_instance_id row;
                   do_consumer_epoch := ow_consumer_epoch row;
                   do_owner_route := ow_owner_route row |}
      else None
  | None => None
  end.

Definition release_delivery_owner (network_id principal_id : string)
    (class : DeliveryClass) (instance_id consumer_epoch : string)
    (owners : OwnerTable) : bool * OwnerTable :=
  let key := owner_key network_id principal_id class in
  match owners !! key with
  | Some row =>
      if bool_decide (ow_instance_id row = instance_id)
         && bool_decide (ow_consumer_epoch row = consumer_epoch)
      then (true, delete key owners)
      else (false, owners)
  | None => (false, owners)
  end.

(** [DELETE FROM gateway_delivery_owners WHERE lease_expires_at <= now] *)
Definition cleanup_expired_owners (now : Z) (owners : OwnerTable) : OwnerTable :=
  filter (fun kv => ¬ (ow_lease_expires_at kv.2 <= now)%Z) owners.

(** ** Interleaved events of the gateway instances *)

Inductive owner_event :=
| EvAcquire (network_id principal_id : string) (class : DeliveryClass)
    (instance_id consumer_epoch : string) (owner_route : option string) (lease : Z)
| EvRelease (network_id principal_id : string) (class : DeliveryClass)
    (instance_id consumer_epoch : string)
| EvCleanup
| EvTick (elapsed : N).

Definition owner_step (st : Z * OwnerTable) (ev : owner_event) : Z * OwnerTable :=
  let '(now, owners) := st in
  match ev with
  | EvAcquire n p c i e r l =>
      match try_acquire_delivery_owner now n p c i e r l owners with
      | Ok (_, owners') => (now, owners')
      | Err _ => (now, owners)
      end
  | EvRelease n p c i e => (now, (release_delivery_owner n p c i e owners).2)
  | EvCleanup => (now, cleanup_expired_owners now owners)
  | EvTick d => (now + Z.of_N d, owners)%Z
  end.

Definition owner_run (st : Z * OwnerTable) (evs : list owner_event) : Z * OwnerTable :=
  foldl owner_step st evs.

(** The event uses the consumer epoch [epoch]. *)
Definition uses_epoch (epoch : string) (ev : owner_event) : bool :=
  match ev with
  | EvAcquire _ _ _ _ e _ _ | EvRelease _ _ _ _ e => bool_decide (e = epoch)
  | EvCleanup | EvTick _ => false
  end.
End owners.

(** ** Lemmas *)

Lemma mailbox_binding_key_length_prefixed n p :
  mailbox_binding_key n p = length_prefixed n p.
Proof. done. Qed.

Section owner_lemmas.
Context `{CLL : DeliveryClassLaws}.

Lemma owner_key_inj n p c n' p' c' :
  owner_key n p c = owner_key n' p' c' → n = n' ∧ p = p' ∧ c = c'.
Proof.
  unfold owner_key. intros [= Hk Hc].
  apply length_prefixed_inj in Hk as [-> ->]. by apply class_as_str_inj in Hc.
Qed.

Lemma try_acquire_true now n p c i e r l owners owners' :
  try_acquire_delivery_owner now n p c i e r l owners = Ok (true, owners') →
  owners' = <[owner_key n p c := {| ow_instance_id := i; ow_consumer_epoch := e;
    ow_lease_expires_at := now + l * 1000; ow_owner_route := default "" r;
    ow_updated_at := now |}]> owners.
Proof.
  unfold try_acquire_delivery_owner, i64_try_from. intros Ha. inv_result.
  repeat case_match; naive_solver.
Qed.

Lemma try_acquire_lease now n p c i e r l owners res :
  try_acquire_delivery_owner now n p c i e r l owners = Ok res → (l <= i64_max)%Z.
Proof.
  unfold try_acquire_delivery_owner, i64_try_from. intros Ha. inv_result.
  destruct (l <=? i64_max)%Z eqn:Hle; [by apply Z.leb_le|done].
Qed.

Lemma try_acquire_false now n p c i e r l owners owners' :
  try_acquire_delivery_owner now n p c i e r l owners = Ok (false, owners') →
  owners' = owners.
Proof.
  unfold try_acquire_delivery_owner. intros Ha. inv_result.
  repeat case_match; naive_solver.
Qed.

(** Another epoch's acquisition is refused while a lease runs. *)
Lemma try_acquire_held now n p c i e r l owners row :
  owners !! owner_key n p c = Some row →
  (now < ow_lease_expires_at row)%Z → e ≠ ow_consumer_epoch row →
  (l <= i64_max)%Z →
  try_acquire_delivery_owner now n p c i e r l owners = Ok (false, owners).
Proof.
  intros Hk Hl He Hm. unfold try_acquire_delivery_owner, i64_try_from.
  rewrite (proj2 (Z.leb_le _ _) Hm). cbn. rewrite Hk.
  rewrite (proj2 (Z.leb_gt _ _)) by done. by rewrite bool_decide_false by congruence.
Qed.

Lemma release_true n p c i e owners owners' :
  release_delivery_owner n p c i e owners = (true, owners') →
  owners' = delete (owner_key n p c) owners.
Proof. unfold release_delivery_owner. repeat case_match; naive_solver. Qed.

(** One event of other epochs keeps a running lease's row. *)
Lemma owner_step_keeps now owners n p c row ev :
  owners !! owner_key n p c = Some row →
  (now < ow_lease_expires_at row)%Z →
  uses_epoch (ow_consumer_epoch row) ev = false →
  (owner_step (now, owners) ev).2 !! owner_key n p c = Some row.
Proof.
  intros Hk Hl He. destruct ev as [n' p' c' i e r l|n' p' c' i e| |d]; cbn in *.
  - apply bool_decide_eq_false in He.
    destruct (try_acquire_delivery_owner now n' p' c' i e r l owners)
      as [[b owners']|err] eqn:Ha; cbn; [|done].
    destruct b; [|by apply try_acquire_false in Ha as ->].
    destruct (decide (owner_key n' p' c' = owner_key n p c)) as [E|E].
    + assert (l <= i64_max)%Z.
      { by eapply try_acquire_lease. }
      erewrite try_acquire_held in Ha by (rewrite ?E; eauto). done.
    + apply try_acquire_true in Ha as ->. by rewrite lookup_insert_ne.
  - apply bool_decide_eq_false in He. unfold release_delivery_owner.
    destruct (owners !! owner_key n' p' c') as [held|] eqn:Hh; cbn; [|done].
    destruct (bool_decide _ && bool_decide _) eqn:Hb; cbn; [|done].
    apply andb_true_iff in Hb as [_ Hb%bool_decide_eq_true].
    rewrite lookup_delete_ne; [done|]. intros E. rewrite E in Hh. congruence.
  - apply map_lookup_filter_Some. split; [done|]. cbn. lia.
  - done.
Qed.

Lemma owner_step_now now owners ev : (now <= (owner_step (now, owners) ev).1)%Z.
Proof. destruct ev; cbn; repeat case_match; cbn; lia. Qed.

Lemma owner_run_now st evs : (st.1 <= (owner_run st evs).1)%Z.
Proof.
  revert st. induction evs as [|ev evs IH]; intros [now owners]; cbn; [lia|].
  etransitivity; [apply (owner_step_now now owners ev)|apply IH].
Qed.

Lemma owner_run_keeps now owners n p c row evs :
  owners !! owner_key n p c = Some row →
  Forall (fun ev => uses_epoch (ow_consumer_epoch row) ev = false) evs →
  ((owner_run (now, owners) evs).1 < ow_lease_expires_at row)%Z →
  (owner_run (now, owners) evs).2 !! owner_key n p c = Some row.
Proof.
  revert now owners. induction evs as [|ev evs IH]; intros now owners Hk Hev Hl; [done|].
  apply Forall_cons in Hev as [Hev Hevs].
  change (owner_run (now, owners) (ev :: evs))
    with (owner_run (owner_step (now, owners) ev) evs) in *.
  pose proof (owner_run_now (owner_step (now, owners) ev) evs) as Hn.
  pose proof (owner_step_now now owners ev) as Hn'.
  assert ((owner_step (now, owners) ev).2 !! owner_key n p c = Some row).
  { apply owner_step_keeps; [done|lia|done]. }
  destruct (owner_step (now, owners) ev) as [now1 owners1] eqn:Hst. by apply IH.
Qed.

Lemma load_delivery_owner_Some now n p c owners row :
  owners !! owner_key n p c = Some row → (now < ow_lease_expires_at row)%Z →
  load_delivery_owner now n p c owners =
    Some {| do_instance_id := ow_instance_id row;
            do_consumer_epoch := ow_consumer_epoch row;
            do_owner_route := ow_owner_route row |}.
Proof.
  intros Hk Hl. unfold load_delivery_owner. by rewrite Hk, (proj2 (Z.ltb_lt _ _) Hl).
Qed.
End owner_lemmas.

(** ** Properties *)

(** C6: a mailbox lease is exclusive.  Once an instance has acquired a mailbox
    under its consumer epoch, then whatever acquisitions, releases, expiry clean-ups
    and passages of time the other epochs produce, as long as the lease has not run
    out the mailbox is still owned by that epoch and an acquisition under any other
    epoch is refused and changes nothing. *)
Theorem lease_exclusive `{CLL : DeliveryClassLaws} now owners owners1 n p c i e r l
    evs now2 owners2 i' e' r' l' :
  try_acquire_delivery_owner now n p c i e r l owners = Ok (true, owners1) →
  Forall (fun ev => uses_epoch e ev = false) evs →
  owner_run (now, owners1) evs = (now2, owners2) →
  (now2 < now + l * 1000)%Z →
  e' ≠ e → (l' <= i64_max)%Z →
  load_delivery_owner now2 n p c owners2 =
    Some {| do_instance_id := i; do_consumer_epoch := e; do_owner_route := default "" r |} ∧
  try_acquire_delivery_owner now2 n p c i' e' r' l' owners2 = Ok (false, owners2).
Proof.
  intros ->%try_acquire_true Hev Hrun Hl He Hl'. set (row := Build_OwnerRow i e _ _ _) in *.
  pose proof (owner_run_keeps now (<[owner_key n p c:=row]> owners) n p c row evs) as Hk.
  rewrite lookup_insert_eq, Hrun in Hk. specialize (Hk eq_refl Hev Hl). cbn in Hk. split.
  - by rewrite (load_delivery_owner_Some _ _ _ _ _ _ Hk Hl).
  - by apply (try_acquire_held _ _ _ _ _ _ _ _ _ row).
Qed.

Lemma lease_exclusive_witness :
  ∃ owners1 now2 owners2,
    try_acquire_delivery_owner (CL:=class_impl) 0 "net" "alice" Bulk "gw-a" "e1" None 1 ∅
      = Ok (true, owners1) ∧
    owner_run (CL:=class_impl) (0%Z, owners1)
      [EvTick 999; EvCleanup; EvAcquire "net" "alice" Bulk "gw-b" "e2" None 50]
      = (now2, owners2) ∧
    try_acquire_delivery_owner (CL:=class_impl) now2 "net" "alice" Bulk "gw-b" "e3" None 50 owners2
      = Ok (false, owners2).
Proof.
  do 3 eexists. split; [reflexivity|]. split; [reflexivity|].
  refine (proj2 (@lease_exclusive class_impl class_impl_laws 0 ∅ _ "net" "alice" Bulk "gw-a" "e1"
    None 1 [EvTick 999; EvCleanup; EvAcquire "net" "alice" Bulk "gw-b" "e2" None 50] _ _
    "gw-b" "e3" None 50 eq_refl _ eq_refl _ _ _)).
  - by repeat constructor.
  - vm_compute. reflexivity.
  - done.
  - done.
Defined.

(** A mailbox never stays locked: once its lease has run out, or once its
    holder has released it, an acquisition under any epoch succeeds, and from then on
    the mailbox is owned by the new epoch for the whole new lease. *)
Theorem lease_available `{CLL : DeliveryClassLaws} now owners n p c i e r l :
  (0 < l <= i64_max)%Z →
  (∀ row, owners !! owner_key n p c = Some row → (ow_lease_expires_at row <= now)%Z) ∨
  (∃ i0 e0 before, release_delivery_owner n p c i0 e0 before = (true, owners)) →
  ∃ owners', try_acquire_delivery_owner now n p c i e r l owners = Ok (true, owners') ∧
    ∀ now', (now <= now' < now + l * 1000)%Z →
      load_delivery_owner now' n p c owners' =
        Some {| do_instance_id := i; do_consumer_epoch := e; do_owner_route := default "" r |}.
Proof.
  intros [Hl Hm] Hfree.
  assert (∃ owners', try_acquire_delivery_owner now n p c i e r l owners = Ok (true, owners'))
    as [owners' Ha].
  { unfold try_acquire_delivery_owner, i64_try_from. rewrite (proj2 (Z.leb_le _ _) Hm). cbn.
    destruct Hfree as [Hx|(i0 & e0 & before & Hr)].
    - destruct (owners !! owner_key n p c) as [row|] eqn:Hk; [|eauto].
      rewrite (proj2 (Z.leb_le _ _)) by eauto. eauto.
    - apply release_true in Hr as ->. rewrite lookup_delete_eq. eauto. }
  exists owners'. split; [done|]. intros now' Hn. apply try_acquire_true in Ha as ->.
  rewrite (load_delivery_owner_Some _ _ _ _ _ _ (lookup_insert_eq _ _ _)); cbn; [done|lia].
Qed.

Lemma lease_available_witness :
  ∃ owners', try_acquire_delivery_owner (CL:=class_impl) 5000 "net" "alice" Bulk "gw-b" "e2" None 30
    (<[("3:netalice", "bulk") := {| ow_instance_id := "gw-a"; ow_consumer_epoch := "e1";
       ow_lease_expires_at := 5000; ow_owner_route := ""; ow_updated_at := 0 |}]> ∅)
    = Ok (true, owners').
Proof.
  edestruct (@lease_available class_impl class_impl_laws 5000
    (<[("3:netalice", "bulk") := {| ow_instance_id := "gw-a"; ow_consumer_epoch := "e1";
       ow_lease_expires_at := 5000; ow_owner_route := ""; ow_updated_at := 0 |}]> ∅)
    "net" "alice" Bulk "gw-b" "e2" None 30) as [owners' [Ha _]].
  - done.
  - left. intros row Hk. vm_compute in Hk. injection Hk as <-. done.
  - by exists owners'.
Defined.

(** Mailbox keys are unambiguous: two mailboxes share a lease row only when
    they belong to the same network, the same principal and the same delivery class,
    whatever characters the identifiers contain. *)
Theorem owner_key_unambiguous `{CLL : DeliveryClassLaws} n p c n' p' c' :
  owner_key n p c = owner_key n' p' c' ↔ n = n' ∧ p = p' ∧ c = c'.
Proof. split; [apply owner_key_inj|]. by intros (-> & -> & ->). Qed.

Lemma owner_key_unambiguous_witness :
  owner_key (CL:=class_impl) "1" "2:ab" Bulk = owner_key (CL:=class_impl) "1" "2:ab" Bulk ∧
  owner_key (CL:=class_impl) "12" ":ab" Bulk ≠ owner_key (CL:=class_impl) "1" "2:ab" Bulk.
Proof.
  split; [by apply (owner_key_unambiguous (CLL:=class_impl_laws))|].
  intros H. by apply (owner_key_unambiguous (CLL:=class_impl_laws)) in H as [H _].
Defined.
