(* ===== verification/Buckets.v ===== *)
(** * Shared token buckets

    Models [acquire_global_token], [acquire_non_global_delivery_tokens] and
    [ensure_bucket] of [crates/message-gateway/src/db.rs].  Token counts are
    DOUBLE PRECISION columns and [f64] values in the code and exact rationals
    here, so rounding is not part of the model; times are microseconds on the
    database clock, one per statement, because each statement of an operation
    reads [clock_timestamp()] anew.  The row lock taken by [SELECT ... FOR UPDATE]
    makes each operation atomic.  The theorems bound the stored tokens and, over
    any sequence of requests, the number of admitted publishes. *)

From Stdlib Require Import QArith Qminmax Lqa.
From S2P Require Import Prelude Str External.
Local Open Scope Q_scope.

Record GlobalBucket := {
  gb_policy_version : Z;
  gb_total_tokens : Q;
  gb_bulk_tokens : Q;
  gb_last_refill_at : Z;
  gb_total_rate : Q;
  gb_bulk_rate : Q;
  gb_burst_capacity : Q;
  gb_updated_at : Z;
}.

Record NonGlobalBucket := {
  nb_policy_version : Z;
  nb_tokens : Q;
  nb_last_refill_at : Z;
  nb_rate : Q;
  nb_burst_capacity : Q;
  nb_updated_at : Z;
}.

Abbreviation GlobalBuckets := (gmap (string * string) GlobalBucket).
Abbreviation NonGlobalBuckets := (gmap (string * string) NonGlobalBucket).

(** [EXTRACT(EPOCH FROM (now - last_refill_at))::DOUBLE PRECISION], then
    [.max(0.0)]. *)
Definition elapsed_secs (now last : Z) : Q := Qmax ((now - last) # 1000000) 0.

Definition bulk_capacity (burst : Z) : Q := inject_Z (Z.max (sat_sub burst 1) 1).

(** [INSERT ... ON CONFLICT DO NOTHING] *)
Definition ensure_bucket (now : Z) (key : string * string)
    (total_rate bulk_rate burst policy_version : Z) (buckets : GlobalBuckets) : GlobalBuckets :=
  match buckets !! key with
  | Some _ => buckets
  | None => <[key := {|
      gb_policy_version := as_i64 policy_version;
      gb_total_tokens := inject_Z burst;
      gb_bulk_tokens := bulk_capacity burst;
      gb_last_refill_at := now;
      gb_total_rate := inject_Z total_rate;
      gb_bulk_rate := inject_Z bulk_rate;
      gb_burst_capacity := inject_Z burst;
      gb_updated_at := now;
    |}]> buckets
  end.

(** The three statements of an acquisition run at three instants. *)
Record Clock3 := { at_insert : Z; at_select : Z; at_update : Z }.

Definition acquire_global_token (t : Clock3) (key : string * string) (class : DeliveryClass)
    (total_rate bulk_rate burst policy_version : Z) (buckets : GlobalBuckets) :
    bool * GlobalBuckets :=
  let buckets := ensure_bucket (at_insert t) key total_rate bulk_rate burst policy_version buckets in
  match buckets !! key with
  | None => (false, buckets)
  | Some row =>
      let elapsed := elapsed_secs (at_select t) (gb_last_refill_at row) in
      let total := Qmin (gb_total_tokens row + elapsed * inject_Z total_rate) (inject_Z burst) in
      let bulk := Qmin (gb_bulk_tokens row + elapsed * inject_Z bulk_rate) (bulk_capacity burst) in
      let allowed :=
        Qle_bool 1 total && (bool_decide (class = Interactive) || Qle_bool 1 bulk) in
      (allowed, <[key := {|
         gb_policy_version := as_i64 policy_version;
         gb_total_tokens := if allowed then total - 1 else total;
         gb_bulk_tokens :=
           if allowed && bool_decide (class = Bulk) then bulk - 1 else bulk;
         gb_last_refill_at := at_update t;
         gb_total_rate := inject_Z total_rate;
         gb_bulk_rate := inject_Z bulk_rate;
         gb_burst_capacity := inject_Z burst;
         gb_updated_at := at_update t;
       |}]> buckets)
  end.

Definition acquire_non_global_delivery_tokens (t : Clock3) (key : string * string)
    (cost rate policy_version : Z) (buckets : NonGlobalBuckets) : bool * NonGlobalBuckets :=
  if (cost =? 0)%Z then (true, buckets)
  else if ((rate =? 0) || (rate <? cost))%Z then (false, buckets)
  else
    let buckets :=
      match buckets !! key with
      | Some _ => buckets
      | None => <[key := {|
          nb_policy_version := as_i64 policy_version;
          nb_tokens := inject_Z rate;
          nb_last_refill_at := at_insert t;
          nb_rate := inject_Z rate;
          nb_burst_capacity := inject_Z rate;
          nb_updated_at := at_insert t;
        |}]> buckets
      end in
    match buckets !! key with
    | None => (false, buckets)
    | Some row =>
        let available :=
          Qmin (nb_tokens row + elapsed_secs (at_select t) (nb_last_refill_at row) * inject_Z rate)
               (inject_Z rate) in
        let allowed := Qle_bool (inject_Z cost) available in
        (allowed, <[key := {|
           nb_policy_version := as_i64 policy_version;
           nb_tokens := if allowed then available - inject_Z cost else available;
           nb_last_refill_at := at_update t;
           nb_rate := inject_Z rate;
           nb_burst_capacity := inject_Z rate;
           nb_updated_at := at_update t;
         |}]> buckets)
    end.

(** ** Sequences of requests on one bucket *)

(** A request comes with the instants its statements run at. *)
Fixpoint global_run (key : string * string) (total_rate bulk_rate burst policy_version : Z)
    (requests : list (Clock3 * DeliveryClass)) (buckets : GlobalBuckets) :
    list bool * GlobalBuckets :=
  match requests with
  | [] => ([], buckets)
  | (t, class) :: requests =>
      let '(ok, buckets) :=
        acquire_global_token t key class total_rate bulk_rate burst policy_version buckets in
      let '(oks, buckets) :=
        global_run key total_rate bulk_rate burst policy_version requests buckets in
      (ok :: oks, buckets)
  end.

Fixpoint non_global_run (key : string * string) (rate policy_version : Z)
    (requests : list (Clock3 * Z)) (buckets : NonGlobalBuckets) : list bool * NonGlobalBuckets :=
  match requests with
  | [] => ([], buckets)
  | (t, cost) :: requests =>
      let '(ok, buckets) :=
        acquire_non_global_delivery_tokens t key cost rate policy_version buckets in
      let '(oks, buckets) := non_global_run key rate policy_version requests buckets in
      (ok :: oks, buckets)
  end.

(** The database clock does not go backwards between [from] and [to]. *)
Fixpoint clock_between {A} (from : Z) (requests : list (Clock3 * A)) (to : Z) : Prop :=
  match requests with
  | [] => (from <= to)%Z
  | (t, _) :: rest =>
      (from <= at_insert t <= at_select t)%Z ∧ (at_select t <= at_update t)%Z ∧
      clock_between (at_update t) rest to
  end.

(** The number of admitted requests of the classes that satisfy [p]. *)
Fixpoint admitted (p : DeliveryClass -> bool) (requests : list (Clock3 * DeliveryClass))
    (outcomes : list bool) : Z :=
  match requests, outcomes with
  | (_, class) :: requests, ok :: outcomes =>
      ((if ok && p class then 1 else 0) + admitted p requests outcomes)%Z
  | _, _ => 0%Z
  end.

(** The deliveries paid for by the admitted requests. *)
Fixpoint admitted_cost (requests : list (Clock3 * Z)) (outcomes : list bool) : Z :=
  match requests, outcomes with
  | (_, cost) :: requests, ok :: outcomes =>
      ((if ok then cost else 0) + admitted_cost requests outcomes)%Z
  | _, _ => 0%Z
  end.

Definition seconds (from to : Z) : Q := (to - from) # 1000000.

(** ** Lemmas *)

(** [qcases] splits on every minimum and maximum of the goal and context. *)
Ltac qcases :=
  repeat match goal with
  | |- context [Qmin ?a ?b] => let H := fresh in
      destruct (Q.min_spec a b) as [[? H]|[? H]]; generalize dependent (Qmin a b); intros
  | |- context [Qmax ?a ?b] => let H := fresh in
      destruct (Q.max_spec a b) as [[? H]|[? H]]; generalize dependent (Qmax a b); intros
  | H0 : context [Qmin ?a ?b] |- _ => let H := fresh in
      destruct (Q.min_spec a b) as [[? H]|[? H]]; generalize dependent (Qmin a b); intros
  | H0 : context [Qmax ?a ?b] |- _ => let H := fresh in
      destruct (Q.max_spec a b) as [[? H]|[? H]]; generalize dependent (Qmax a b); intros
  end.

(** A refill followed by a withdrawal of [k] that the refilled amount covers:
    what was withdrawn and what is left are bounded by what was there plus the
    refill, and by the capacity. *)
Lemma refill_withdraw (x gain cap k : Q) (ok : bool) :
  0 <= gain → 0 <= cap → 0 <= k →
  (ok = true → k <= Qmin (x + gain) cap) →
  let total := Qmin (x + gain) cap in
  let x' := if ok then total - k else total in
  (if ok then k else 0) + Qmax x' 0 <= Qmax x 0 + gain ∧
  (if ok then k else 0) + Qmax x' 0 <= cap.
Proof.
  intros Hg Hc Hk Hok total x'. subst total x'.
  destruct ok; [specialize (Hok eq_refl)|clear Hok]; qcases; split; lra.
Qed.

Lemma elapsed_secs_nonneg now last : 0 <= elapsed_secs now last.
Proof. apply Q.le_max_r. Qed.

Lemma elapsed_secs_seconds now last :
  (last <= now)%Z → elapsed_secs now last == seconds last now.
Proof.
  intros Hl. unfold elapsed_secs, seconds. apply Q.max_l.
  unfold Qle. cbn. lia.
Qed.

Lemma seconds_mono from to to' : (to <= to')%Z → seconds from to <= seconds from to'.
Proof. intros Hl. unfold seconds, Qle. cbn. lia. Qed.

Lemma seconds_split from mid to : seconds from to == seconds from mid + seconds mid to.
Proof. unfold seconds. rewrite Qinv_plus_distr. unfold Qeq. cbn. lia. Qed.

Lemma seconds_nonneg from to : (from <= to)%Z → 0 <= seconds from to.
Proof. intros Hl. unfold seconds, Qle. cbn. lia. Qed.

Lemma inject_Z_nonneg z : (0 <= z)%Z → 0 <= inject_Z z.
Proof. intros Hz. unfold inject_Z, Qle. cbn. lia. Qed.

Lemma bulk_capacity_nonneg burst : 0 <= bulk_capacity burst.
Proof. apply inject_Z_nonneg. lia. Qed.

(** The row an acquisition reads. *)
Lemma ensure_bucket_lookup now key R Rb B pv buckets :
  ∃ row, ensure_bucket now key R Rb B pv buckets !! key = Some row ∧
    (buckets !! key = Some row ∨ buckets !! key = None ∧ gb_last_refill_at row = now).
Proof.
  unfold ensure_bucket. destruct (buckets !! key) as [row|] eqn:Hk; [by eauto|].
  rewrite lookup_insert_eq. eauto 10.
Qed.

(** One acquisition, seen from either of the two token counts of the row. *)
Record charged (p : DeliveryClass -> bool) (proj : GlobalBucket -> Q) (rate cap : Q)
    (t : Clock3) (class : DeliveryClass) (row : GlobalBucket) (ok : bool)
    (row' : GlobalBucket) : Prop := {
  charged_last : gb_last_refill_at row' = at_update t;
  charged_gain :
    (if ok && p class then 1 else 0) + Qmax (proj row') 0 <=
      Qmax (proj row) 0 + elapsed_secs (at_select t) (gb_last_refill_at row) * rate;
  charged_cap : (if ok && p class then 1 else 0) + Qmax (proj row') 0 <= cap;
}.

Lemma Qle_bool_spec x y : Qle_bool x y = true → x <= y.
Proof. apply Qle_bool_iff. Qed.

Lemma acquire_global_charged t key class R Rb B pv buckets ok buckets' row :
  (0 <= R)%Z → (0 <= Rb)%Z → (0 <= B)%Z →
  ensure_bucket (at_insert t) key R Rb B pv buckets !! key = Some row →
  acquire_global_token t key class R Rb B pv buckets = (ok, buckets') →
  ∃ row', buckets' !! key = Some row' ∧
    charged (fun _ => true) gb_total_tokens (inject_Z R) (inject_Z B) t class row ok row' ∧
    charged (fun c => bool_decide (c = Bulk)) gb_bulk_tokens (inject_Z Rb) (bulk_capacity B)
      t class row ok row'.
Proof.
  intros HR HRb HB Hrow. unfold acquire_global_token. rewrite Hrow.
  set (el := elapsed_secs _ _). pose proof (elapsed_secs_nonneg (at_select t) (gb_last_refill_at row)) as Hel.
  fold el in Hel. apply inject_Z_nonneg in HR, HRb, HB. pose proof (bulk_capacity_nonneg B).
  intros [= Hok <-]. rewrite lookup_insert_eq. eexists; split; [done|].
  rewrite Hok. split; split; try done; cbn [gb_total_tokens gb_bulk_tokens]; fold el.
  1,2: rewrite andb_true_r; edestruct (refill_withdraw (gb_total_tokens row) (el * inject_Z R)
         (inject_Z B) 1 ok) as [? ?]; try done; try nra;
       intros ->; apply andb_true_iff in Hok as [Hok _]; by apply Qle_bool_spec.
  all: edestruct (refill_withdraw (gb_bulk_tokens row) (el * inject_Z Rb)
         (bulk_capacity B) 1 (ok && bool_decide (class = Bulk))) as [? ?]; try done; try nra;
       intros [-> Hb%bool_decide_eq_true]%andb_true_iff; subst class;
       apply andb_true_iff in Hok as [_ Hok]; by apply Qle_bool_spec.
Qed.

Section run_bound.
Context (key : string * string) (R Rb B pv : Z).
Context (p : DeliveryClass -> bool) (proj : GlobalBucket -> Q) (rate cap : Q).
Hypothesis rate_nonneg : 0 <= rate.
Hypothesis cap_nonneg : 0 <= cap.
Hypothesis acquire_charged : ∀ t class buckets ok buckets' row,
  ensure_bucket (at_insert t) key R Rb B pv buckets !! key = Some row →
  acquire_global_token t key class R Rb B pv buckets = (ok, buckets') →
  ∃ row', buckets' !! key = Some row' ∧ charged p proj rate cap t class row ok row'.

Lemma admitted_cons t class requests ok oks :
  inject_Z (admitted p ((t, class) :: requests) (ok :: oks)) ==
    (if ok && p class then 1 else 0) + inject_Z (admitted p requests oks).
Proof. cbn. rewrite inject_Z_plus. by destruct (ok && p class). Qed.

Lemma run_from_row requests : ∀ buckets row from to oks buckets',
  buckets !! key = Some row → gb_last_refill_at row = from →
  clock_between from requests to →
  global_run key R Rb B pv requests buckets = (oks, buckets') →
  inject_Z (admitted p requests oks) <= Qmax (proj row) 0 + seconds from to * rate.
Proof.
  induction requests as [|[t class] requests IH]; intros buckets row from to oks buckets'
    Hrow Hlast Hclock Hrun; cbn [clock_between global_run] in *.
  - injection Hrun as <- <-. cbn. pose proof (seconds_nonneg _ _ Hclock).
    pose proof (Q.le_max_r (proj row) 0). change (inject_Z 0) with 0. nra.
  - destruct Hclock as ([Hc1 Hc2] & Hc3 & Hclock).
    destruct (acquire_global_token _ _ _ _ _ _ _ _) as [ok b1] eqn:Hacq.
    destruct (global_run key R Rb B pv requests b1) as [oks1 b2] eqn:Hrest.
    injection Hrun as <- <-.
    destruct (acquire_charged _ _ _ _ _ row ltac:(unfold ensure_bucket; by rewrite Hrow) Hacq)
      as (row' & Hrow' & [Hl Hg _]).
    specialize (IH _ _ _ _ _ _ Hrow' Hl Hclock Hrest).
    rewrite admitted_cons. rewrite Hlast, elapsed_secs_seconds in Hg by lia.
    pose proof (seconds_split from (at_select t) to).
    pose proof (seconds_split (at_select t) (at_update t) to).
    pose proof (seconds_nonneg _ _ Hc3). nra.
Qed.

Lemma run_bound requests buckets from to oks buckets' :
  clock_between from requests to →
  global_run key R Rb B pv requests buckets = (oks, buckets') →
  inject_Z (admitted p requests oks) <= cap + seconds from to * rate.
Proof.
  destruct requests as [|[t class] requests]; intros Hclock Hrun;
    cbn [clock_between global_run] in *.
  - injection Hrun as <- <-. cbn. pose proof (seconds_nonneg _ _ Hclock).
    change (inject_Z 0) with 0. nra.
  - destruct Hclock as ([Hc1 Hc2] & Hc3 & Hclock).
    destruct (acquire_global_token _ _ _ _ _ _ _ _) as [ok b1] eqn:Hacq.
    destruct (global_run key R Rb B pv requests b1) as [oks1 b2] eqn:Hrest.
    injection Hrun as <- <-.
    destruct (ensure_bucket_lookup (at_insert t) key R Rb B pv buckets) as (row & Hrow & _).
    destruct (acquire_charged _ _ _ _ _ _ Hrow Hacq) as (row' & Hrow' & [Hl _ Hcap]).
    pose proof (run_from_row _ _ _ _ _ _ _ Hrow' Hl Hclock Hrest) as Hr.
    rewrite admitted_cons.
    pose proof (seconds_split from (at_update t) to).
    assert (0 <= seconds from (at_update t)) by (apply seconds_nonneg; lia). nra.
Qed.
End run_bound.

(** One acquisition of delivery tokens either leaves the table alone and charges
    nothing, or charges the row it reads. *)
Lemma acquire_non_global_charged t key cost rate pv buckets ok buckets' :
  (0 <= rate)%Z → (0 <= cost)%Z →
  acquire_non_global_delivery_tokens t key cost rate pv buckets = (ok, buckets') →
  (buckets' = buckets ∧ inject_Z (if ok then cost else 0) == 0) ∨
  ∃ row row', buckets' !! key = Some row' ∧ nb_last_refill_at row' = at_update t ∧
    (buckets !! key = Some row ∨ buckets !! key = None) ∧
    inject_Z (if ok then cost else 0) + Qmax (nb_tokens row') 0 <=
      Qmax (nb_tokens row) 0
      + elapsed_secs (at_select t) (nb_last_refill_at row) * inject_Z rate ∧
    inject_Z (if ok then cost else 0) + Qmax (nb_tokens row') 0 <= inject_Z rate.
Proof.
  intros HR%inject_Z_nonneg HC%inject_Z_nonneg. unfold acquire_non_global_delivery_tokens.
  case_match eqn:Hz.
  { intros [= <- <-]. left. apply Z.eqb_eq in Hz as ->. done. }
  case_match eqn:Hr. { intros [= <- <-]. by left. }
  set (bs := match buckets !! key with Some _ => _ | None => _ end).
  assert (∃ row, bs !! key = Some row ∧ (buckets !! key = Some row ∨ buckets !! key = None))
    as (row & Hrow & Hold).
  { unfold bs. destruct (buckets !! key) eqn:Hk; [by eauto|]. rewrite lookup_insert_eq. eauto. }
  rewrite Hrow. set (el := elapsed_secs _ _).
  pose proof (elapsed_secs_nonneg (at_select t) (nb_last_refill_at row)) as Hel. fold el in Hel.
  intros [= Hok <-]. right. exists row. rewrite lookup_insert_eq. eexists.
  split; [done|]. split; [done|]. split; [done|]. rewrite Hok. cbn [nb_tokens].
  pose proof (refill_withdraw (nb_tokens row) (el * inject_Z rate) (inject_Z rate)
    (inject_Z cost) ok) as [? ?]; try done; [nra| |by destruct ok].
  intros ->. by apply Qle_bool_spec.
Qed.

Lemma admitted_cost_cons t cost requests ok oks :
  inject_Z (admitted_cost ((t, cost) :: requests) (ok :: oks)) ==
    inject_Z (if ok then cost else 0) + inject_Z (admitted_cost requests oks).
Proof. cbn. by rewrite inject_Z_plus. Qed.

Lemma non_global_run_bound key rate pv requests : ∀ buckets from to oks buckets',
  (0 <= rate)%Z → Forall (fun r => (0 <= r.2)%Z) requests →
  clock_between from requests to →
  non_global_run key rate pv requests buckets = (oks, buckets') →
  (∀ row, buckets !! key = Some row → (nb_last_refill_at row <= from)%Z →
     inject_Z (admitted_cost requests oks) <=
       Qmax (nb_tokens row) 0 + seconds (nb_last_refill_at row) to * inject_Z rate) ∧
  inject_Z (admitted_cost requests oks) <= inject_Z rate + seconds from to * inject_Z rate.
Proof.
  induction requests as [|[t cost] requests IH]; intros buckets from to oks buckets' HR Hcosts
    Hclock Hrun; cbn [clock_between non_global_run] in *; pose proof (inject_Z_nonneg _ HR) as HQ.
  - injection Hrun as <- <-. cbn [admitted_cost]. change (inject_Z 0) with 0. split.
    + intros row _ Hl. pose proof (Q.le_max_r (nb_tokens row) 0).
      pose proof (seconds_nonneg (nb_last_refill_at row) to ltac:(lia)). nra.
    + pose proof (seconds_nonneg _ _ Hclock). nra.
  - destruct Hclock as ([Hc1 Hc2] & Hc3 & Hclock). apply Forall_cons in Hcosts as [Hcost Hcosts].
    destruct (acquire_non_global_delivery_tokens _ _ _ _ _ _) as [ok b1] eqn:Hacq.
    destruct (non_global_run key rate pv requests b1) as [oks1 b2] eqn:Hrest.
    injection Hrun as <- <-.
    destruct (IH _ _ _ _ _ HR Hcosts Hclock Hrest) as [IH1 IH2].
    pose proof (seconds_split from (at_update t) to) as Hs.
    pose proof (seconds_nonneg from (at_update t) ltac:(lia)) as Hs0.
    pose proof (admitted_cost_cons t cost requests ok oks1) as Hadm. cbn [snd] in *.
    destruct (acquire_non_global_charged _ _ _ _ _ _ _ _ HR Hcost Hacq)
      as [[-> Hfree]|(row & row' & Hrow' & Hl' & Hold & Hgain & Hcap)].
    + rewrite Hfree in Hadm. split; [|nra]. intros row Hrow Hl.
      specialize (IH1 row Hrow ltac:(lia)). lra.
    + specialize (IH1 row' Hrow' ltac:(lia)). rewrite Hl' in IH1. split; [|nra].
      intros row0 Hrow0 Hl0. destruct Hold as [Hold|Hold]; [|congruence].
      rewrite Hrow0 in Hold. injection Hold as ->.
      rewrite elapsed_secs_seconds in Hgain by lia.
      pose proof (seconds_split (nb_last_refill_at row) (at_select t) to).
      pose proof (seconds_split (at_select t) (at_update t) to).
      pose proof (seconds_nonneg _ _ Hc3). nra.
Qed.

(** ** Properties *)

(** The shared Global bucket enforces its rate.  For any initial contents of
    the table and any sequence of requests whose statements run on a clock that does
    not go backwards, the number of admitted publishes between two instants is at
    most the burst plus the rate times the elapsed seconds, and the number of
    admitted Bulk publishes is at most the Bulk capacity plus the Bulk rate times
    the elapsed seconds. *)
Theorem global_rate_bound key R Rb B pv requests buckets from to oks buckets' :
  (0 <= R)%Z → (0 <= Rb)%Z → (0 <= B)%Z →
  clock_between from requests to →
  global_run key R Rb B pv requests buckets = (oks, buckets') →
  inject_Z (admitted (fun _ => true) requests oks)
    <= inject_Z B + seconds from to * inject_Z R ∧
  inject_Z (admitted (fun c => bool_decide (c = Bulk)) requests oks)
    <= bulk_capacity B + seconds from to * inject_Z Rb.
Proof.
  intros HR HRb HB Hclock Hrun. split.
  - apply (run_bound key R Rb B pv (fun _ => true) gb_total_tokens _ _) with buckets buckets';
      auto using inject_Z_nonneg.
    intros ?????? Hrow Hacq.
    destruct (acquire_global_charged _ _ _ _ _ _ _ _ _ _ _ HR HRb HB Hrow Hacq)
      as (row' & ? & ? & ?). eauto.
  - apply (run_bound key R Rb B pv (fun c => bool_decide (c = Bulk)) gb_bulk_tokens _ _)
      with buckets buckets'; auto using inject_Z_nonneg, bulk_capacity_nonneg.
    intros ?????? Hrow Hacq.
    destruct (acquire_global_charged _ _ _ _ _ _ _ _ _ _ _ HR HRb HB Hrow Hacq)
      as (row' & ? & ? & ?). eauto.
Qed.

Definition sample_clock (t : Z) : Clock3 := {| at_insert := t; at_select := t; at_update := t |}.

Definition sample_requests : list (Clock3 * DeliveryClass) :=
  [(sample_clock 0, Bulk); (sample_clock 0, Bulk); (sample_clock 0, Interactive);
   (sample_clock 0, Interactive)].

Lemma global_rate_bound_witness :
  let oks := (global_run ("net", "cell-0") 1 1 2 1 sample_requests ∅).1 in
  oks = [true; false; true; false] ∧
  inject_Z (admitted (fun _ => true) sample_requests oks)
    <= inject_Z 2 + seconds 0 1000000 * inject_Z 1.
Proof.
  split; [vm_compute; reflexivity|].
  refine (proj1 (global_rate_bound ("net", "cell-0") 1 1 2 1 sample_requests ∅ 0 1000000 _ _
    _ _ _ _ (surjective_pairing _))); done.
Defined.

(** An acquisition is allowed exactly when the refilled bucket holds a token,
    and for Bulk also a Bulk token; the stored counts stay between zero and their
    capacities once they are, so a rejected request never drives a bucket into
    debt. *)
Theorem global_token_decision t key class R Rb B pv buckets ok buckets' row :
  (0 <= R)%Z → (0 <= Rb)%Z → (0 <= B)%Z →
  ensure_bucket (at_insert t) key R Rb B pv buckets !! key = Some row →
  0 <= gb_total_tokens row → 0 <= gb_bulk_tokens row →
  acquire_global_token t key class R Rb B pv buckets = (ok, buckets') →
  let elapsed := elapsed_secs (at_select t) (gb_last_refill_at row) in
  (ok = true ↔
     1 <= Qmin (gb_total_tokens row + elapsed * inject_Z R) (inject_Z B) ∧
     (class = Bulk →
        1 <= Qmin (gb_bulk_tokens row + elapsed * inject_Z Rb) (bulk_capacity B))) ∧
  ∃ row', buckets' !! key = Some row' ∧
    0 <= gb_total_tokens row' <= inject_Z B ∧
    0 <= gb_bulk_tokens row' <= bulk_capacity B.
Proof.
  intros HR HRb HB Hrow Ht Hb. unfold acquire_global_token. rewrite Hrow.
  pose proof (elapsed_secs_nonneg (at_select t) (gb_last_refill_at row)) as Hel.
  apply inject_Z_nonneg in HR, HRb, HB. pose proof (bulk_capacity_nonneg B) as HC.
  intros [= Hok <-]; cbn zeta. rewrite lookup_insert_eq.
  set (el := elapsed_secs _ _) in *. set (tot := Qmin (gb_total_tokens row + _) _) in *.
  set (blk := Qmin (gb_bulk_tokens row + _) _) in *.
  assert (0 <= tot <= inject_Z B) by (unfold tot; qcases; split; nra).
  assert (0 <= blk <= bulk_capacity B) by (unfold blk; qcases; split; nra).
  rewrite Hok. split.
  - rewrite <- Hok, andb_true_iff, orb_true_iff, !Qle_bool_iff, bool_decide_eq_true.
    destruct class; naive_solver.
  - eexists. split; [done|]. cbn [gb_total_tokens gb_bulk_tokens]. destruct ok.
    + apply andb_true_iff in Hok as [H1%Qle_bool_iff H2].
      destruct class.
      * rewrite (bool_decide_false (Interactive = Bulk)) by done. cbn [andb]. split; split; lra.
      * rewrite (bool_decide_false (Bulk = Interactive)) in H2 by done.
        apply Qle_bool_iff in H2. rewrite bool_decide_true by done. cbn [andb]. split; split; lra.
    + cbn [andb]. split; lra.
Qed.

Lemma global_token_decision_witness :
  ∃ row', snd (acquire_global_token (sample_clock 0) ("net", "cell-0") Bulk 1 1 2 1 ∅)
      !! ("net", "cell-0") = Some row' ∧ 0 <= gb_bulk_tokens row'.
Proof.
  edestruct (global_token_decision (sample_clock 0) ("net", "cell-0") Bulk 1 1 2 1 ∅)
    as (_ & row' & Hr & _ & Hb & _);
    [done|done|done|apply lookup_insert_eq|vm_compute; discriminate|vm_compute; discriminate
    |reflexivity|].
  exists row'. split; [exact Hr|exact Hb].
Defined.

(** The shared non-Global bucket bounds fan-out: between two instants the
    admitted requests pay for at most one second of deliveries as burst plus the
    configured deliveries per second times the elapsed seconds, for any initial
    contents of the table and any mix of costs, refused and free requests included. *)
Theorem non_global_rate_bound key rate pv requests buckets from to oks buckets' :
  (0 <= rate)%Z → Forall (fun r => (0 <= r.2)%Z) requests →
  clock_between from requests to →
  non_global_run key rate pv requests buckets = (oks, buckets') →
  inject_Z (admitted_cost requests oks) <= inject_Z rate + seconds from to * inject_Z rate.
Proof. intros ????. by eapply non_global_run_bound. Qed.

Definition sample_deliveries : list (Clock3 * Z) :=
  [(sample_clock 0, 7); (sample_clock 0, 7); (sample_clock 500000, 7);
   (sample_clock 500000, 11)]%Z.

Lemma non_global_rate_bound_witness :
  let oks := (non_global_run ("net", "cell-0") 10 1 sample_deliveries ∅).1 in
  oks = [true; false; true; false] ∧
  inject_Z (admitted_cost sample_deliveries oks)
    <= inject_Z 10 + seconds 0 500000 * inject_Z 10.
Proof.
  split; [vm_compute; reflexivity|].
  refine (non_global_rate_bound ("net", "cell-0") 10 1 sample_deliveries ∅ 0 500000 _ _
    _ _ _ (surjective_pairing _)); [done|by repeat constructor|].
  cbn. lia.
Defined.

(** With a burst of zero the Global bucket refuses every publish of every class
    for ever: the refilled count is capped at zero.  [Config::validate] does not
    reject a zero burst. *)
Theorem zero_burst_refuses t key class R Rb pv buckets :
  (acquire_global_token t key class R Rb 0 pv buckets).1 = false.
Proof.
  unfold acquire_global_token.
  destruct (ensure_bucket_lookup (at_insert t) key R Rb 0 pv buckets) as (row & Hrow & _).
  rewrite Hrow. cbn [fst]. apply andb_false_iff. left.
  apply not_true_iff_false. rewrite Qle_bool_iff. change (inject_Z 0) with 0.
  intros Hle. qcases; lra.
Qed.
