(* ===== verification/Gaps.v ===== *)
(** * Mailbox gaps

    Models [crates/message-gateway/src/gaps.rs] and the [gateway_mailbox_gaps]
    table: a message a mailbox lost (expired or over its delivery limit) is
    recorded as a gap, gaps are handed to the recipient with a delivery page and
    acknowledged when the page is committed.  Times are microseconds, JSONB
    columns are their JSON text, and UUIDs their canonical text. *)

From stdpp Require Import sorting.
From S2P Require Import Prelude Str External.

(** Key of the table: network, principal, gap. *)
Abbreviation GapKey := (string * string * string)%type.

Record GapRow := {
  gp_delivery_class : string;
  gp_delivery_policy_version : Z;
  gp_route_json : string;
  gp_reason : string;
  gp_first_affected_at : Z;
  gp_last_affected_at : Z;
  gp_approximate_count : Z;
  gp_delivered_at : option Z;
  gp_delivery_page_id : option string;
  gp_acknowledged_at : option Z;
}.

Abbreviation GapTable := (gmap GapKey GapRow).

Definition reason_label (reason : MailboxGapReason) : string :=
  match reason with
  | Expired => "expired"
  | DeliveryLimitExceeded => "delivery_limit_exceeded"
  | AdministrativeRemoval => "administrative_removal"
  end.

Definition parse_reason (reason : string) : result string MailboxGapReason :=
  if bool_decide (reason = "expired") then Ok Expired
  else if bool_decide (reason = "delivery_limit_exceeded") then Ok DeliveryLimitExceeded
  else if bool_decide (reason = "administrative_removal") then Ok AdministrativeRemoval
  else Err "invalid stored MailboxGap reason".

(** The crates behind the gap identifier: the JSON serialisation of the tuple it
    is derived from, the UUID made of sixteen bytes, and the range of [chrono]'s
    timestamps. *)
Class GapCodec `{TR : Transport} := {
  gap_tuple_to_vec :
    string * string * DeliveryClass * Z * EventTransportRoute * MailboxGapReason * Z ->
    result string string;
  uuid_from_bytes : string -> string;
  timestamp_millis_in_range : Z -> bool;
}.

Section gaps.
Context `{CL : DeliveryClassOps, SHA : Sha256, TR : Transport, GC : !GapCodec}.

Record MailboxGap := {
  mg_gap_id : string;
  mg_delivery_class : DeliveryClass;
  mg_delivery_policy_version : Z;
  mg_route : EventTransportRoute;
  mg_reason : MailboxGapReason;
  mg_first_affected_at : Z;
  mg_last_affected_at : Z;
  mg_approximate_count : Z;
}.

Definition compressed_gap_id (network_id principal_id : string) (class : DeliveryClass)
    (policy_version : Z) (route : EventTransportRoute) (reason : MailboxGapReason)
    (hour_bucket : Z) : result string string :=
  bytes ← gap_tuple_to_vec
            (network_id, principal_id, class, policy_version, route, reason, hour_bucket);
  Ok (uuid_from_bytes (String.substring 0 16 (sha256 bytes))).

(** [now] is [Utc::now()], used when the millisecond count is out of range. *)
Definition record_gap (now : Z) (network_id principal_id : string) (class : DeliveryClass)
    (policy_version : Z) (route : EventTransportRoute) (reason : MailboxGapReason)
    (affected_at_ms : Z) (gaps : GapTable) : result string (string * GapTable) :=
  gap_id ← compressed_gap_id network_id principal_id class policy_version route reason
             (affected_at_ms / 3600000);
  let affected_at :=
    if timestamp_millis_in_range (as_i64 affected_at_ms)
    then (as_i64 affected_at_ms * 1000)%Z else now in
  route_json ← route_to_json route;
  let key := (network_id, principal_id, gap_id) in
  let row :=
    match gaps !! key with
    | None => {|
        gp_delivery_class := class_as_str class;
        gp_delivery_policy_version := as_i64 policy_version;
        gp_route_json := route_json;
        gp_reason := reason_label reason;
        gp_first_affected_at := affected_at;
        gp_last_affected_at := affected_at;
        gp_approximate_count := 1;
        gp_delivered_at := None;
        gp_delivery_page_id := None;
        gp_acknowledged_at := None;
      |}
    | Some old => {|
        gp_delivery_class := gp_delivery_class old;
        gp_delivery_policy_version := gp_delivery_policy_version old;
        gp_route_json := gp_route_json old;
        gp_reason := gp_reason old;
        gp_first_affected_at := gp_first_affected_at old;
        gp_last_affected_at := Z.max (gp_last_affected_at old) affected_at;
        gp_approximate_count := gp_approximate_count old + 1;
        gp_delivered_at := gp_delivered_at old;
        gp_delivery_page_id := gp_delivery_page_id old;
        gp_acknowledged_at := gp_acknowledged_at old;
      |}
    end in
  Ok (gap_id, <[key := row]> gaps).

(** [WHERE network_id = $1 AND principal_id = $2 AND delivery_class = $3
    AND acknowledged_at IS NULL] *)
Definition gap_pending (network_id principal_id : string) (class : DeliveryClass)
    (key : GapKey) (row : GapRow) : Prop :=
  key.1 = (network_id, principal_id) ∧ gp_delivery_class row = class_as_str class ∧
  gp_acknowledged_at row = None.

(** [delivery_page_id IS NULL OR delivery_page_id = $4
    OR delivered_at <= now - $6 milliseconds] *)
Definition gap_deliverable (now : Z) (page_id : string) (redelivery_after_ms : Z)
    (row : GapRow) : Prop :=
  gp_delivery_page_id row = None ∨ gp_delivery_page_id row = Some page_id ∨
  match gp_delivered_at row with
  | Some d => (d <= now - redelivery_after_ms * 1000)%Z
  | None => False
  end.

#[export] Instance gap_pending_dec n p c k r : Decision (gap_pending n p c k r).
Proof. unfold gap_pending. apply _. Defined.
#[export] Instance gap_deliverable_dec now page ms r : Decision (gap_deliverable now page ms r).
Proof. unfold gap_deliverable. destruct (gp_delivered_at r); apply _. Defined.

(** [ORDER BY first_affected_at, gap_id] *)
Definition gap_le (a b : GapKey * GapRow) : Prop :=
  (gp_first_affected_at a.2 < gp_first_affected_at b.2)%Z ∨
  gp_first_affected_at a.2 = gp_first_affected_at b.2 ∧ String.leb a.1.2 b.1.2 = true.
#[export] Instance gap_le_dec : RelDecision gap_le.
Proof. intros a b. unfold gap_le. apply _. Defined.

Definition select_gaps (now : Z) (network_id principal_id : string) (class : DeliveryClass)
    (page_id : string) (limit redelivery_after_ms : Z) (gaps : GapTable) :
    list (GapKey * GapRow) :=
  take (Z.to_nat limit) (merge_sort gap_le
    (map_to_list (filter (fun kr =>
       gap_pending network_id principal_id class kr.1 kr.2 ∧
       gap_deliverable now page_id redelivery_after_ms kr.2) gaps))).

(** [SET delivery_page_id = $4, delivered_at = now WHERE ... gap_id = ANY($5)] *)
Definition mark_delivered (now : Z) (network_id principal_id : string) (class : DeliveryClass)
    (page_id : string) (ids : list string) (gaps : GapTable) : GapTable :=
  map_imap (fun key row => Some
    (if decide (gap_pending network_id principal_id class key row ∧ key.2 ∈ ids)
     then {|
        gp_delivery_class := gp_delivery_class row;
        gp_delivery_policy_version := gp_delivery_policy_version row;
        gp_route_json := gp_route_json row;
        gp_reason := gp_reason row;
        gp_first_affected_at := gp_first_affected_at row;
        gp_last_affected_at := gp_last_affected_at row;
        gp_approximate_count := gp_approximate_count row;
        gp_delivered_at := Some now;
        gp_delivery_page_id := Some page_id;
        gp_acknowledged_at := gp_acknowledged_at row;
      |} else row)) gaps.

Definition gap_of_row (class : DeliveryClass) (kr : GapKey * GapRow) :
    result string MailboxGap :=
  let row := kr.2 in
  route ← route_from_json (gp_route_json row);
  reason ← parse_reason (gp_reason row);
  Ok {|
    mg_gap_id := kr.1.2;
    mg_delivery_class := class;
    mg_delivery_policy_version := as_u64 (gp_delivery_policy_version row);
    mg_route := route;
    mg_reason := reason;
    mg_first_affected_at := as_u64 (gp_first_affected_at row / 1000);
    mg_last_affected_at := as_u64 (gp_last_affected_at row / 1000);
    mg_approximate_count := as_u64 (gp_approximate_count row);
  |}.

(** [rows.into_iter().map(..).collect::<Result<Vec<_>>>()] *)
Fixpoint gaps_of_rows (class : DeliveryClass) (rows : list (GapKey * GapRow)) :
    result string (list MailboxGap) :=
  match rows with
  | [] => Ok []
  | row :: rows =>
      gap ← gap_of_row class row;
      gaps ← gaps_of_rows class rows;
      Ok (gap :: gaps)
  end.

(** The page is marked before the rows are decoded, so the table changes even
    when decoding fails.  [select_at] and [update_at] are the clock readings of
    the two statements. *)
Definition load_for_page (select_at update_at : Z) (network_id principal_id : string)
    (class : DeliveryClass) (page_id : string) (limit redelivery_after_ms : Z) :
    M GapTable string (list MailboxGap) :=
  redelivery_after_ms ← lift (ok_or (i64_try_from redelivery_after_ms) "duration too large");
  _ ← lift (bail_if (as_i64 limit <? 0)%Z "LIMIT must not be negative");
  rows ← gets (select_gaps select_at network_id principal_id class page_id (as_i64 limit)
                 redelivery_after_ms);
  _ ← whenM (negb (bool_decide (rows = [])))
        (modify (mark_delivered update_at network_id principal_id class page_id
                   (map (fun kr => kr.1.2) rows)));
  lift (gaps_of_rows class rows).

Definition gap_on_page (network_id principal_id : string) (class : DeliveryClass)
    (page_id : string) (key : GapKey) (row : GapRow) : Prop :=
  gap_pending network_id principal_id class key row ∧ gp_delivery_page_id row = Some page_id.
#[export] Instance gap_on_page_dec n p c pg k r : Decision (gap_on_page n p c pg k r).
Proof. unfold gap_on_page. apply _. Defined.

(** The number of acknowledged gaps is [rows_affected()]. *)
Definition acknowledge_page (now : Z) (network_id principal_id : string)
    (class : DeliveryClass) (page_id : string) (gaps : GapTable) : Z * GapTable :=
  (Z.of_nat (size (filter (fun kr => gap_on_page network_id principal_id class page_id kr.1 kr.2)
                     gaps)),
   map_imap (fun key row => Some
     (if decide (gap_on_page network_id principal_id class page_id key row)
      then {|
        gp_delivery_class := gp_delivery_class row;
        gp_delivery_policy_version := gp_delivery_policy_version row;
        gp_route_json := gp_route_json row;
        gp_reason := gp_reason row;
        gp_first_affected_at := gp_first_affected_at row;
        gp_last_affected_at := gp_last_affected_at row;
        gp_approximate_count := gp_approximate_count row;
        gp_delivered_at := gp_delivered_at row;
        gp_delivery_page_id := gp_delivery_page_id row;
        gp_acknowledged_at := Some now;
      |} else row)) gaps).

(** [acknowledged_at IS NOT NULL AND acknowledged_at <= now - retention] *)
Definition gap_forgettable (now retention_ms : Z) (row : GapRow) : bool :=
  match gp_acknowledged_at row with
  | Some acknowledged_at => (acknowledged_at <=? now - retention_ms * 1000)%Z
  | None => false
  end.

(** The gap part of [cleanup_expired_metadata]. *)
Definition cleanup_acknowledged_gaps (now retention_ms : Z) (gaps : GapTable) : GapTable :=
  filter (fun kr => gap_forgettable now retention_ms kr.2 = false) gaps.
End gaps.

(** ** Lemmas *)

Lemma parse_reason_label r : parse_reason (reason_label r) = Ok r.
Proof. by destruct r. Qed.

Section gap_lemmas.
Context `{CL : DeliveryClassOps, SHA : Sha256, TR : Transport, GC : !GapCodec}.

Lemma elem_of_select_gaps now n p c pg limit ms gaps kr :
  kr ∈ select_gaps now n p c pg limit ms gaps →
  gaps !! kr.1 = Some kr.2 ∧ gap_pending n p c kr.1 kr.2 ∧ gap_deliverable now pg ms kr.2.
Proof.
  destruct kr as [k r]. unfold select_gaps. intros Hin.
  apply elem_of_take in Hin as (i & Hin%list_elem_of_lookup_2 & _).
  rewrite merge_sort_Permutation, elem_of_map_to_list, map_lookup_filter_Some in Hin.
  naive_solver.
Qed.

(** Under its limit the selection misses nothing. *)
Lemma select_gaps_complete now n p c pg limit ms gaps k r :
  gaps !! k = Some r → gap_pending n p c k r → gap_deliverable now pg ms r →
  (Z.of_nat (size gaps) <= limit)%Z →
  (k, r) ∈ select_gaps now n p c pg limit ms gaps.
Proof.
  intros Hk Hp Hd Hl. unfold select_gaps. rewrite take_ge.
  - rewrite merge_sort_Permutation, elem_of_map_to_list, map_lookup_filter_Some. done.
  - rewrite merge_sort_Permutation, length_map_to_list.
    etransitivity; [apply map_subseteq_size, map_filter_subseteq|]. lia.
Qed.

Lemma length_select_gaps now n p c pg limit ms gaps :
  length (select_gaps now n p c pg limit ms gaps) ≤ Z.to_nat limit.
Proof. unfold select_gaps. rewrite length_take. lia. Qed.

Lemma mark_delivered_lookup now n p c pg ids gaps k :
  mark_delivered now n p c pg ids gaps !! k =
    (fun row => if decide (gap_pending n p c k row ∧ k.2 ∈ ids)
     then Build_GapRow (gp_delivery_class row) (gp_delivery_policy_version row)
            (gp_route_json row) (gp_reason row) (gp_first_affected_at row)
            (gp_last_affected_at row) (gp_approximate_count row) (Some now) (Some pg)
            (gp_acknowledged_at row)
     else row) <$> gaps !! k.
Proof. unfold mark_delivered. rewrite map_lookup_imap. by destruct (gaps !! k). Qed.

Lemma acknowledge_lookup now n p c pg gaps k :
  (acknowledge_page now n p c pg gaps).2 !! k =
    (fun row => if decide (gap_on_page n p c pg k row)
     then Build_GapRow (gp_delivery_class row) (gp_delivery_policy_version row)
            (gp_route_json row) (gp_reason row) (gp_first_affected_at row)
            (gp_last_affected_at row) (gp_approximate_count row) (gp_delivered_at row)
            (gp_delivery_page_id row) (Some now)
     else row) <$> gaps !! k.
Proof. unfold acknowledge_page; cbn. rewrite map_lookup_imap. by destruct (gaps !! k). Qed.

(** A pending row of the page is counted. *)
Lemma acknowledge_positive now n p c pg gaps k row :
  gaps !! k = Some row → gap_on_page n p c pg k row →
  (0 < (acknowledge_page now n p c pg gaps).1)%Z.
Proof.
  intros Hk Hon. unfold acknowledge_page. cbn.
  set (f := filter _ gaps). assert (f !! k = Some row) as Hf by (by apply map_lookup_filter_Some).
  assert (size f ≠ 0) as Hs; [|lia]. apply map_size_ne_0_lookup. by exists k; eexists.
Qed.

(** The gaps of a page are the decodings of the selected rows, in order. *)
Lemma gaps_of_rows_Forall2 c rows gaps :
  gaps_of_rows c rows = Ok gaps → Forall2 (fun row gap => gap_of_row c row = Ok gap) rows gaps.
Proof.
  revert gaps. induction rows as [|row rows IH]; cbn; intros gaps Hg; inv_result; auto.
Qed.

Lemma gap_of_row_id c kr g : gap_of_row c kr = Ok g → mg_gap_id g = kr.1.2.
Proof. unfold gap_of_row. intros Hg. by inv_result. Qed.

(** What a successful load did. *)
Lemma load_for_page_ok t1 t2 n p c pg limit ms s out s' :
  load_for_page t1 t2 n p c pg limit ms s = (Ok out, s') →
  let rows := select_gaps t1 n p c pg (as_i64 limit) ms s in
  Forall2 (fun row gap => gap_of_row c row = Ok gap) rows out ∧
  s' = mark_delivered t2 n p c pg (map (fun kr => kr.1.2) rows) s.
Proof.
  unfold load_for_page. intros Hl. inv_M. inv_result.
  match goal with Hm : i64_try_from _ = _ |- _ =>
    unfold i64_try_from in Hm; case_match; simplify_eq end.
  match goal with Hm : gaps_of_rows _ _ = _ |- _ =>
    apply gaps_of_rows_Forall2 in Hm; split; [exact Hm|] end.
  match goal with Hm : whenM _ _ _ = _ |- _ => rename Hm into Hw end.
  unfold whenM in Hw. case_bool_decide as Hnil; cbn [negb] in Hw; inv_M; [|done].
  rewrite Hnil. cbn. apply map_eq. intros k. rewrite mark_delivered_lookup.
  destruct (_ !! k); [|done]. cbn. rewrite decide_False; [done|]. set_solver.
Qed.

(** The row a gap of the page was decoded from, after the load. *)
Lemma load_for_page_gap t1 t2 n p c pg limit ms s out s' g :
  load_for_page t1 t2 n p c pg limit ms s = (Ok out, s') → g ∈ out →
  ∃ row, s !! (n, p, mg_gap_id g) = Some row ∧ gap_of_row c ((n, p, mg_gap_id g), row) = Ok g ∧
    gap_deliverable t1 pg ms row ∧
    ∃ row', s' !! (n, p, mg_gap_id g) = Some row' ∧ gap_on_page n p c pg (n, p, mg_gap_id g) row' ∧
      gp_delivered_at row' = Some t2.
Proof.
  intros [Hrows ->]%load_for_page_ok Hg.
  apply list_elem_of_lookup_1 in Hg as [i Hi].
  destruct (Forall2_lookup_r _ _ _ _ _ Hrows Hi) as ([[[n' p'] id] row] & Hkr & Hdec).
  apply list_elem_of_lookup_2 in Hkr as Hin.
  destruct (elem_of_select_gaps _ _ _ _ _ _ _ _ _ Hin) as (Hs & Hp & Hd); cbn in *.
  pose proof (gap_of_row_id _ _ _ Hdec) as Hid. cbn in Hid. subst id.
  assert (n' = n ∧ p' = p) as [-> ->] by (destruct Hp as [[= -> ->] _]; done).
  exists row. split_and!; [done..|]. rewrite mark_delivered_lookup, Hs; cbn.
  rewrite decide_True.
  - eexists. split; [done|]. split; [|done]. split; [|done].
    destruct Hp as (? & ? & ?). by split_and!.
  - split; [done|]. apply list_elem_of_fmap. by exists ((n, p, mg_gap_id g), row).
Qed.

(** An acknowledged row is never part of a page. *)
Lemma load_for_page_unacknowledged t1 t2 n p c pg limit ms s out s' id row :
  load_for_page t1 t2 n p c pg limit ms s = (Ok out, s') →
  s !! (n, p, id) = Some row → gp_acknowledged_at row ≠ None →
  id ∉ map mg_gap_id out.
Proof.
  intros Hl Hrow Hack (g & -> & Hg)%list_elem_of_fmap.
  destruct (load_for_page_gap _ _ _ _ _ _ _ _ _ _ _ _ Hl Hg)
    as (row0 & Hrow0 & _ & _ & row' & Hrow' & ((_ & _ & Hnone) & _) & _).
  apply load_for_page_ok in Hl as [_ ->].
  rewrite mark_delivered_lookup, Hrow in Hrow'. cbn in Hrow'.
  case_decide; simplify_eq; done.
Qed.

(** Neither is a row that is not deliverable on the page. *)
Lemma load_for_page_deliverable t1 t2 n p c pg limit ms s out s' id row :
  load_for_page t1 t2 n p c pg limit ms s = (Ok out, s') →
  s !! (n, p, id) = Some row → id ∈ map mg_gap_id out → gap_deliverable t1 pg ms row.
Proof.
  intros Hl Hrow (g & -> & Hg)%list_elem_of_fmap.
  destruct (load_for_page_gap _ _ _ _ _ _ _ _ _ _ _ _ Hl Hg) as (row0 & Hrow0 & _ & Hd & _).
  by simplify_eq.
Qed.

(** Under the limit, every pending deliverable row is part of the page. *)
Lemma load_for_page_complete t1 t2 n p c pg limit ms s out s' id row :
  load_for_page t1 t2 n p c pg limit ms s = (Ok out, s') →
  s !! (n, p, id) = Some row → gap_pending n p c (n, p, id) row →
  gap_deliverable t1 pg ms row → (Z.of_nat (size s) <= as_i64 limit)%Z →
  id ∈ map mg_gap_id out.
Proof.
  intros [Hrows _]%load_for_page_ok Hrow Hp Hd Hl.
  pose proof (select_gaps_complete t1 n p c pg (as_i64 limit) ms s _ _ Hrow Hp Hd Hl) as Hin.
  apply list_elem_of_lookup_1 in Hin as [i Hi].
  destruct (Forall2_lookup_l _ _ _ _ _ Hrows Hi) as (g & Hg & Hdec).
  apply list_elem_of_fmap. exists g. split; [by apply gap_of_row_id in Hdec|].
  by eapply list_elem_of_lookup_2.
Qed.
End gap_lemmas.

(** ** Properties *)

(** A codec for the examples. *)
Definition gap_codec_impl : @GapCodec transport_impl := {|
  gap_tuple_to_vec '(n, p, c, v, r, reason, hour) :=
    Ok (length_prefixed n (length_prefixed p (reason_label reason +:+ show_u64 hour)));
  uuid_from_bytes := id;
  timestamp_millis_in_range ms := (Z.abs ms <=? 8334601228799999)%Z;
|}.

Definition sample_gap_row (delivered : option Z) (page : option string) (ack : option Z) : GapRow := {|
  gp_delivery_class := "bulk"; gp_delivery_policy_version := 1; gp_route_json := "1";
  gp_reason := "expired"; gp_first_affected_at := 7000; gp_last_affected_at := 9000;
  gp_approximate_count := 3; gp_delivered_at := delivered; gp_delivery_page_id := page;
  gp_acknowledged_at := ack;
|}.

Definition sample_gaps : GapTable :=
  {[ ("net", "alice", "gap-1") := sample_gap_row None None None ]}.

(** A committed page acknowledges exactly its own gaps, once.  After a page has
    been loaded and acknowledged, every gap the page carried is acknowledged, every
    row that was not on the page is untouched, and no later page of the mailbox
    carries any of those gaps again. *)
Theorem gap_page_commit `{CL : DeliveryClassOps, SHA : Sha256, TR : Transport, GC : !GapCodec}
    t1 t2 t3 n p c pg limit ms s out s1 k s2 :
  load_for_page t1 t2 n p c pg limit ms s = (Ok out, s1) →
  acknowledge_page t3 n p c pg s1 = (k, s2) →
  (∀ g, g ∈ out → ∃ row, s2 !! (n, p, mg_gap_id g) = Some row ∧ gp_acknowledged_at row = Some t3) ∧
  (∀ key row, s1 !! key = Some row → ¬ gap_on_page n p c pg key row → s2 !! key = Some row) ∧
  (∀ t1' t2' pg' limit' out' s3, load_for_page t1' t2' n p c pg' limit' ms s2 = (Ok out', s3) →
     ∀ g, g ∈ out → mg_gap_id g ∉ map mg_gap_id out').
Proof.
  intros Hl Hack.
  assert (s2 = (acknowledge_page t3 n p c pg s1).2) as -> by (by rewrite Hack).
  assert (∀ g, g ∈ out → ∃ row, (acknowledge_page t3 n p c pg s1).2 !! (n, p, mg_gap_id g) = Some row
    ∧ gp_acknowledged_at row = Some t3) as Hdone.
  { intros g Hg.
    destruct (load_for_page_gap _ _ _ _ _ _ _ _ _ _ _ _ Hl Hg)
      as (_ & _ & _ & _ & row' & Hrow' & Hpage & _).
    rewrite acknowledge_lookup, Hrow'. cbn. rewrite decide_True by done. by eexists. }
  split; [done|]. split.
  - intros key row Hrow Hno. by rewrite acknowledge_lookup, Hrow; cbn; rewrite decide_False.
  - intros t1' t2' pg' limit' out' s3 Hl' g Hg. destruct (Hdone g Hg) as (row & Hrow & Hr).
    eapply load_for_page_unacknowledged; [done..|]. by rewrite Hr.
Qed.

Definition sample_load (now : Z) (page : string) : M GapTable string (list MailboxGap) :=
  load_for_page (CL:=class_impl) (TR:=transport_impl) now now "net" "alice" Bulk page 64 30.

Lemma gap_page_commit_witness :
  ∃ out, (sample_load 0 "page-1" sample_gaps).1 = Ok out ∧ length out = 1 ∧
    ∀ g, g ∈ out → ∃ row,
      (acknowledge_page (CL:=class_impl) 9 "net" "alice" Bulk "page-1"
         (sample_load 0 "page-1" sample_gaps).2).2 !! ("net", "alice", mg_gap_id g) = Some row
      ∧ gp_acknowledged_at row = Some 9%Z.
Proof.
  eexists. split; [vm_compute; reflexivity|]. split; [reflexivity|].
  eapply (@gap_page_commit class_impl sha256_id transport_impl gap_codec_impl
    0 0 9 "net" "alice" Bulk "page-1" 64 30 sample_gaps).
  - apply M_run_ok. vm_compute. reflexivity.
  - apply surjective_pairing.
Defined.

(** An unacknowledged gap is redelivered, and not before its lease: after a page
    has been loaded, another page of the mailbox does not carry the gap while the
    redelivery period runs, and carries it again once the period has passed (the
    page limit permitting). *)
Theorem gap_redelivery `{CL : DeliveryClassOps, SHA : Sha256, TR : Transport, GC : !GapCodec}
    t1 t2 n p c pg limit ms s out s1 g t t' pg' limit' out' s2 :
  load_for_page t1 t2 n p c pg limit ms s = (Ok out, s1) → g ∈ out → pg' ≠ pg →
  load_for_page t t' n p c pg' limit' ms s1 = (Ok out', s2) →
  (Z.of_nat (size s1) <= as_i64 limit')%Z →
  mg_gap_id g ∈ map mg_gap_id out' ↔ (t2 + ms * 1000 <= t)%Z.
Proof.
  intros Hl Hg Hne Hl' Hsz.
  destruct (load_for_page_gap _ _ _ _ _ _ _ _ _ _ _ _ Hl Hg)
    as (_ & _ & _ & _ & row' & Hrow' & (Hp & Hpg) & Hd).
  split.
  - intros Hin. pose proof (load_for_page_deliverable _ _ _ _ _ _ _ _ _ _ _ _ _ Hl' Hrow' Hin) as Hdel.
    unfold gap_deliverable in Hdel. rewrite Hpg, Hd in Hdel. naive_solver lia.
  - intros Ht. eapply load_for_page_complete; [done..| |done].
    unfold gap_deliverable. rewrite Hd. right. right. lia.
Qed.

Lemma gap_redelivery_witness :
  ∃ g out', (sample_load 0 "page-1" sample_gaps).1 = Ok [g] ∧
    (sample_load 30000 "page-2" (sample_load 0 "page-1" sample_gaps).2).1 = Ok out' ∧
    mg_gap_id g ∈ map mg_gap_id out'.
Proof.
  do 2 eexists. split; [vm_compute; reflexivity|]. split; [vm_compute; reflexivity|].
  eapply (@gap_redelivery class_impl sha256_id transport_impl gap_codec_impl
    0 0 "net" "alice" Bulk "page-1" 64 30 sample_gaps _ _ _ 30000 30000 "page-2" 64).
  - apply M_run_ok. vm_compute. reflexivity.
  - apply list_elem_of_singleton. reflexivity.
  - discriminate.
  - apply M_run_ok. vm_compute. reflexivity.
  - vm_compute. discriminate.
  - vm_compute. discriminate.
Defined.

(** A loss recorded against a gap that was already acknowledged in the same
    hour is never reported: the row keeps its acknowledgement while its count grows,
    so no page of the mailbox carries it. *)
Theorem gap_after_acknowledgement_lost `{CL : DeliveryClassOps, SHA : Sha256, TR : Transport, GC : !GapCodec}
    now n p c v r reason ms s id s' row acknowledged_at :
  record_gap now n p c v r reason ms s = Ok (id, s') →
  s !! (n, p, id) = Some row → gp_acknowledged_at row = Some acknowledged_at →
  (∃ row', s' !! (n, p, id) = Some row' ∧
     gp_approximate_count row' = (gp_approximate_count row + 1)%Z) ∧
  ∀ t1 t2 pg limit after out s2,
    load_for_page t1 t2 n p c pg limit after s' = (Ok out, s2) → id ∉ map mg_gap_id out.
Proof.
  unfold record_gap. intros Hr Hrow Hack. inv_result. simplify_eq.
  rewrite Hrow, lookup_insert_eq. split; [by eexists|].
  intros t1 t2 pg limit after out s2 Hl.
  eapply load_for_page_unacknowledged; [done|apply lookup_insert_eq|]. cbn. by rewrite Hack.
Qed.

Definition sample_group_route : sample_route :=
  {| sr_scope := Group "g"; sr_lane := Events; sr_address := "b" |}.

Definition sample_record (s : GapTable) : result string (string * GapTable) :=
  record_gap (CL:=class_impl) (SHA:=sha256_id) (GC:=gap_codec_impl) 0 "net" "alice" Bulk 1
    sample_group_route Expired 5 s.

Definition sample_acknowledged : GapTable :=
  {[ ("net", "alice", "3:net5:aliceexpi") := sample_gap_row (Some 1%Z) (Some "page-1") (Some 2%Z) ]}.

Lemma gap_after_acknowledgement_lost_witness :
  ∃ id s', sample_record sample_acknowledged = Ok (id, s') ∧
    ∃ row', s' !! ("net", "alice", id) = Some row' ∧ gp_approximate_count row' = 4%Z.
Proof.
  do 2 eexists. split; [reflexivity|].
  refine (proj1 (@gap_after_acknowledgement_lost class_impl sha256_id transport_impl gap_codec_impl
    0 "net" "alice" Bulk 1 sample_group_route Expired 5 sample_acknowledged
    _ _ (sample_gap_row (Some 1%Z) (Some "page-1") (Some 2%Z)) 2 eq_refl _ _)); reflexivity.
Defined.

(** A gap survives its trip through the database: a newly recorded loss is
    decoded back with the class, policy version, route and reason it was recorded
    with, a count of one, and the millisecond timestamp of the loss. *)
Theorem recorded_gap_roundtrip `{CL : DeliveryClassOps, SHA : Sha256, TR : Transport, GC : !GapCodec, !TransportLaws}
    now n p c v r reason ms s id s' :
  record_gap now n p c v r reason ms s = Ok (id, s') →
  s !! (n, p, id) = None → is_u64 v → (0 <= ms <= i64_max)%Z →
  timestamp_millis_in_range ms = true →
  ∃ row, s' !! (n, p, id) = Some row ∧
    gap_of_row c ((n, p, id), row) = Ok {|
      mg_gap_id := id; mg_delivery_class := c; mg_delivery_policy_version := v;
      mg_route := r; mg_reason := reason; mg_first_affected_at := ms;
      mg_last_affected_at := ms; mg_approximate_count := 1 |}.
Proof.
  unfold record_gap. intros Hr Hnone Hv Hms Hrange. inv_result. simplify_eq.
  rewrite Hnone, lookup_insert_eq. eexists. split; [done|]. unfold gap_of_row. cbn.
  erewrite route_json_roundtrip by done. cbn. rewrite parse_reason_label. cbn.
  rewrite as_u64_as_i64 by done. rewrite as_i64_small by done. rewrite Hrange.
  rewrite Z.div_mul by done. rewrite (as_u64_small ms); [done|].
  unfold is_u64, u64_max, i64_max in *. lia.
Qed.

Lemma recorded_gap_roundtrip_witness :
  ∃ id s' row, sample_record ∅ = Ok (id, s') ∧ s' !! ("net", "alice", id) = Some row ∧
    gap_of_row (TR:=transport_impl) Bulk (("net", "alice", id), row) = Ok {|
      mg_gap_id := id; mg_delivery_class := Bulk; mg_delivery_policy_version := 1;
      mg_route := (sample_group_route : @EventTransportRoute transport_impl); mg_reason := Expired; mg_first_affected_at := 5;
      mg_last_affected_at := 5; mg_approximate_count := 1 |}.
Proof.
  edestruct (@recorded_gap_roundtrip class_impl sha256_id transport_impl gap_codec_impl
    transport_impl_laws 0 "net" "alice" Bulk 1 sample_group_route Expired 5 ∅)
    as (row & Hrow & Hgap).
  - reflexivity.
  - reflexivity.
  - unfold is_u64, u64_max. lia.
  - unfold i64_max. lia.
  - reflexivity.
  - do 2 eexists. exists row. split; [reflexivity|]. split; [exact Hrow|exact Hgap].
Defined.
