(* ===== verification/Observability.v ===== *)
(** * Runtime metrics of the Message Gateway

    Models [crates/message-gateway/src/observability.rs] up to its runtime
    snapshot: the counters and latency samples behind [GatewayObservability] and
    every [record_*] method.  The other components emit an [ObsEvent] per call of
    such a method; [record] interprets it.  [RuntimeState]'s counter fields are
    the constructors of [Counter], its latency fields those of [LatencyField],
    all of them initially [Default::default()].  The snapshots read from the
    database ([operational_snapshot] and its helpers) are not modelled. *)

From stdpp Require Import sorting.
From S2P Require Import Prelude Str External.

Inductive PublishConfirmOutcome := Confirmed | Nack | Unroutable | ConfirmError.
Global Instance PublishConfirmOutcome_eq_dec : EqDecision PublishConfirmOutcome.
Proof. solve_decision. Defined.

(** A call of a [record_*] method.  [elapsed_ms] is [started.elapsed()] in
    milliseconds at the call. *)
Inductive ObsEvent :=
| RecordSession (accepted : bool)
| RecordDuplicatePublish
| RecordPublishConfirm (network_id : string) (scope : SwarmScope) (lane : PropagationLane)
    (expected_recipients : Z) (elapsed_ms : Z) (outcome : PublishConfirmOutcome)
| RecordBinding (elapsed_ms : Z) (success : bool)
| RecordMembershipUpdate (elapsed_ms : Z) (success : bool)
| RecordOldMembershipVersionRejection
| RecordBackpressure (global : bool)
| RecordPostgresFailClosed
| RecordTokenBucketAcquire (elapsed_ms : Z) (global : bool)
| RecordDeliveryPage (elapsed_ms : Z) (deliveries redeliveries : Z)
| RecordCommit (elapsed_ms : Z) (forwarded success : bool)
| RecordOwnerLostRequeue (count : Z)
| RecordDeadLetter (bytes : Z) (expired : bool).

Record LatencySamples := {
  ls_count : Z;
  ls_total_ms : Z;
  ls_max_ms : Z;
  ls_samples_ms : list Z;
}.

Definition latency_default : LatencySamples :=
  {| ls_count := 0; ls_total_ms := 0; ls_max_ms := 0; ls_samples_ms := [] |}.

Record LatencySnapshot := {
  lp_count : Z;
  lp_average_ms : Z;
  lp_max_ms : Z;
  lp_p50_ms : Z;
  lp_p95_ms : Z;
}.

(** [u64::try_from(elapsed.as_millis()).unwrap_or(u64::MAX)] *)
Definition elapsed_millis (elapsed_ms : Z) : Z := Z.min elapsed_ms u64_max.

Definition observe (s : LatencySamples) (elapsed_ms : Z) : LatencySamples :=
  let millis := elapsed_millis elapsed_ms in
  {| ls_count := sat_add (ls_count s) 1;
     ls_total_ms := sat_add (ls_total_ms s) millis;
     ls_max_ms := Z.max (ls_max_ms s) millis;
     ls_samples_ms :=
       (if decide (length (ls_samples_ms s) = 512) then tail (ls_samples_ms s)
        else ls_samples_ms s) ++ [millis] |}.

Definition percentile (samples : list Z) (pct : nat) : Z :=
  if decide (samples = []) then 0%Z
  else default 0%Z (samples !! ((length samples - 1) * pct / 100)).

Definition latency_snapshot (s : LatencySamples) : LatencySnapshot :=
  let samples := merge_sort Z.le (ls_samples_ms s) in
  {| lp_count := ls_count s;
     lp_average_ms := if (ls_count s =? 0)%Z then 0%Z else (ls_total_ms s / ls_count s)%Z;
     lp_max_ms := ls_max_ms s;
     lp_p50_ms := percentile samples 50;
     lp_p95_ms := percentile samples 95 |}.

Inductive Counter :=
| sessions_accepted | sessions_rejected | duplicate_publishes_suppressed
| publish_nacks | publish_unroutable | publish_errors
| binding_attempts | binding_failures
| membership_updates | membership_update_failures | old_membership_version_rejections
| global_backpressure | non_global_backpressure | postgres_fail_closed
| delivery_pages | recipient_deliveries | mailbox_deliveries_pulled | redeliveries
| local_commits | forwarded_commits | commit_forward_failures | owner_lost_requeues
| dead_letters | dead_letter_bytes | expired_dead_letters | delivery_limit_dead_letters.
Global Instance Counter_eq_dec : EqDecision Counter.
Proof. solve_decision. Defined.

Inductive LatencyField :=
| confirm_latency | delivery_page_latency | commit_latency | binding_latency
| membership_binding_latency | global_token_acquire_latency | non_global_token_acquire_latency.
Global Instance LatencyField_eq_dec : EqDecision LatencyField.
Proof. solve_decision. Defined.

Record FanoutRuntime := {
  fr_publishes : Z;
  fr_expected_recipients : Z;
  fr_recipient_deliveries : Z;
  fr_confirm_latency : LatencySamples;
}.

Definition fanout_default : FanoutRuntime :=
  {| fr_publishes := 0; fr_expected_recipients := 0; fr_recipient_deliveries := 0;
     fr_confirm_latency := latency_default |}.

Record RuntimeState := {
  rs_counter : Counter -> Z;
  rs_latency : LatencyField -> LatencySamples;
  rs_fanout : gmap string FanoutRuntime;
}.

Definition runtime_default : RuntimeState :=
  {| rs_counter _ := 0%Z; rs_latency _ := latency_default; rs_fanout := ∅ |}.

(** [state.c = state.c.saturating_add(n)] *)
Definition bump (c : Counter) (n : Z) (s : RuntimeState) : RuntimeState :=
  {| rs_counter c' := if decide (c' = c) then sat_add (rs_counter s c) n else rs_counter s c';
     rs_latency := rs_latency s; rs_fanout := rs_fanout s |}.

(** [state.l.observe(elapsed)] *)
Definition observe_latency (l : LatencyField) (elapsed_ms : Z) (s : RuntimeState) : RuntimeState :=
  {| rs_counter := rs_counter s;
     rs_latency l' := if decide (l' = l) then observe (rs_latency s l) elapsed_ms
                      else rs_latency s l';
     rs_fanout := rs_fanout s |}.

Definition set_fanout (f : gmap string FanoutRuntime) (s : RuntimeState) : RuntimeState :=
  {| rs_counter := rs_counter s; rs_latency := rs_latency s; rs_fanout := f |}.

Section observability.
Context `{TR : Transport}.

Definition fanout_key (network_id : string) (scope : SwarmScope) (lane : PropagationLane) :
    string :=
  network_id +:+ "|" +:+ match scope_label scope with Ok l => l | Err _ => "invalid" end
    +:+ "|" +:+ lane_as_str lane.

Definition record_publish_confirm (network_id : string) (scope : SwarmScope)
    (lane : PropagationLane) (expected_recipients elapsed_ms : Z)
    (outcome : PublishConfirmOutcome) (s : RuntimeState) : RuntimeState :=
  let s := observe_latency confirm_latency elapsed_ms s in
  let s :=
    match outcome with
    | Confirmed => s
    | Nack => bump publish_nacks 1 s
    | Unroutable => bump publish_unroutable 1 s
    | ConfirmError => bump publish_errors 1 s
    end in
  let key := fanout_key network_id scope lane in
  let fanout := default fanout_default (rs_fanout s !! key) in
  let confirmed := bool_decide (outcome = Confirmed) in
  let fanout' :=
    {| fr_publishes := sat_add (fr_publishes fanout) 1;
       fr_expected_recipients := sat_add (fr_expected_recipients fanout) expected_recipients;
       fr_recipient_deliveries :=
         if confirmed then sat_add (fr_recipient_deliveries fanout) expected_recipients
         else fr_recipient_deliveries fanout;
       fr_confirm_latency := observe (fr_confirm_latency fanout) elapsed_ms |} in
  let s := if confirmed then bump recipient_deliveries expected_recipients s else s in
  set_fanout (<[key := fanout']> (rs_fanout s)) s.

Definition record (s : RuntimeState) (ev : ObsEvent) : RuntimeState :=
  match ev with
  | RecordSession true => bump sessions_accepted 1 s
  | RecordSession false => bump sessions_rejected 1 s
  | RecordDuplicatePublish => bump duplicate_publishes_suppressed 1 s
  | RecordPublishConfirm n sc l e ms o => record_publish_confirm n sc l e ms o s
  | RecordBinding ms ok =>
      let s := observe_latency binding_latency ms (bump binding_attempts 1 s) in
      if ok then s else bump binding_failures 1 s
  | RecordMembershipUpdate ms ok =>
      let s := observe_latency membership_binding_latency ms s in
      if ok then bump membership_updates 1 s else bump membership_update_failures 1 s
  | RecordOldMembershipVersionRejection => bump old_membership_version_rejections 1 s
  | RecordBackpressure true => bump global_backpressure 1 s
  | RecordBackpressure false => bump non_global_backpressure 1 s
  | RecordPostgresFailClosed => bump postgres_fail_closed 1 s
  | RecordTokenBucketAcquire ms true => observe_latency global_token_acquire_latency ms s
  | RecordTokenBucketAcquire ms false => observe_latency non_global_token_acquire_latency ms s
  | RecordDeliveryPage ms deliveries redelivered =>
      bump mailbox_deliveries_pulled deliveries
        (observe_latency delivery_page_latency ms
           (bump redeliveries redelivered (bump delivery_pages 1 s)))
  | RecordCommit ms forwarded ok =>
      let s := observe_latency commit_latency ms s in
      if forwarded then
        let s := bump forwarded_commits 1 s in
        if ok then s else bump commit_forward_failures 1 s
      else if ok then bump local_commits 1 s else s
  | RecordOwnerLostRequeue count => bump owner_lost_requeues count s
  | RecordDeadLetter bytes expired =>
      let s := bump dead_letter_bytes bytes (bump dead_letters 1 s) in
      if expired then bump expired_dead_letters 1 s else bump delivery_limit_dead_letters 1 s
  end.

Definition record_all (evs : list ObsEvent) : RuntimeState := foldl record runtime_default evs.
End observability.

(** ** Lemmas *)

(** The invariant of a latency record. *)
Record latency_ok (s : LatencySamples) : Prop := {
  lo_count : (0 <= ls_count s <= u64_max)%Z;
  lo_total : (0 <= ls_total_ms s <= u64_max)%Z;
  lo_average : (ls_total_ms s <= ls_count s * ls_max_ms s)%Z;
  lo_window : length (ls_samples_ms s) ≤ 512;
  lo_count_window : (Z.of_nat (length (ls_samples_ms s)) <= ls_count s)%Z;
  lo_samples : Forall (fun ms => 0 <= ms <= ls_max_ms s)%Z (ls_samples_ms s);
  lo_max : (0 <= ls_max_ms s)%Z;
}.

Lemma latency_default_ok : latency_ok latency_default.
Proof. split; cbn; unfold u64_max; (lia || constructor). Qed.

Lemma observe_ok s ms : (0 <= ms)%Z → latency_ok s → latency_ok (observe s ms).
Proof.
  intros Hms [Hc Ht Ha Hw Hcw Hs Hm]. unfold observe, elapsed_millis.
  set (m := Z.min ms u64_max). assert (0 <= m <= u64_max)%Z by (unfold m, u64_max; lia).
  assert (Forall (fun x => 0 <= x <= Z.max (ls_max_ms s) m)%Z (ls_samples_ms s)) as Hs'.
  { eapply Forall_impl; [exact Hs|]. cbn. lia. }
  split; cbn [ls_count ls_total_ms ls_max_ms ls_samples_ms]; unfold sat_add.
  - unfold u64_max in *. lia.
  - unfold u64_max in *. lia.
  - destruct (decide (ls_count s = u64_max)) as [Hcu|Hcu].
    + rewrite Hcu, (Z.min_r (u64_max + 1)) by lia.
      destruct (decide (Z.max (ls_max_ms s) m = 0)%Z) as [E|E]; [rewrite E; nia|nia].
    + rewrite (Z.min_l (ls_count s + 1)) by lia. nia.
  - case_decide; rewrite length_app; cbn; [|lia].
    destruct (ls_samples_ms s); cbn in *; lia.
  - case_decide as Hd; rewrite length_app; cbn; [|unfold u64_max in *; lia].
    destruct (ls_samples_ms s); cbn in *; unfold u64_max in *; lia.
  - apply Forall_app. split; [|constructor; [lia|constructor]].
    case_decide; [|done]. destruct (ls_samples_ms s); [done|]. by inversion Hs'.
  - lia.
Qed.

Lemma sorted_lookup_le (l : list Z) i j x y :
  StronglySorted Z.le l → i ≤ j → l !! i = Some x → l !! j = Some y → (x <= y)%Z.
Proof.
  intros Hsort. revert i j. induction Hsort as [|a l Hsort IH Hall]; intros i j Hij Hx Hy; [done|].
  destruct j as [|j], i as [|i]; cbn in *; [naive_solver lia|lia| |by eapply (IH i j); [lia|..]].
  injection Hx as ->. by apply (Forall_lookup_1 _ _ _ _ Hall Hy).
Qed.

Lemma percentile_bounds (p q : nat) (l : list Z) (m : Z) :
  p ≤ q → q ≤ 100 → StronglySorted Z.le l → Forall (fun x => 0 <= x <= m)%Z l → (0 <= m)%Z →
  (percentile l p <= percentile l q <= m)%Z.
Proof.
  intros Hp Hq Hsort Hall Hm. unfold percentile. case_decide as Hnil; [lia|].
  assert (0 < length l) by (destruct l; cbn; [done|lia]).
  set (i := (length l - 1) * p / 100). set (j := (length l - 1) * q / 100).
  assert (i ≤ j) by (apply Nat.Div0.div_le_mono; nia).
  assert (j < length l) by (apply Nat.Div0.div_lt_upper_bound; nia).
  destruct (lookup_lt_is_Some_2 l i) as [x Hx]; [lia|].
  destruct (lookup_lt_is_Some_2 l j) as [y Hy]; [lia|]. rewrite Hx, Hy. cbn.
  pose proof (Forall_lookup_1 _ _ _ _ Hall Hy) as Hy'. cbn in Hy'. split; [|lia].
  by eapply (sorted_lookup_le l i j).
Qed.

Definition event_elapsed (ev : ObsEvent) : Z :=
  match ev with
  | RecordPublishConfirm _ _ _ _ ms _ | RecordBinding ms _ | RecordMembershipUpdate ms _
  | RecordTokenBucketAcquire ms _ | RecordDeliveryPage ms _ _ | RecordCommit ms _ _ => ms
  | _ => 0%Z
  end.

(** Every latency record of the state satisfies the invariant. *)
Definition runtime_ok (s : RuntimeState) : Prop :=
  (∀ l, latency_ok (rs_latency s l)) ∧
  map_Forall (fun _ f => latency_ok (fr_confirm_latency f)) (rs_fanout s).

Lemma bump_ok c n s : runtime_ok s → runtime_ok (bump c n s).
Proof. done. Qed.

Lemma observe_latency_ok l ms s : (0 <= ms)%Z → runtime_ok s → runtime_ok (observe_latency l ms s).
Proof.
  intros Hms [Hl Hf]. split; [|done]. intros l'. cbn. case_decide; [|done].
  by apply observe_ok.
Qed.

Lemma record_ok `{TR : Transport} s ev :
  (0 <= event_elapsed ev)%Z → runtime_ok s → runtime_ok (record s ev).
Proof.
  intros Hms Hs.
  destruct ev as [[]| |n sc l e ms o|ms []|ms []| |[]| |ms []|ms d r|ms [] []|c|b []];
    cbn in *; auto using bump_ok, observe_latency_ok.
  unfold record_publish_confirm.
  set (s1 := observe_latency _ _ _). assert (runtime_ok s1) as H1 by (by apply observe_latency_ok).
  set (s2 := match o with Confirmed => _ | _ => _ end).
  assert (runtime_ok s2) as H2 by (by destruct o). clearbody s2. clear s1 H1.
  assert (latency_ok (observe (fr_confirm_latency
    (default fanout_default (rs_fanout s2 !! fanout_key n sc l))) ms)).
  { apply observe_ok; [done|]. destruct (rs_fanout s2 !! _) as [f|] eqn:Hf; cbn.
    - by apply (proj2 H2 _ _ Hf).
    - apply latency_default_ok. }
  assert (∀ f, latency_ok (fr_confirm_latency f) → ∀ s k, runtime_ok s →
    runtime_ok (set_fanout (<[k:=f]> (rs_fanout s)) s)) as Hset.
  { intros f Hf s' k [? ?]. split; [done|]. by apply map_Forall_insert_2. }
  apply Hset; [done|]. by destruct o.
Qed.

Lemma record_all_ok `{TR : Transport} evs :
  Forall (fun ev => 0 <= event_elapsed ev)%Z evs → runtime_ok (record_all evs).
Proof.
  intros Hall. unfold record_all.
  assert (runtime_ok runtime_default) as Hinit.
  { split; [intros l; apply latency_default_ok|apply map_Forall_empty]. }
  revert Hinit. generalize runtime_default.
  induction Hall as [|ev evs Hev Hall IH]; intros s Hs; cbn; [done|].
  apply IH. by apply record_ok.
Qed.

Lemma latency_snapshot_bounds s :
  latency_ok s →
  let snap := latency_snapshot s in
  (0 <= lp_average_ms snap <= lp_max_ms snap)%Z ∧
  (lp_p50_ms snap <= lp_p95_ms snap <= lp_max_ms snap)%Z ∧
  (Z.of_nat (length (ls_samples_ms s)) <= lp_count snap)%Z.
Proof.
  intros [Hc Ht Ha Hw Hcw Hs Hm]. cbn. split_and!; try done.
  - case_match eqn:E; [done|]. apply Z.eqb_neq in E. apply Z.div_pos; lia.
  - case_match eqn:E; [done|]. apply Z.eqb_neq in E. apply Z.div_le_upper_bound; lia.
  - apply percentile_bounds with (ls_max_ms s); try lia.
    + apply (StronglySorted_merge_sort Z.le); apply _.
    + by rewrite merge_sort_Permutation.
  - apply (percentile_bounds 50 95); try lia.
    + apply (StronglySorted_merge_sort Z.le); apply _.
    + by rewrite merge_sort_Permutation.
Qed.

(** ** Properties *)

(** After any sequence of recorded events, every latency metric keeps a window
    of at most 512 samples and reports an average and percentiles that are ordered
    and bounded by the reported maximum, counter saturation included. *)
Theorem latency_metrics_sound `{TR : Transport} evs l :
  Forall (fun ev => 0 <= event_elapsed ev)%Z evs →
  let s := rs_latency (record_all evs) l in
  let snap := latency_snapshot s in
  length (ls_samples_ms s) ≤ 512 ∧
  (0 <= lp_average_ms snap <= lp_max_ms snap)%Z ∧
  (lp_p50_ms snap <= lp_p95_ms snap <= lp_max_ms snap)%Z.
Proof.
  intros Hall s snap. destruct (record_all_ok evs Hall) as [Hl _]. specialize (Hl l).
  destruct (latency_snapshot_bounds _ Hl) as (? & ? & _). split; [by apply lo_window|done].
Qed.

Lemma latency_metrics_sound_witness :
  (lp_p50_ms (latency_snapshot (rs_latency (record_all (TR:=transport_impl)
     [RecordBinding 7 true; RecordBinding 3 false; RecordBinding 40 true]) binding_latency)) <=
   lp_p95_ms (latency_snapshot (rs_latency (record_all (TR:=transport_impl)
     [RecordBinding 7 true; RecordBinding 3 false; RecordBinding 40 true]) binding_latency)))%Z.
Proof.
  destruct (@latency_metrics_sound transport_impl
    [RecordBinding 7 true; RecordBinding 3 false; RecordBinding 40 true] binding_latency)
    as (_ & _ & H & _); [by repeat constructor|exact H].
Defined.
