(* ===== verification/Amqp.v ===== *)
(** * The broker interface

    RabbitMQ and the [lapin] client are not part of the repository.  This file
    gives the AMQP operations the gateway issues, each indexed by the type of
    its reply, and an interface for the environment that answers them.  The
    environment also owns the process's monotonic clock, because awaiting a reply
    takes time.  The laws state the documented effect of the operations on queue
    bindings; an in-memory broker that satisfies them closes the file. *)

From S2P Require Import Prelude Str External.

Inductive ExchangeKind := Direct | Topic | Fanout.
Global Instance ExchangeKind_eq_dec : EqDecision ExchangeKind.
Proof. solve_decision. Defined.

(** The variants of [AMQPValue] the sources construct or match on. *)
Inductive AMQPValue :=
| LongString (bytes : string)
| ShortString (text : string)
| LongInt (value : Z)
| LongLongInt (value : Z)
| OtherValue.

Abbreviation FieldTable := (list (string * AMQPValue)).

(** A message handed over by the broker. *)
Record Delivery := {
  dl_delivery_tag : Z;
  dl_redelivered : bool;
  dl_data : string;
  dl_headers : option (gmap string AMQPValue);
}.

(** [lapin]'s [Confirmation]: an acknowledgement may carry the returned message's
    reply text. *)
Inductive Confirmation :=
| Ack (returned : option string)
| ConfirmNack
| NotRequested.

Inductive AmqpOp : Type -> Type :=
| CreateChannel : AmqpOp N
| ConfirmSelect (channel : N) : AmqpOp ()
| ExchangeDeclare (channel : N) (name : string) (kind : ExchangeKind) (durable : bool) : AmqpOp ()
| QueueDeclare (channel : N) (queue : string) (durable passive : bool) (args : FieldTable) :
    AmqpOp (Z * Z)
| QueueBind (channel : N) (queue exchange key : string) : AmqpOp ()
| QueueUnbind (channel : N) (queue exchange key : string) : AmqpOp ()
| BasicPublish (channel : N) (exchange key : string) (mandatory : bool) (payload message_id : string) :
    AmqpOp ()
| AwaitConfirm (channel : N) : AmqpOp Confirmation
| BasicQos (channel : N) (prefetch : Z) : AmqpOp ()
| BasicConsume (channel : N) (queue tag : string) : AmqpOp ()
| ConsumeNext (channel : N) (tag : string) : AmqpOp (option Delivery)
| BasicCancel (channel : N) (tag : string) : AmqpOp ()
| BasicGet (channel : N) (queue : string) : AmqpOp (option Delivery)
| BasicAck (channel : N) (delivery_tag : Z) : AmqpOp ()
| ChannelClose (channel : N) (code : Z) (text : string) : AmqpOp ().

(** An issued operation, for traces. *)
Inductive AmqpCall :=
| Call {A : Type} (op : AmqpOp A).

Class Amqp := {
  Broker : Type;
  amqp {A} : AmqpOp A -> Broker -> result string A * Broker;
  (** [Instant::now()] in milliseconds. *)
  instant_now : Broker -> Z;
  (** [queue] is bound to [exchange] under [key]. *)
  bound : Broker -> string -> string -> string -> Prop;
}.

Definition is_binding_op {A} (op : AmqpOp A) : bool :=
  match op with QueueBind _ _ _ _ | QueueUnbind _ _ _ _ => true | _ => false end.

Class AmqpLaws `{AM : Amqp} : Prop := {
  bind_bound ch q e k b b' : amqp (QueueBind ch q e k) b = (Ok (), b') →
    ∀ e' k' q', bound b' e' k' q' ↔ (e' = e ∧ k' = k ∧ q' = q) ∨ bound b e' k' q';
  bind_failed ch q e k b err b' : amqp (QueueBind ch q e k) b = (Err err, b') →
    ∀ e' k' q', (bound b' e' k' q' → (e' = e ∧ k' = k ∧ q' = q) ∨ bound b e' k' q') ∧
                (bound b e' k' q' → bound b' e' k' q');
  unbind_bound ch q e k b b' : amqp (QueueUnbind ch q e k) b = (Ok (), b') →
    ∀ e' k' q', bound b' e' k' q' ↔ ¬ (e' = e ∧ k' = k ∧ q' = q) ∧ bound b e' k' q';
  unbind_failed ch q e k b err b' : amqp (QueueUnbind ch q e k) b = (Err err, b') →
    ∀ e' k' q', bound b' e' k' q' → bound b e' k' q';
  other_bound {A} (op : AmqpOp A) b r b' : is_binding_op op = false → amqp op b = (r, b') →
    ∀ e' k' q', bound b' e' k' q' ↔ bound b e' k' q';
}.

(** ** An in-memory broker

    It keeps the bindings, the next channel number and a clock that advances by
    one millisecond per operation; messages are delivered from a script. *)

Record MemBroker := {
  mb_bindings : gset (string * string * string);
  mb_next_channel : N;
  mb_clock : Z;
  mb_script : list Delivery;
  mb_confirm : Confirmation;
}.

Definition mem_tick (b : MemBroker) : MemBroker :=
  {| mb_bindings := mb_bindings b; mb_next_channel := mb_next_channel b;
     mb_clock := mb_clock b + 1; mb_script := mb_script b; mb_confirm := mb_confirm b |}.

Definition mem_set_bindings (f : gset (string * string * string) -> gset (string * string * string))
    (b : MemBroker) : MemBroker :=
  {| mb_bindings := f (mb_bindings b); mb_next_channel := mb_next_channel b;
     mb_clock := mb_clock b; mb_script := mb_script b; mb_confirm := mb_confirm b |}.

Definition mem_pop (b : MemBroker) : result string (option Delivery) * MemBroker :=
  match mb_script b with
  | [] => (Ok None, b)
  | d :: ds => (Ok (Some d), {| mb_bindings := mb_bindings b;
      mb_next_channel := mb_next_channel b; mb_clock := mb_clock b; mb_script := ds;
      mb_confirm := mb_confirm b |})
  end.

Definition mem_amqp {A} (op : AmqpOp A) (b : MemBroker) : result string A * MemBroker :=
  let b := mem_tick b in
  match op in AmqpOp A return result string A * MemBroker with
  | CreateChannel => (Ok (mb_next_channel b),
      {| mb_bindings := mb_bindings b; mb_next_channel := mb_next_channel b + 1;
         mb_clock := mb_clock b; mb_script := mb_script b; mb_confirm := mb_confirm b |})
  | QueueDeclare _ _ _ _ _ => (Ok (0, 0)%Z, b)
  | QueueBind _ q e k => (Ok (), mem_set_bindings (fun s => {[(e, k, q)]} ∪ s) b)
  | QueueUnbind _ q e k => (Ok (), mem_set_bindings (fun s => s ∖ {[(e, k, q)]}) b)
  | AwaitConfirm _ => (Ok (mb_confirm b), b)
  | ConsumeNext _ _ => mem_pop b
  | BasicGet _ _ => mem_pop b
  | ConfirmSelect _ => (Ok (), b)
  | ExchangeDeclare _ _ _ _ => (Ok (), b)
  | BasicPublish _ _ _ _ _ _ => (Ok (), b)
  | BasicQos _ _ => (Ok (), b)
  | BasicConsume _ _ _ => (Ok (), b)
  | BasicCancel _ _ => (Ok (), b)
  | BasicAck _ _ => (Ok (), b)
  | ChannelClose _ _ _ => (Ok (), b)
  end.

Definition amqp_impl : Amqp := {|
  Broker := MemBroker;
  amqp := @mem_amqp;
  instant_now := mb_clock;
  bound b e k q := (e, k, q) ∈ mb_bindings b;
|}.

Definition mem_init (script : list Delivery) (confirm : Confirmation) : MemBroker :=
  {| mb_bindings := ∅; mb_next_channel := 0; mb_clock := 0; mb_script := script;
     mb_confirm := confirm |}.

Lemma amqp_impl_laws : @AmqpLaws amqp_impl.
Proof.
  split; cbn.
  - intros ch q e k b b' [= <-] e' k' q'. cbn. set_solver.
  - done.
  - intros ch q e k b b' [= <-] e' k' q'. cbn. set_solver.
  - done.
  - intros A op b r b' Hop Hr e' k' q'. destruct op; cbn in *; try done;
      try (injection Hr as <- <-; done).
    all: unfold mem_pop in Hr; cbn in Hr; case_match; injection Hr as <- <-; done.
Qed.
