(* ===== verification/Rabbit.v ===== *)
(** * The RabbitMQ adapter

    Models [crates/message-gateway/src/rabbit.rs]: the names of queues,
    exchanges and routing keys, the topology operations, publishing with
    confirms, and the delivery pages.  The adapter's state is the environment of
    [Amqp.v], the table of pending pages, the metrics events emitted so far, and
    the trace of the operations issued, which the code does not keep and the
    theorems speak about.  Not modelled: the TLS endpoint construction
    ([endpoint_with_credentials], [connect]) and [mailbox_runtime_snapshot]. *)

From S2P Require Import Prelude Str External MgConfig Observability Amqp Gaps.

(** ** Names *)

Definition DIRECT_INTERACTIVE : string := "wattswarm.cs.direct.interactive.v1".
Definition DIRECT_BULK : string := "wattswarm.cs.direct.bulk.v1".
Definition SCOPE_INTERACTIVE : string := "wattswarm.cs.scope.interactive.v1".
Definition SCOPE_BULK : string := "wattswarm.cs.scope.bulk.v1".
Definition DEAD_LETTER_EXCHANGE : string := "wattswarm.cs.dlx.v1".
Definition DEAD_LETTER_QUEUE : string := "wattswarm.cs.dlq.v1".

Definition direct_exchange (class : DeliveryClass) : string :=
  match class with Interactive => DIRECT_INTERACTIVE | Bulk => DIRECT_BULK end.

Definition scope_exchange (class : DeliveryClass) : string :=
  match class with Interactive => SCOPE_INTERACTIVE | Bulk => SCOPE_BULK end.

(** [serde_json::to_vec] on tuples of strings. *)
Class TupleJson := { json_strings : list string -> string }.
Class TupleJsonLaws `{TJ : TupleJson} : Prop := {
  json_strings_inj :: Inj (=) (=) json_strings;
}.

Section names.
Context `{HX : Hex, SHA : Sha256, CL : DeliveryClassOps, TJ : TupleJson}.

Definition network_queue_component (network_id : string) : string :=
  hex_encode (sha256 network_id).

Definition queue_name (network_id principal_id : string) (class : DeliveryClass) : string :=
  "ws.cs." +:+ network_queue_component network_id +:+ "." +:+ principal_id +:+ "."
    +:+ class_as_str class.

Definition direct_route_key (network_id principal_id : string) : string :=
  hex_encode (sha256 (json_strings [network_id; principal_id])).

Definition scope_route_key (network_id address membership_version : string) : string :=
  hex_encode (sha256 (json_strings [network_id; address; membership_version])).

Definition principal_from_queue_name (queue network_id : string) : option string :=
  let expected_network := network_queue_component network_id in
  match split_char "." queue with
  | [ws; cs; network; principal; _class] =>
      if bool_decide (ws = "ws") && bool_decide (cs = "cs")
         && bool_decide (network = expected_network)
      then Some principal else None
  | _ => None
  end.
End names.

Definition mailbox_arguments (config : Config) : FieldTable :=
  [("x-queue-type", LongString "quorum");
   ("x-message-ttl", LongLongInt (as_i64 (mailbox_message_ttl_ms config)));
   ("x-max-length-bytes", LongLongInt (as_i64 (mailbox_max_length_bytes config)));
   ("x-overflow", LongString "reject-publish");
   ("x-delivery-limit",
     LongInt (let m := (max_delivery_attempts config mod 2 ^ 32)%Z in
              if (m <? 2 ^ 31)%Z then m else (m - 2 ^ 32)%Z));
   ("x-dead-letter-exchange", LongString DEAD_LETTER_EXCHANGE);
   ("x-dead-letter-strategy", LongString "at-least-once")].

(** [std::str::from_utf8] succeeds on the byte strings that are UTF-8; strings of
    the model are their UTF-8 bytes, so the check is a parameter. *)
Definition amqp_string (is_utf8 : string -> bool) (value : AMQPValue) : option string :=
  match value with
  | LongString bytes => if is_utf8 bytes then Some bytes else None
  | ShortString text => Some text
  | _ => None
  end.

(** ** Records *)

Section records.
Context `{TR : Transport}.

Record BrokerRecord := {
  br_network_id : string;
  br_record_id : string;
  br_source_principal_id : string;
  br_route : EventTransportRoute;
  br_record : string;
  br_membership_version : option string;
  br_delivery_class : DeliveryClass;
  br_delivery_policy_version : Z;
  br_enqueued_at : Z;
  br_expires_at : option Z;
}.

Record BrokerControlRecord := {
  bc_network_id : string;
  bc_correlation_id : string;
  bc_source_principal_id : string;
  bc_target_principal_id : string;
  bc_control_kind : string;
  bc_payload : string;
  bc_gap_route : EventTransportRoute;
  bc_delivery_policy_version : Z;
  bc_enqueued_at : Z;
  bc_expires_at : option Z;
}.

Inductive BrokerEnvelope :=
| EnvelopeRecord (record : BrokerRecord)
| EnvelopeControl (control : BrokerControlRecord).

Record MailboxDelivery := {
  md_delivery_id : string;
  md_record_id : string;
  md_route : EventTransportRoute;
  md_record : string;
  md_membership_version : option string;
  md_enqueued_at : Z;
  md_expires_at : option Z;
}.

Record MailboxControlDelivery := {
  mc_delivery_id : string;
  mc_correlation_id : string;
  mc_source_principal_id : string;
  mc_target_principal_id : string;
  mc_control_kind : string;
  mc_payload : string;
  mc_enqueued_at : Z;
  mc_expires_at : option Z;
}.

Record PulledPage := {
  pp_page_id : string;
  pp_network_id : string;
  pp_recipient_principal_id : string;
  pp_delivery_class : DeliveryClass;
  pp_deliveries : list MailboxDelivery;
  pp_controls : list MailboxControlDelivery;
  pp_consumer_epoch : string;
}.
End records.

(** [serde_json] on [BrokerEnvelope]. *)
Class EnvelopeCodec `{TR : Transport} := {
  envelope_to_vec : BrokerEnvelope -> result string string;
  envelope_from_slice : string -> result string BrokerEnvelope;
}.

(** An open page: the channel that holds its unacknowledged deliveries.
    [pg_opened_at] is on the monotonic clock. *)
Record PendingPage := {
  pg_channel : N;
  pg_delivery_tags : list Z;
  pg_network_id : string;
  pg_principal_id : string;
  pg_delivery_class : DeliveryClass;
  pg_consumer_epoch : string;
  pg_opened_at : Z;
  pg_oldest_enqueued_at : Z;
}.

Section rabbit.
Context `{HX : Hex, SHA : Sha256, CL : DeliveryClassOps, TJ : TupleJson, TR : Transport,
          EC : !EnvelopeCodec, AM : Amqp}.

Record RabbitAdapter := {
  rb_broker : Broker;
  rb_pending_pages : gmap string PendingPage;
  rb_observability : list ObsEvent;
  rb_trace : list AmqpCall;
  rb_received : list (N * Delivery);
}.

Definition R (A : Type) : Type := M RabbitAdapter string A.

(** The message a reply hands over, with its channel. *)
Definition received_of {A} (op : AmqpOp A) : result string A -> list (N * Delivery) :=
  match op in AmqpOp A return result string A -> list (N * Delivery) with
  | ConsumeNext channel _ | BasicGet channel _ => fun r =>
      match r with Ok (Some message) => [(channel, message)] | _ => [] end
  | _ => fun _ => []
  end.

(** One operation.  The issued operations and the received messages are recorded for
    the specifications only. *)
Definition call {A} (op : AmqpOp A) : R A := fun s =>
  let '(r, b) := amqp op (rb_broker s) in
  (r, {| rb_broker := b; rb_pending_pages := rb_pending_pages s;
         rb_observability := rb_observability s; rb_trace := rb_trace s ++ [Call op];
         rb_received := rb_received s ++ received_of op r |}).

Definition observe_event (ev : ObsEvent) : R () := fun s =>
  (Ok (), {| rb_broker := rb_broker s; rb_pending_pages := rb_pending_pages s;
             rb_observability := rb_observability s ++ [ev]; rb_trace := rb_trace s;
             rb_received := rb_received s |}).

Definition set_pending (f : gmap string PendingPage -> gmap string PendingPage) : R () :=
  fun s => (Ok (), {| rb_broker := rb_broker s; rb_pending_pages := f (rb_pending_pages s);
                      rb_observability := rb_observability s; rb_trace := rb_trace s;
                      rb_received := rb_received s |}).

Definition instant : R Z := gets (fun s => instant_now (rb_broker s)).

(** [let started = Instant::now(); let result = body.await;
    observability.record_binding(started, result.is_ok()); result] *)
Definition recording_binding (body : R ()) : R () :=
  started ← instant;
  outcome ← attempt body;
  now ← instant;
  _ ← observe_event (RecordBinding (now - started) (is_ok outcome));
  lift outcome.

(** ** Topology *)

Definition declare_infrastructure (config : Config) : R () :=
  channel ← call CreateChannel;
  _ ← call (ConfirmSelect channel);
  _ ← for_each [(DIRECT_INTERACTIVE, Direct); (DIRECT_BULK, Direct); (SCOPE_INTERACTIVE, Topic);
                (SCOPE_BULK, Topic); (DEAD_LETTER_EXCHANGE, Fanout)]
        (fun '(name, kind) => call (ExchangeDeclare channel name kind true));
  let dead_letter_args :=
    [("x-queue-type", LongString "quorum");
     ("x-max-length-bytes", LongLongInt (as_i64 (dead_letter_max_length_bytes config)));
     ("x-overflow", LongString "reject-publish")] in
  _ ← call (QueueDeclare channel DEAD_LETTER_QUEUE true false dead_letter_args);
  call (QueueBind channel DEAD_LETTER_QUEUE DEAD_LETTER_EXCHANGE "").

Definition ensure_tenant_mailboxes (config : Config) (network_id principal_id : string) : R () :=
  recording_binding (
    channel ← call CreateChannel;
    for_each class_all (fun class =>
      let queue := queue_name network_id principal_id class in
      _ ← call (QueueDeclare channel queue true false (mailbox_arguments config));
      call (QueueBind channel queue (direct_exchange class)
              (direct_route_key network_id principal_id)))).

Definition bind_scope_member (config : Config)
    (network_id principal_id route_address membership_version : string) : R () :=
  recording_binding (
    _ ← ensure_tenant_mailboxes config network_id principal_id;
    channel ← call CreateChannel;
    for_each class_all (fun class =>
      call (QueueBind channel (queue_name network_id principal_id class) (scope_exchange class)
              (scope_route_key network_id route_address membership_version)))).

Definition unbind_scope_member
    (network_id principal_id route_address membership_version : string) : R () :=
  recording_binding (
    channel ← call CreateChannel;
    for_each class_all (fun class =>
      call (QueueUnbind channel (queue_name network_id principal_id class) (scope_exchange class)
              (scope_route_key network_id route_address membership_version)))).

(** ** Publishing *)

(** [tokio::time::timeout(limit, pending_confirm)] *)
Definition await_confirm (channel : N) (limit : Z) (timeout_message : string) : R Confirmation :=
  started ← instant;
  confirm ← call (AwaitConfirm channel);
  now ← instant;
  _ ← lift (bail_if (limit <? now - started)%Z timeout_message);
  mret confirm.

Definition publish (config : Config) (recipient : option string) (record : BrokerRecord) : R () :=
  channel ← call CreateChannel;
  _ ← call (ConfirmSelect channel);
  '(exchange, key) ←
    match recipient with
    | Some recipient =>
        _ ← ensure_tenant_mailboxes config (br_network_id record) recipient;
        mret (direct_exchange (br_delivery_class record),
              direct_route_key (br_network_id record) recipient)
    | None =>
        membership_version ← lift (ok_or (br_membership_version record)
          "shared-scope publish is missing its membership version");
        mret (scope_exchange (br_delivery_class record),
              scope_route_key (br_network_id record) (route_address (br_route record))
                membership_version)
    end;
  payload ← lift (envelope_to_vec (EnvelopeRecord record));
  _ ← call (BasicPublish channel exchange key true payload (br_record_id record));
  confirm ← await_confirm channel (fanout_confirm_timeout config)
              "RabbitMQ publisher confirm timed out";
  match confirm with
  | Ack None => mret ()
  | Ack (Some reply_text) => throw ("RabbitMQ mandatory publish was returned: " +:+ reply_text)
  | ConfirmNack => throw "RabbitMQ nacked durable publish"
  | NotRequested => throw "RabbitMQ publisher confirm was not requested"
  end.

Definition publish_confirm_outcome (r : result string ()) : PublishConfirmOutcome :=
  match r with
  | Ok _ => Confirmed
  | Err error =>
      if contains error "returned" then Unroutable
      else if contains error "nacked" then Nack
      else ConfirmError
  end.

(** The failing arms of the confirm [match] leave the function, so the outcome
    recorded after it is always that of a success. *)
Definition publish_control (config : Config) (control : BrokerControlRecord) : R () :=
  started ← instant;
  _ ← ensure_tenant_mailboxes config (bc_network_id control) (bc_target_principal_id control);
  channel ← call CreateChannel;
  _ ← call (ConfirmSelect channel);
  payload ← lift (envelope_to_vec (EnvelopeControl control));
  _ ← call (BasicPublish channel (direct_exchange Interactive)
              (direct_route_key (bc_network_id control) (bc_target_principal_id control))
              true payload (bc_correlation_id control));
  confirm ← await_confirm channel (fanout_confirm_timeout config)
              "RabbitMQ control publisher confirm timed out";
  outcome ←
    match confirm with
    | Ack None => mret (Ok ())
    | Ack (Some reply_text) =>
        throw ("RabbitMQ mandatory control publish was returned: " +:+ reply_text)
    | ConfirmNack => throw "RabbitMQ nacked durable control publish"
    | NotRequested => throw "RabbitMQ control publisher confirm was not requested"
    end;
  now ← instant;
  _ ← observe_event (RecordPublishConfirm (bc_network_id control)
        (route_scope (bc_gap_route control)) (route_lane (bc_gap_route control)) 1
        (now - started) (publish_confirm_outcome outcome));
  lift outcome.
End rabbit.

(** ** Delivery pages *)

Section pages.
Context `{HX : Hex, SHA : Sha256, CL : DeliveryClassOps, TJ : TupleJson, TR : Transport,
          EC : !EnvelopeCodec, AM : Amqp}.

(** What the loop over the pulled messages accumulates. *)
Record PageAcc := {
  pa_deliveries : list MailboxDelivery;
  pa_controls : list MailboxControlDelivery;
  pa_tags : list Z;
  pa_redeliveries : Z;
  pa_oldest_enqueued_at : Z;
}.

Definition page_acc_init : PageAcc :=
  {| pa_deliveries := []; pa_controls := []; pa_tags := []; pa_redeliveries := 0;
     pa_oldest_enqueued_at := u64_max |}.

(** [for _ in 0..limit { match timeout(100ms, consumer.next()).await { .. } }] *)
Fixpoint take_messages (limit : nat) (channel : N) (tag : string) : R (list Delivery) :=
  match limit with
  | O => mret []
  | S limit =>
      next ← call (ConsumeNext channel tag);
      match next with
      | None => mret []
      | Some message =>
          rest ← take_messages limit channel tag;
          mret (message :: rest)
      end
  end.

(** One iteration of the loop over the messages. *)
Definition page_message (network_id principal_id : string) (class : DeliveryClass) (channel : N)
    (acc : PageAcc) (message : Delivery) : R PageAcc :=
  let redeliveries :=
    sat_add (pa_redeliveries acc) (if dl_redelivered message then 1 else 0) in
  envelope ← lift (envelope_from_slice (dl_data message));
  match envelope with
  | EnvelopeRecord record =>
      _ ← lift (bail_if (negb (bool_decide (br_network_id record = network_id))
                         || negb (bool_decide (br_delivery_class record = class)))
                  "RabbitMQ mailbox record binding mismatch");
      if bool_decide (br_source_principal_id record = principal_id) then
        _ ← call (BasicAck channel (dl_delivery_tag message));
        mret {| pa_deliveries := pa_deliveries acc; pa_controls := pa_controls acc;
                pa_tags := pa_tags acc; pa_redeliveries := redeliveries;
                pa_oldest_enqueued_at := pa_oldest_enqueued_at acc |}
      else
        delivery_id ← lift (stable_delivery_id network_id (br_record_id record) principal_id
                              (br_membership_version record));
        mret {| pa_deliveries := pa_deliveries acc ++ [{|
                  md_delivery_id := delivery_id;
                  md_record_id := br_record_id record;
                  md_route := br_route record;
                  md_record := br_record record;
                  md_membership_version := br_membership_version record;
                  md_enqueued_at := br_enqueued_at record;
                  md_expires_at := br_expires_at record |}];
                pa_controls := pa_controls acc;
                pa_tags := pa_tags acc ++ [dl_delivery_tag message];
                pa_redeliveries := redeliveries;
                pa_oldest_enqueued_at :=
                  Z.min (pa_oldest_enqueued_at acc) (br_enqueued_at record) |}
  | EnvelopeControl control =>
      _ ← lift (bail_if (negb (bool_decide (bc_network_id control = network_id))
                         || negb (bool_decide (bc_target_principal_id control = principal_id))
                         || negb (bool_decide (class = Interactive)))
                  "RabbitMQ mailbox control binding mismatch");
      delivery_id ← lift (stable_delivery_id network_id (bc_correlation_id control)
                            principal_id None);
      mret {| pa_deliveries := pa_deliveries acc;
              pa_controls := pa_controls acc ++ [{|
                mc_delivery_id := delivery_id;
                mc_correlation_id := bc_correlation_id control;
                mc_source_principal_id := bc_source_principal_id control;
                mc_target_principal_id := bc_target_principal_id control;
                mc_control_kind := bc_control_kind control;
                mc_payload := bc_payload control;
                mc_enqueued_at := bc_enqueued_at control;
                mc_expires_at := bc_expires_at control |}];
              pa_tags := pa_tags acc ++ [dl_delivery_tag message];
              pa_redeliveries := redeliveries;
              pa_oldest_enqueued_at :=
                Z.min (pa_oldest_enqueued_at acc) (bc_enqueued_at control) |}
  end.

Fixpoint page_messages (network_id principal_id : string) (class : DeliveryClass) (channel : N)
    (acc : PageAcc) (messages : list Delivery) : R PageAcc :=
  match messages with
  | [] => mret acc
  | message :: messages =>
      acc ← page_message network_id principal_id class channel acc message;
      page_messages network_id principal_id class channel acc messages
  end.

(** [pages.remove(id)] for the given pages, and the closing of their channels. *)
Definition close_expired (expired : list (string * PendingPage)) : R () :=
  _ ← set_pending (fun pages => foldr (fun kp pages => delete kp.1 pages) pages expired);
  for_each expired (fun '(_, page) =>
    call (ChannelClose (pg_channel page) 500 "mailbox page owner lease expired")).

Definition abandon_expired_pages (config : Config) (network_id principal_id : string)
    (class : DeliveryClass) : R () :=
  now ← instant;
  expired ← gets (fun s => map_to_list (filter (fun kp =>
    pg_network_id kp.2 = network_id ∧ pg_principal_id kp.2 = principal_id ∧
    pg_delivery_class kp.2 = class ∧
    (delivery_owner_lease config <= now - pg_opened_at kp.2)%Z) (rb_pending_pages s)));
  close_expired expired.

Definition reap_expired_pages (config : Config) : R Z :=
  now ← instant;
  expired ← gets (fun s => map_to_list (filter (fun kp =>
    (delivery_owner_lease config <= now - pg_opened_at kp.2)%Z) (rb_pending_pages s)));
  let count := Z.of_nat (length expired) in
  _ ← close_expired expired;
  _ ← observe_event (RecordOwnerLostRequeue count);
  mret count.

Definition pull_page (config : Config) (network_id principal_id : string)
    (class : DeliveryClass) (page_id consumer_epoch : string) (limit : nat) :
    R (option PulledPage) :=
  page_started ← instant;
  _ ← abandon_expired_pages config network_id principal_id class;
  opened_at ← instant;
  _ ← ensure_tenant_mailboxes config network_id principal_id;
  channel ← call CreateChannel;
  _ ← call (BasicQos channel
        (Z.min (rabbitmq_prefetch config) (Z.min (Z.max (Z.of_nat limit) 1) u16_max)));
  let queue := queue_name network_id principal_id class in
  let consumer_tag := "cs-page-" +:+ page_id in
  _ ← call (BasicConsume channel queue consumer_tag);
  messages ← take_messages limit channel consumer_tag;
  _ ← call (BasicCancel channel consumer_tag);
  if bool_decide (length messages = 0) then
    _ ← call (ChannelClose channel 200 "empty mailbox page");
    now ← instant;
    _ ← observe_event (RecordDeliveryPage (now - page_started) 0 0);
    mret None
  else
    acc ← page_messages network_id principal_id class channel page_acc_init messages;
    _ ← set_pending (insert page_id {|
          pg_channel := channel;
          pg_delivery_tags := pa_tags acc;
          pg_network_id := network_id;
          pg_principal_id := principal_id;
          pg_delivery_class := class;
          pg_consumer_epoch := consumer_epoch;
          pg_opened_at := opened_at;
          pg_oldest_enqueued_at := pa_oldest_enqueued_at acc |});
    if bool_decide (length (pa_deliveries acc) = 0) && bool_decide (length (pa_controls acc) = 0)
    then
      _ ← set_pending (delete page_id);
      _ ← call (ChannelClose channel 200 "self delivery filtered");
      now ← instant;
      _ ← observe_event (RecordDeliveryPage (now - page_started) 0 (pa_redeliveries acc));
      mret None
    else
      let delivery_count :=
        Z.of_nat (length (pa_deliveries acc) + length (pa_controls acc)) in
      now ← instant;
      _ ← observe_event
            (RecordDeliveryPage (now - page_started) delivery_count (pa_redeliveries acc));
      mret (Some {|
        pp_page_id := page_id;
        pp_network_id := network_id;
        pp_recipient_principal_id := principal_id;
        pp_delivery_class := class;
        pp_deliveries := pa_deliveries acc;
        pp_controls := pa_controls acc;
        pp_consumer_epoch := consumer_epoch |}).

Definition commit_page (page_id principal_id : string) (class : DeliveryClass)
    (consumer_epoch : string) : R (option nat) :=
  pending ← gets (fun s => rb_pending_pages s !! page_id);
  match pending with
  | None => mret None
  | Some pending =>
      _ ← set_pending (delete page_id);
      _ ← lift (bail_if (negb (bool_decide (pg_principal_id pending = principal_id))
                         || negb (bool_decide (pg_delivery_class pending = class))
                         || negb (bool_decide (pg_consumer_epoch pending = consumer_epoch)))
                  "page commit owner, principal, class, or epoch mismatch");
      _ ← for_each (pg_delivery_tags pending) (fun tag => call (BasicAck (pg_channel pending) tag));
      _ ← call (ChannelClose (pg_channel pending) 200 "mailbox page committed");
      mret (Some (length (pg_delivery_tags pending)))
  end.

Definition abandon_page (page_id : string) : R bool :=
  pending ← gets (fun s => rb_pending_pages s !! page_id);
  match pending with
  | None => mret false
  | Some pending =>
      _ ← set_pending (delete page_id);
      _ ← call (ChannelClose (pg_channel pending) 500 "test or owner shutdown");
      mret true
  end.
End pages.

(** ** Dead letters

    The drain runs over the adapter and the gap table of the database. *)

Section dead_letters.
Context `{HX : Hex, SHA : Sha256, CL : DeliveryClassOps, TJ : TupleJson, TR : Transport,
          EC : !EnvelopeCodec, GC : !GapCodec, AM : Amqp}.
Context (is_utf8 : string -> bool).

Definition D (A : Type) : Type := M (RabbitAdapter * GapTable) string A.

Definition on_rabbit {A} (m : R A) : D A := zoom fst (fun r t => (r, t.2)) m.

Definition on_gaps (f : GapTable -> result string (string * GapTable)) : D string := fun t =>
  match f t.2 with
  | Ok (gap_id, gaps) => (Ok gap_id, (t.1, gaps))
  | Err e => (Err e, t)
  end.

(** [headers.and_then(|table| table.inner().get(key)).and_then(amqp_string)] *)
Definition header_string (message : Delivery) (key : string) : option string :=
  match dl_headers message with
  | Some table => (table !! key) ≫= amqp_string is_utf8
  | None => None
  end.

(** One dead letter.  [now] is the wall clock in milliseconds; the result says
    whether a gap was recorded. *)
Definition drain_dead_letter (now : Z) (channel : N) (message : Delivery) : D bool :=
  envelope ← lift (envelope_from_slice (dl_data message));
  let dead_letter_bytes := len (dl_data message) in
  let '(network_id, source_principal_id, route, delivery_class, delivery_policy_version) :=
    match envelope with
    | EnvelopeRecord record =>
        (br_network_id record, Some (br_source_principal_id record), br_route record,
         br_delivery_class record, br_delivery_policy_version record)
    | EnvelopeControl control =>
        (bc_network_id control, None, bc_gap_route control, Interactive,
         bc_delivery_policy_version control)
    end in
  let reason := default "delivery_limit" (header_string message "x-first-death-reason") in
  queue ← lift (ok_or (header_string message "x-first-death-queue")
                  "dead letter is missing x-first-death-queue");
  principal_id ← lift (ok_or (principal_from_queue_name queue network_id)
                         "dead letter queue does not identify a mailbox principal");
  if bool_decide (source_principal_id = Some principal_id) then
    _ ← on_rabbit (call (BasicAck channel (dl_delivery_tag message)));
    mret false
  else
    let gap_reason :=
      if bool_decide (reason = "expired") then Expired else DeliveryLimitExceeded in
    _ ← on_gaps (record_gap (now * 1000) network_id principal_id delivery_class
                   delivery_policy_version route gap_reason (Z.max now 0));
    _ ← on_rabbit (call (BasicAck channel (dl_delivery_tag message)));
    _ ← on_rabbit (observe_event
          (RecordDeadLetter dead_letter_bytes (bool_decide (gap_reason = Expired))));
    mret true.

(** [recorded] is the count so far; [fuel] is the [limit] of the loop. *)
Fixpoint drain_loop (now : Z) (channel : N) (fuel : nat) (recorded : Z) : D Z :=
  match fuel with
  | O => mret recorded
  | S fuel =>
      next ← on_rabbit (call (BasicGet channel DEAD_LETTER_QUEUE));
      match next with
      | None => mret recorded
      | Some message =>
          is_gap ← drain_dead_letter now channel message;
          drain_loop now channel fuel (if (is_gap : bool) then sat_add recorded 1 else recorded)
      end
  end.

Definition drain_dead_letters (now : Z) (limit : nat) : D Z :=
  channel ← on_rabbit (call CreateChannel);
  drain_loop now channel limit 0.
End dead_letters.

(** ** Lemmas on names *)

Section name_lemmas.
Context `{HXL : HexLaws, SHA : Sha256, CLL : DeliveryClassLaws, TJ : TupleJson}.

Lemma class_as_str_no_dot c : has_char "." (class_as_str c) = false.
Proof. destruct c; [rewrite class_as_str_interactive|rewrite class_as_str_bulk]; done. Qed.

Lemma queue_name_split n p c :
  has_char "." p = false →
  split_char "." (queue_name n p c) =
    ["ws"; "cs"; network_queue_component n; p; class_as_str c].
Proof.
  intros Hp. change (queue_name n p c) with ("ws" +:+ String "." ("cs" +:+ String "."
    (network_queue_component n +:+ String "." (p +:+ String "." (class_as_str c))))).
  rewrite 2!split_char_app by done. rewrite split_char_app by apply hex_encode_no_dot.
  rewrite split_char_app by done. by rewrite split_char_no_sep by apply class_as_str_no_dot.
Qed.

Lemma queue_name_inj n p c n' p' c' :
  Sha256Inj → has_char "." p = false → has_char "." p' = false →
  queue_name n p c = queue_name n' p' c' → n = n' ∧ p = p' ∧ c = c'.
Proof.
  intros ? Hp Hp' Hq. apply (f_equal (split_char ".")) in Hq.
  rewrite !queue_name_split in Hq by done. injection Hq as Hn -> Hc.
  apply hex_encode_inj, (inj sha256) in Hn. apply class_as_str_inj in Hc. done.
Qed.
End name_lemmas.

Lemma scope_direct_exchange_ne c c' : scope_exchange c ≠ direct_exchange c'.
Proof. by destruct c, c'. Qed.

Lemma scope_exchange_inj c c' : scope_exchange c = scope_exchange c' → c = c'.
Proof. by destruct c, c'. Qed.

(** ** Lemmas on bindings *)

Section binding_lemmas.
Context `{HX : Hex, SHA : Sha256, CL : DeliveryClassOps, TJ : TupleJson, TR : Transport,
          EC : !EnvelopeCodec, AML : AmqpLaws}.

Abbreviation bset := (string -> string -> string -> Prop).

Definition bound_in (s : RabbitAdapter) : bset := bound (rb_broker s).

(** [m] adds the bindings of [P]: it removes none, adds no other, and has added
    all of them when it succeeds. *)
Record binds {A} (P : bset) (m : R A) : Prop := {
  binds_upper s r s' e k q : m s = (r, s') → bound_in s' e k q → bound_in s e k q ∨ P e k q;
  binds_lower s r s' e k q : m s = (r, s') → bound_in s e k q → bound_in s' e k q;
  binds_complete s a s' e k q : m s = (Ok a, s') → P e k q → bound_in s' e k q;
}.

Definition no_bindings : bset := fun _ _ _ => False.

Lemma binds_pure {A} (m : R A) :
  (∀ s, rb_broker (m s).2 = rb_broker s) → binds no_bindings m.
Proof.
  intros Hm. split; unfold bound_in; intros s r s' e k q Hr; specialize (Hm s);
    rewrite Hr in Hm; cbn in Hm; rewrite ?Hm; [by intros; left|done|intros []].
Qed.

Lemma binds_ret {A} (a : A) : binds no_bindings (mret a).
Proof. by apply binds_pure. Qed.

Lemma binds_throw {A} e : binds no_bindings (throw e : R A).
Proof. by apply binds_pure. Qed.

Lemma binds_lift {A} (r : result string A) : binds no_bindings (lift r).
Proof. by apply binds_pure. Qed.

Lemma binds_gets {A} (f : RabbitAdapter -> A) : binds no_bindings (gets f).
Proof. by apply binds_pure. Qed.

Lemma binds_observe ev : binds no_bindings (observe_event ev).
Proof. by apply binds_pure. Qed.

Lemma binds_call {A} (op : AmqpOp A) :
  is_binding_op op = false → binds no_bindings (call op).
Proof.
  intros Hop. split; unfold call, bound_in; intros s r s' e k q Hr;
    destruct (amqp op (rb_broker s)) as [r1 b1] eqn:Hb; simplify_eq/=;
    rewrite (other_bound _ _ _ _ Hop Hb); [by intros; left|done|intros []].
Qed.

Lemma binds_queue_bind ch q e k :
  binds (fun e' k' q' => e' = e ∧ k' = k ∧ q' = q) (call (QueueBind ch q e k)).
Proof.
  split; unfold call, bound_in; intros s r s' e' k' q' Hr;
    destruct (amqp (QueueBind ch q e k) (rb_broker s)) as [[[]|err] b1] eqn:Hb;
    simplify_eq/=; first [rewrite (bind_bound _ _ _ _ _ _ Hb); tauto
      |destruct (bind_failed _ _ _ _ _ _ _ Hb e' k' q') as [H1 H2]; tauto].
Qed.

Lemma binds_bind {A B} P Q (m : R A) (f : A -> R B) :
  binds P m → (∀ a, binds Q (f a)) → binds (fun e k q => P e k q ∨ Q e k q) (m ≫= f).
Proof.
  intros Hm Hf. split; intros s r s' e k q Hr.
  - intros Hb. destruct r as [b|err].
    + apply M_bind_ok in Hr as (a & s1 & H1 & H2).
      destruct (binds_upper _ _ (Hf a) _ _ _ _ _ _ H2 Hb) as [H|H]; [|tauto].
      destruct (binds_upper _ _ Hm _ _ _ _ _ _ H1 H); tauto.
    + apply M_bind_err in Hr as [H1|(a & s1 & H1 & H2)].
      * destruct (binds_upper _ _ Hm _ _ _ _ _ _ H1 Hb); tauto.
      * destruct (binds_upper _ _ (Hf a) _ _ _ _ _ _ H2 Hb) as [H|H]; [|tauto].
        destruct (binds_upper _ _ Hm _ _ _ _ _ _ H1 H); tauto.
  - intros Hb. destruct r as [b|err].
    + apply M_bind_ok in Hr as (a & s1 & H1 & H2).
      by eapply (binds_lower _ _ (Hf a)), (binds_lower _ _ Hm).
    + apply M_bind_err in Hr as [H1|(a & s1 & H1 & H2)].
      * by eapply (binds_lower _ _ Hm).
      * by eapply (binds_lower _ _ (Hf a)), (binds_lower _ _ Hm).
  - apply M_bind_ok in Hr as (a & s1 & H1 & H2). intros [HP|HQ].
    + by eapply (binds_lower _ _ (Hf a)), (binds_complete _ _ Hm).
    + by eapply (binds_complete _ _ (Hf a)).
Qed.

Lemma binds_weaken {A} P Q (m : R A) :
  (∀ e k q, P e k q ↔ Q e k q) → binds P m → binds Q m.
Proof.
  intros HPQ [H1 H2 H3]. split; [|done|].
  - intros s r s' e k q Hr Hb. rewrite <- HPQ. eauto.
  - intros s a s' e k q Hr Hq. apply HPQ in Hq. eauto.
Qed.

Lemma binds_for_each {X} (P : X -> bset) xs f :
  (∀ x, binds (P x) (f x)) → binds (fun e k q => ∃ x, x ∈ xs ∧ P x e k q) (for_each xs f).
Proof.
  intros Hf. induction xs as [|x xs IH]; cbn.
  - eapply binds_weaken, binds_ret. intros e k q. unfold no_bindings. set_solver.
  - eapply binds_weaken, (binds_bind (P x)); [|apply Hf|intros _; apply IH].
    intros e k q. set_solver.
Qed.

Lemma binds_recording P body : binds P body → binds P (recording_binding body).
Proof.
  intros [H1 H2 H3]. unfold bound_in in *.
  split; unfold recording_binding, attempt, instant, observe_event, bound_in;
    intros s r s' e k q Hr; unfold mbind, M_bind, gets, lift in Hr; cbn in Hr;
    destruct (body s) as [r1 s1] eqn:Hb; simplify_eq/=.
  - by apply (H1 _ _ _ e k q Hb).
  - by apply (H2 _ _ _ e k q Hb).
  - by apply (H3 _ _ _ e k q Hb).
Qed.
End binding_lemmas.

Section topology_lemmas.
Context `{HX : Hex, SHA : Sha256, CL : DeliveryClassOps, TJ : TupleJson, TR : Transport,
          EC : !EnvelopeCodec, AML : AmqpLaws}.

(** The direct bindings of a tenant's mailboxes. *)
Definition mailbox_bindings (n p : string) (e k q : string) : Prop :=
  ∃ c, c ∈ class_all ∧ e = direct_exchange c ∧ k = direct_route_key n p ∧ q = queue_name n p c.

(** The bindings of a scope member under one route and membership version. *)
Definition scope_bindings (n p r v : string) (e k q : string) : Prop :=
  ∃ c, c ∈ class_all ∧ e = scope_exchange c ∧ k = scope_route_key n r v ∧ q = queue_name n p c.

Lemma binds_ensure_tenant_mailboxes cfg n p :
  binds (mailbox_bindings n p) (ensure_tenant_mailboxes cfg n p).
Proof.
  apply binds_recording. eapply binds_weaken, (binds_bind no_bindings);
    [|by apply binds_call|intros ch; apply (binds_for_each (fun c e k q =>
        e = direct_exchange c ∧ k = direct_route_key n p ∧ q = queue_name n p c))].
  - unfold no_bindings, mailbox_bindings. naive_solver.
  - intros c. eapply binds_weaken, (binds_bind no_bindings);
      [|by apply binds_call|intros _; apply binds_queue_bind].
    unfold no_bindings. naive_solver.
Qed.

Lemma binds_bind_scope_member cfg n p r v :
  binds (fun e k q => mailbox_bindings n p e k q ∨ scope_bindings n p r v e k q)
    (bind_scope_member cfg n p r v).
Proof.
  apply binds_recording. apply binds_bind; [apply binds_ensure_tenant_mailboxes|intros _].
  eapply binds_weaken, (binds_bind no_bindings);
    [|by apply binds_call|intros ch; apply (binds_for_each (fun c e k q =>
        e = scope_exchange c ∧ k = scope_route_key n r v ∧ q = queue_name n p c))].
  - unfold no_bindings, scope_bindings. naive_solver.
  - intros c. apply binds_queue_bind.
Qed.

(** Mailbox bindings never touch a scope exchange. *)
Lemma mailbox_not_scope n p c k q : ¬ mailbox_bindings n p (scope_exchange c) k q.
Proof. intros (c' & _ & He & _). by apply scope_direct_exchange_ne in He. Qed.
End topology_lemmas.

(** ** Lemmas on pages *)

Section page_lemmas.
Context `{HX : Hex, SHA : Sha256, CL : DeliveryClassOps, TJ : TupleJson, TR : Transport,
          EC : !EnvelopeCodec, AM : Amqp}.

Lemma call_ok {A} (op : AmqpOp A) s a s' :
  call op s = (Ok a, s') →
  rb_trace s' = rb_trace s ++ [Call op] ∧ rb_pending_pages s' = rb_pending_pages s ∧
  rb_observability s' = rb_observability s.
Proof. unfold call. destruct (amqp op (rb_broker s)) as [r b]. by intros [= -> <-]. Qed.

Lemma call_received {A} (op : AmqpOp A) s r s' :
  call op s = (r, s') → rb_received s' = rb_received s ++ received_of op r.
Proof. unfold call. destruct (amqp op (rb_broker s)) as [r' b]. by intros [= -> <-]. Qed.

Lemma for_each_call_ok {X} (op : X -> AmqpOp ()) xs : ∀ s s',
  for_each xs (fun x => call (op x)) s = (Ok (), s') →
  rb_trace s' = rb_trace s ++ map (fun x => Call (op x)) xs ∧
  rb_pending_pages s' = rb_pending_pages s.
Proof.
  induction xs as [|x xs IH]; cbn; intros s s' Hr.
  - inv_M. by rewrite app_nil_r.
  - apply M_bind_ok in Hr as (a & s1 & H1 & H2).
    apply call_ok in H1 as (Ht & Hp & _). apply IH in H2 as [Ht' Hp'].
    rewrite Ht', Ht, Hp', Hp, <- app_assoc. done.
Qed.

(** A message the recipient itself published. *)
Definition is_self_message (principal_id : string) (message : Delivery) : bool :=
  match envelope_from_slice (dl_data message) with
  | Ok (EnvelopeRecord record) => bool_decide (br_source_principal_id record = principal_id)
  | _ => false
  end.

(** What a message carries. *)
Definition record_of (message : Delivery) : option BrokerRecord :=
  match envelope_from_slice (dl_data message) with
  | Ok (EnvelopeRecord record) => Some record
  | _ => None
  end.
Definition control_of (message : Delivery) : option BrokerControlRecord :=
  match envelope_from_slice (dl_data message) with
  | Ok (EnvelopeControl control) => Some control
  | _ => None
  end.

(** A page entry is for the record or the control. *)
Definition lists_record (d : MailboxDelivery) (r : BrokerRecord) : Prop :=
  md_record_id d = br_record_id r ∧ md_route d = br_route r ∧ md_record d = br_record r ∧
  md_membership_version d = br_membership_version r.
Definition lists_control (d : MailboxControlDelivery) (c : BrokerControlRecord) : Prop :=
  mc_correlation_id d = bc_correlation_id c ∧ mc_control_kind d = bc_control_kind c ∧
  mc_source_principal_id d = bc_source_principal_id c ∧ mc_payload d = bc_payload c.

(** The page gains the entries of the messages. *)
Record listed (ms : list Delivery) (acc acc' : PageAcc) : Prop := {
  li_deliveries : ∃ ds, pa_deliveries acc' = pa_deliveries acc ++ ds ∧
    Forall2 lists_record ds (omap record_of ms);
  li_controls : ∃ cs, pa_controls acc' = pa_controls acc ++ cs ∧
    Forall2 lists_control cs (omap control_of ms);
}.

Lemma listed_nil acc acc' :
  pa_deliveries acc' = pa_deliveries acc → pa_controls acc' = pa_controls acc → listed [] acc acc'.
Proof. intros Hd Hc. split; exists []; by rewrite app_nil_r. Qed.

Lemma listed_app ms ms' acc1 acc2 acc3 :
  listed ms acc1 acc2 → listed ms' acc2 acc3 → listed (ms ++ ms') acc1 acc3.
Proof.
  intros [(d1 & Hd1 & A1) (c1 & Hc1 & B1)] [(d2 & Hd2 & A2) (c2 & Hc2 & B2)].
  split; [exists (d1 ++ d2)|exists (c1 ++ c2)]; rewrite app_assoc, omap_app; split;
    try (by apply Forall2_app); congruence.
Qed.

(** One iteration acknowledges a message of the recipient at once, keeps the tag of
    any other message and lists it. *)
Lemma page_message_ok n p c ch acc m s acc' s' :
  page_message n p c ch acc m s = (Ok acc', s') →
  rb_pending_pages s' = rb_pending_pages s ∧ rb_received s' = rb_received s ∧
  listed (List.filter (fun m => negb (is_self_message p m)) [m]) acc acc' ∧
  if is_self_message p m
  then rb_trace s' = rb_trace s ++ [Call (BasicAck ch (dl_delivery_tag m))] ∧
       pa_tags acc' = pa_tags acc ∧ pa_deliveries acc' = pa_deliveries acc ∧
       pa_controls acc' = pa_controls acc
  else rb_trace s' = rb_trace s ∧ pa_tags acc' = pa_tags acc ++ [dl_delivery_tag m] ∧
       length (pa_deliveries acc') + length (pa_controls acc') =
         S (length (pa_deliveries acc) + length (pa_controls acc)) ∧
       (c ≠ Interactive → pa_controls acc' = pa_controls acc).
Proof.
  unfold page_message, is_self_message. intros Hm.
  apply M_bind_ok in Hm as (env & s1 & He & Hm). unfold lift in He. injection He as He <-.
  cbn. rewrite He. destruct env as [r|ctl].
  - apply M_bind_ok in Hm as ([] & s1 & Hb & Hm). unfold lift in Hb. injection Hb as _ <-.
    case_bool_decide; cbn.
    + apply M_bind_ok in Hm as ([] & s1 & Hc & Hm). pose proof (call_received _ _ _ _ Hc) as Hrc.
      cbn in Hrc. rewrite app_nil_r in Hrc. apply call_ok in Hc as (Ht & Hp & _). inv_M. cbn.
      rewrite Hp. split_and!; try done. by apply listed_nil.
    + inv_M. cbn. split_and!; try done; [|rewrite length_app; cbn; lia].
      split; cbn; unfold record_of, control_of; rewrite He; cbn;
        [eexists; split; [done|]; by repeat constructor|exists []; by rewrite app_nil_r].
  - inv_M. cbn. inv_result.
    match goal with Hb : _ || _ = false |- _ =>
      apply orb_false_iff in Hb as [_ Hb%negb_false_iff%bool_decide_eq_true] end.
    split_and!; try done; [|rewrite length_app; cbn; lia].
    split; cbn; unfold record_of, control_of; rewrite He; cbn;
      [exists []; by rewrite app_nil_r|eexists; split; [done|]; by repeat constructor].
Qed.

Lemma page_messages_ok n p c ch ms : ∀ acc s acc' s',
  page_messages n p c ch acc ms s = (Ok acc', s') →
  rb_pending_pages s' = rb_pending_pages s ∧ rb_received s' = rb_received s ∧
  listed (List.filter (fun m => negb (is_self_message p m)) ms) acc acc' ∧
  rb_trace s' = rb_trace s ++
    map (fun m => Call (BasicAck ch (dl_delivery_tag m))) (List.filter (is_self_message p) ms) ∧
  pa_tags acc' = pa_tags acc ++
    map dl_delivery_tag (List.filter (fun m => negb (is_self_message p m)) ms) ∧
  length (pa_tags acc') + (length (pa_deliveries acc) + length (pa_controls acc)) =
    length (pa_tags acc) + (length (pa_deliveries acc') + length (pa_controls acc')) ∧
  (c ≠ Interactive → pa_controls acc' = pa_controls acc).
Proof.
  induction ms as [|m ms IH]; cbn; intros acc s acc' s' Hm.
  - inv_M. rewrite !app_nil_r. split_and!; try done. by apply listed_nil.
  - apply M_bind_ok in Hm as (acc1 & s1 & H1 & H2).
    apply page_message_ok in H1 as (Hp & Hrc & Hl & H1).
    apply IH in H2 as (Hp' & Hrc' & Hl' & Ht' & Hg' & Hn' & Hc').
    rewrite Hp', Hp, Hrc', Hrc, Ht', Hg'. clear IH Hp' Hp Ht' Hrc Hrc'. cbn in Hl.
    pose proof (listed_app _ _ _ _ _ Hl Hl') as Hlist. clear Hl Hl'.
    destruct (is_self_message p m); cbn in *.
    + destruct H1 as (-> & Htags & Hd & Hc). rewrite Htags, Hd, Hc in *.
      rewrite <- app_assoc. split_and!; try done. rewrite Hg', length_app in *. lia.
    + destruct H1 as (-> & Htags & Hlen & Hc). rewrite Htags in *.
      rewrite <- app_assoc. split_and!; try done.
      * rewrite Hg', !length_app in *. cbn in *. lia.
      * intros Hne. rewrite Hc' by done. by apply Hc.
Qed.
End page_lemmas.

(** ** Acknowledgements and metrics along a computation *)

Section trace_lemmas.
Context `{HX : Hex, SHA : Sha256, CL : DeliveryClassOps, TJ : TupleJson, TR : Transport,
          EC : !EnvelopeCodec, AM : Amqp}.

(** The acknowledgements among the issued operations. *)
Definition ack_of (c : AmqpCall) : option (N * Z) :=
  match c with
  | Call op => match op with BasicAck ch t => Some (ch, t) | _ => None end
  end.
Definition acks (trace : list AmqpCall) : list (N * Z) := omap ack_of trace.

Lemma acks_app t t' : acks (t ++ t') = acks t ++ acks t'.
Proof. apply omap_app. Qed.

Lemma acks_map {X} ch (f : X -> Z) l :
  acks (map (fun x => Call (BasicAck ch (f x))) l) = map (fun x => (ch, f x)) l.
Proof. unfold acks. induction l as [|x l IH]; cbn; [done|]. by rewrite IH. Qed.

(** No message is acknowledged. *)
Definition same_acks (s s' : RabbitAdapter) : Prop := acks (rb_trace s') = acks (rb_trace s).
#[global] Instance same_acks_preorder : PreOrder same_acks.
Proof. split; unfold same_acks; [done|congruence]. Qed.

Lemma same_acks_call {A} (op : AmqpOp A) : ack_of (Call op) = None → always same_acks (call op).
Proof.
  intros Hop s. unfold call, same_acks. destruct (amqp op (rb_broker s)). cbn.
  rewrite acks_app. assert (acks [Call op] = []) as ->; [|by rewrite app_nil_r].
  unfold acks. cbn -[ack_of]. by rewrite Hop.
Qed.

Lemma same_acks_observe ev : always same_acks (observe_event ev).
Proof. by intros s. Qed.

Lemma same_acks_set_pending f : always same_acks (set_pending f).
Proof. by intros s. Qed.

Lemma same_acks_instant : always same_acks instant.
Proof. by intros s. Qed.

Local Hint Resolve same_acks_observe same_acks_set_pending same_acks_instant : gw_always.
Local Hint Extern 1 (always _ (call _)) => by apply same_acks_call : gw_always.

Lemma same_acks_recording body : always same_acks body → always same_acks (recording_binding body).
Proof. intros Hb. unfold recording_binding. solve_always. Qed.

Lemma same_acks_ensure cfg n p : always same_acks (ensure_tenant_mailboxes cfg n p).
Proof. apply same_acks_recording. solve_always. Qed.

Lemma same_acks_abandon cfg n p c : always same_acks (abandon_expired_pages cfg n p c).
Proof. unfold abandon_expired_pages, close_expired. solve_always. Qed.

Lemma same_acks_take limit : ∀ ch tag, always same_acks (take_messages limit ch tag).
Proof.
  induction limit as [|limit IH]; intros ch tag; cbn; [solve_always|].
  solve_always.
Qed.

(** No message is received. *)
Definition same_received (s s' : RabbitAdapter) : Prop := rb_received s' = rb_received s.
#[global] Instance same_received_preorder : PreOrder same_received.
Proof. split; unfold same_received; [done|congruence]. Qed.

Lemma same_received_call {A} (op : AmqpOp A) :
  (∀ r, received_of op r = []) → always same_received (call op).
Proof.
  intros Hop s. destruct (call op s) as [r s'] eqn:Hc. apply call_received in Hc. cbn.
  unfold same_received. by rewrite Hc, Hop, app_nil_r.
Qed.

Lemma same_received_observe ev : always same_received (observe_event ev).
Proof. by intros s. Qed.

Lemma same_received_set_pending f : always same_received (set_pending f).
Proof. by intros s. Qed.

Lemma same_received_instant : always same_received instant.
Proof. by intros s. Qed.

Local Hint Resolve same_received_observe same_received_set_pending same_received_instant : gw_always.
Local Hint Extern 1 (always same_received (call _)) => by apply same_received_call : gw_always.

Lemma same_received_ensure cfg n p : always same_received (ensure_tenant_mailboxes cfg n p).
Proof. unfold ensure_tenant_mailboxes, recording_binding. solve_always. Qed.

Lemma same_received_abandon cfg n p c : always same_received (abandon_expired_pages cfg n p c).
Proof. unfold abandon_expired_pages, close_expired. solve_always. Qed.

(** The loop returns every message the broker hands over. *)
Lemma take_messages_received limit : ∀ ch tag s ms s',
  take_messages limit ch tag s = (Ok ms, s') →
  rb_received s' = rb_received s ++ map (pair ch) ms.
Proof.
  induction limit as [|limit IH]; cbn; intros ch tag s ms s' Ht.
  - inv_M. by rewrite app_nil_r.
  - apply M_bind_ok in Ht as (next & s1 & Hc%call_received & Ht). cbn in Hc.
    destruct next as [m|]; [|by inv_M].
    apply M_bind_ok in Ht as (rest & s2 & Hr%IH & Ht). inv_M. cbn.
    by rewrite Hr, Hc, <- app_assoc.
Qed.

Lemma take_messages_length limit : ∀ ch tag s ms s',
  take_messages limit ch tag s = (Ok ms, s') → length ms ≤ limit.
Proof.
  induction limit as [|limit IH]; cbn; intros ch tag s ms s' Ht; inv_M; cbn; [lia|].
  case_match; inv_M; cbn; [|lia].
  match goal with Ht : take_messages _ _ _ _ = _ |- _ => apply IH in Ht end. lia.
Qed.

(** The metrics events emitted are all of the kind [P]. *)
Definition emits (P : ObsEvent -> Prop) (s s' : RabbitAdapter) : Prop :=
  ∃ evs, rb_observability s' = rb_observability s ++ evs ∧ Forall P evs.
#[export] Instance emits_preorder P : PreOrder (emits P).
Proof.
  split.
  - intros s. exists []. by rewrite app_nil_r.
  - intros s1 s2 s3 (e1 & H1 & F1) (e2 & H2 & F2). exists (e1 ++ e2).
    rewrite H2, H1, app_assoc. split; [done|]. by apply Forall_app.
Qed.

Lemma emits_silent {A} P (m : R A) :
  (∀ s, rb_observability (m s).2 = rb_observability s) → always (emits P) m.
Proof. intros Hm s. exists []. by rewrite app_nil_r, Hm. Qed.

Lemma emits_call {A} P (op : AmqpOp A) : always (emits P) (call op).
Proof. apply emits_silent. intros s. unfold call. by destruct (amqp op (rb_broker s)). Qed.

Lemma emits_instant P : always (emits P) instant.
Proof. by apply emits_silent. Qed.

Lemma emits_observe (P : ObsEvent -> Prop) ev : P ev → always (emits P) (observe_event ev).
Proof. intros Hev s. exists [ev]. split; [done|]. by constructor. Qed.

Lemma emits_recording P body :
  (∀ ms ok, P (RecordBinding ms ok)) → always (emits P) body →
  always (emits P) (recording_binding body).
Proof.
  intros HP Hb. unfold recording_binding. solve_always;
    auto using emits_instant, emits_observe.
Qed.
End trace_lemmas.

#[export] Hint Resolve same_acks_observe same_acks_set_pending same_acks_instant
  same_acks_ensure same_acks_abandon same_acks_take emits_call emits_instant
  same_received_observe same_received_set_pending same_received_instant
  same_received_ensure same_received_abandon : gw_always.
#[export] Hint Extern 1 (always same_received (call _)) => by apply same_received_call : gw_always.
#[export] Hint Extern 1 (always same_acks (call _)) => by apply same_acks_call : gw_always.

(** ** Instances for the examples *)

Definition json_impl : TupleJson := {| json_strings := foldr length_prefixed "" |}.

Lemma json_impl_laws : @TupleJsonLaws json_impl.
Proof.
  split. intros l. induction l as [|x l IH]; intros [|y l']; cbn; intros Hl.
  - done.
  - exfalso. unfold length_prefixed in Hl. by destruct (show_u64 (len y)).
  - exfalso. unfold length_prefixed in Hl. by destruct (show_u64 (len x)).
  - apply length_prefixed_inj in Hl as [-> Hl]. f_equal. by apply IH.
Qed.

Definition sample_broker_record (source : string) : @BrokerRecord transport_impl := {|
  br_network_id := "net"; br_record_id := "r1"; br_source_principal_id := source;
  br_route := ({| sr_scope := Group "g"; sr_lane := Events; sr_address := "b" |} :
                 @EventTransportRoute transport_impl);
  br_record := "payload"; br_membership_version := Some "v1"; br_delivery_class := Bulk;
  br_delivery_policy_version := 1; br_enqueued_at := 5; br_expires_at := None;
|}.

(** Two messages are decodable: one of alice and one of bob. *)
Definition envelope_impl : @EnvelopeCodec transport_impl := {|
  envelope_to_vec e := Ok "encoded";
  envelope_from_slice s :=
    if bool_decide (s = "from-bob") then Ok (EnvelopeRecord (sample_broker_record "bob"))
    else if bool_decide (s = "from-alice") then Ok (EnvelopeRecord (sample_broker_record "alice"))
    else Err "expected value";
|}.

Definition sample_delivery (tag : Z) (data : string) : Delivery :=
  {| dl_delivery_tag := tag; dl_redelivered := false; dl_data := data; dl_headers := None |}.

Definition sample_adapter (script : list Delivery) (confirm : Confirmation) :
    @RabbitAdapter amqp_impl := {|
  rb_broker := (mem_init script confirm : @Broker amqp_impl);
  rb_pending_pages := ∅; rb_observability := []; rb_trace := []; rb_received := [];
|}.

(** ** Properties *)

(** A mailbox queue name identifies its mailbox.  For principals without a dot
    (public keys in hexadecimal), the principal is recovered from the queue name
    under the queue's own network, is not recovered under any other network, and two
    mailboxes share a queue name only when network, principal and class agree. *)
Theorem queue_name_identifies `{HexLaws, Sha256Inj, DeliveryClassLaws} n p c n' p' c' :
  has_char "." p = false → has_char "." p' = false →
  principal_from_queue_name (queue_name n p c) n' = (if decide (n' = n) then Some p else None) ∧
  (queue_name n p c = queue_name n' p' c' ↔ n = n' ∧ p = p' ∧ c = c').
Proof.
  intros Hp Hp'. split.
  - unfold principal_from_queue_name. rewrite queue_name_split by done.
    rewrite !(bool_decide_true (_ = _)) by done. cbn.
    case_decide as Hn; [subst; by rewrite bool_decide_true|].
    rewrite bool_decide_false; [done|]. unfold network_queue_component.
    intros ->%hex_encode_inj%(inj sha256). done.
  - split; [by apply queue_name_inj|]. by intros (-> & -> & ->).
Qed.

Lemma queue_name_identifies_witness :
  principal_from_queue_name (HX:=hex_impl) (SHA:=sha256_id)
    (queue_name (HX:=hex_impl) (SHA:=sha256_id) (CL:=class_impl) "net-a" "ab12" Bulk) "net-b" = None.
Proof.
  exact (proj1 (@queue_name_identifies hex_impl hex_impl_laws sha256_id sha256_id_inj
    class_impl class_impl_laws "net-a" "ab12" Bulk "net-b" "ab12" Bulk eq_refl eq_refl)).
Defined.

Section page_properties.
Context `{HX : Hex, SHA : Sha256, CL : DeliveryClassOps, TJ : TupleJson, TR : Transport,
          EC : !EnvelopeCodec, AM : Amqp}.

(** What a pulled page leaves behind. *)
Lemma pull_page_some cfg n p c pg ep limit s page s' :
  pull_page cfg n p c pg ep limit s = (Ok (Some page), s') →
  ∃ pending messages,
    rb_pending_pages s' !! pg = Some pending ∧
    pg_network_id pending = n ∧ pg_principal_id pending = p ∧
    pg_delivery_class pending = c ∧ pg_consumer_epoch pending = ep ∧
    length messages ≤ limit ∧
    pg_delivery_tags pending =
      map dl_delivery_tag (List.filter (fun m => negb (is_self_message p m)) messages) ∧
    length (pg_delivery_tags pending) = length (pp_deliveries page) + length (pp_controls page) ∧
    0 < length (pg_delivery_tags pending) ∧
    acks (rb_trace s') = acks (rb_trace s) ++
      map (fun m => (pg_channel pending, dl_delivery_tag m))
        (List.filter (is_self_message p) messages) ∧
    (c ≠ Interactive → pp_controls page = []) ∧
    rb_received s' = rb_received s ++ map (pair (pg_channel pending)) messages ∧
    let kept := List.filter (fun m => negb (is_self_message p m)) messages in
    Forall2 lists_record (pp_deliveries page) (omap record_of kept) ∧
    Forall2 lists_control (pp_controls page) (omap control_of kept).
Proof.
  unfold pull_page. intros Hpull.
  apply M_bind_ok in Hpull as (t0 & s0 & H0 & Hpull).
  apply M_bind_ok in Hpull as ([] & s1 & H1 & Hpull).
  apply M_bind_ok in Hpull as (t1 & s2 & H2 & Hpull).
  apply M_bind_ok in Hpull as ([] & s3 & H3 & Hpull).
  apply M_bind_ok in Hpull as (ch & s4 & H4 & Hpull).
  apply M_bind_ok in Hpull as ([] & s5 & H5 & Hpull).
  apply M_bind_ok in Hpull as ([] & s6 & H6 & Hpull).
  apply M_bind_ok in Hpull as (ms & s7 & H7 & Hpull).
  apply M_bind_ok in Hpull as ([] & s8 & H8 & Hpull).
  assert (same_acks s s8) as Hacks.
  { run_always same_acks H0. run_always same_acks H1. run_always same_acks H2.
    run_always same_acks H3. run_always same_acks H4. run_always same_acks H5.
    run_always same_acks H6. run_always same_acks H7. run_always same_acks H8.
    unfold same_acks in *. congruence. }
  assert (rb_received s8 = rb_received s ++ map (pair ch) ms) as Hrcv.
  { apply take_messages_received in H7. run_always same_received H0. run_always same_received H1.
    run_always same_received H2. run_always same_received H3. run_always same_received H4.
    run_always same_received H5. run_always same_received H6. run_always same_received H8.
    unfold same_received in *. congruence. }
  apply take_messages_length in H7.
  case_bool_decide; [inv_M; done|].
  apply M_bind_ok in Hpull as (acc & s9 & H9 & Hpull).
  apply page_messages_ok in H9
    as (Hp & Hrc & [(ds & Hds & Fd) (cs & Hcs & Fc)] & Ht & Htags & Hlen & Hctl). cbn in Hlen, Htags, Hctl.
  apply M_bind_ok in Hpull as ([] & s10 & H10 & Hpull).
  unfold set_pending in H10. injection H10 as <-.
  destruct (bool_decide _ && bool_decide _) eqn:Hempty; [by inv_M|].
  unfold instant, observe_event in Hpull. inv_M. cbn.
  eexists _, ms. rewrite lookup_insert_eq. split; [done|]. cbn.
  cbn in Hds, Hcs. rewrite Hds, Hcs in *.
  split_and!; try done; [lia| |by rewrite Ht, acks_app, Hacks, acks_map|congruence].
  apply andb_false_iff in Hempty as [He|He]; apply bool_decide_eq_false in He; lia.
Qed.

(** Committing a page whose owner, class and epoch agree. *)
Lemma commit_page_some pg p c ep s out s' pending :
  rb_pending_pages s !! pg = Some pending →
  commit_page pg p c ep s = (Ok out, s') →
  pg_principal_id pending = p ∧ pg_delivery_class pending = c ∧
  pg_consumer_epoch pending = ep ∧
  out = Some (length (pg_delivery_tags pending)) ∧
  rb_pending_pages s' = delete pg (rb_pending_pages s) ∧
  rb_trace s' = rb_trace s ++
    map (fun tag => Call (BasicAck (pg_channel pending) tag)) (pg_delivery_tags pending) ++
    [Call (ChannelClose (pg_channel pending) 200 "mailbox page committed")].
Proof.
  intros Hpg. unfold commit_page. intros Hc.
  apply M_bind_ok in Hc as (o & s0 & H0 & Hc). unfold gets in H0. injection H0 as <- <-.
  rewrite Hpg in Hc.
  apply M_bind_ok in Hc as ([] & s1 & H1 & Hc). unfold set_pending in H1. injection H1 as <-.
  apply M_bind_ok in Hc as ([] & s2 & H2 & Hc). unfold lift in H2. injection H2 as Hb <-.
  apply M_bind_ok in Hc as ([] & s3 & H3 & Hc).
  apply (for_each_call_ok (fun tag => BasicAck (pg_channel pending) tag)) in H3 as [Ht Hp].
  apply M_bind_ok in Hc as ([] & s4 & (Ht4 & Hp4 & _)%call_ok & Hc). inv_M.
  apply bail_if_ok in Hb. rewrite !orb_false_iff, !negb_false_iff, !bool_decide_eq_true in Hb.
  destruct Hb as [[? ?] ?]. rewrite Ht4, Ht, Hp4, Hp, <- app_assoc. by split_and!.
Qed.

(** A refused commit drops the page without acknowledging anything. *)
Lemma commit_page_mismatch pg p c ep s pending :
  rb_pending_pages s !! pg = Some pending →
  ¬ (pg_principal_id pending = p ∧ pg_delivery_class pending = c ∧
     pg_consumer_epoch pending = ep) →
  let '(r, s') := commit_page pg p c ep s in
  r = Err "page commit owner, principal, class, or epoch mismatch" ∧
  rb_trace s' = rb_trace s ∧ rb_pending_pages s' = delete pg (rb_pending_pages s).
Proof.
  intros Hpg Hne. unfold commit_page, gets, mbind, M_bind. rewrite Hpg. cbn.
  unfold lift. cbn. unfold bail_if. repeat case_bool_decide; cbn; tauto.
Qed.
End page_properties.

(** C9: delivery pages are at-least-once.  The messages a pull receives from the
    broker are at most [limit] and each of them is accounted for: the pull acknowledges
    exactly those the recipient published itself, and the page lists, in the order
    received, the records and the controls of all the others, which stay
    unacknowledged; a successful commit then acknowledges exactly those, once each,
    reports their number (the deliveries and controls of the page), and forgets the
    page, so that a second commit reports nothing and issues no broker operation. *)
Theorem page_pull_commit `{HX : Hex, SHA : Sha256, CL : DeliveryClassOps, TJ : TupleJson,
      TR : Transport, EC : !EnvelopeCodec, AM : Amqp}
    cfg n p c pg ep limit s page s1 out s2 :
  pull_page cfg n p c pg ep limit s = (Ok (Some page), s1) →
  commit_page pg p c ep s1 = (Ok out, s2) →
  ∃ ch messages,
    rb_received s1 = rb_received s ++ map (pair ch) messages ∧ length messages ≤ limit ∧
    acks (rb_trace s1) = acks (rb_trace s) ++
      map (fun m => (ch, dl_delivery_tag m)) (List.filter (is_self_message p) messages) ∧
    acks (rb_trace s2) = acks (rb_trace s1) ++
      map (fun m => (ch, dl_delivery_tag m))
        (List.filter (fun m => negb (is_self_message p m)) messages) ∧
    (let kept := List.filter (fun m => negb (is_self_message p m)) messages in
     Forall2 lists_record (pp_deliveries page) (omap record_of kept) ∧
     Forall2 lists_control (pp_controls page) (omap control_of kept) ∧
     out = Some (length kept)) ∧
    out = Some (length (pp_deliveries page) + length (pp_controls page)) ∧
    ∀ p' c' ep', commit_page pg p' c' ep' s2 = (Ok None, s2).
Proof.
  intros (pending & ms & Hpg & _ & _ & _ & _ & Hlim & Htags & Hlen & _ & Hself & _ & Hrcv & Hds & Hcs)%pull_page_some Hc.
  destruct (commit_page_some _ _ _ _ _ _ _ _ Hpg Hc) as (_ & _ & _ & -> & Hpages & Htrace).
  exists (pg_channel pending), ms. split_and!; try done.
  - rewrite Htrace, !acks_app, (acks_map _ (fun tag => tag)), Htags, map_map.
    unfold acks at 3. cbn. by rewrite app_nil_r.
  - by rewrite Htags, length_map.
  - by rewrite Hlen.
  - intros p' c' ep'. unfold commit_page, gets, mbind, M_bind.
    by rewrite Hpages, lookup_delete_eq.
Qed.

Definition sample_pull (s : @RabbitAdapter amqp_impl) :
    result string (option (@PulledPage transport_impl)) * @RabbitAdapter amqp_impl :=
  pull_page (HX:=hex_impl) (SHA:=sha256_id) (CL:=class_impl) (TJ:=json_impl) (TR:=transport_impl)
    (EC:=envelope_impl) (AM:=amqp_impl) sample_config "net" "alice" Bulk "page-1" "epoch-1" 8 s.

Definition sample_mailbox : @RabbitAdapter amqp_impl :=
  sample_adapter [sample_delivery 1 "from-alice"; sample_delivery 2 "from-bob"] (Ack None).

Lemma page_pull_commit_witness :
  ∃ page out, (sample_pull sample_mailbox).1 = Ok (Some page) ∧
    (commit_page "page-1" "alice" Bulk "epoch-1" (sample_pull sample_mailbox).2).1 = Ok out ∧
    out = Some 1 ∧
    out = Some (length (pp_deliveries page) + length (pp_controls page)).
Proof.
  do 2 eexists. split; [vm_compute; reflexivity|]. split; [vm_compute; reflexivity|].
  split; [reflexivity|].
  edestruct (@page_pull_commit hex_impl sha256_id class_impl json_impl transport_impl
    envelope_impl amqp_impl sample_config "net" "alice" Bulk "page-1" "epoch-1" 8 sample_mailbox)
    as (ch & ms & _ & _ & _ & _ & _ & Hout & _).
  - apply M_run_ok. vm_compute. reflexivity.
  - apply M_run_ok. vm_compute. reflexivity.
  - exact Hout.
Defined.

(** A commit whose principal, class or consumer epoch does not match the page
    acknowledges nothing and drops the page, so that the broker requeues its
    messages instead of losing them to the wrong owner. *)
Theorem commit_mismatch_requeues `{AM : Amqp} pg p c ep s pending :
  rb_pending_pages s !! pg = Some pending →
  ¬ (pg_principal_id pending = p ∧ pg_delivery_class pending = c ∧
     pg_consumer_epoch pending = ep) →
  (commit_page pg p c ep s).1
    = Err "page commit owner, principal, class, or epoch mismatch" ∧
  rb_trace (commit_page pg p c ep s).2 = rb_trace s ∧
  rb_pending_pages (commit_page pg p c ep s).2 = delete pg (rb_pending_pages s).
Proof.
  intros Hpg Hne. pose proof (commit_page_mismatch _ _ _ _ _ _ Hpg Hne) as Hm.
  by destruct (commit_page pg p c ep s).
Qed.

Lemma commit_mismatch_requeues_witness :
  rb_trace (commit_page "page-1" "mallory" Bulk "epoch-1" (sample_pull sample_mailbox).2).2
  = rb_trace (sample_pull sample_mailbox).2.
Proof.
  edestruct (@commit_mismatch_requeues amqp_impl "page-1" "mallory" Bulk "epoch-1"
    (sample_pull sample_mailbox).2) as (_ & Ht & _);
    [vm_compute; reflexivity|vm_compute; intros [H _]; discriminate H|exact Ht].
Defined.

(** The metrics never see a failed control publish: whatever the broker answers,
    every publish-confirm event emitted by [publish_control] has the outcome
    [Confirmed], so refused and unroutable control messages are not counted. *)
Theorem control_metrics_confirmed_only `{HX : Hex, SHA : Sha256, CL : DeliveryClassOps,
      TJ : TupleJson, TR : Transport, EC : !EnvelopeCodec, AM : Amqp} cfg control s :
  ∃ evs, rb_observability (publish_control cfg control s).2 = rb_observability s ++ evs ∧
    Forall (fun ev => match ev with
                      | RecordPublishConfirm _ _ _ _ _ o => o = Confirmed
                      | _ => True
                      end) evs.
Proof.
  set (P := fun ev => match ev with RecordPublishConfirm _ _ _ _ _ o => o = Confirmed | _ => True end).
  enough (always (emits P) (publish_control cfg control)) as Ha by apply Ha.
  assert (always (emits P) (ensure_tenant_mailboxes cfg (bc_network_id control)
            (bc_target_principal_id control))).
  { apply emits_recording; [done|]. solve_always. }
  unfold publish_control, await_confirm.
  do 7 (apply always_bind; [apply _|solve_always|intros ?]).
  apply (always_bind_post _ (fun o => o = Ok ())); [solve_always| |intros ? ->].
  - intros s' o s'' Ho. case_match; [case_match|..]; by inv_M.
  - solve_always. by apply emits_observe.
Qed.

(** No dead letter is acknowledged before its loss is on record.  Draining a
    dead letter either acknowledges nothing (and the broker keeps it), or
    acknowledges exactly that message after the gap of the mailbox named by the
    message's death header has been recorded in the database; the only messages
    acknowledged without a gap are records that died in the mailbox of their own
    author. *)
Theorem dead_letter_recorded `{HX : Hex, SHA : Sha256, CL : DeliveryClassOps, TJ : TupleJson,
      TR : Transport, EC : !EnvelopeCodec, GC : !GapCodec, AM : Amqp}
    is_utf8 now ch m s g r s' g' :
  drain_dead_letter is_utf8 now ch m (s, g) = (r, (s', g')) →
  acks (rb_trace s') = acks (rb_trace s) ∨
  acks (rb_trace s') = acks (rb_trace s) ++ [(ch, dl_delivery_tag m)] ∧
  ∃ queue, header_string is_utf8 m "x-first-death-queue" = Some queue ∧
    ((∃ record, envelope_from_slice (dl_data m) = Ok (EnvelopeRecord record) ∧
        principal_from_queue_name queue (br_network_id record) =
          Some (br_source_principal_id record) ∧ g' = g) ∨
     ∃ network_id principal_id class version route reason id,
       principal_from_queue_name queue network_id = Some principal_id ∧
       record_gap (now * 1000) network_id principal_id class version route reason (Z.max now 0) g
         = Ok (id, g')).
Proof.
  unfold drain_dead_letter, mbind, M_bind, lift. cbn.
  destruct (envelope_from_slice (dl_data m)) as [env|] eqn:Henv; [|intros [= _ <- <-]; by left].
  set (fields := match env with EnvelopeRecord _ => _ | EnvelopeControl _ => _ end).
  destruct fields as [[[[n src] route] class] version] eqn:Hfields.
  destruct (header_string is_utf8 m "x-first-death-queue") as [queue|] eqn:Hq; cbn;
    [|intros [= _ <- <-]; by left].
  destruct (principal_from_queue_name queue n) as [prin|] eqn:Hprin; cbn;
    [|intros [= _ <- <-]; by left].
  assert (∀ st : RabbitAdapter, acks (rb_trace (call (BasicAck ch (dl_delivery_tag m)) st).2)
    = acks (rb_trace st) ++ [(ch, dl_delivery_tag m)]) as Hack.
  { intros st. unfold call. destruct (amqp _ (rb_broker st)). cbn. by rewrite acks_app. }
  specialize (Hack s). case_bool_decide as Hself; unfold on_rabbit, zoom; cbn.
  - destruct (call (BasicAck ch (dl_delivery_tag m)) s) as [[[]|e] s1] eqn:Hc; cbn in *;
      intros [= _ <- <-]; (right; split; [done|]; exists queue; split; [done|]; left);
      (destruct env as [record|]; unfold fields in Hfields; simplify_eq; by exists record).
  - unfold on_gaps. cbn.
    destruct (record_gap (now * 1000) n prin class version route _ _ g) as [[id g1]|e] eqn:Hg; cbn;
      [|intros [= _ <- <-]; by left].
    destruct (call (BasicAck ch (dl_delivery_tag m)) s) as [[[]|e] s1] eqn:Hc; cbn in *;
      intros [= _ <- <-]; (right; split; [done|]; exists queue; split; [done|]; right);
      do 7 eexists; split; done.
Qed.

Definition sample_dead_letter : Delivery := {|
  dl_delivery_tag := 9; dl_redelivered := true; dl_data := "from-bob";
  dl_headers := Some {[ "x-first-death-queue" :=
    LongString (queue_name (HX:=hex_impl) (SHA:=sha256_id) (CL:=class_impl) "net" "alice" Bulk) ]};
|}.

Definition sample_drain : result string bool * (@RabbitAdapter amqp_impl * GapTable) :=
  drain_dead_letter (HX:=hex_impl) (SHA:=sha256_id) (CL:=class_impl) (TR:=transport_impl)
    (EC:=envelope_impl) (GC:=gap_codec_impl) (AM:=amqp_impl) (fun _ => true) 3600000 7
    sample_dead_letter (sample_adapter [] (Ack None), ∅).

Lemma dead_letter_recorded_witness :
  sample_drain.1 = Ok true ∧
  (acks (rb_trace sample_drain.2.1) = [] ∨
   acks (rb_trace sample_drain.2.1) = [(7%N, 9%Z)]).
Proof.
  split; [vm_compute; reflexivity|].
  destruct (@dead_letter_recorded hex_impl sha256_id class_impl json_impl transport_impl
    envelope_impl gap_codec_impl amqp_impl (fun _ => true) 3600000 7 sample_dead_letter
    (sample_adapter [] (Ack None)) ∅ sample_drain.1 sample_drain.2.1 sample_drain.2.2)
    as [H|[H _]]; [|left; exact H|right; exact H].
  unfold sample_drain. destruct (drain_dead_letter _ _ _ _ _) as [r [s g]]. reflexivity.
Defined.
