(* ===== verification/Protocol.v ===== *)
(** * Interfaces of the protocol crates

    The types and functions of [wattswarm_protocol], [wattswarm_crypto] and
    [wattswarm_network_client_server] that the message gateway uses.  None of this
    code is part of the repository: types whose fields the gateway does not read
    are opaque, enums have the variants the sources name, and functions are
    fields of a class.  [Host] stands for the process's environment: clocks, the
    random generators and the outcomes of database statements, each indexed by
    the number of steps taken so far, so that a theorem about all hosts is a
    theorem about every clock and every pattern of failures. *)

From S2P Require Import Prelude Str External.

(** ** The host *)

Class Host := {
  (** [clock_timestamp()] in microseconds. *)
  db_clock : nat -> Z;
  (** The error of the statement, if it fails. *)
  db_fault : nat -> option string;
  (** [Utc::now()] in microseconds. *)
  utc_now : nat -> Z;
  (** [Uuid::new_v4()], in canonical form. *)
  fresh_uuid : nat -> string;
  (** [thread_rng().fill_bytes] on 32 bytes. *)
  random_nonce : nat -> string;
  (** [Uuid::parse_str] *)
  uuid_parse : string -> option string;
}.

(** [DateTime::timestamp_millis] *)
Definition timestamp_millis (us : Z) : Z := us `div` 1000.

(** Postgres values of type [JSONB]. *)
Class JsonValue := {
  Json : Type;
  json_eq_dec :: EqDecision Json;
  json_empty_array : Json;
}.

(** ** Memberships and grants *)

Class Memberships `{JV : JsonValue} := {
  Role : Type;
  role_eq_dec :: EqDecision Role;
  Proposer : Role;
  Verifier : Role;
  Committer : Role;
  Finalizer : Role;
  roles_to_value : list Role -> result string Json;
  roles_from_value : Json -> result string (list Role);
  Membership : Type;
  membership_members : Membership -> gmap string (list Role);
  membership_to_vec : Membership -> result string string;
  NetworkMembershipGrant : Type;
  grant_network_id : NetworkMembershipGrant -> string;
  grant_principal_id : NetworkMembershipGrant -> string;
  grant_issued_at : NetworkMembershipGrant -> Z;
  grant_expires_at : NetworkMembershipGrant -> option Z;
  grant_to_value : NetworkMembershipGrant -> result string Json;
  network_membership_grant_id : NetworkMembershipGrant -> result string string;
  (** [verify_network_membership_grant(grant, expected_issuer, now_ms)] *)
  verify_network_membership_grant : NetworkMembershipGrant -> string -> Z -> result string ();
}.

Class MembershipLaws `{MS : Memberships} : Prop := {
  roles_roundtrip rs j : roles_to_value rs = Ok j →
    ∃ rs', roles_from_value j = Ok rs' ∧ ∀ r, r ∈ rs' ↔ r ∈ rs;
  roles_empty : roles_from_value json_empty_array = Ok [];
}.

Record SignatureEnvelope := {
  se_signer_node_id : string;
  se_signature_hex : string;
}.

Inductive ScopeHint :=
| HintGlobal
| HintRegion (id : string)
| HintNode (id : string)
| HintGroup (id : string).

(** ** Events and announcements *)

Record MembershipUpdatedPayload `{MS : Memberships} := {
  mu_new_membership : Membership;
  mu_quorum_threshold : Z;
  mu_quorum_signatures : list SignatureEnvelope;
}.

Record FeedSubscriptionUpdatedPayload := {
  fs_subscriber_node_id : string;
  fs_active : bool;
  (** The result of [payload.scope()]. *)
  fs_scope : option ScopeHint;
}.

(** The variants the sources name; their payloads are kept where the sources
    read them. *)
Inductive EventPayload `{MS : Memberships} :=
| MembershipUpdated (payload : MembershipUpdatedPayload)
| FeedSubscriptionUpdated (payload : FeedSubscriptionUpdatedPayload)
| PolicyTuned | NetworkParamsUpdated | CheckpointCreated
| AdvisoryCreated | AdvisoryApproved | AdvisoryApplied
| EventRevoked | SummaryRevoked | NodePenalized
| OtherPayload.

Inductive EventDeliveryUrgency := ExplicitRecipient | TimeSensitiveControl | Background.

Inductive PublishPayloadType := PTEvent | PTMessage | PTRule | PTCheckpoint | PTSummary.
Global Instance PublishPayloadType_eq_dec : EqDecision PublishPayloadType.
Proof. solve_decision. Defined.

Class Protocol `{MS : Memberships, TR : Transport} := {
  Event : Type;
  event_from_slice : string -> result string Event;
  verify_event_signature : Event -> result string ();
  event_id : Event -> string;
  author_node_id : Event -> string;
  swarm_scope : Event -> string;
  EventKind : Type;
  event_kind_eq_dec :: EqDecision EventKind;
  TopicMessagePosted : EventKind;
  (** [format!("{:?}", kind)] *)
  event_kind_debug : EventKind -> string;
  event_kind : Event -> EventKind;
  event_payload : Event -> EventPayload;
  parse_with_prefix_fallback : string -> option ScopeHint;
  RuleAnnouncement : Type;
  rule_from_slice : string -> result string RuleAnnouncement;
  rule_scope : RuleAnnouncement -> SwarmScope;
  rule_signer : RuleAnnouncement -> option string;
  rule_signature : RuleAnnouncement -> option string;
  (** The bytes of the signed JSON object built from the announcement. *)
  rule_signing_vec : RuleAnnouncement -> result string string;
  CheckpointAnnouncement : Type;
  checkpoint_from_slice : string -> result string CheckpointAnnouncement;
  checkpoint_id : CheckpointAnnouncement -> string;
  checkpoint_scope : CheckpointAnnouncement -> SwarmScope;
  checkpoint_signer : CheckpointAnnouncement -> option string;
  checkpoint_signature : CheckpointAnnouncement -> option string;
  checkpoint_signing_vec : CheckpointAnnouncement -> result string string;
  SummaryAnnouncement : Type;
  summary_from_slice : string -> result string SummaryAnnouncement;
  summary_id : SummaryAnnouncement -> string;
  summary_source : SummaryAnnouncement -> string;
  summary_scope : SummaryAnnouncement -> SwarmScope;
  (** [verify_signature(public key, message, signature)] *)
  verify_signature : string -> string -> string -> result string ();
  delivery_class_for_record : PropagationLane -> EventDeliveryUrgency -> DeliveryClass;
  DELIVERY_POLICY_VERSION : Z;
}.

(** ** Frames and acceptances *)

Section frames.
Context `{TR : Transport}.

Record PublishFrame := {
  pf_framing_version : string;
  pf_delivery_policy_version : Z;
  pf_route_network_id : string;
  pf_route_transport : EventTransportRoute;
  pf_record_id : string;
  pf_payload : string;
  pf_payload_type : PublishPayloadType;
}.
End frames.

Record PublishAcceptance := {
  ac_publish_receipt : string;
  ac_record_id : string;
  ac_delivery_class : DeliveryClass;
  ac_delivery_policy_version : Z;
  ac_membership_version : option string;
}.

Class Controls := {
  ControlKind : Type;
  control_kind_as_str : ControlKind -> string;
  (** Everything of the frame, for [control_frame_signing_message]. *)
  ControlFrame : Type;
  cf_framing_version : ControlFrame -> string;
  cf_network_id : ControlFrame -> string;
  cf_source_principal_id : ControlFrame -> string;
  cf_target_principal_id : ControlFrame -> string;
  cf_correlation_id : ControlFrame -> string;
  cf_control_kind : ControlFrame -> ControlKind;
  cf_payload : ControlFrame -> string;
  cf_signature_hex : ControlFrame -> string;
  control_frame_signing_message : ControlFrame -> result string string;
  (** [serde_json::to_vec] of the object binding target, kind and payload. *)
  control_binding_to_vec : string -> ControlKind -> string -> result string string;
}.

Record ControlAcceptance := {
  ca_correlation_id : string;
  ca_delivery_id : string;
}.

Record GrantAdmissionResponse := {
  ga_network_id : string;
  ga_principal_id : string;
  ga_membership_version : string;
  ga_status : string;
}.

(** ** Sessions *)

Record PrincipalClaim := {
  pc_principal_id : string;
  pc_public_key_hex : string;
  pc_tenant_instance_id : option string;
}.

Record PrincipalProof := {
  pr_principal_id : string;
  pr_signature_hex : string;
}.

Record ChallengeRequest := {
  cr_network_id : string;
  cr_principals : list PrincipalClaim;
}.

Record ChallengeResponse := {
  ch_challenge_id : string;
  ch_nonce : string;
  ch_expires_at : Z;
}.

Record SessionProofRequest := {
  sp_challenge_id : string;
  sp_network_id : string;
  sp_principals : list PrincipalClaim;
  sp_proofs : list PrincipalProof;
  sp_delivery_policy_version : Z;
}.

Inductive HistoryStatus := HistoryUnavailable | CurrentMailboxOnly.

Record SessionResponse := {
  sn_session_token : string;
  sn_network_id : string;
  sn_principal_id : string;
  sn_delivery_policy_version : Z;
  sn_history_status : HistoryStatus;
  sn_expires_at : Z;
}.

Class Sessions `{JV : JsonValue} := {
  principals_to_value : list PrincipalClaim -> result string Json;
  (** [session_proof_message(network, principals, challenge)] *)
  session_proof_message :
    string -> list PrincipalClaim -> ChallengeResponse -> result string string;
}.

(** ** Instances

    Executable instances of the interfaces, for the examples: JSON values are
    lists of strings, a signature is the signer's name before the message, and
    events are looked up in a table. *)

Definition host_impl : Host := {|
  db_clock t := (1000000 + Z.of_nat t)%Z;
  db_fault _ := None;
  utc_now t := (1000000 + Z.of_nat t)%Z;
  fresh_uuid t := "uuid-" +:+ show_u64 (Z.of_nat t);
  random_nonce _ := "nonce";
  uuid_parse s := Some s;
|}.

(** A host whose clock stands still. *)
Definition frozen_host : Host := {|
  db_clock _ := 1000000%Z; db_fault _ := None; utc_now _ := 1000000%Z;
  fresh_uuid t := "uuid-" +:+ show_u64 (Z.of_nat t); random_nonce _ := "nonce";
  uuid_parse s := Some s;
|}.

Definition json_value_impl : JsonValue := {| Json := list string; json_empty_array := [] |}.

Inductive sample_role := SProposer | SVerifier | SCommitter | SFinalizer.
Global Instance sample_role_eq_dec : EqDecision sample_role.
Proof. solve_decision. Defined.

Definition role_name (r : sample_role) : string :=
  match r with
  | SProposer => "proposer" | SVerifier => "verifier" | SCommitter => "committer"
  | SFinalizer => "finalizer"
  end.

Definition role_of_name (s : string) : result string sample_role :=
  if bool_decide (s = "proposer") then Ok SProposer
  else if bool_decide (s = "verifier") then Ok SVerifier
  else if bool_decide (s = "committer") then Ok SCommitter
  else if bool_decide (s = "finalizer") then Ok SFinalizer
  else Err "unknown variant".

Fixpoint roles_of_names (l : list string) : result string (list sample_role) :=
  match l with
  | [] => Ok []
  | s :: l => r ← role_of_name s; rs ← roles_of_names l; Ok (r :: rs)
  end.

Lemma roles_of_names_map rs : roles_of_names (map role_name rs) = Ok rs.
Proof. induction rs as [|r rs IH]; cbn; [done|]. rewrite IH. by destruct r. Qed.

Record sample_grant := {
  sg_network : string; sg_principal : string; sg_issuer : string; sg_expires : option Z;
}.

Definition memberships_impl : @Memberships json_value_impl := {|
  Role := sample_role;
  Proposer := SProposer; Verifier := SVerifier; Committer := SCommitter; Finalizer := SFinalizer;
  roles_to_value rs := Ok (map role_name rs) : result string (@Json json_value_impl);
  roles_from_value := roles_of_names : @Json json_value_impl -> _;
  Membership := gmap string (list sample_role);
  membership_members m := m;
  membership_to_vec m := Ok (String.concat "," (elements (dom m)));
  NetworkMembershipGrant := sample_grant;
  grant_network_id := sg_network;
  grant_principal_id := sg_principal;
  grant_issued_at _ := 0%Z;
  grant_expires_at := sg_expires;
  grant_to_value _ := Ok ([] : @Json json_value_impl);
  network_membership_grant_id g := Ok ("id-" +:+ sg_principal g);
  verify_network_membership_grant g issuer _ :=
    if bool_decide (sg_issuer g = issuer) then Ok () else Err "issuer mismatch";
|}.

Lemma memberships_impl_laws : @MembershipLaws json_value_impl memberships_impl.
Proof.
  split; [|done]. intros rs j [= <-]. exists rs. split; [apply roles_of_names_map|done].
Qed.

Record sample_event := {
  sv_id : string; sv_author : string; sv_scope : string; sv_message : bool;
  sv_payload : @EventPayload json_value_impl memberships_impl;
}.

Definition sample_signature (signer message : string) : string := signer +:+ "/" +:+ message.

Fixpoint assoc {A} (l : list (string * A)) (k : string) : option A :=
  match l with
  | [] => None
  | (k', a) :: l => if bool_decide (k' = k) then Some a else assoc l k
  end.

Record sample_announcement := {
  sa_id : string; sa_scope : SwarmScope; sa_signer : option string;
}.

Definition protocol_impl (events : list (string * sample_event))
    (announcements : list (string * sample_announcement)) :
    @Protocol json_value_impl memberships_impl transport_impl := {|
  Event := sample_event;
  event_from_slice s := ok_or (assoc events s) "expected value";
  verify_event_signature _ := Ok ();
  event_id := sv_id;
  author_node_id := sv_author;
  swarm_scope := sv_scope;
  EventKind := bool;
  TopicMessagePosted := true;
  event_kind_debug k := if k then "TopicMessagePosted" else "Other";
  event_kind := sv_message;
  event_payload := sv_payload;
  parse_with_prefix_fallback s :=
    if bool_decide (s = "global") then Some HintGlobal
    else match strip_prefix "group:" s with Some g => Some (HintGroup g) | None => None end;
  RuleAnnouncement := sample_announcement;
  rule_from_slice s := ok_or (assoc announcements s) "expected value";
  rule_scope := sa_scope;
  rule_signer := sa_signer;
  rule_signature a := (fun s => sample_signature s (sa_id a)) <$> sa_signer a;
  rule_signing_vec a := Ok (sa_id a);
  CheckpointAnnouncement := sample_announcement;
  checkpoint_from_slice s := ok_or (assoc announcements s) "expected value";
  checkpoint_id := sa_id;
  checkpoint_scope := sa_scope;
  checkpoint_signer := sa_signer;
  checkpoint_signature a := (fun s => sample_signature s (sa_id a)) <$> sa_signer a;
  checkpoint_signing_vec a := Ok (sa_id a);
  SummaryAnnouncement := sample_announcement;
  summary_from_slice s := ok_or (assoc announcements s) "expected value";
  summary_id := sa_id;
  summary_source a := default "" (sa_signer a);
  summary_scope := sa_scope;
  verify_signature signer message signature :=
    if bool_decide (signature = sample_signature signer message) then Ok ()
    else Err "signature mismatch";
  delivery_class_for_record _ urgency :=
    match urgency with Background => Bulk | _ => Interactive end;
  DELIVERY_POLICY_VERSION := 1%Z;
|}.

Definition sessions_impl : @Sessions json_value_impl := {|
  principals_to_value ps :=
    Ok (map (fun c => pc_principal_id c) ps : @Json json_value_impl);
  session_proof_message network _ challenge := Ok (network +:+ ":" +:+ ch_nonce challenge);
|}.
