(* ===== verification/MgDb.v ===== *)
(** * The gateway database

    Models [crates/message-gateway/src/db.rs] except for the lease, rate-limit and
    gap tables, which have files of their own: one map per table keyed by its
    primary key, and one function per SQL statement.  A request runs against the
    committed database [w_db]; the writes of its open transaction are pending in
    [w_tx], are seen by the statements of that transaction only, and reach the
    database when it commits.  Every statement reads its own clock and may fail.
    Advisory locks order the requests of a scope and have no other effect, so a
    request is modelled as running alone between the start and the end of its
    transaction. *)

From stdpp Require Import sorting.
From S2P Require Import Prelude Str External MgConfig Owners Buckets Gaps Observability Amqp Rabbit Protocol.

(** ** Tables *)

Inductive RowState := Active | Revoked.
Global Instance RowState_eq_dec : EqDecision RowState.
Proof. solve_decision. Defined.

Section tables.
Context `{JV : JsonValue}.

Record ChallengeRow := {
  cl_network_id : string;
  cl_principals_json : Json;
  cl_nonce : string;
  cl_expires_at : Z;
  cl_consumed_at : option Z;
}.

Record SessionRow := {
  ss_token_hash : string;
  ss_network_id : string;
  ss_expires_at : Z;
  ss_created_at : Z;
}.

Record SessionPrincipalRow := {
  sr_verified_at : Z;
  sr_expires_at : Z;
}.

Record InstanceRow := {
  in_tenant_instance_id : string;
  in_history_unavailable : bool;
  in_first_seen_at : Z;
  in_updated_at : Z;
}.

(** [gateway_scope_memberships], keyed by network, scope label and principal. *)
Record MemberRow := {
  me_membership_version : string;
  me_state : RowState;
  me_authorized_at : Z;
  me_revoked_at : option Z;
  me_interactive_binding_state : string;
  me_bulk_binding_state : string;
  me_roles_json : Json;
  me_binding_updated_at : option Z;
}.

Record GrantRow := {
  gr_grant_id : string;
  gr_grant_json : Json;
  gr_issued_at_ms : Z;
  gr_expires_at_ms : option Z;
  gr_updated_at : Z;
}.

Record VersionRow := {
  ve_active_membership_version : string;
  ve_routing_fence : Z;
  ve_updated_at : Z;
}.

(** [gateway_network_authorities], keyed by network, principal and kind. *)
Record AuthorityRow := {
  au_projection_version : string;
  au_state : RowState;
  au_updated_at : Z;
}.

(** [gateway_scope_route_bindings], keyed by network, scope label, route address,
    principal and class. *)
Record RouteRow := {
  ro_membership_version : string;
  ro_binding_state : string;
  ro_updated_at : Z;
}.

Record WindowRow := {
  wi_window_started_at : Z;
  wi_mutation_count : Z;
  wi_last_membership_version : option string;
  wi_updated_at : Z;
}.

(** [gateway_publish_receipts], keyed by network, principal and record. *)
Record ReceiptRow := {
  re_authorized_route_hash : string;
  re_record_hash : string;
  re_membership_version : option string;
  re_delivery_class : string;
  re_delivery_policy_version : Z;
  re_expected_recipients : Z;
  re_binding_set_hash : string;
  re_publish_status : string;
  re_confirmed_at : option Z;
  re_expires_at : Z;
}.

Record AuditRow := {
  ad_audit_id : string;
  ad_network_id : option string;
  ad_principal_id : option string;
  ad_action : string;
  ad_outcome : string;
  ad_created_at : Z;
}.

Record Db := {
  db_challenges : gmap string ChallengeRow;
  db_sessions : gmap string SessionRow;
  db_session_principals : gmap (string * string) SessionPrincipalRow;
  db_instances : gmap (string * string) InstanceRow;
  db_members : gmap (string * string * string) MemberRow;
  db_grants : gmap (string * string) GrantRow;
  db_versions : gmap (string * string) VersionRow;
  db_authorities : gmap (string * string * string) AuthorityRow;
  db_routes : gmap (string * string * string * string * string) RouteRow;
  db_windows : gmap (string * string) WindowRow;
  db_owners : OwnerTable;
  db_global_buckets : GlobalBuckets;
  db_non_global_buckets : NonGlobalBuckets;
  db_gaps : GapTable;
  db_receipts : gmap (string * string * string) ReceiptRow;
  db_audit : list AuditRow;
}.

Definition db_empty : Db := {|
  db_challenges := ∅;
  db_sessions := ∅;
  db_session_principals := ∅;
  db_instances := ∅;
  db_members := ∅;
  db_grants := ∅;
  db_versions := ∅;
  db_authorities := ∅;
  db_routes := ∅;
  db_windows := ∅;
  db_owners := ∅;
  db_global_buckets := ∅;
  db_non_global_buckets := ∅;
  db_gaps := ∅;
  db_receipts := ∅;
  db_audit := [];
|}.

Definition on_challenges (f : gmap string ChallengeRow -> gmap string ChallengeRow) (d : Db) : Db := {|
  db_challenges := f (db_challenges d); db_sessions := db_sessions d;
  db_session_principals := db_session_principals d; db_instances := db_instances d;
  db_members := db_members d; db_grants := db_grants d; db_versions := db_versions d;
  db_authorities := db_authorities d; db_routes := db_routes d; db_windows := db_windows d;
  db_owners := db_owners d; db_global_buckets := db_global_buckets d;
  db_non_global_buckets := db_non_global_buckets d; db_gaps := db_gaps d;
  db_receipts := db_receipts d; db_audit := db_audit d |}.

Definition on_sessions (f : gmap string SessionRow -> gmap string SessionRow) (d : Db) : Db := {|
  db_challenges := db_challenges d; db_sessions := f (db_sessions d);
  db_session_principals := db_session_principals d; db_instances := db_instances d;
  db_members := db_members d; db_grants := db_grants d; db_versions := db_versions d;
  db_authorities := db_authorities d; db_routes := db_routes d; db_windows := db_windows d;
  db_owners := db_owners d; db_global_buckets := db_global_buckets d;
  db_non_global_buckets := db_non_global_buckets d; db_gaps := db_gaps d;
  db_receipts := db_receipts d; db_audit := db_audit d |}.

Definition on_session_principals (f : gmap (string * string) SessionPrincipalRow -> gmap (string * string) SessionPrincipalRow) (d : Db) : Db := {|
  db_challenges := db_challenges d; db_sessions := db_sessions d;
  db_session_principals := f (db_session_principals d); db_instances := db_instances d;
  db_members := db_members d; db_grants := db_grants d; db_versions := db_versions d;
  db_authorities := db_authorities d; db_routes := db_routes d; db_windows := db_windows d;
  db_owners := db_owners d; db_global_buckets := db_global_buckets d;
  db_non_global_buckets := db_non_global_buckets d; db_gaps := db_gaps d;
  db_receipts := db_receipts d; db_audit := db_audit d |}.

Definition on_instances (f : gmap (string * string) InstanceRow -> gmap (string * string) InstanceRow) (d : Db) : Db := {|
  db_challenges := db_challenges d; db_sessions := db_sessions d;
  db_session_principals := db_session_principals d; db_instances := f (db_instances d);
  db_members := db_members d; db_grants := db_grants d; db_versions := db_versions d;
  db_authorities := db_authorities d; db_routes := db_routes d; db_windows := db_windows d;
  db_owners := db_owners d; db_global_buckets := db_global_buckets d;
  db_non_global_buckets := db_non_global_buckets d; db_gaps := db_gaps d;
  db_receipts := db_receipts d; db_audit := db_audit d |}.

Definition on_members (f : gmap (string * string * string) MemberRow -> gmap (string * string * string) MemberRow) (d : Db) : Db := {|
  db_challenges := db_challenges d; db_sessions := db_sessions d;
  db_session_principals := db_session_principals d; db_instances := db_instances d;
  db_members := f (db_members d); db_grants := db_grants d; db_versions := db_versions d;
  db_authorities := db_authorities d; db_routes := db_routes d; db_windows := db_windows d;
  db_owners := db_owners d; db_global_buckets := db_global_buckets d;
  db_non_global_buckets := db_non_global_buckets d; db_gaps := db_gaps d;
  db_receipts := db_receipts d; db_audit := db_audit d |}.

Definition on_grants (f : gmap (string * string) GrantRow -> gmap (string * string) GrantRow) (d : Db) : Db := {|
  db_challenges := db_challenges d; db_sessions := db_sessions d;
  db_session_principals := db_session_principals d; db_instances := db_instances d;
  db_members := db_members d; db_grants := f (db_grants d); db_versions := db_versions d;
  db_authorities := db_authorities d; db_routes := db_routes d; db_windows := db_windows d;
  db_owners := db_owners d; db_global_buckets := db_global_buckets d;
  db_non_global_buckets := db_non_global_buckets d; db_gaps := db_gaps d;
  db_receipts := db_receipts d; db_audit := db_audit d |}.

Definition on_versions (f : gmap (string * string) VersionRow -> gmap (string * string) VersionRow) (d : Db) : Db := {|
  db_challenges := db_challenges d; db_sessions := db_sessions d;
  db_session_principals := db_session_principals d; db_instances := db_instances d;
  db_members := db_members d; db_grants := db_grants d; db_versions := f (db_versions d);
  db_authorities := db_authorities d; db_routes := db_routes d; db_windows := db_windows d;
  db_owners := db_owners d; db_global_buckets := db_global_buckets d;
  db_non_global_buckets := db_non_global_buckets d; db_gaps := db_gaps d;
  db_receipts := db_receipts d; db_audit := db_audit d |}.

Definition on_authorities (f : gmap (string * string * string) AuthorityRow -> gmap (string * string * string) AuthorityRow) (d : Db) : Db := {|
  db_challenges := db_challenges d; db_sessions := db_sessions d;
  db_session_principals := db_session_principals d; db_instances := db_instances d;
  db_members := db_members d; db_grants := db_grants d; db_versions := db_versions d;
  db_authorities := f (db_authorities d); db_routes := db_routes d; db_windows := db_windows d;
  db_owners := db_owners d; db_global_buckets := db_global_buckets d;
  db_non_global_buckets := db_non_global_buckets d; db_gaps := db_gaps d;
  db_receipts := db_receipts d; db_audit := db_audit d |}.

Definition on_routes (f : gmap (string * string * string * string * string) RouteRow -> gmap (string * string * string * string * string) RouteRow) (d : Db) : Db := {|
  db_challenges := db_challenges d; db_sessions := db_sessions d;
  db_session_principals := db_session_principals d; db_instances := db_instances d;
  db_members := db_members d; db_grants := db_grants d; db_versions := db_versions d;
  db_authorities := db_authorities d; db_routes := f (db_routes d); db_windows := db_windows d;
  db_owners := db_owners d; db_global_buckets := db_global_buckets d;
  db_non_global_buckets := db_non_global_buckets d; db_gaps := db_gaps d;
  db_receipts := db_receipts d; db_audit := db_audit d |}.

Definition on_windows (f : gmap (string * string) WindowRow -> gmap (string * string) WindowRow) (d : Db) : Db := {|
  db_challenges := db_challenges d; db_sessions := db_sessions d;
  db_session_principals := db_session_principals d; db_instances := db_instances d;
  db_members := db_members d; db_grants := db_grants d; db_versions := db_versions d;
  db_authorities := db_authorities d; db_routes := db_routes d; db_windows := f (db_windows d);
  db_owners := db_owners d; db_global_buckets := db_global_buckets d;
  db_non_global_buckets := db_non_global_buckets d; db_gaps := db_gaps d;
  db_receipts := db_receipts d; db_audit := db_audit d |}.

Definition on_owners (f : OwnerTable -> OwnerTable) (d : Db) : Db := {|
  db_challenges := db_challenges d; db_sessions := db_sessions d;
  db_session_principals := db_session_principals d; db_instances := db_instances d;
  db_members := db_members d; db_grants := db_grants d; db_versions := db_versions d;
  db_authorities := db_authorities d; db_routes := db_routes d; db_windows := db_windows d;
  db_owners := f (db_owners d); db_global_buckets := db_global_buckets d;
  db_non_global_buckets := db_non_global_buckets d; db_gaps := db_gaps d;
  db_receipts := db_receipts d; db_audit := db_audit d |}.

Definition on_global_buckets (f : GlobalBuckets -> GlobalBuckets) (d : Db) : Db := {|
  db_challenges := db_challenges d; db_sessions := db_sessions d;
  db_session_principals := db_session_principals d; db_instances := db_instances d;
  db_members := db_members d; db_grants := db_grants d; db_versions := db_versions d;
  db_authorities := db_authorities d; db_routes := db_routes d; db_windows := db_windows d;
  db_owners := db_owners d; db_global_buckets := f (db_global_buckets d);
  db_non_global_buckets := db_non_global_buckets d; db_gaps := db_gaps d;
  db_receipts := db_receipts d; db_audit := db_audit d |}.

Definition on_non_global_buckets (f : NonGlobalBuckets -> NonGlobalBuckets) (d : Db) : Db := {|
  db_challenges := db_challenges d; db_sessions := db_sessions d;
  db_session_principals := db_session_principals d; db_instances := db_instances d;
  db_members := db_members d; db_grants := db_grants d; db_versions := db_versions d;
  db_authorities := db_authorities d; db_routes := db_routes d; db_windows := db_windows d;
  db_owners := db_owners d; db_global_buckets := db_global_buckets d;
  db_non_global_buckets := f (db_non_global_buckets d); db_gaps := db_gaps d;
  db_receipts := db_receipts d; db_audit := db_audit d |}.

Definition on_gaps (f : GapTable -> GapTable) (d : Db) : Db := {|
  db_challenges := db_challenges d; db_sessions := db_sessions d;
  db_session_principals := db_session_principals d; db_instances := db_instances d;
  db_members := db_members d; db_grants := db_grants d; db_versions := db_versions d;
  db_authorities := db_authorities d; db_routes := db_routes d; db_windows := db_windows d;
  db_owners := db_owners d; db_global_buckets := db_global_buckets d;
  db_non_global_buckets := db_non_global_buckets d; db_gaps := f (db_gaps d);
  db_receipts := db_receipts d; db_audit := db_audit d |}.

Definition on_receipts (f : gmap (string * string * string) ReceiptRow -> gmap (string * string * string) ReceiptRow) (d : Db) : Db := {|
  db_challenges := db_challenges d; db_sessions := db_sessions d;
  db_session_principals := db_session_principals d; db_instances := db_instances d;
  db_members := db_members d; db_grants := db_grants d; db_versions := db_versions d;
  db_authorities := db_authorities d; db_routes := db_routes d; db_windows := db_windows d;
  db_owners := db_owners d; db_global_buckets := db_global_buckets d;
  db_non_global_buckets := db_non_global_buckets d; db_gaps := db_gaps d;
  db_receipts := f (db_receipts d); db_audit := db_audit d |}.

Definition on_audit (f : list AuditRow -> list AuditRow) (d : Db) : Db := {|
  db_challenges := db_challenges d; db_sessions := db_sessions d;
  db_session_principals := db_session_principals d; db_instances := db_instances d;
  db_members := db_members d; db_grants := db_grants d; db_versions := db_versions d;
  db_authorities := db_authorities d; db_routes := db_routes d; db_windows := db_windows d;
  db_owners := db_owners d; db_global_buckets := db_global_buckets d;
  db_non_global_buckets := db_non_global_buckets d; db_gaps := db_gaps d;
  db_receipts := db_receipts d; db_audit := f (db_audit d) |}.
End tables.

(** [BTreeSet<String>] is iterated in byte order. *)
Definition string_le (a b : string) : Prop := String.leb a b = true.
Global Instance string_le_dec : RelDecision string_le.
Proof. intros a b. unfold string_le. apply _. Defined.
Definition btree (X : gset string) : list string := merge_sort string_le (elements X).

(** [(EXTRACT(EPOCH FROM t) * 1000)::BIGINT]: the cast rounds to the nearest. *)
Definition epoch_ms (us : Z) : Z := (us + 500) `div` 1000.

(** ** Statements *)

Section statements.
Context `{JV : JsonValue, HO : Host, AM : Amqp}.

Record World := {
  w_db : Db;
  w_tx : Db -> Db;
  w_rabbit : RabbitAdapter;
  w_tick : nat;
}.

Definition W (A : Type) : Type := M World string A.

Definition tx_view (w : World) : Db := w_tx w (w_db w).

Definition set_db (d : Db) (w : World) : World :=
  {| w_db := d; w_tx := w_tx w; w_rabbit := w_rabbit w; w_tick := w_tick w |}.

Definition set_tx (f : Db -> Db) (w : World) : World :=
  {| w_db := w_db w; w_tx := f; w_rabbit := w_rabbit w; w_tick := w_tick w |}.

Definition set_rabbit (r : RabbitAdapter) (w : World) : World :=
  {| w_db := w_db w; w_tx := w_tx w; w_rabbit := r; w_tick := w_tick w |}.

Definition tick : W nat := fun w =>
  (Ok (w_tick w), {| w_db := w_db w; w_tx := w_tx w; w_rabbit := w_rabbit w;
                     w_tick := S (w_tick w) |}).

(** One statement: it fails, or runs at the time it returns. *)
Definition statement : W Z :=
  t ← tick;
  match db_fault t with Some error => throw error | None => mret (db_clock t) end.

Definition utc : W Z := t ← tick; mret (utc_now t).
Definition new_v4 : W string := t ← tick; mret (fresh_uuid t).
Definition nonce_bytes : W string := t ← tick; mret (random_nonce t).

(** Statements on the pool: each is its own transaction. *)
Definition query {A} (f : Z -> Db -> A) : W A :=
  now ← statement;
  gets (fun w => f now (w_db w)).

Definition execute {A} (f : Z -> Db -> result string (A * Db)) : W A :=
  now ← statement;
  d ← gets w_db;
  '(a, d') ← lift (f now d);
  _ ← modify (set_db d');
  mret a.

Definition update (f : Z -> Db -> Db) : W () := execute (fun now d => Ok ((), f now d)).

(** Statements of the open transaction. *)
Definition tx_query {A} (f : Z -> Db -> A) : W A :=
  now ← statement;
  gets (fun w => f now (tx_view w)).

Definition tx_execute {A} (f : Z -> Db -> result string (A * Db)) : W A :=
  now ← statement;
  d ← gets tx_view;
  '(a, _) ← lift (f now d);
  _ ← modify (fun w => set_tx (fun d =>
        match f now (w_tx w d) with Ok (_, d') => d' | Err _ => w_tx w d end) w);
  mret a.

Definition tx_update (f : Z -> Db -> Db) : W () := tx_execute (fun now d => Ok ((), f now d)).

(** [COMMIT]: it fails and has no effect, or takes place.  A commit that takes place although
    the acknowledgement is lost is not modelled. *)
Definition commit : W () :=
  _ ← statement;
  modify (fun w => set_tx (fun d => d) (set_db (tx_view w) w)).

(** A transaction that is not committed is rolled back when it is dropped. *)
Definition rollback_on_drop {A} (body : W A) : W A := fun w =>
  let '(r, w') := body (set_tx (fun d => d) w) in (r, set_tx (fun d => d) w').

Definition in_transaction {A} (body : W A) : W A :=
  _ ← statement;
  rollback_on_drop body.

Definition rabbit {A} (m : R A) : W A := zoom w_rabbit set_rabbit m.
Definition observability (ev : ObsEvent) : W () := rabbit (observe_event ev).
Definition elapsed_since (started : Z) : W Z := now ← rabbit instant; mret (now - started)%Z.

(** [INSERT] without a conflict clause. *)
Definition insert_new {K A} `{Countable K} (k : K) (a : A) (m : gmap K A) :
    result string (gmap K A) :=
  match m !! k with
  | Some _ => Err "duplicate key value violates unique constraint"
  | None => Ok (<[k := a]> m)
  end.

(** [DELETE FROM .. WHERE ..], with the number of rows. *)
Definition delete_rows {K A} `{Countable K} (doomed : A -> bool) (m : gmap K A) : Z * gmap K A :=
  (Z.of_nat (size (filter (fun kr => doomed kr.2 = true) m)),
   filter (fun kr => doomed kr.2 = false) m).
End statements.

(** ** Queries *)

Section db_queries.
Context `{JV : JsonValue}.

(** [grant_projection.expires_at_ms IS NULL OR expires_at_ms > now]; without a
    grant the outer join gives a null. *)
Definition grant_live (now : Z) (d : Db) (network_id principal_id : string) : bool :=
  match db_grants d !! (network_id, principal_id) with
  | Some grant =>
      match gr_expires_at_ms grant with
      | Some expires_at_ms => (epoch_ms now <? expires_at_ms)%Z
      | None => true
      end
  | None => true
  end.

(** [WHERE network_id = $1 AND scope_label = $2 AND state = 'active'] *)
Definition active_members (network_id scope_label : string) (d : Db) :
    list (string * MemberRow) :=
  omap (fun '((n, l, p), row) =>
    if bool_decide (n = network_id ∧ l = scope_label ∧ me_state row = Active)
    then Some (p, row) else None) (map_to_list (db_members d)).

Definition active_member (d : Db) (network_id scope_label principal_id : string) : bool :=
  match db_members d !! (network_id, scope_label, principal_id) with
  | Some row => bool_decide (me_state row = Active)
  | None => false
  end.

Definition admitted (now : Z) (d : Db) (network_id principal_id : string) : bool :=
  active_member d network_id "global" principal_id && grant_live now d network_id principal_id.

Definition scope_version (network_id scope_label : string) (d : Db) : option string :=
  ve_active_membership_version <$> db_versions d !! (network_id, scope_label).

(** [$3::TEXT IS NULL OR membership_version = $3] *)
Definition version_matches (version : option string) (row : MemberRow) : bool :=
  match version with
  | Some version => bool_decide (me_membership_version row = version)
  | None => true
  end.

(** The active Genesis authorities of a network. *)
Definition active_genesis (network_id : string) (d : Db) : list string :=
  omap (fun '((n, p, kind), row) =>
    if bool_decide (n = network_id ∧ kind = "genesis" ∧ au_state row = Active)
    then Some p else None) (map_to_list (db_authorities d)).

(** [SELECT DISTINCT route_address, membership_version .. WHERE network_id = $1
    AND scope_label = $2], with the binding state. *)
Definition scope_routes (network_id scope_label : string) (d : Db) :
    list (string * string * string * RouteRow) :=
  omap (fun '((n, l, a, p, c), row) =>
    if bool_decide (n = network_id ∧ l = scope_label)
    then Some (a, p, c, row) else None) (map_to_list (db_routes d)).
End db_queries.

Section db.
Context `{JV : JsonValue, HO : Host, AM : Amqp, MS : !Memberships, TR : Transport}.

Definition upsert_network_membership_grant (grant : NetworkMembershipGrant) (grant_id : string) :
    W () :=
  issued_at_ms ← lift (ok_or (i64_try_from (grant_issued_at grant))
    "network membership grant issued_at exceeds PostgreSQL BIGINT");
  expires_at_ms ← lift (match grant_expires_at grant with
    | None => Ok None
    | Some value => Some <$> ok_or (i64_try_from value)
        "network membership grant expires_at exceeds PostgreSQL BIGINT"
    end);
  grant_json ← lift (grant_to_value grant);
  tx_update (fun now => on_grants (insert (grant_network_id grant, grant_principal_id grant) {|
    gr_grant_id := grant_id;
    gr_grant_json := grant_json;
    gr_issued_at_ms := issued_at_ms;
    gr_expires_at_ms := expires_at_ms;
    gr_updated_at := now |})).

Definition principal_is_admitted (network_id principal_id : string) : W bool :=
  query (fun now d => admitted now d network_id principal_id).

(** Returns [history_unavailable]. *)
Definition register_principal_instance (network_id principal_id tenant_instance_id : string) :
    W bool :=
  tx_execute (fun now d =>
    let row :=
      match db_instances d !! (network_id, principal_id) with
      | None => {| in_tenant_instance_id := tenant_instance_id; in_history_unavailable := false;
                   in_first_seen_at := now; in_updated_at := now |}
      | Some old =>
          {| in_tenant_instance_id := tenant_instance_id;
             in_history_unavailable := in_history_unavailable old
               || negb (bool_decide (in_tenant_instance_id old = tenant_instance_id));
             in_first_seen_at := in_first_seen_at old; in_updated_at := now |}
      end in
    Ok (in_history_unavailable row,
        on_instances (insert (network_id, principal_id) row) d)).

(** The details object is not kept. *)
Definition record_audit (network_id principal_id : option string) (action outcome : string) : W () :=
  audit_id ← new_v4;
  tx_update (fun now => on_audit (fun log => log ++ [{|
    ad_audit_id := audit_id; ad_network_id := network_id; ad_principal_id := principal_id;
    ad_action := action; ad_outcome := outcome; ad_created_at := now |}])).

Definition principal_is_global_authority (network_id principal_id : string) : W bool :=
  query (fun _ d =>
    match db_authorities d !! (network_id, principal_id, "genesis") with
    | Some row => bool_decide (au_state row = Active)
    | None => false
    end).

Definition active_tenants (now : Z) (network_id : string) (d : Db) : list (string * MemberRow) :=
  filter (fun pr => grant_live now d network_id pr.1 = true)
    (active_members network_id "global" d).

Definition active_tenant_count (network_id : string) : W Z :=
  query (fun now d => Z.of_nat (length (active_tenants now network_id d))).

Definition validate_active_tenant_admission (config : Config) (network_id : string) : W Z :=
  active ← active_tenant_count network_id;
  lift (validate_active_tenant_count config active).

Definition validate_all_active_tenant_admission (config : Config) : W () :=
  networks ← query (fun _ d => list_to_set (omap (fun '((n, l, _), row) =>
    if bool_decide (l = "global" ∧ me_state row = Active) then Some n else None)
    (map_to_list (db_members d))) : gset string);
  for_each (btree (networks ∪ dom (trusted_network_genesis config))) (fun network_id =>
    _ ← validate_active_tenant_admission config network_id;
    mret ()).

(** One iteration of the loop of [seed_trusted_network_genesis]. *)
Definition seed_network_genesis (network_id genesis_node_id : string) : W () :=
  in_transaction (
    _ ← statement;
    existing ← tx_query (fun _ d => head (active_genesis network_id d));
    _ ← lift (bail_if (match existing with
                       | Some value => negb (bool_decide (value = genesis_node_id))
                       | None => false
                       end)
          "configured network genesis conflicts with the persisted authority projection");
    _ ← tx_update (fun now => on_authorities
          (insert (network_id, genesis_node_id, "genesis") {|
            au_projection_version := "trusted-config-v1";
            au_state := Active; au_updated_at := now |}));
    initialized ← tx_query (fun _ d =>
      bool_decide (is_Some (db_versions d !! (network_id, "global"))));
    _ ← whenM (negb initialized) (
      roles ← lift (roles_to_value [Proposer; Verifier; Committer; Finalizer]);
      let version := "trusted-genesis:" +:+ genesis_node_id in
      _ ← tx_execute (fun now d =>
            members ← insert_new (network_id, "global", genesis_node_id) {|
              me_membership_version := version; me_state := Active; me_authorized_at := now;
              me_revoked_at := None; me_interactive_binding_state := "pending";
              me_bulk_binding_state := "pending"; me_roles_json := roles;
              me_binding_updated_at := None |} (db_members d);
            Ok ((), on_members (fun _ => members) d));
      tx_execute (fun now d =>
        versions ← insert_new (network_id, "global") {|
          ve_active_membership_version := version; ve_routing_fence := 1;
          ve_updated_at := now |} (db_versions d);
        Ok ((), on_versions (fun _ => versions) d)));
    commit).

Definition seed_trusted_network_genesis (config : Config) : W () :=
  for_each (map_to_list (trusted_network_genesis config)) (fun '(network_id, genesis_node_id) =>
    seed_network_genesis network_id genesis_node_id).

(** Each [DELETE] is a statement of its own; deleting a session cascades to its
    principals. *)
Definition cleanup_expired_metadata (acknowledged_gap_retention : Z) : W Z :=
  retention_ms ← lift (ok_or (i64_try_from acknowledged_gap_retention)
    "acknowledged gap retention is too large");
  challenges ← execute (fun now d =>
    let '(n, kept) := delete_rows (fun r => cl_expires_at r <=? now)%Z (db_challenges d) in
    Ok (n, on_challenges (fun _ => kept) d));
  sessions ← execute (fun now d =>
    let '(n, kept) := delete_rows (fun r => ss_expires_at r <=? now)%Z (db_sessions d) in
    Ok (n, on_session_principals
             (filter (fun kr => is_Some (kept !! kr.1.1)))
             (on_sessions (fun _ => kept) d)));
  receipts ← execute (fun now d =>
    let '(n, kept) := delete_rows (fun r => re_expires_at r <=? now)%Z (db_receipts d) in
    Ok (n, on_receipts (fun _ => kept) d));
  owners ← execute (fun now d =>
    Ok (Z.of_nat (size (db_owners d) - size (cleanup_expired_owners now (db_owners d))),
        on_owners (cleanup_expired_owners now) d));
  gaps ← execute (fun now d =>
    Ok (Z.of_nat (size (db_gaps d) - size (cleanup_acknowledged_gaps now retention_ms (db_gaps d))),
        on_gaps (cleanup_acknowledged_gaps now retention_ms) d));
  audit ← execute (fun now d =>
    let kept := filter (fun r => ¬ (ad_created_at r <= now - retention_ms * 1000)%Z)
                  (db_audit d) in
    Ok (Z.of_nat (length (db_audit d) - length kept), on_audit (fun _ => kept) d));
  mret (sat_add (sat_add (sat_add (sat_add (sat_add (sat_add 0 challenges) sessions) receipts)
          owners) gaps) audit).

(** [begin_scope_fence]: a transaction that holds the advisory lock of the scope;
    [body] runs to its end. *)
Definition begin_scope_fence {A} (network_id scope_label : string) (exclusive : bool)
    (body : W A) : W A :=
  in_transaction (_ ← statement; body).

(** The upsert of the mutation window of a scope. *)
Definition next_window (now window_ms : Z) (membership_version : string)
    (old : option WindowRow) : WindowRow :=
  match old with
  | None => {| wi_window_started_at := now; wi_mutation_count := 1;
               wi_last_membership_version := Some membership_version; wi_updated_at := now |}
  | Some old =>
      let restart := (wi_window_started_at old <=? now - window_ms * 1000)%Z in
      {| wi_window_started_at := if restart then now else wi_window_started_at old;
         wi_mutation_count :=
           if restart then 1
           else if bool_decide (wi_last_membership_version old = Some membership_version)
           then wi_mutation_count old
           else (wi_mutation_count old + 1)%Z;
         wi_last_membership_version := Some membership_version;
         wi_updated_at := now |}
  end.

Definition record_membership_mutation (config : Config)
    (network_id scope_label membership_version : string) : W () :=
  let window_ms := as_i64 (membership_mutation_window config) in
  _ ← tx_update (fun now d => on_windows (insert (network_id, scope_label)
        (next_window now window_ms membership_version
           (db_windows d !! (network_id, scope_label)))) d);
  count ← tx_query (fun _ d => wi_mutation_count <$> db_windows d !! (network_id, scope_label));
  count ← lift (ok_or count "no rows returned");
  lift (bail_if (max_membership_mutations_per_scope_per_window config <? as_u64 count)%Z
    "membership mutation window limit exceeded").

Definition authorized_scope_version_and_count (network_id : string) (scope : SwarmScope)
    (principal_id : string) (allow_network_member_author : bool) : W (option string * Z) :=
  match scope with
  | Node recipient =>
      author ← principal_is_admitted network_id principal_id;
      ok ← and_also author (principal_is_admitted network_id recipient);
      _ ← lift (bail_if (negb ok) "direct route author or recipient is not an active network member");
      mret (None, 1%Z)
  | _ =>
      label ← lift (scope_label scope);
      author_allowed ← query (fun now d =>
        (active_member d network_id label principal_id
         || (allow_network_member_author && active_member d network_id "global" principal_id))
        && grant_live now d network_id principal_id);
      _ ← lift (bail_if (negb author_allowed) "principal is not authorized for publish scope");
      version ← query (fun _ => scope_version network_id label);
      count ← query (fun now d => Z.of_nat (length (filter (fun pr =>
        grant_live now d network_id pr.1 && version_matches version pr.2 = true)
        (active_members network_id label d))));
      mret (version, count)
  end.

Definition scope_contains_principal (network_id : string) (scope : SwarmScope)
    (principal_id : string) (membership_version : option string) : W bool :=
  match scope with
  | Node recipient => mret (bool_decide (recipient = principal_id))
  | _ =>
      label ← lift (scope_label scope);
      query (fun now d =>
        match db_members d !! (network_id, label, principal_id) with
        | Some row => bool_decide (me_state row = Active)
            && grant_live now d network_id principal_id
            && version_matches membership_version row
        | None => false
        end)
  end.
End db.

(** ** Lemmas on statements *)

Section statement_lemmas.
Context `{JV : JsonValue, HO : Host, AM : Amqp}.

(** Nothing but the step counter changed. *)
Record same_world (w w' : World) : Prop := {
  sw_db : w_db w' = w_db w;
  sw_tx : w_tx w' = w_tx w;
  sw_rabbit : w_rabbit w' = w_rabbit w;
}.

#[export] Instance same_world_preorder : PreOrder same_world.
Proof. split; [done|]. intros w1 w2 w3 [] []. split; congruence. Qed.

Lemma same_world_view w w' : same_world w w' → tx_view w' = tx_view w.
Proof. intros [H1 H2 _]. unfold tx_view. by rewrite H1, H2. Qed.

Lemma same_tick : always same_world tick.
Proof. by intros w. Qed.
Hint Resolve same_tick : gw_always.

Lemma same_statement : always same_world statement.
Proof. unfold statement. solve_always. Qed.
Hint Resolve same_statement : gw_always.

Lemma same_utc : always same_world utc.
Proof. unfold utc. solve_always. Qed.

Lemma same_new_v4 : always same_world new_v4.
Proof. unfold new_v4. solve_always. Qed.

Lemma same_nonce_bytes : always same_world nonce_bytes.
Proof. unfold nonce_bytes. solve_always. Qed.

Lemma same_query {A} (f : Z -> Db -> A) : always same_world (query f).
Proof. unfold query. solve_always. Qed.

Lemma same_tx_query {A} (f : Z -> Db -> A) : always same_world (tx_query f).
Proof. unfold tx_query. solve_always. Qed.

Lemma same_elapsed_since s : always same_world (elapsed_since s).
Proof.
  intros w. unfold elapsed_since, rabbit, zoom, instant, mbind, M_bind. cbn. by split.
Qed.

Lemma statement_ok w now w' :
  statement w = (Ok now, w') → same_world w w' ∧ ∃ t, now = db_clock t.
Proof.
  intros H. split; [by apply (always_run _ _ _ _ _ same_statement H)|].
  unfold statement, tick, mbind, M_bind in H. destruct (db_fault (w_tick w)); inv_M. eauto.
Qed.

Lemma utc_ok w now w' : utc w = (Ok now, w') → same_world w w' ∧ ∃ t, now = utc_now t.
Proof.
  intros H. split; [by apply (always_run _ _ _ _ _ same_utc H)|].
  unfold utc, tick, mbind, M_bind in H. inv_M. eauto.
Qed.

(** The value of a query. *)
Lemma query_ok {A} (f : Z -> Db -> A) w a w' :
  query f w = (Ok a, w') → same_world w w' ∧ ∃ t, a = f (db_clock t) (w_db w).
Proof.
  intros H. split; [by apply (always_run _ _ _ _ _ (same_query f) H)|].
  unfold query in H. apply M_bind_ok in H as (now & w1 & Hs & H). cbv [gets] in H.
  apply statement_ok in Hs as [[Hd _ _] [t ->]]. simplify_eq. exists t. by rewrite Hd.
Qed.

Lemma tx_query_ok {A} (f : Z -> Db -> A) w a w' :
  tx_query f w = (Ok a, w') → same_world w w' ∧ ∃ t, a = f (db_clock t) (tx_view w).
Proof.
  intros H. split; [by apply (always_run _ _ _ _ _ (same_tx_query f) H)|].
  unfold tx_query in H. apply M_bind_ok in H as (now & w1 & Hs & H). cbv [gets] in H.
  apply statement_ok in Hs as [Hs [t ->]]. simplify_eq. exists t.
  by rewrite (same_world_view _ _ Hs).
Qed.

Lemma execute_ok {A} (f : Z -> Db -> result string (A * Db)) w a w' :
  execute f w = (Ok a, w') →
  ∃ t, f (db_clock t) (w_db w) = Ok (a, w_db w') ∧ w_tx w' = w_tx w ∧ w_rabbit w' = w_rabbit w.
Proof.
  unfold execute. intros H. apply M_bind_ok in H as (now & w1 & Hs & H).
  apply statement_ok in Hs as [[Hd Ht Hr] [t ->]]. exists t.
  apply M_bind_ok in H as (d & w2 & Hg & H). cbv [gets] in Hg. simplify_eq. rewrite Hd in H.
  destruct (f (db_clock t) (w_db w)) as [[b d']|e] eqn:Hf; [|discriminate].
  inv_M. cbn. by rewrite Ht, Hr.
Qed.

Lemma tx_execute_ok {A} (f : Z -> Db -> result string (A * Db)) w a w' :
  tx_execute f w = (Ok a, w') →
  ∃ t, f (db_clock t) (tx_view w) = Ok (a, tx_view w') ∧ w_db w' = w_db w ∧ w_rabbit w' = w_rabbit w.
Proof.
  unfold tx_execute. intros H. apply M_bind_ok in H as (now & w1 & Hs & H).
  apply statement_ok in Hs as [Hw [t ->]]. exists t.
  apply M_bind_ok in H as (d & w2 & Hg & H). cbv [gets] in Hg. simplify_eq.
  rewrite (same_world_view _ _ Hw) in H.
  destruct (f (db_clock t) (tx_view w)) as [[b d']|e] eqn:Hf; [|discriminate].
  inv_M. destruct Hw as [Hd Ht Hr]. unfold tx_view in *. cbn.
  rewrite Hd, Ht, Hf. by rewrite Hr.
Qed.

Lemma commit_ok w u w' :
  commit w = (Ok u, w') → w_db w' = tx_view w ∧ w_rabbit w' = w_rabbit w.
Proof.
  unfold commit. intros H. apply M_bind_ok in H as (now & w1 & Hs & H).
  apply (always_run _ _ _ _ _ same_statement) in Hs as Hw. cbv [modify] in H. simplify_eq. cbn.
  split; [by apply same_world_view|by destruct Hw].
Qed.

Lemma tx_update_ok f w u w' :
  tx_update f w = (Ok u, w') →
  ∃ t, tx_view w' = f (db_clock t) (tx_view w) ∧ w_db w' = w_db w ∧ w_rabbit w' = w_rabbit w.
Proof.
  intros H. apply tx_execute_ok in H as (t & H & ? & ?). exists t. by simplify_eq.
Qed.

Lemma in_transaction_ok {A} (body : W A) w a w' :
  in_transaction body w = (Ok a, w') →
  ∃ w1 w2, body w1 = (Ok a, w2) ∧ w_db w1 = w_db w ∧ tx_view w1 = w_db w ∧
    w_rabbit w1 = w_rabbit w ∧ w_db w' = w_db w2 ∧ w_rabbit w' = w_rabbit w2.
Proof.
  unfold in_transaction. intros H. apply M_bind_ok in H as (now & w0 & Hs & H).
  apply (always_run _ _ _ _ _ same_statement) in Hs as [Hd Ht Hr].
  unfold rollback_on_drop in H. destruct (body _) as [r w2] eqn:Hb. simplify_eq.
  exists (set_tx (fun d => d) w0), w2. split; [done|]. unfold tx_view. cbn. by rewrite Hd, Hr.
Qed.
End statement_lemmas.

Lemma insert_new_ok {K A} `{Countable K} (k : K) (a : A) m m' :
  insert_new k a m = Ok m' → m !! k = None ∧ m' = <[k := a]> m.
Proof. unfold insert_new. case_match; [done|]. by intros [= <-]. Qed.

(** ** Lemmas on queries *)

Lemma elem_of_btree x X : x ∈ btree X ↔ x ∈ X.
Proof. unfold btree. by rewrite merge_sort_Permutation, elem_of_elements. Qed.

Lemma NoDup_btree X : NoDup (btree X).
Proof. unfold btree. rewrite merge_sort_Permutation. apply NoDup_elements. Qed.

Lemma length_btree X : length (btree X) = size X.
Proof. unfold btree. by rewrite merge_sort_Permutation. Qed.

Section query_lemmas.
Context `{JV : JsonValue}.

Lemma elem_of_active_members n l d p row :
  (p, row) ∈ active_members n l d ↔
  db_members d !! (n, l, p) = Some row ∧ me_state row = Active.
Proof.
  unfold active_members. rewrite list_elem_of_omap. split.
  - intros ([[[n' l'] p'] row'] & Hin%elem_of_map_to_list & Hf).
    case_bool_decide as Hb; [|done]. destruct Hb as (-> & -> & Ha). by simplify_eq.
  - intros [Hm Ha]. exists ((n, l, p), row). split; [by apply elem_of_map_to_list|].
    by rewrite bool_decide_eq_true_2.
Qed.

Lemma active_member_spec d n l p :
  active_member d n l p = true ↔ p ∈ (active_members n l d).*1.
Proof.
  rewrite list_elem_of_fmap. unfold active_member. split.
  - destruct (db_members d !! _) as [row|] eqn:Hm; [|done].
    intros Ha%bool_decide_eq_true_1. exists (p, row). split; [done|]. by apply elem_of_active_members.
  - intros ([p' row] & -> & Hin). cbn. apply elem_of_active_members in Hin as [-> Ha].
    by apply bool_decide_eq_true_2.
Qed.

Lemma elem_of_scope_routes n l d a p c row :
  (a, p, c, row) ∈ scope_routes n l d ↔ db_routes d !! (n, l, a, p, c) = Some row.
Proof.
  unfold scope_routes. rewrite list_elem_of_omap. split.
  - intros ([[[[[n' l'] a'] p'] c'] row'] & Hin%elem_of_map_to_list & Hf).
    case_bool_decide as Hb; [|done]. destruct Hb as (-> & ->). by simplify_eq.
  - intros Hm. exists ((n, l, a, p, c), row). split; [by apply elem_of_map_to_list|].
    by rewrite bool_decide_eq_true_2.
Qed.
End query_lemmas.

#[export] Hint Resolve same_tick same_statement same_utc same_new_v4 same_nonce_bytes same_query
  same_tx_query same_elapsed_since : gw_always.

Lemma same_admitted `{JV : JsonValue, HO : Host, AM : Amqp} n p :
  always same_world (principal_is_admitted n p).
Proof. unfold principal_is_admitted. solve_always. Qed.
#[export] Hint Resolve same_admitted : gw_always.

(** [inv_W] extends [inv_M] with what successful statements say. *)
Ltac inv_W :=
  repeat (inv_M; match goal with
  | H : query _ _ = (Ok _, _) |- _ => apply query_ok in H as (? & ? & ?); try subst
  | H : tx_query _ _ = (Ok _, _) |- _ => apply tx_query_ok in H as (? & ? & ?); try subst
  | H : update _ _ = (Ok _, _) |- _ => unfold update in H
  | H : tx_update _ _ = (Ok _, _) |- _ => apply tx_update_ok in H as (? & ? & ? & ?)
  | H : execute _ _ = (Ok _, _) |- _ => apply execute_ok in H as (? & ? & ? & ?)
  | H : tx_execute _ _ = (Ok _, _) |- _ => apply tx_execute_ok in H as (? & ? & ? & ?)
  | H : commit _ = (Ok _, _) |- _ => apply commit_ok in H as (? & ?)
  | H : utc _ = (Ok _, _) |- _ => apply utc_ok in H as (? & ? & ?); try subst
  | H : new_v4 _ = (Ok _, _) |- _ => apply (always_run _ _ _ _ _ same_new_v4) in H
  | H : nonce_bytes _ = (Ok _, _) |- _ => apply (always_run _ _ _ _ _ same_nonce_bytes) in H
  | H : elapsed_since _ _ = (Ok _, _) |- _ => apply (always_run _ _ _ _ _ (same_elapsed_since _)) in H
  | H : statement _ = (Ok _, _) |- _ => apply (always_run _ _ _ _ _ same_statement) in H
  | H : bail_if _ _ = Ok _ |- _ => apply bail_if_ok in H
  | H : ok_or _ _ = Ok _ |- _ => apply ok_or_ok in H
  | H : _ || _ = false |- _ => apply orb_false_elim in H as [? ?]
  | H : negb _ = false |- _ => apply negb_false_iff in H
  | H : bool_decide _ = true |- _ => apply bool_decide_eq_true_1 in H
  | H : _ && _ = true |- _ => apply andb_true_iff in H as [? ?]
  end); inv_M.

(** [same_views] turns the relations between successive worlds into equations of
    their components. *)
Ltac same_views :=
  repeat match goal with
  | H : same_world ?w ?w' |- _ =>
      pose proof (same_world_view _ _ H); destruct H as [? ? ?]
  end.

(** [chase_worlds] rewrites the goal back to the world a run started from. *)
Ltac chase_worlds :=
  repeat match goal with
  | H : tx_view ?x = _ |- context [tx_view ?x] => rewrite H
  | H : w_db ?x = _ |- context [w_db ?x] => rewrite H
  | H : w_rabbit ?x = _ |- context [w_rabbit ?x] => rewrite H
  end.
