(* ===== verification/Auth.v ===== *)
(** * Sessions

    Models [crates/message-gateway/src/auth.rs]: a principal asks for a challenge,
    proves possession of its key by signing it, and receives a bearer token whose
    hash is stored.  The theorems show that a challenge is used at most once, that
    a session is only created for an admitted principal that signed the challenge,
    and that a bearer token is honoured exactly while its session lives and its
    principal is admitted. *)

From S2P Require Import Prelude Str External MgConfig Amqp Rabbit Protocol MgDb.

Record VerifiedSession := {
  vs_session_id : string;
  vs_network_id : string;
  vs_principal_id : string;
}.

Section auth.
Context `{JV : JsonValue, HO : Host, AM : Amqp, MS : !Memberships, TR : Transport,
          PR : !Protocol, SE : !Sessions, HX : Hex, SHA : Sha256}.

Definition hash_token (token : string) : string := hex_encode (sha256 token).

Definition create_challenge (request : ChallengeRequest) : W ChallengeResponse :=
  match cr_principals request with
  | [claim] =>
      _ ← lift (bail_if (negb (bool_decide (pc_principal_id claim = pc_public_key_hex claim)))
            "principal id must match its Ed25519 public key");
      _ ← lift (bail_if (match pc_tenant_instance_id claim with
                         | Some value => is_blank value || (128 <? len value)%Z
                         | None => false
                         end)
            "tenant instance id must be non-empty and at most 128 bytes");
      is_admitted ← principal_is_admitted (cr_network_id request) (pc_principal_id claim);
      _ ← lift (bail_if (negb is_admitted) "principal is not an active network member");
      challenge_id ← new_v4;
      nonce ← nonce_bytes;
      now ← utc;
      let expires_at := (now + 2 * 60 * 1000000)%Z in
      principals_json ← lift (principals_to_value (cr_principals request));
      _ ← execute (fun _ d =>
            challenges ← insert_new challenge_id {|
              cl_network_id := cr_network_id request; cl_principals_json := principals_json;
              cl_nonce := hex_encode nonce; cl_expires_at := expires_at;
              cl_consumed_at := None |} (db_challenges d);
            Ok ((), on_challenges (fun _ => challenges) d));
      mret {| ch_challenge_id := challenge_id; ch_nonce := hex_encode nonce;
              ch_expires_at := as_u64 (timestamp_millis expires_at) |}
  | _ => throw "Message Gateway V1 accepts exactly one principal"
  end.

(** [Duration::from_std]: at most [i64::MAX] milliseconds. *)
Definition chrono_duration (ms : Z) : result string Z :=
  ok_or (i64_try_from ms) "session TTL outside chrono range".

(** [UPDATE gateway_challenges SET consumed_at = now WHERE challenge_id = $1] *)
Definition consume_challenge (now : Z) (challenge_id : string) (d : Db) : Db :=
  on_challenges (alter (fun row => {|
    cl_network_id := cl_network_id row; cl_principals_json := cl_principals_json row;
    cl_nonce := cl_nonce row; cl_expires_at := cl_expires_at row;
    cl_consumed_at := Some now |}) challenge_id) d.

(** [session_id] is the primary key, [token_hash] is unique. *)
Definition insert_session (session_id : string) (row : SessionRow) (d : Db) :
    result string (() * Db) :=
  _ ← bail_if (negb (bool_decide (map_Forall (fun _ old =>
        ss_token_hash old ≠ ss_token_hash row) (db_sessions d))))
        "duplicate key value violates unique constraint";
  sessions ← insert_new session_id row (db_sessions d);
  Ok ((), on_sessions (fun _ => sessions) d).

Definition insert_session_principal (session_id principal_id : string)
    (row : SessionPrincipalRow) (d : Db) : result string (() * Db) :=
  principals ← insert_new (session_id, principal_id) row (db_session_principals d);
  Ok ((), on_session_principals (fun _ => principals) d).

(** [SELECT .. WHERE challenge_id = $1 AND consumed_at IS NULL FOR UPDATE] *)
Definition unconsumed_challenge (challenge_id : string) (d : Db) : option ChallengeRow :=
  match db_challenges d !! challenge_id with
  | Some row => if bool_decide (cl_consumed_at row = None) then Some row else None
  | None => None
  end.

Definition history_of (network_id : string) (claim : PrincipalClaim) : W HistoryStatus :=
  match pc_tenant_instance_id claim with
  | Some tenant_instance_id =>
      unavailable ← register_principal_instance network_id (pc_principal_id claim)
                      tenant_instance_id;
      mret (match unavailable with true => HistoryUnavailable | false => CurrentMailboxOnly end)
  | None => mret CurrentMailboxOnly
  end.

(** The part of [prove_session] inside its transaction. *)
Definition accept_proof (config : Config) (request : SessionProofRequest) (challenge_id : string)
    (claim : PrincipalClaim) (proof : PrincipalProof) : W SessionResponse :=
  row ← tx_query (fun _ => unconsumed_challenge challenge_id);
  row ← lift (ok_or row "unknown or consumed challenge");
  principals_json ← lift (principals_to_value (sp_principals request));
  now ← utc;
  _ ← lift (bail_if (negb (bool_decide (cl_network_id row = sp_network_id request))
                     || negb (bool_decide (cl_principals_json row = principals_json))
                     || (cl_expires_at row <=? now)%Z)
        "challenge binding or expiry validation failed");
  _ ← lift (bail_if (negb (bool_decide (pr_principal_id proof = pc_principal_id claim)))
        "principal proof is not admitted");
  is_admitted ← principal_is_admitted (cl_network_id row) (pc_principal_id claim);
  _ ← lift (bail_if (negb is_admitted) "principal proof is not admitted");
  message ← lift (session_proof_message (cl_network_id row) (sp_principals request)
    {| ch_challenge_id := challenge_id; ch_nonce := cl_nonce row;
       ch_expires_at := as_u64 (timestamp_millis (cl_expires_at row)) |});
  _ ← lift (verify_signature (pc_public_key_hex claim) message (pr_signature_hex proof));
  history_status ← history_of (cl_network_id row) claim;
  _ ← tx_update (fun now => consume_challenge now challenge_id);
  session_id ← new_v4;
  secret ← new_v4;
  let token := session_id +:+ "." +:+ secret in
  now ← utc;
  ttl ← lift (chrono_duration (session_ttl config));
  let session_expires := (now + ttl * 1000)%Z in
  _ ← tx_execute (fun now => insert_session session_id {|
        ss_token_hash := hash_token token; ss_network_id := cl_network_id row;
        ss_expires_at := session_expires; ss_created_at := now |});
  _ ← tx_execute (fun now => insert_session_principal session_id (pc_principal_id claim) {|
        sr_verified_at := now; sr_expires_at := session_expires |});
  _ ← record_audit (Some (cl_network_id row)) (Some (pc_principal_id claim))
        "session_proof" "accepted";
  _ ← commit;
  mret {| sn_session_token := token; sn_network_id := cl_network_id row;
          sn_principal_id := pc_principal_id claim;
          sn_delivery_policy_version := sp_delivery_policy_version request;
          sn_history_status := history_status;
          sn_expires_at := as_u64 (timestamp_millis session_expires) |}.

Definition prove_session (config : Config) (request : SessionProofRequest) : W SessionResponse :=
  match sp_principals request, sp_proofs request with
  | [claim], [proof] =>
      _ ← lift (bail_if (negb (sp_delivery_policy_version request =? DELIVERY_POLICY_VERSION)%Z)
            "delivery policy version mismatch");
      challenge_id ← lift (ok_or (uuid_parse (sp_challenge_id request)) "invalid UUID");
      in_transaction (accept_proof config request challenge_id claim proof)
  | _, _ => throw "Message Gateway V1 requires one complete principal proof"
  end.

(** The rows of the join of sessions and their principals that are alive. *)
Definition live_sessions (now : Z) (token_hash : string) (d : Db) : list VerifiedSession :=
  omap (fun '((s, p), row) =>
    match db_sessions d !! s with
    | Some session =>
        if bool_decide (ss_token_hash session = token_hash)
           && (now <? ss_expires_at session)%Z && (now <? sr_expires_at row)%Z
        then Some {| vs_session_id := s; vs_network_id := ss_network_id session;
                     vs_principal_id := p |}
        else None
    | None => None
    end) (map_to_list (db_session_principals d)).

Definition verify_bearer (token : string) : W VerifiedSession :=
  _ ← lift (bail_if (is_blank token) "missing bearer token");
  session ← query (fun now d => head (live_sessions now (hash_token token) d));
  session ← lift (ok_or session "invalid or expired session");
  is_admitted ← principal_is_admitted (vs_network_id session) (vs_principal_id session);
  _ ← lift (bail_if (negb is_admitted) "session principal is no longer admitted");
  mret session.
End auth.

(** ** Lemmas *)

Section auth_lemmas.
Context `{JV : JsonValue, HO : Host, AM : Amqp, MS : !Memberships, TR : Transport,
          PR : !Protocol, SE : !Sessions, HX : Hex, SHA : Sha256}.

(** What an accepted proof has established, and the tables it leaves. *)
Record proof_accepted (config : Config) (request : SessionProofRequest)
    (response : SessionResponse) (cid : string) (claim : PrincipalClaim) (proof : PrincipalProof)
    (row : ChallengeRow) (d d' : Db) : Prop := {
  pv_principals : sp_principals request = [claim];
  pv_proofs : sp_proofs request = [proof];
  pv_challenge : unconsumed_challenge cid d = Some row;
  pv_network : cl_network_id row = sp_network_id request;
  pv_binding : principals_to_value (sp_principals request) = Ok (cl_principals_json row);
  pv_principal : pr_principal_id proof = pc_principal_id claim;
  pv_unexpired : ∃ t, (utc_now t < cl_expires_at row)%Z;
  pv_admitted : ∃ t, admitted (db_clock t) d (cl_network_id row) (pc_principal_id claim) = true;
  pv_signed : ∃ message,
    session_proof_message (cl_network_id row) (sp_principals request)
      {| ch_challenge_id := cid; ch_nonce := cl_nonce row;
         ch_expires_at := as_u64 (timestamp_millis (cl_expires_at row)) |} = Ok message ∧
    verify_signature (pc_public_key_hex claim) message (pr_signature_hex proof) = Ok ();
  pv_response : sn_network_id response = cl_network_id row ∧
    sn_principal_id response = pc_principal_id claim;
  pv_token : has_char "." (sn_session_token response) = true;
  pv_consumed : ∃ now, db_challenges d' = db_challenges (consume_challenge now cid d);
  pv_session : ∃ sid created verified expires,
    db_sessions d !! sid = None ∧
    map_Forall (λ _ old, ss_token_hash old ≠ hash_token (sn_session_token response))
      (db_sessions d) ∧
    db_sessions d' = <[sid := {| ss_token_hash := hash_token (sn_session_token response);
      ss_network_id := cl_network_id row; ss_expires_at := expires;
      ss_created_at := created |}]> (db_sessions d) ∧
    db_session_principals d' = <[(sid, pc_principal_id claim) := {|
      sr_verified_at := verified; sr_expires_at := expires |}]> (db_session_principals d) ∧
    sn_expires_at response = as_u64 (timestamp_millis expires);
}.

Lemma insert_session_ok sid row d u d' :
  insert_session sid row d = Ok (u, d') →
  db_sessions d !! sid = None ∧
  map_Forall (fun _ old => ss_token_hash old ≠ ss_token_hash row) (db_sessions d) ∧
  d' = on_sessions (insert sid row) d.
Proof.
  unfold insert_session. intros Hi. inv_result.
  match goal with H : negb _ = false |- _ =>
    apply negb_false_iff in H; apply bool_decide_eq_true_1 in H end.
  match goal with H : insert_new _ _ _ = _ |- _ => apply insert_new_ok in H as [? ->] end. done.
Qed.

Lemma insert_session_principal_ok sid p row d u d' :
  insert_session_principal sid p row d = Ok (u, d') →
  d' = on_session_principals (insert (sid, p) row) d.
Proof.
  unfold insert_session_principal. intros H. inv_result.
  match goal with H : insert_new _ _ _ = _ |- _ => apply insert_new_ok in H as [? ->] end. done.
Qed.

Lemma history_of_ok n c w h w' :
  history_of n c w = (Ok h, w') →
  w_db w' = w_db w ∧ w_rabbit w' = w_rabbit w ∧ ∃ f, tx_view w' = on_instances f (tx_view w).
Proof.
  unfold history_of, register_principal_instance. destruct (pc_tenant_instance_id c); intros H.
  - apply M_bind_ok in H as (b & w1 & H & He). inv_M.
    apply tx_execute_ok in H as (now & H & ? & ?). simplify_eq. eauto.
  - injection H as <- <-. split_and!; [done..|]. exists (fun i => i). by destruct (tx_view w).
Qed.

Lemma record_audit_ok n p a o w u w' :
  record_audit n p a o w = (Ok u, w') →
  w_db w' = w_db w ∧ w_rabbit w' = w_rabbit w ∧ ∃ f, tx_view w' = on_audit f (tx_view w).
Proof.
  unfold record_audit. intros H. apply M_bind_ok in H as (i & w1 & Hn & H).
  apply (always_run _ _ _ _ _ same_new_v4) in Hn. apply tx_update_ok in H as (now & H & Hd & Hr).
  rewrite H, Hd, Hr, (same_world_view _ _ Hn). destruct Hn as [-> _ ->]. eauto.
Qed.

Lemma prove_session_ok config request w response w' :
  prove_session config request w = (Ok response, w') →
  ∃ cid claim proof row, uuid_parse (sp_challenge_id request) = Some cid ∧
    proof_accepted config request response cid claim proof row (w_db w) (w_db w').
Proof.
  unfold prove_session. destruct (sp_principals request) as [|claim [|]] eqn:Hps; try done.
  destruct (sp_proofs request) as [|proof [|]] eqn:Hpr; try done.
  intros H. apply M_bind_ok in H as (u & w0 & Hb & H). apply M_bind_ok in H as (cid & w3 & Hc & H).
  cbv [lift] in Hb, Hc. injection Hb as _ ?. injection Hc as Hc ?. subst w0 w3. apply ok_or_ok in Hc.
  apply in_transaction_ok in H as (w1 & w2 & H & Hd & Ht & Hr & Hd' & Hr').
  unfold accept_proof, principal_is_admitted in H. inv_W.
  repeat match goal with
  | H : history_of _ _ _ = _ |- _ => apply history_of_ok in H as (? & ? & ? & ?)
  | H : record_audit _ _ _ _ _ = _ |- _ => apply record_audit_ok in H as (? & ? & ? & ?)
  | H : insert_session _ _ _ = _ |- _ => apply insert_session_ok in H as (? & ? & ?)
  | H : insert_session_principal _ _ _ _ = _ |- _ => apply insert_session_principal_ok in H
  end.
  same_views. do 4 eexists. split; [done|]. split; cbn; eauto; chase_worlds; cbn; eauto.
  - match goal with H : unconsumed_challenge _ _ = Some _ |- _ => by rewrite Ht in H end.
  - congruence.
  - eexists. apply Z.leb_gt. subst. eassumption.
  - match goal with H : admitted _ (w_db ?x) _ _ = true |- _ =>
      replace (w_db x) with (w_db w) in H by congruence end. eauto.
  - rewrite has_char_app. cbn. by rewrite orb_true_r.
  - match goal with H : db_sessions (tx_view ?x) !! _ = None |- _ =>
      assert (db_sessions (tx_view x) = db_sessions (w_db w)) as Hs by (chase_worlds; done);
      rewrite Hs in * end.
    do 4 eexists. split_and!; try done.
Qed.

(** The foreign key of [gateway_session_principals]. *)
Definition session_fk (d : Db) : Prop :=
  ∀ s p, is_Some (db_session_principals d !! (s, p)) → is_Some (db_sessions d !! s).

(** The only live row for a newly issued token is the new session. *)
Lemma live_sessions_issued d d' sid p srow prow now :
  session_fk d → db_sessions d !! sid = None →
  map_Forall (fun _ old => ss_token_hash old ≠ ss_token_hash srow) (db_sessions d) →
  db_sessions d' = <[sid := srow]> (db_sessions d) →
  db_session_principals d' = <[(sid, p) := prow]> (db_session_principals d) →
  live_sessions now (ss_token_hash srow) d' =
    if ((now <? ss_expires_at srow) && (now <? sr_expires_at prow))%Z
    then [{| vs_session_id := sid; vs_network_id := ss_network_id srow; vs_principal_id := p |}]
    else [].
Proof.
  intros Hfk Hsid Hfresh Hs Hp. unfold live_sessions. rewrite Hp.
  assert (db_session_principals d !! (sid, p) = None) as Hnew.
  { apply eq_None_not_Some. intros Hin. apply Hfk in Hin. rewrite Hsid in Hin. by destruct Hin. }
  set (f := fun x : string * string * SessionPrincipalRow => _).
  assert (omap f (map_to_list (db_session_principals d)) = []) as Hnone.
  { assert (∀ l, Forall (fun x => f x = None) l → omap f l = []) as Hall.
    { intros l. induction 1 as [|x l Hx _ IH]; [done|]. csimpl. by rewrite Hx. }
    apply Hall. rewrite Forall_forall. intros [[s q] row] Hin%elem_of_map_to_list. cbn.
    destruct (Hfk s q) as [old Hold]; [by eexists|].
    assert (s ≠ sid) as Hne by (intros ->; by rewrite Hsid in Hold).
    rewrite Hs, lookup_insert_ne, Hold by done. apply Hfresh in Hold.
    by rewrite bool_decide_eq_false_2. }
  pose proof (map_to_list_insert _ _ prow Hnew) as Hperm.
  apply (omap_Permutation f) in Hperm. csimpl in Hperm. rewrite Hnone in Hperm.
  rewrite Hs, lookup_insert_eq in Hperm. rewrite bool_decide_eq_true_2 in Hperm by done.
  cbn [andb] in Hperm. destruct (_ && _)%bool;
    [by apply Permutation_singleton_r in Hperm|by apply Permutation_nil_r in Hperm].
Qed.
End auth_lemmas.

(** ** Claims *)

(** C38: a challenge opens at most one session.  Once a session proof has been
    accepted for a challenge, every later proof for the same challenge is refused,
    whatever it contains and whoever presents it, even after the expired challenge
    has been removed from the database. *)
Theorem challenge_single_use `{JV : JsonValue, HO : Host, AM : Amqp, MS : !Memberships,
      TR : Transport, PR : !Protocol, SE : !Sessions, HX : Hex, SHA : Sha256}
    config request w response w' cid config2 request2 w2 :
  prove_session config request w = (Ok response, w') →
  uuid_parse (sp_challenge_id request) = Some cid →
  uuid_parse (sp_challenge_id request2) = Some cid →
  (db_challenges (w_db w2) !! cid = db_challenges (w_db w') !! cid ∨
   db_challenges (w_db w2) !! cid = None) →
  ∃ error, (prove_session config2 request2 w2).1 = Err error.
Proof.
  intros H Hcid Hcid2 Hrow. apply prove_session_ok in H as (c & claim & proof & row & Hc & Hacc).
  simplify_eq. destruct (prove_session config2 request2 w2) as [[r2|e] w2'] eqn:H2; [|by eexists].
  apply prove_session_ok in H2 as (c2 & claim2 & proof2 & row2 & Hc2 & Hacc2). simplify_eq.
  pose proof (pv_challenge _ _ _ _ _ _ _ _ _ Hacc) as Hch.
  pose proof (pv_challenge _ _ _ _ _ _ _ _ _ Hacc2) as Hch2.
  destruct (pv_consumed _ _ _ _ _ _ _ _ _ Hacc) as [now Hcons].
  unfold unconsumed_challenge in Hch, Hch2. destruct Hrow as [Hrow|Hrow]; rewrite Hrow in Hch2; [|done].
  rewrite Hcons in Hch2. cbn in Hch2. rewrite lookup_alter_eq in Hch2.
  by destruct (db_challenges (w_db w) !! _).
Qed.

(** C14: a session is a proof of possession.  When a session proof is accepted, the
    challenge was known, unused and unexpired and had been issued for the same
    network and the same principal claim; the principal was an active network
    member; and the signature over the challenge verified under the claimed public
    key.  The session is for that network and that principal. *)
Theorem session_proof_of_possession `{JV : JsonValue, HO : Host, AM : Amqp, MS : !Memberships,
      TR : Transport, PR : !Protocol, SE : !Sessions, HX : Hex, SHA : Sha256}
    config request w response w' :
  prove_session config request w = (Ok response, w') →
  ∃ cid claim proof row message t t',
    uuid_parse (sp_challenge_id request) = Some cid ∧
    sp_principals request = [claim] ∧ sp_proofs request = [proof] ∧
    db_challenges (w_db w) !! cid = Some row ∧ cl_consumed_at row = None ∧
    (utc_now t < cl_expires_at row)%Z ∧
    cl_network_id row = sp_network_id request ∧
    principals_to_value [claim] = Ok (cl_principals_json row) ∧
    pr_principal_id proof = pc_principal_id claim ∧
    admitted (db_clock t') (w_db w) (sp_network_id request) (pc_principal_id claim) = true ∧
    session_proof_message (sp_network_id request) [claim]
      {| ch_challenge_id := cid; ch_nonce := cl_nonce row;
         ch_expires_at := as_u64 (timestamp_millis (cl_expires_at row)) |} = Ok message ∧
    verify_signature (pc_public_key_hex claim) message (pr_signature_hex proof) = Ok () ∧
    sn_network_id response = sp_network_id request ∧
    sn_principal_id response = pc_principal_id claim.
Proof.
  intros H. apply prove_session_ok in H as (cid & claim & proof & row & Hc & Hacc).
  destruct Hacc as [Hps Hpr Hch Hnet Hbind Hprin [t Hexp] [t' Hadm] (m & Hm & Hsig) [Hn Hp] _ _ _].
  rewrite Hps in *. rewrite Hnet in *. exists cid, claim, proof, row, m, t, t'.
  unfold unconsumed_challenge in Hch. case_match; [|done]. case_bool_decide; [|done]. by simplify_eq.
Qed.

(** A bearer token is honoured exactly while its session lives.  The token of
    an accepted proof is resolved, from any later state in which the session tables
    are unchanged, to the network and the principal it was issued for if the session
    has not expired and the principal is still an active network member, and is
    refused otherwise. *)
Theorem bearer_roundtrip `{JV : JsonValue, HO : Host, AM : Amqp, MS : !Memberships,
      TR : Transport, PR : !Protocol, SE : !Sessions, HX : Hex, SHA : Sha256}
    config request w response w' :
  session_fk (w_db w) →
  prove_session config request w = (Ok response, w') →
  ∃ sid expires, sn_expires_at response = as_u64 (timestamp_millis expires) ∧
  ∀ w2, db_sessions (w_db w2) = db_sessions (w_db w') →
    db_session_principals (w_db w2) = db_session_principals (w_db w') →
    db_fault (w_tick w2) = None → db_fault (S (w_tick w2)) = None →
    (verify_bearer (sn_session_token response) w2).1 =
      if negb (db_clock (w_tick w2) <? expires)%Z then Err "invalid or expired session"
      else if admitted (db_clock (S (w_tick w2))) (w_db w2) (sn_network_id response)
                (sn_principal_id response)
      then Ok {| vs_session_id := sid; vs_network_id := sn_network_id response;
                 vs_principal_id := sn_principal_id response |}
      else Err "session principal is no longer admitted".
Proof.
  intros Hfk H. apply prove_session_ok in H as (cid & claim & proof & row & Hc & Hacc).
  destruct Hacc as [_ _ _ _ _ _ _ _ _ [Hn Hp] Htok _ (sid & cr & ve & ex & Hs & Hfr & Hs' & Hp' & He)].
  exists sid, ex. split; [done|]. intros w2 Hs2 Hp2 Hf1 Hf2.
  assert (∀ now, live_sessions now (hash_token (sn_session_token response)) (w_db w2) =
    if (now <? ex)%Z then [{| vs_session_id := sid; vs_network_id := sn_network_id response;
                              vs_principal_id := sn_principal_id response |}] else []) as Hlive.
  { intros now. rewrite Hs' in Hs2. rewrite Hp' in Hp2.
    pose proof (fun H => live_sessions_issued (w_db w) (w_db w2) sid _ _ _ now Hfk Hs H Hs2 Hp2) as Hl.
    cbn in Hl. rewrite (Hl Hfr), Hn, Hp. by destruct (now <? ex)%Z. }
  unfold verify_bearer. rewrite (is_blank_dot _ Htok).
  unfold principal_is_admitted, query, statement, tick, mbind, M_bind, lift, gets, mret, M_ret.
  cbn. rewrite Hf1. cbn. rewrite Hlive. destruct (db_clock (w_tick w2) <? ex)%Z; cbn; [|done].
  rewrite Hf2. cbn. by destruct (admitted _ _ _ _).
Qed.

(** ** Witnesses *)

Definition sample_member (version : string) (roles : list string) :
    @MemberRow json_value_impl := {|
  me_membership_version := version; me_state := Active; me_authorized_at := 0%Z;
  me_revoked_at := None; me_interactive_binding_state := "active";
  me_bulk_binding_state := "active"; me_roles_json := (roles : @Json json_value_impl); me_binding_updated_at := None;
|}.

Definition sample_challenge : @ChallengeRow json_value_impl := {|
  cl_network_id := "net"; cl_principals_json := (["alice"] : @Json json_value_impl); cl_nonce := "n0";
  cl_expires_at := 2000000%Z; cl_consumed_at := None;
|}.

Definition sample_auth_db : @Db json_value_impl :=
  on_challenges (insert "c1" sample_challenge)
    (on_members (insert ("net", "global", "alice") (sample_member "v1" [])) db_empty).

Definition sample_world (d : @Db json_value_impl) (confirm : Confirmation) :
    @World json_value_impl amqp_impl := {|
  w_db := d; w_tx := fun d => d; w_rabbit := sample_adapter [] confirm; w_tick := 0%nat;
|}.

Definition sample_claim : PrincipalClaim :=
  {| pc_principal_id := "alice"; pc_public_key_hex := "alice"; pc_tenant_instance_id := Some "t1" |}.

Definition sample_proof_request : SessionProofRequest := {|
  sp_challenge_id := "c1"; sp_network_id := "net"; sp_principals := [sample_claim];
  sp_proofs := [{| pr_principal_id := "alice"; pr_signature_hex := "alice/net:n0" |}];
  sp_delivery_policy_version := 1%Z;
|}.

Definition sample_prove (request : SessionProofRequest) (w : @World json_value_impl amqp_impl) :
    result string SessionResponse * @World json_value_impl amqp_impl :=
  prove_session (HO:=host_impl) (MS:=memberships_impl) (TR:=transport_impl)
    (PR:=protocol_impl [] []) (SE:=sessions_impl) (HX:=hex_impl) (SHA:=sha256_id)
    sample_config request w.

Definition sample_proved : result string SessionResponse * @World json_value_impl amqp_impl :=
  sample_prove sample_proof_request (sample_world sample_auth_db (Ack None)).

Definition sample_session_response : SessionResponse :=
  match sample_proved.1 with
  | Ok r => r
  | Err _ => {| sn_session_token := ""; sn_network_id := ""; sn_principal_id := "";
                sn_delivery_policy_version := 0%Z; sn_history_status := CurrentMailboxOnly;
                sn_expires_at := 0%Z |}
  end.

Lemma sample_proved_ok :
  sample_prove sample_proof_request (sample_world sample_auth_db (Ack None)) =
    (Ok sample_session_response, sample_proved.2).
Proof.
  assert (is_ok sample_proved.1 = true) as H by (vm_compute; reflexivity).
  apply is_ok_spec in H as [r H]. unfold sample_session_response. rewrite H. cbn.
  rewrite <- H. apply surjective_pairing.
Qed.

Lemma challenge_single_use_witness :
  sn_principal_id sample_session_response = "alice" ∧
  ∃ error, (sample_prove sample_proof_request sample_proved.2).1 = Err error.
Proof.
  split; [vm_compute; reflexivity|].
  apply (challenge_single_use _ _ _ _ _ "c1" _ _ sample_proved.2 sample_proved_ok);
    [reflexivity|reflexivity|by left].
Defined.

Lemma session_proof_of_possession_witness :
  ∃ cid claim, sp_principals sample_proof_request = [claim] ∧
    uuid_parse (Host:=host_impl) (sp_challenge_id sample_proof_request) = Some cid ∧
    sn_principal_id sample_session_response = pc_principal_id claim.
Proof.
  destruct (session_proof_of_possession _ _ _ _ _ sample_proved_ok)
    as (cid & claim & proof & row & m & t & t' & H).
  exists cid, claim. split_and!; apply H.
Defined.

Lemma bearer_roundtrip_witness :
  ∃ sid, (verify_bearer (HO:=host_impl) (HX:=hex_impl) (SHA:=sha256_id)
            (sn_session_token sample_session_response) sample_proved.2).1 =
    Ok {| vs_session_id := sid; vs_network_id := "net"; vs_principal_id := "alice" |}.
Proof.
  assert (session_fk (w_db (sample_world sample_auth_db (Ack None)))) as Hfk.
  { intros s p [row Hrow]. cbn in Hrow. by rewrite lookup_empty in Hrow. }
  destruct (bearer_roundtrip _ _ _ _ _ Hfk sample_proved_ok) as (sid & ex & He & H).
  exists sid. pose proof (H sample_proved.2 eq_refl eq_refl eq_refl eq_refl) as Hv.
  assert (is_ok (verify_bearer (HO:=host_impl) (HX:=hex_impl) (SHA:=sha256_id)
            (sn_session_token sample_session_response) sample_proved.2).1 = true) as Hok
    by (vm_compute; reflexivity).
  rewrite Hv in Hok |- *. destruct (negb _); [discriminate|].
  destruct (admitted _ _ _ _); [reflexivity|discriminate].
Defined.
