(* ===== verification/Service.v ===== *)
(** * Publishing and membership

    Models [crates/message-gateway/src/service.rs]: validation of the frames a
    principal publishes, the authority rules for membership changes, the binding of
    broker queues to the members of a scope, and the publish, control and grant
    handlers.  The handlers run over the database and the broker adapter of
    [MgDb.World]; each step is in the order of the source, and every early return is
    an error of the monad.  The frame validators do not touch any state and return
    a [result].

    [tokio::time::timeout] around the binding loops is a deadline that is checked
    after each member. *)

From S2P Require Import Prelude Str External MgConfig Owners Buckets Gaps Observability Amqp Rabbit Protocol MgDb Auth.

Section types.
Context `{MS : Memberships, TR : Transport}.

Inductive MembershipMutation :=
| Snapshot (scope : SwarmScope) (membership : Membership) (quorum_threshold : Z)
    (quorum_signatures : list SignatureEnvelope) (version : string)
| Principal (scope : SwarmScope) (principal_id : string) (active : bool) (version : string).

Definition mutation_scope (m : MembershipMutation) : SwarmScope :=
  match m with Snapshot scope _ _ _ _ | Principal scope _ _ _ => scope end.

Definition mutation_version (m : MembershipMutation) : string :=
  match m with Snapshot _ _ _ _ version | Principal _ _ _ version => version end.

Record ValidatedFrame := {
  vf_route : EventTransportRoute;
  vf_urgency : EventDeliveryUrgency;
  vf_membership_mutation : option MembershipMutation;
}.
End types.

(** ** Frame validation *)

Section validation.
Context `{MS : Memberships, TR : Transport, PR : !Protocol, HX : Hex, SHA : Sha256}.

Definition scope_from_hint (scope : ScopeHint) : SwarmScope :=
  match scope with
  | HintGlobal => Global
  | HintRegion id => Region id
  | HintNode id => Node id
  | HintGroup id => Group id
  end.

Definition is_public_global_control (payload : EventPayload) : bool :=
  match payload with
  | MembershipUpdated _ | PolicyTuned | NetworkParamsUpdated | CheckpointCreated
  | AdvisoryCreated | AdvisoryApproved | AdvisoryApplied | EventRevoked | SummaryRevoked
  | NodePenalized => true
  | FeedSubscriptionUpdated _ | OtherPayload => false
  end.

Definition announcement_route (scope : SwarmScope) (lane : PropagationLane)
    (public_global_control : bool) : result string EventTransportRoute :=
  from_kind_label scope lane (lane_as_str lane) public_global_control.

Definition verify_authority_record (session : VerifiedSession) (signer signature : option string)
    (message : string) : result string () :=
  match signer, signature with
  | Some signer, Some signature =>
      _ ← bail_if (negb (bool_decide (signer = vs_principal_id session)))
            "Global authority record signer does not match session";
      verify_signature signer message signature
  | _, _ => Err "Global authority record requires an author signature"
  end.

Definition is_node (scope : SwarmScope) : bool :=
  match scope with Node _ => true | _ => false end.

Definition event_mutation (event : Event) : result string (option MembershipMutation) :=
  match event_payload event with
  | MembershipUpdated payload =>
      Ok (Some (Snapshot Global (mu_new_membership payload) (mu_quorum_threshold payload)
                  (mu_quorum_signatures payload) (event_id event)))
  | FeedSubscriptionUpdated payload =>
      hint ← ok_or (fs_scope payload) "subscription mutation has invalid scope";
      let scope := scope_from_hint hint in
      _ ← bail_if (negb (bool_decide (fs_subscriber_node_id payload = author_node_id event)))
            "subscription mutation author must be its subscriber";
      Ok (if bool_decide (scope = Global) || is_node scope then None
          else Some (Principal scope (fs_subscriber_node_id payload) (fs_active payload)
                       (event_id event)))
  | _ => Ok None
  end.

Definition validate_event_frame (frame : PublishFrame) (session : VerifiedSession) :
    result string ValidatedFrame :=
  event ← event_from_slice (pf_payload frame);
  _ ← verify_event_signature event;
  _ ← bail_if (negb (bool_decide (event_id event = pf_record_id frame))
               || negb (bool_decide (author_node_id event = vs_principal_id session)))
        "signed Event identity or author does not match session";
  hint ← ok_or (parse_with_prefix_fallback (swarm_scope event))
           "signed Event has invalid swarm scope";
  let scope := scope_from_hint hint in
  let lane := if bool_decide (event_kind event = TopicMessagePosted) then Messages else Events in
  let public_global_control := is_public_global_control (event_payload event) in
  expected_route ← from_kind_label scope lane (event_kind_debug (event_kind event))
                     public_global_control;
  _ ← bail_if (negb (bool_decide (expected_route = pf_route_transport frame)))
        "transport route does not match signed Event scope and kind";
  _ ← bail_if (bool_decide (pf_payload_type frame = PTMessage)
               && negb (bool_decide (route_lane expected_route = Messages)))
        "Message payload type requires the existing Messages lane Event";
  _ ← bail_if (bool_decide (route_scope expected_route = Global) && negb public_global_control)
        "non-control Event cannot use the Global route";
  let urgency :=
    if is_node (route_scope expected_route) then ExplicitRecipient
    else if public_global_control then TimeSensitiveControl
    else Background in
  membership_mutation ← event_mutation event;
  _ ← bail_if (match membership_mutation with
               | Some mutation =>
                   negb (bool_decide (mutation_scope mutation = route_scope expected_route))
               | None => false
               end)
        "membership mutation scope does not match signed Event route";
  Ok {| vf_route := expected_route; vf_urgency := urgency;
        vf_membership_mutation := membership_mutation |}.

Definition validate_rule_frame (frame : PublishFrame) (session : VerifiedSession) :
    result string ValidatedFrame :=
  rule ← rule_from_slice (pf_payload frame);
  let expected_id := hex_encode (sha256 (pf_payload frame)) in
  _ ← bail_if (negb (bool_decide (pf_record_id frame = expected_id)))
        "Rule record id does not match its canonical record bytes";
  let global := bool_decide (rule_scope rule = Global) in
  _ ← (if global then
         message ← rule_signing_vec rule;
         verify_authority_record session (rule_signer rule) (rule_signature rule) message
       else Ok ());
  expected_route ← announcement_route (rule_scope rule) Rules global;
  _ ← bail_if (negb (bool_decide (expected_route = pf_route_transport frame)))
        "Rule transport route mismatch";
  Ok {| vf_route := expected_route; vf_urgency := TimeSensitiveControl;
        vf_membership_mutation := None |}.

Definition validate_checkpoint_frame (frame : PublishFrame) (session : VerifiedSession) :
    result string ValidatedFrame :=
  checkpoint ← checkpoint_from_slice (pf_payload frame);
  _ ← bail_if (negb (bool_decide (checkpoint_id checkpoint = pf_record_id frame)))
        "Checkpoint record id mismatch";
  let global := bool_decide (checkpoint_scope checkpoint = Global) in
  _ ← (if global then
         message ← checkpoint_signing_vec checkpoint;
         verify_authority_record session (checkpoint_signer checkpoint)
           (checkpoint_signature checkpoint) message
       else Ok ());
  expected_route ← announcement_route (checkpoint_scope checkpoint) Checkpoints global;
  _ ← bail_if (negb (bool_decide (expected_route = pf_route_transport frame)))
        "Checkpoint transport route mismatch";
  Ok {| vf_route := expected_route; vf_urgency := Background; vf_membership_mutation := None |}.

Definition validate_summary_frame (frame : PublishFrame) (session : VerifiedSession) :
    result string ValidatedFrame :=
  summary ← summary_from_slice (pf_payload frame);
  _ ← bail_if (negb (bool_decide (summary_id summary = pf_record_id frame))
               || negb (bool_decide (summary_source summary = vs_principal_id session)))
        "Summary identity or source does not match session";
  expected_route ← announcement_route (summary_scope summary) Summaries false;
  _ ← bail_if (negb (bool_decide (expected_route = pf_route_transport frame)))
        "Summary transport route mismatch";
  Ok {| vf_route := expected_route; vf_urgency := Background; vf_membership_mutation := None |}.

Definition MAX_PUBLISH_FRAME_BYTES : Z := 1024 * 1024.

Definition validate_record_frame (frame : PublishFrame) (session : VerifiedSession) :
    result string ValidatedFrame :=
  _ ← bail_if (MAX_PUBLISH_FRAME_BYTES <? len (pf_payload frame))%Z
        "publish frame exceeds the V1 size limit";
  match pf_payload_type frame with
  | PTEvent | PTMessage => validate_event_frame frame session
  | PTRule => validate_rule_frame frame session
  | PTCheckpoint => validate_checkpoint_frame frame session
  | PTSummary => validate_summary_frame frame session
  end.
End validation.

(** ** Membership *)

Section membership.
Context `{JV : JsonValue, HO : Host, MS : !Memberships, TR : Transport, PR : !Protocol, HX : Hex, SHA : Sha256,
          CL : DeliveryClassOps, TJ : TupleJson, EC : !EnvelopeCodec, AM : Amqp}.

(** A step of a loop under [tokio::time::timeout]. *)
Definition before_deadline (deadline : Z) (timeout_message : string) (step : R ()) : R () :=
  _ ← step;
  now ← instant;
  lift (bail_if (deadline <? now)%Z timeout_message).

Definition bind_members (config : Config) (network_id version : string)
    (routes desired fresh : list string) : R () :=
  started ← instant;
  let step := before_deadline (started + membership_binding_timeout config)
                "membership mutation binding timed out" in
  _ ← for_each routes (fun route_address =>
        for_each desired (fun principal =>
          step (bind_scope_member config network_id principal route_address version)));
  for_each fresh (fun principal => step (ensure_tenant_mailboxes config network_id principal)).

Definition desired_members (mutation : MembershipMutation) (existing : gset string) :
    gset string :=
  match mutation with
  | Snapshot _ membership _ _ _ => dom (membership_members membership)
  | Principal _ principal_id active _ =>
      if active then {[principal_id]} ∪ existing else existing ∖ {[principal_id]}
  end.

(** [UPDATE gateway_scope_memberships SET state = 'revoked' ..] *)
Definition revoke_scope (now : Z) (network_id scope_label version : string) (d : Db) : Db :=
  on_members (map_imap (fun key row => Some (
    if decide (key.1 = (network_id, scope_label)) then {|
      me_membership_version := version; me_state := Revoked;
      me_authorized_at := me_authorized_at row; me_revoked_at := Some now;
      me_interactive_binding_state := "revoked"; me_bulk_binding_state := "revoked";
      me_roles_json := me_roles_json row; me_binding_updated_at := Some now |}
    else row))) d.

(** [INSERT .. ON CONFLICT DO UPDATE]: the time of the first authorisation is
    kept. *)
Definition upsert_member (now : Z) (network_id scope_label principal version : string)
    (roles : Json) (d : Db) : Db :=
  on_members (fun members => <[(network_id, scope_label, principal) := {|
    me_membership_version := version; me_state := Active;
    me_authorized_at := match members !! (network_id, scope_label, principal) with
                        | Some old => me_authorized_at old
                        | None => now
                        end;
    me_revoked_at := None;
    me_interactive_binding_state := "active"; me_bulk_binding_state := "active";
    me_roles_json := roles; me_binding_updated_at := Some now |}]> members) d.

Definition delete_scope_routes (network_id scope_label : string) (d : Db) : Db :=
  on_routes (filter (fun kr => ¬ kr.1.1.1.1 = (network_id, scope_label))) d.

Definition insert_route (now : Z) (network_id scope_label route principal : string)
    (class : DeliveryClass) (version : string) (d : Db) : result string (() * Db) :=
  routes ← insert_new (network_id, scope_label, route, principal, class_as_str class)
    {| ro_membership_version := version; ro_binding_state := "active"; ro_updated_at := now |}
    (db_routes d);
  Ok ((), on_routes (fun _ => routes) d).

Definition upsert_version (now : Z) (network_id scope_label version : string) (d : Db) : Db :=
  on_versions (fun versions => <[(network_id, scope_label) := {|
    ve_active_membership_version := version;
    ve_routing_fence := match versions !! (network_id, scope_label) with
                        | Some old => (ve_routing_fence old + 1)%Z
                        | None => 1%Z
                        end;
    ve_updated_at := now |}]> versions) d.

Definition mutation_roles (mutation : MembershipMutation) (principal : string) :
    result string Json :=
  match mutation with
  | Snapshot _ membership _ _ _ =>
      roles_to_value (default [] (membership_members membership !! principal))
  | Principal _ _ _ _ => Ok json_empty_array
  end.

Definition scope_route_addresses (network_id scope_label : string) (d : Db) : list string :=
  elements (list_to_set ((fun '(address, _, _, _) => address) <$>
    scope_routes network_id scope_label d) : gset string).

Definition add_route (additional : option string) (routes : list string) : list string :=
  match additional with
  | Some route => if bool_decide (route ∈ routes) then routes else routes ++ [route]
  | None => routes
  end.

(** The statements after the broker has been updated. *)
Definition store_membership (network_id scope_label : string) (mutation : MembershipMutation)
    (routes desired : list string) : W () :=
  let version := mutation_version mutation in
  _ ← tx_update (fun now => revoke_scope now network_id scope_label version);
  _ ← for_each desired (fun principal =>
        roles ← lift (mutation_roles mutation principal);
        tx_update (fun now => upsert_member now network_id scope_label principal version roles));
  _ ← tx_update (fun _ => delete_scope_routes network_id scope_label);
  _ ← for_each routes (fun route =>
        for_each desired (fun principal =>
          for_each class_all (fun class =>
            tx_execute (fun now =>
              insert_route now network_id scope_label route principal class version))));
  tx_update (fun now => upsert_version now network_id scope_label version).

Definition apply_membership_mutation (config : Config) (network_id : string)
    (mutation : MembershipMutation) (additional_route : option string) : W Z :=
  started ← rabbit instant;
  let scope := mutation_scope mutation in
  let version := mutation_version mutation in
  label ← lift (scope_label scope);
  _ ← record_membership_mutation config network_id label version;
  existing ← tx_query (fun _ d => list_to_set (active_members network_id label d).*1 : gset string);
  let desired := desired_members mutation existing in
  _ ← whenM (bool_decide (scope = Global))
        (lift (validate_proposed_tenant_count config (Z.of_nat (size desired))));
  routes ← tx_query (fun _ => scope_route_addresses network_id label);
  let routes := add_route additional_route routes in
  _ ← rabbit (bind_members config network_id version routes (btree desired)
                (btree (desired ∖ existing)));
  _ ← store_membership network_id label mutation routes (btree desired);
  elapsed ← elapsed_since started;
  _ ← lift (bail_if (max_membership_binding_lag config <? elapsed)%Z
        "membership binding lag exceeds configured guardrail");
  mret (Z.of_nat (size desired)).

(** [UPDATE gateway_scope_memberships SET interactive_binding_state = 'active' ..] *)
Definition mark_bound (now : Z) (network_id scope_label : string) (d : Db) : Db :=
  on_members (map_imap (fun key row => Some (
    if decide (key.1 = (network_id, scope_label) ∧ me_state row = Active) then {|
      me_membership_version := me_membership_version row; me_state := me_state row;
      me_authorized_at := me_authorized_at row; me_revoked_at := me_revoked_at row;
      me_interactive_binding_state := "active"; me_bulk_binding_state := "active";
      me_roles_json := me_roles_json row; me_binding_updated_at := Some now |}
    else row))) d.

Definition reconcile_scope_bindings (config : Config) (network_id : string)
    (route : EventTransportRoute) : W () :=
  match route_scope route with
  | Node _ => mret ()
  | scope =>
      label ← lift (scope_label scope);
      active_version ← query (fun _ => scope_version network_id label);
      active_version ← lift (ok_or active_version "shared scope has no active membership version");
      members ← query (fun _ d => list_to_set ((filter (fun pr =>
        me_membership_version pr.2 = active_version) (active_members network_id label d)).*1)
        : gset string);
      bound ← query (fun _ d => list_to_set ((fun '(_, p, _, _) => p) <$>
        filter (fun '(a, _, _, row) => a = route_address route ∧ ro_binding_state row = "active")
          (scope_routes network_id label d)) : gset string);
      _ ← rabbit (
        started ← instant;
        let step := before_deadline (started + membership_binding_timeout config)
                      "membership binding reconciliation timed out" in
        _ ← for_each (btree members) (fun principal =>
              step (bind_scope_member config network_id principal (route_address route)
                      active_version));
        for_each (btree (bound ∖ members)) (fun principal =>
          step (unbind_scope_member network_id principal (route_address route) active_version)));
      _ ← update (fun _ => on_routes (filter (fun kr =>
            ¬ kr.1.1.1 = (network_id, label, route_address route))));
      _ ← for_each (btree members) (fun principal =>
            for_each class_all (fun class =>
              execute (fun now =>
                insert_route now network_id label (route_address route) principal class
                  active_version)));
      update (fun now => mark_bound now network_id label)
  end.

Fixpoint decode_roles (rows : list (string * MemberRow)) : result string (gmap string (list Role)) :=
  match rows with
  | [] => Ok ∅
  | (principal, row) :: rows =>
      roles ← roles_from_value (me_roles_json row);
      rest ← decode_roles rows;
      Ok (<[principal := roles]> rest)
  end.

Definition u32_saturating_succ (n : Z) : Z := Z.min (n + 1) u32_max.

(** The loop over the quorum signatures. *)
Fixpoint count_valid (allowed : gset string) (message : string) (unique : gset string) (valid : Z)
    (signatures : list SignatureEnvelope) : Z :=
  match signatures with
  | [] => valid
  | signature :: signatures =>
      let signer := se_signer_node_id signature in
      let unique' := {[signer]} ∪ unique in
      if bool_decide (signer ∈ unique) || negb (bool_decide (signer ∈ allowed))
      then count_valid allowed message unique' valid signatures
      else
        let valid := if is_ok (verify_signature signer message (se_signature_hex signature))
                     then u32_saturating_succ valid else valid in
        count_valid allowed message unique' valid signatures
  end.

Definition has_finalizer (roles : list Role) : bool := bool_decide (Finalizer ∈ roles).

Definition allowed_signers (genesis author : string) (current_roles : gmap string (list Role)) :
    result string (gset string) :=
  if bool_decide (author = genesis) then Ok {[genesis]}
  else
    _ ← bail_if (negb (match current_roles !! author with
                       | Some roles => has_finalizer roles
                       | None => false
                       end))
          "MembershipUpdated author is not a projected Finalizer";
    Ok (dom (filter (fun pr => has_finalizer pr.2 = true) current_roles)).

Definition validate_membership_snapshot_authority (network_id author_principal_id : string)
    (membership : Membership) (quorum_threshold : Z)
    (quorum_signatures : list SignatureEnvelope) : W () :=
  _ ← lift (bail_if ((quorum_threshold =? 0)
                     || (Z.of_nat (length quorum_signatures) <? quorum_threshold))%Z
        "membership quorum signatures are insufficient");
  genesis ← query (fun _ d => head (active_genesis network_id d));
  genesis ← lift (ok_or genesis "network Genesis authority is not projected");
  rows ← query (fun _ => active_members network_id "global");
  current_roles ← lift (decode_roles rows);
  allowed ← lift (allowed_signers genesis author_principal_id current_roles);
  message ← lift (membership_to_vec membership);
  let valid := count_valid allowed message ∅ 0 quorum_signatures in
  lift (bail_if (valid <? quorum_threshold)%Z "membership quorum signatures are invalid").
End membership.

(** ** Handlers *)

(** Whether the [record_hash] column of the receipts has a default: it has none in
    a table created with the column, and the empty string in an older table that
    was altered to have it. *)
Class Schema := { record_hash_default : option string }.

Section handlers.
Context `{JV : JsonValue, HO : Host, MS : !Memberships, TR : Transport, PR : !Protocol,
          CO : Controls, HX : Hex, SHA : Sha256, CL : DeliveryClassOps, TJ : TupleJson,
          EC : !EnvelopeCodec, AM : Amqp, SC : Schema}.

Definition ensure_tenant_transport_admission (config : Config) (network_id principal_id : string) :
    W () :=
  _ ← validate_active_tenant_admission config network_id;
  is_admitted ← principal_is_admitted network_id principal_id;
  _ ← lift (bail_if (negb is_admitted) "principal is not an active network member");
  _ ← rabbit (ensure_tenant_mailboxes config network_id principal_id);
  routes ← query (fun _ d => remove_dups (
    (fun '(a, _, _, row) => (a, ro_membership_version row)) <$>
    filter (fun '(_, _, _, row) => ro_binding_state row = "active")
      (scope_routes network_id "global" d)));
  for_each routes (fun '(route, membership_version) =>
    rabbit (bind_scope_member config network_id principal_id route membership_version)).

Definition validate_network_membership_grant (grant : NetworkMembershipGrant)
    (expected_issuer : string) : W () :=
  now ← utc;
  lift (verify_network_membership_grant grant expected_issuer (Z.max (timestamp_millis now) 0)).

Definition admit_grant (config : Config) (grant : NetworkMembershipGrant) :
    W GrantAdmissionResponse :=
  let network_id := grant_network_id grant in
  let principal_id := grant_principal_id grant in
  expected_genesis ← lift (ok_or (trusted_network_genesis config !! network_id)
    "network is not configured with a trusted Genesis authority");
  _ ← validate_network_membership_grant grant expected_genesis;
  authority ← principal_is_global_authority network_id expected_genesis;
  _ ← lift (bail_if (negb authority) "configured network Genesis authority is not active");
  grant_id ← lift (network_membership_grant_id grant);
  begin_scope_fence network_id "global" true (
    _ ← upsert_network_membership_grant grant grant_id;
    active_version ← tx_query (fun now d =>
      if admitted now d network_id principal_id
      then me_membership_version <$> db_members d !! (network_id, "global", principal_id)
      else None);
    match active_version with
    | Some membership_version =>
        _ ← commit;
        mret {| ga_network_id := network_id; ga_principal_id := principal_id;
                ga_membership_version := membership_version; ga_status := "active" |}
    | None =>
        let membership_version := "grant:" +:+ grant_id in
        _ ← apply_membership_mutation config network_id
              (Principal Global principal_id true membership_version) None;
        _ ← commit;
        mret {| ga_network_id := network_id; ga_principal_id := principal_id;
                ga_membership_version := membership_version; ga_status := "active" |}
    end).

(** [WHERE .. publish_status = 'confirmed' AND expires_at > now] *)
Definition confirmed_receipt (now : Z) (network_id principal_id record_id : string) (d : Db) :
    option ReceiptRow :=
  match db_receipts d !! (network_id, principal_id, record_id) with
  | Some row =>
      if bool_decide (re_publish_status row = "confirmed") && (now <? re_expires_at row)%Z
      then Some row else None
  | None => None
  end.

Definition parse_class (class : string) : result string DeliveryClass :=
  if bool_decide (class = "interactive") then Ok Interactive
  else if bool_decide (class = "bulk") then Ok Bulk
  else Err "stored receipt has invalid delivery class".

Definition receipt_acceptance (record_id record_hash route_hash : string) (row : ReceiptRow) :
    result string PublishAcceptance :=
  _ ← bail_if (negb (bool_decide (re_authorized_route_hash row = route_hash))
               || negb (bool_decide (re_record_hash row = record_hash)))
        "idempotent publish record or route mismatch";
  class ← parse_class (re_delivery_class row);
  Ok {| ac_publish_receipt := "existing:" +:+ record_id; ac_record_id := record_id;
        ac_delivery_class := class;
        ac_delivery_policy_version := as_u64 (re_delivery_policy_version row);
        ac_membership_version := re_membership_version row |}.

Definition load_confirmed_receipt (network_id principal_id record_id record_hash
    route_hash : string) : W (option PublishAcceptance) :=
  row ← query (fun now => confirmed_receipt now network_id principal_id record_id);
  match row with
  | Some row =>
      acceptance ← lift (receipt_acceptance record_id record_hash route_hash row);
      mret (Some acceptance)
  | None => mret None
  end.

(** The three statements of a token acquisition and its commit; the bucket changes
    only when all of them succeed. *)
Definition acquire_clock : W Clock3 :=
  _ ← statement;
  at_insert ← statement;
  at_select ← statement;
  at_update ← statement;
  _ ← statement;
  mret {| Buckets.at_insert := at_insert; Buckets.at_select := at_select;
          Buckets.at_update := at_update |}.

(** Acquisition, timed; a database error fails closed. *)
Definition acquiring (global : bool) (acquire : W bool) : W () :=
  started ← rabbit instant;
  outcome ← attempt acquire;
  elapsed ← elapsed_since started;
  _ ← observability (RecordTokenBucketAcquire elapsed global);
  _ ← whenM (negb (is_ok outcome)) (observability RecordPostgresFailClosed);
  allowed ← lift outcome;
  whenM (negb allowed) (
    _ ← observability (RecordBackpressure global);
    throw (if global then "Global publish is backpressured by the shared cell token bucket"
           else "non-Global fanout is backpressured by the shared cell token bucket")).

(** [acquire_non_global_delivery_tokens] decides the trivial costs before it opens
    its transaction. *)
Definition non_global_tokens (network_id : string) (cost rate policy_version : Z) : W bool :=
  if (cost =? 0)%Z then mret true
  else if ((rate =? 0) || (rate <? cost))%Z then mret false
  else
    t ← acquire_clock;
    d ← gets w_db;
    let '(allowed, buckets) := acquire_non_global_delivery_tokens t (network_id, "cell-0")
      cost rate policy_version (db_non_global_buckets d) in
    _ ← modify (set_db (on_non_global_buckets (fun _ => buckets) d));
    mret allowed.

Definition global_tokens (network_id : string) (class : DeliveryClass)
    (total_rate bulk_rate burst policy_version : Z) : W bool :=
  t ← acquire_clock;
  d ← gets w_db;
  let '(allowed, buckets) := acquire_global_token t (network_id, "cell-0") class
    total_rate bulk_rate burst policy_version (db_global_buckets d) in
  _ ← modify (set_db (on_global_buckets (fun _ => buckets) d));
  mret allowed.

Definition acquire_tokens (config : Config) (network_id : string) (scope : SwarmScope)
    (class : DeliveryClass) (physical_recipients policy_version : Z) : W () :=
  match scope with
  | Group _ | Region _ =>
      acquiring false (non_global_tokens network_id physical_recipients
        (reserved_non_global_deliveries_per_second config) policy_version)
  | Global =>
      let bulk_rate := sat_sub (max_global_publishes_per_second config)
                         (global_interactive_reserved_per_second config) in
      acquiring true (global_tokens network_id class (max_global_publishes_per_second config)
        bulk_rate (global_publish_burst config) policy_version)
  | Node _ => mret ()
  end.

(** [Some(MembershipMutation::Principal { principal_id, active: true, .. })
    if principal_id == author] *)
Definition joins (mutation : option MembershipMutation) (author : string) : bool :=
  match mutation with
  | Some (Principal _ principal_id true _) => bool_decide (principal_id = author)
  | _ => false
  end.

Definition author_receives (network_id : string) (scope : SwarmScope)
    (mutation : option MembershipMutation) (author : string) (version : option string) : W bool :=
  match mutation with
  | Some (Snapshot _ membership _ _ _) =>
      mret (bool_decide (is_Some (membership_members membership !! author)))
  | Some (Principal _ principal_id active _) =>
      if bool_decide (principal_id = author) then mret active
      else scope_contains_principal network_id scope author version
  | None => scope_contains_principal network_id scope author version
  end.

(** The mutation of the frame, applied inside the fence; the version and the number
    of recipients it leaves. *)
Definition mutate (config : Config) (network_id : string) (route : EventTransportRoute)
    (mutation : option MembershipMutation) (current : option string * Z) :
    W (option string * Z) :=
  match mutation with
  | Some mutation =>
      started ← rabbit instant;
      outcome ← attempt (apply_membership_mutation config network_id mutation
                           (Some (route_address route)));
      elapsed ← elapsed_since started;
      _ ← observability (RecordMembershipUpdate elapsed (is_ok outcome));
      recipients ← lift outcome;
      mret (Some (mutation_version mutation), recipients)
  | None => mret current
  end.

Definition direct_recipient (scope : SwarmScope) : option string :=
  match scope with Node node_id => Some node_id | _ => None end.

(** [rabbit.publish(..)] and the metric of its outcome. *)
Definition deliver (config : Config) (session : VerifiedSession) (frame : PublishFrame)
    (route : EventTransportRoute) (class : DeliveryClass) (version : option string)
    (expected_recipients : Z) : W () :=
  started ← rabbit instant;
  enqueued ← utc;
  expires ← utc;
  outcome ← attempt (rabbit (Rabbit.publish config (direct_recipient (route_scope route)) {|
    br_network_id := vs_network_id session;
    br_record_id := pf_record_id frame;
    br_source_principal_id := vs_principal_id session;
    br_route := route;
    br_record := pf_payload frame;
    br_membership_version := version;
    br_delivery_class := class;
    br_delivery_policy_version := pf_delivery_policy_version frame;
    br_enqueued_at := as_u64 (timestamp_millis enqueued);
    br_expires_at := Some (as_u64 (timestamp_millis expires + mailbox_message_ttl_ms config)) |}));
  elapsed ← elapsed_since started;
  _ ← observability (RecordPublishConfirm (vs_network_id session) (route_scope route)
        (route_lane route) expected_recipients elapsed (publish_confirm_outcome outcome));
  lift outcome.

(** [INSERT .. ON CONFLICT DO UPDATE .. WHERE expires_at <= now] *)
Definition store_receipt (now : Z) (network_id principal_id record_id : string)
    (row : ReceiptRow) (d : Db) : Db :=
  on_receipts (fun receipts =>
    match receipts !! (network_id, principal_id, record_id) with
    | Some old => if (re_expires_at old <=? now)%Z
                  then <[(network_id, principal_id, record_id) := row]> receipts else receipts
    | None => <[(network_id, principal_id, record_id) := row]> receipts
    end) d.

Definition DAY_US : Z := 24 * 3600 * 1000000.

(** The receipt of a confirmed publish, the audit record and the commit of the
    fence. *)
Definition confirm_receipt (session : VerifiedSession) (frame : PublishFrame)
    (class : DeliveryClass) (record_hash route_hash : string) (membership_version : option string)
    (expected_recipients : Z) : W PublishAcceptance :=
  let network_id := vs_network_id session in
  let author := vs_principal_id session in
  let binding_hash := hex_encode (sha256 (route_hash +:+ ":" +:+ default "" membership_version
                        +:+ ":" +:+ show_u64 expected_recipients)) in
  receipt_id ← new_v4;
  confirmed ← utc;
  _ ← tx_update (fun now => store_receipt now network_id author (pf_record_id frame) {|
        re_authorized_route_hash := route_hash;
        re_record_hash := record_hash;
        re_membership_version := membership_version;
        re_delivery_class := class_as_str class;
        re_delivery_policy_version := as_i64 (pf_delivery_policy_version frame);
        re_expected_recipients := as_i64 expected_recipients;
        re_binding_set_hash := binding_hash;
        re_publish_status := "confirmed";
        re_confirmed_at := Some now;
        re_expires_at := (confirmed + DAY_US)%Z |});
  _ ← record_audit (Some network_id) (Some author) "publish" "confirmed";
  _ ← commit;
  mret {| ac_publish_receipt := receipt_id; ac_record_id := pf_record_id frame;
          ac_delivery_class := class;
          ac_delivery_policy_version := pf_delivery_policy_version frame;
          ac_membership_version := membership_version |}.

(** The part of [publish] under the scope fence. *)
Definition publish_fenced (config : Config) (session : VerifiedSession) (frame : PublishFrame)
    (validated : ValidatedFrame) (class : DeliveryClass) (record_hash route_hash : string) :
    W PublishAcceptance :=
  let network_id := vs_network_id session in
  let author := vs_principal_id session in
  let route := vf_route validated in
  let mutation := vf_membership_mutation validated in
  current ← authorized_scope_version_and_count network_id (route_scope route) author
              (joins mutation author);
  '(membership_version, physical_recipients) ← mutate config network_id route mutation current;
  _ ← lift (bail_if ((physical_recipients =? 0)
                     || (max_fanout_recipients config <? physical_recipients))%Z
        "scope fanout is empty or exceeds recipient admission");
  author_is_recipient ← author_receives network_id (route_scope route) mutation author
                          membership_version;
  let expected_recipients :=
    sat_sub physical_recipients (if author_is_recipient : bool then 1 else 0) in
  fanout_bytes ← lift (ok_or (checked_mul (len (pf_payload frame)) physical_recipients)
    "fanout byte budget overflow");
  _ ← lift (bail_if (max_fanout_bytes_per_publish config <? fanout_bytes)%Z
        "scope fanout exceeds the per-publish byte budget");
  _ ← acquire_tokens config network_id (route_scope route) class physical_recipients
        (pf_delivery_policy_version frame);
  _ ← whenM (bool_decide (mutation = None)) (reconcile_scope_bindings config network_id route);
  _ ← deliver config session frame route class membership_version expected_recipients;
  confirm_receipt session frame class record_hash route_hash membership_version
    expected_recipients.

(** A confirmed receipt for the same record and route answers the request. *)
Definition publish_duplicate (frame : PublishFrame) (class : DeliveryClass)
    (receipt : PublishAcceptance) : W PublishAcceptance :=
  _ ← lift (bail_if (negb (bool_decide (ac_delivery_class receipt = class))
                     || negb (ac_delivery_policy_version receipt
                              =? pf_delivery_policy_version frame)%Z)
        "idempotent publish classification mismatch");
  _ ← observability RecordDuplicatePublish;
  mret receipt.

Definition snapshot_authority (network_id author : string)
    (mutation : option MembershipMutation) : W () :=
  match mutation with
  | Some (Snapshot _ membership quorum_threshold quorum_signatures _) =>
      validate_membership_snapshot_authority network_id author membership quorum_threshold
        quorum_signatures
  | _ => mret ()
  end.

Definition needs_genesis (route : EventTransportRoute) : bool :=
  bool_decide (route_scope route = Global)
  && (bool_decide (route_lane route = Rules) || bool_decide (route_lane route = Checkpoints)).

Definition publish (config : Config) (session : VerifiedSession) (frame : PublishFrame) :
    W PublishAcceptance :=
  let network_id := vs_network_id session in
  let author := vs_principal_id session in
  _ ← lift (bail_if (negb (bool_decide (pf_framing_version frame = "1"))
                     || negb (pf_delivery_policy_version frame =? DELIVERY_POLICY_VERSION)%Z
                     || negb (bool_decide (pf_route_network_id frame = network_id)))
        "publish framing, policy, or network mismatch");
  validated ← lift (validate_record_frame frame session);
  let route := vf_route validated in
  let mutation := vf_membership_mutation validated in
  _ ← snapshot_authority network_id author mutation;
  refused ← and_also (needs_genesis route)
              (authority ← principal_is_global_authority network_id author;
               mret (negb authority));
  _ ← lift (bail_if refused
        "Global Rule/Checkpoint signer is not the projected Genesis authority");
  let class := delivery_class_for_record (route_lane route) (vf_urgency validated) in
  let record_hash := hex_encode (sha256 (pf_payload frame)) in
  route_json ← lift (route_to_json route);
  let route_hash := hex_encode (sha256 route_json) in
  existing ← load_confirmed_receipt network_id author (pf_record_id frame) record_hash route_hash;
  match existing with
  | Some receipt => publish_duplicate frame class receipt
  | None =>
      label ← lift (scope_label (route_scope route));
      begin_scope_fence network_id label (negb (bool_decide (mutation = None)))
        (publish_fenced config session frame validated class record_hash route_hash)
  end.

Definition send_control (config : Config) (session : VerifiedSession) (frame : ControlFrame) :
    W ControlAcceptance :=
  let network_id := vs_network_id session in
  let author := vs_principal_id session in
  _ ← lift (bail_if (negb (bool_decide (cf_framing_version frame = "1"))
                     || negb (bool_decide (cf_network_id frame = network_id))
                     || negb (bool_decide (cf_source_principal_id frame = author))
                     || is_blank (cf_correlation_id frame)
                     || (1024 * 1024 <? len (cf_payload frame))%Z)
        "control frame binding or size is invalid");
  target_admitted ← principal_is_admitted network_id (cf_target_principal_id frame);
  _ ← lift (bail_if (negb target_admitted) "control target is not an active network member");
  message ← lift (control_frame_signing_message frame);
  _ ← lift (verify_signature (cf_source_principal_id frame) message (cf_signature_hex frame));
  delivery_id ← lift (stable_delivery_id network_id (cf_correlation_id frame)
    (cf_target_principal_id frame) None);
  gap_route ← lift (from_kind_label (Node (cf_target_principal_id frame)) Events
    "ClientServerControl" false);
  route_json ← lift (route_to_json gap_route);
  let route_hash := hex_encode (sha256 route_json) in
  binding ← lift (control_binding_to_vec (cf_target_principal_id frame) (cf_control_kind frame)
    (cf_payload frame));
  let control_binding_hash := hex_encode (sha256 binding) in
  duplicate ← query (fun now =>
    confirmed_receipt now network_id author (cf_correlation_id frame));
  let acceptance := {| ca_correlation_id := cf_correlation_id frame;
                       ca_delivery_id := delivery_id |} in
  match duplicate with
  | Some row =>
      _ ← lift (bail_if
            (negb (bool_decide (re_authorized_route_hash row = route_hash))
             || negb (bool_decide (re_binding_set_hash row = control_binding_hash))
             || negb (bool_decide (re_delivery_class row = "interactive"))
             || negb (re_delivery_policy_version row =? as_i64 DELIVERY_POLICY_VERSION)%Z)
            "control correlation id was already used with different immutable fields");
      _ ← observability RecordDuplicatePublish;
      mret acceptance
  | None =>
      enqueued ← utc;
      expires ← utc;
      _ ← rabbit (publish_control config {|
            bc_network_id := network_id;
            bc_correlation_id := cf_correlation_id frame;
            bc_source_principal_id := cf_source_principal_id frame;
            bc_target_principal_id := cf_target_principal_id frame;
            bc_control_kind := control_kind_as_str (cf_control_kind frame);
            bc_payload := cf_payload frame;
            bc_gap_route := gap_route;
            bc_delivery_policy_version := DELIVERY_POLICY_VERSION;
            bc_enqueued_at := Z.max (timestamp_millis enqueued) 0;
            bc_expires_at := Some (as_u64 (Z.max (timestamp_millis expires) 0
                                           + mailbox_message_ttl_ms config)) |});
      confirmed ← utc;
      _ ← execute (fun now d =>
            record_hash ← ok_or record_hash_default
              "null value in column record_hash violates not-null constraint";
            Ok ((), on_receipts (fun receipts =>
              match receipts !! (network_id, author, cf_correlation_id frame) with
              | Some _ => receipts
              | None => <[(network_id, author, cf_correlation_id frame) := {|
                  re_authorized_route_hash := route_hash;
                  re_record_hash := record_hash;
                  re_membership_version := None;
                  re_delivery_class := "interactive";
                  re_delivery_policy_version := as_i64 DELIVERY_POLICY_VERSION;
                  re_expected_recipients := 1;
                  re_binding_set_hash := control_binding_hash;
                  re_publish_status := "confirmed";
                  re_confirmed_at := Some now;
                  re_expires_at := (confirmed + DAY_US)%Z |}]> receipts
              end) d));
      mret acceptance
  end.
End handlers.
