(* ===== verification/MgHttp.v ===== *)
(** * HTTP handlers of the message gateway

    Models [crates/message-gateway/src/http.rs]: the bearer session of a request,
    the challenge and proof handlers, publishing, pulling a delivery page
    under an ownership lease, committing it (on the owner itself or forwarded to it
    over the internal interface) and reading objects of the object store.  The HTTP
    header decoding, the page validation of the transport crate, the file system and
    the peer gateway reached over mutual TLS are interfaces. *)

From S2P Require Import Prelude Str External MgConfig CommitToken Owners Buckets Gaps Observability Amqp Rabbit Protocol MgDb Auth Service.

Record ApiError := { ae_status : Z; ae_message : string }.

Definition unauthorized (message : string) : ApiError :=
  {| ae_status := 401; ae_message := message |}.
Definition bad_request (message : string) : ApiError :=
  {| ae_status := 400; ae_message := message |}.

(** [impl From<E> for ApiError] behind the [?] operator. *)
Definition api_error (error : string) : ApiError := bad_request error.

Record CommitRequest `{TC : TokenCodec} := {
  cm_page_id : string;
  cm_delivery_class : DeliveryClass;
  cm_commit_token : OpaqueCommitToken;
}.
Arguments cm_page_id {_} _.
Arguments cm_delivery_class {_} _.
Arguments cm_commit_token {_} _.

Section page.
Context `{TR : Transport, GC : !GapCodec, TC : TokenCodec}.

(** [DeliveryPage] of the transport crate; the binding is kept by its fields. *)
Record DeliveryPage := {
  dp_page_id : string;
  dp_network_id : string;
  dp_recipient_principal_id : string;
  dp_delivery_class : DeliveryClass;
  dp_deliveries : list MailboxDelivery;
  dp_controls : list MailboxControlDelivery;
  dp_gaps : list MailboxGap;
  dp_commit_token : OpaqueCommitToken;
}.
End page.

(** What the handlers use of other crates and of the host: [HeaderValue::to_str],
    [DeliveryPage::validate], the PEM parsers and the HTTP client that reach another
    instance (whose handler changes the shared database), and the object store. *)
Class HttpHost `{JV : JsonValue, TR : Transport, TC : TokenCodec} := {
  header_to_str : string -> option string;
  page_validate : DeliveryPage -> result string ();
  identity_from_pem : string -> result string ();
  certificate_from_pem : string -> result string ();
  client_build : result string ();
  ResponseBody : Type;
  post_commit : Z -> string -> CommitRequest -> Db -> result string ResponseBody * Db;
  body_committed_deliveries : ResponseBody -> option Z;
  (** Whether the path is a file, and its length. *)
  fs_metadata : list string -> option (bool * Z);
  fs_read : list string -> result string string;
}.

Section http.
Context `{JV : JsonValue, HO : Host, MS : !Memberships, TR : Transport, PR : !Protocol,
          CO : Controls, SE : !Sessions, HX : Hex, SHA : Sha256, HM : Hmac, CL : DeliveryClassOps,
          TJ : TupleJson, EC : !EnvelopeCodec, GC : !GapCodec, TC : TokenCodec, AM : Amqp,
          SC : Schema, HH : !HttpHost}.

(** A handler: an [ApiResult] over the state of the gateway. *)
Definition A (T : Type) : Type := M World ApiError T.

(** [map_err]. *)
Definition map_error {T} (f : string -> ApiError) (m : W T) : A T := fun w =>
  match m w with
  | (Ok a, w') => (Ok a, w')
  | (Err e, w') => (Err (f e), w')
  end.

(** The [?] operator on an [anyhow] error. *)
Definition api {T} (m : W T) : A T := map_error api_error m.

(** [SystemTime::now().duration_since(UNIX_EPOCH).unwrap_or_default().as_millis() as u64] *)
Definition now_ms : W Z := now ← utc; mret (as_u64 (Z.max (timestamp_millis now) 0)).

(** ** Sessions *)

Definition session (authorization : option string) : A VerifiedSession :=
  value ← lift (ok_or ((authorization ≫= header_to_str) ≫= strip_prefix "Bearer ")
                  (unauthorized "missing bearer token"));
  map_error (fun _ => unauthorized "invalid or expired session") (verify_bearer value).

Definition challenge (config : Config) (request : ChallengeRequest) : A ChallengeResponse :=
  principal ← lift (ok_or (head (cr_principals request)) (bad_request "one principal is required"));
  _ ← api (ensure_tenant_transport_admission config (cr_network_id request)
             (pc_principal_id principal));
  api (create_challenge request).

Definition proof (config : Config) (request : SessionProofRequest) : A SessionResponse :=
  _ ← api (validate_active_tenant_admission config (sp_network_id request));
  result ← api (attempt (prove_session config request));
  _ ← api (observability (RecordSession (is_ok result)));
  api (lift result).

(** ** Publishing *)

Definition mentions_membership_version (r : result string PublishAcceptance) : bool :=
  match r with Ok _ => false | Err error => contains error "membership version" end.

Definition publish (config : Config) (authorization : option string) (frame : PublishFrame) :
    A PublishAcceptance :=
  session ← session authorization;
  result ← api (attempt (Service.publish config session frame));
  _ ← whenM (mentions_membership_version result)
        (api (observability RecordOldMembershipVersionRejection));
  api (lift result).

Definition send_control (config : Config) (authorization : option string) (frame : ControlFrame) :
    A ControlAcceptance :=
  session ← session authorization;
  api (Service.send_control config session frame).

(** ** Statements of [db.rs] and [gaps.rs] on the pool *)

Definition acquire_owner (config : Config) (session : VerifiedSession) (class : DeliveryClass)
    (consumer_epoch : string) : W bool :=
  execute (fun now d =>
    '(acquired, owners) ← try_acquire_delivery_owner now (vs_network_id session)
      (vs_principal_id session) class (instance_id config) consumer_epoch (internal_route config)
      (delivery_owner_lease config) (db_owners d);
    Ok (acquired, on_owners (fun _ => owners) d)).

Definition load_owner (network_id principal_id : string) (class : DeliveryClass) :
    W (option DeliveryOwner) :=
  query (fun now d => load_delivery_owner now network_id principal_id class (db_owners d)).

Definition release_owner (network_id principal_id : string) (class : DeliveryClass)
    (instance_id consumer_epoch : string) : W bool :=
  execute (fun _ d =>
    let '(released, owners) := release_delivery_owner network_id principal_id class instance_id
      consumer_epoch (db_owners d) in
    Ok (released, on_owners (fun _ => owners) d)).

Definition load_gaps (network_id principal_id : string) (class : DeliveryClass) (page_id : string)
    (limit redelivery_after_ms : Z) : W (list MailboxGap) :=
  redelivery_after_ms ← lift (ok_or (i64_try_from redelivery_after_ms) "duration too large");
  rows ← execute (fun now d =>
    _ ← bail_if (as_i64 limit <? 0)%Z "LIMIT must not be negative";
    Ok (select_gaps now network_id principal_id class page_id (as_i64 limit) redelivery_after_ms
          (db_gaps d), d));
  _ ← whenM (negb (bool_decide (rows = [])))
        (update (fun now => on_gaps (mark_delivered now network_id principal_id class page_id
                                       (map (fun kr => kr.1.2) rows))));
  lift (gaps_of_rows class rows).

Definition acknowledge_gaps (network_id principal_id : string) (class : DeliveryClass)
    (page_id : string) : W Z :=
  execute (fun now d =>
    let '(count, gaps) := acknowledge_page now network_id principal_id class page_id (db_gaps d) in
    Ok (count, on_gaps (fun _ => gaps) d)).

(** ** Pulling a page *)

(** [u64::try_from(lease.as_millis()).unwrap_or(u64::MAX)] *)
Definition lease_ms (config : Config) : Z := Z.min (delivery_owner_lease config) u64_max.

(** [query.limit.unwrap_or(page_size).min(page_size)] *)
Definition page_limit (config : Config) (limit : option Z) : nat :=
  Z.to_nat (Z.min (default (delivery_page_size config) limit) (delivery_page_size config)).

(** [page.is_none() && gaps.is_empty()] *)
Definition nothing_pulled (page : option PulledPage) (gaps : list MailboxGap) : bool :=
  match page, gaps with None, [] => true | _, _ => false end.

(** The part of [pull_page] under the lease. *)
Definition pull_owned (config : Config) (session : VerifiedSession) (class : DeliveryClass)
    (page_id consumer_epoch : string) (limit : nat) :
    W (option PulledPage * list MailboxGap) :=
  let network_id := vs_network_id session in
  let principal_id := vs_principal_id session in
  page ← rabbit (Rabbit.pull_page config network_id principal_id class page_id consumer_epoch limit);
  gaps ← load_gaps network_id principal_id class page_id (Z.of_nat limit)
           (delivery_owner_lease config);
  _ ← whenM (nothing_pulled page gaps)
        (_ ← release_owner network_id principal_id class (instance_id config) consumer_epoch;
         mret ());
  mret (page, gaps).

(** The response with its commit token. *)
Definition page_response (config : Config) (session : VerifiedSession) (class : DeliveryClass)
    (page_id consumer_epoch : string) (page : option PulledPage) (gaps : list MailboxGap) :
    W DeliveryPage :=
  let consumer_epoch := from_option pp_consumer_epoch consumer_epoch page in
  now ← now_ms;
  token ← lift (issue (commit_hmac_secret config) {|
    cc_page_id := page_id;
    cc_network_id := vs_network_id session;
    cc_principal_id := vs_principal_id session;
    cc_delivery_class := class;
    cc_owner_instance_id := instance_id config;
    cc_consumer_epoch := consumer_epoch;
    cc_expires_at := sat_add now (lease_ms config) |});
  let response := {|
    dp_page_id := page_id;
    dp_network_id := from_option pp_network_id (vs_network_id session) page;
    dp_recipient_principal_id :=
      from_option pp_recipient_principal_id (vs_principal_id session) page;
    dp_delivery_class := from_option pp_delivery_class class page;
    dp_deliveries := from_option pp_deliveries [] page;
    dp_controls := from_option pp_controls [] page;
    dp_gaps := gaps;
    dp_commit_token := token |} in
  _ ← lift (page_validate response);
  mret response.

(** The response: [None] is [204 No Content]. *)
Definition pull_page (config : Config) (authorization : option string) (class : DeliveryClass)
    (limit : option Z) : A (option DeliveryPage) :=
  session ← session authorization;
  page_id ← api new_v4;
  consumer_epoch ← api new_v4;
  acquired ← api (acquire_owner config session class consumer_epoch);
  '(page, gaps) ← (if acquired : bool
                   then api (pull_owned config session class page_id consumer_epoch
                               (page_limit config limit))
                   else mret (None, []));
  if nothing_pulled page gaps then mret None
  else
    response ← api (page_response config session class page_id consumer_epoch page gaps);
    mret (Some response).

(** ** Committing a page *)

(** A [bail] of the handlers. *)
Definition refuse_if (b : bool) (message : string) : A () := lift (bail_if b (bad_request message)).

Definition commit_local_deliveries (config : Config) (claims : CommitClaims) : A (option nat) :=
  owner ← api (load_owner (cc_network_id claims) (cc_principal_id claims)
                 (cc_delivery_class claims));
  owner ← lift (ok_or owner (bad_request "delivery owner lease is gone; page will requeue"));
  _ ← refuse_if (negb (bool_decide (do_instance_id owner = cc_owner_instance_id claims))
                 || negb (bool_decide (do_consumer_epoch owner = cc_consumer_epoch claims))
                 || negb (bool_decide (do_instance_id owner = instance_id config)))
        "delivery owner epoch changed; old commit token is invalid";
  committed ← api (rabbit (Rabbit.commit_page (cc_page_id claims) (cc_principal_id claims)
                             (cc_delivery_class claims) (cc_consumer_epoch claims)));
  _ ← whenM (bool_decide (is_Some committed))
        (_ ← api (release_owner (cc_network_id claims) (cc_principal_id claims)
               (cc_delivery_class claims) (cc_owner_instance_id claims)
               (cc_consumer_epoch claims)); mret ());
  mret committed.

(** The request to the owner; its handler runs on the same database. *)
Definition send_commit (timeout : Z) (url : string) (request : CommitRequest) : W ResponseBody :=
  fun w => let '(r, d) := post_commit timeout url request (w_db w) in (r, set_db d w).

Definition forward_commit_to_owner (config : Config) (request : CommitRequest)
    (claims : CommitClaims) : A (option nat) :=
  owner ← api (load_owner (cc_network_id claims) (cc_principal_id claims)
                 (cc_delivery_class claims));
  owner ← lift (ok_or owner (bad_request "delivery owner lease is gone; page will requeue"));
  _ ← refuse_if (negb (bool_decide (do_instance_id owner = cc_owner_instance_id claims))
                 || negb (bool_decide (do_consumer_epoch owner = cc_consumer_epoch claims))
                 || bool_decide (do_owner_route owner = ""))
        "delivery owner epoch changed; old commit token is invalid";
  identity ← lift (ok_or (internal_mtls_identity_pem config)
                     (bad_request "owner forwarding mTLS identity is unavailable"));
  ca ← lift (ok_or (internal_mtls_ca_pem config)
               (bad_request "owner forwarding mTLS CA is unavailable"));
  _ ← api (lift (identity_from_pem identity));
  _ ← api (lift (certificate_from_pem ca));
  _ ← api (lift client_build);
  body ← api (send_commit (delivery_commit_forward_timeout config)
                (trim_end_matches "/" (do_owner_route owner) +:+ "/internal/v1/mailbox/commit")
                request);
  mret (Z.to_nat <$> body_committed_deliveries body).

(** The counts of the JSON response. *)
Record CommitResponse := { co_committed_deliveries : nat; co_committed_gaps : Z }.

Definition commit_page (config : Config) (authorization : option string)
    (request : CommitRequest) : A CommitResponse :=
  session ← session authorization;
  now ← api now_ms;
  claims ← api (lift (verify (commit_hmac_secret config) (cm_commit_token request) now));
  _ ← refuse_if (negb (bool_decide (cc_page_id claims = cm_page_id request))
                 || negb (bool_decide (cc_network_id claims = vs_network_id session))
                 || negb (bool_decide (cc_principal_id claims = vs_principal_id session))
                 || negb (bool_decide (cc_delivery_class claims = cm_delivery_class request)))
        "commit token binding mismatch";
  started ← api (rabbit instant);
  let forwarded := negb (bool_decide (cc_owner_instance_id claims = instance_id config)) in
  outcome ← attempt (if forwarded then forward_commit_to_owner config request claims
                     else commit_local_deliveries config claims);
  elapsed ← api (elapsed_since started);
  _ ← api (observability (RecordCommit elapsed forwarded (is_ok outcome)));
  committed_deliveries ← lift outcome;
  committed_gaps ← api (acknowledge_gaps (vs_network_id session) (vs_principal_id session)
                          (cm_delivery_class request) (cm_page_id request));
  _ ← whenM (0 <? committed_gaps)%Z
        (_ ← api (release_owner (cc_network_id claims) (cc_principal_id claims)
               (cc_delivery_class claims) (cc_owner_instance_id claims)
               (cc_consumer_epoch claims)); mret ());
  _ ← refuse_if (negb (bool_decide (is_Some committed_deliveries)) && (committed_gaps =? 0)%Z)
        "page owner is gone or already committed";
  mret {| co_committed_deliveries := default 0 committed_deliveries;
          co_committed_gaps := committed_gaps |}.

(** The handler of the internal interface. *)
Definition commit_owned_page (config : Config) (request : CommitRequest) : A (option nat) :=
  started ← api (rabbit instant);
  now ← api now_ms;
  claims ← api (lift (verify (commit_hmac_secret config) (cm_commit_token request) now));
  _ ← refuse_if (negb (bool_decide (cc_page_id claims = cm_page_id request))
                 || negb (bool_decide (cc_delivery_class claims = cm_delivery_class request))
                 || negb (bool_decide (cc_owner_instance_id claims = instance_id config)))
        "internal commit owner binding mismatch";
  committed ← attempt (commit_local_deliveries config claims);
  elapsed ← api (elapsed_since started);
  _ ← api (observability (RecordCommit elapsed false (is_ok committed)));
  lift committed.

(** ** Objects

    A path is the list of its components. *)

Inductive ObjectResponse :=
| ObjectNotFound
| ObjectFound (bytes : string).

Definition fetch_object (config : Config) (authorization : option string) (digest : string) :
    A ObjectResponse :=
  session ← session authorization;
  let expected := default digest (strip_prefix "sha256:" digest) in
  _ ← refuse_if (negb (len expected =? 64)%Z || negb (all_bytes is_ascii_hexdigit expected))
        "invalid SHA-256 object digest";
  match object_store_root config with
  | None => mret ObjectNotFound
  | Some root =>
      let network_root := hex_encode (sha256 (vs_network_id session)) in
      let path := [root; network_root; digest] in
      match fs_metadata path with
      | Some (true, size) =>
          _ ← refuse_if (max_object_bytes config <? size)%Z "object exceeds configured read limit";
          bytes ← api (lift (fs_read path));
          _ ← refuse_if (negb (bool_decide
                (hex_encode (sha256 bytes) = to_ascii_lowercase expected)))
                "stored object digest mismatch";
          mret (ObjectFound bytes)
      | Some (false, _) | None => mret ObjectNotFound
      end
  end.
End http.
