(* ===== verification/Mailbox.v ===== *)
(** * Mailbox pages over HTTP

    Theorems about the handlers of [MgHttp.v]: a page is pulled only under a lease no
    other consumer holds, its commit token names that lease, a commit takes effect
    only for the session, the token and the lease it belongs to, a successful commit
    acknowledges the whole page and frees the mailbox, and an object is served only
    if its bytes hash to the requested digest. *)

From S2P Require Import Prelude Str External MgConfig CommitToken Owners Buckets Gaps Observability Amqp Rabbit Protocol MgDb Auth Service MgHttp.

Section mailbox.
Context `{JV : JsonValue, HO : Host, MS : !Memberships, TR : Transport, PR : !Protocol,
          CO : Controls, SE : !Sessions, HX : Hex, SHA : Sha256, HM : Hmac, CL : DeliveryClassOps,
          TJ : TupleJson, EC : !EnvelopeCodec, GC : !GapCodec, TC : TokenCodec, AM : Amqp,
          SC : Schema, HH : !HttpHost}.

(** Only metrics and the step counter changed. *)
Record untouched (w w' : World) : Prop := {
  un_db : w_db w' = w_db w;
  un_trace : rb_trace (w_rabbit w') = rb_trace (w_rabbit w);
  un_pending : rb_pending_pages (w_rabbit w') = rb_pending_pages (w_rabbit w);
}.

#[export] Instance untouched_preorder : PreOrder untouched.
Proof. split; [done|]. intros w1 w2 w3 [] []. split; congruence. Qed.

Lemma untouched_same {T} (m : W T) : always same_world m → always untouched m.
Proof. intros H w. destruct (H w) as [Hd _ Hr]. split; by rewrite ?Hd, ?Hr. Qed.

Lemma always_map_error {T} (R : relation World) f (m : W T) :
  always R m → always R (map_error f m).
Proof. intros H w. specialize (H w). unfold map_error. by destruct (m w) as [[]]. Qed.

Lemma untouched_api {T} (m : W T) : always same_world m → always untouched (api m).
Proof. intros H. by apply always_map_error, untouched_same. Qed.

Lemma untouched_instant : always untouched (api (rabbit instant)).
Proof. apply always_map_error. by intros w. Qed.

Lemma untouched_observability ev : always untouched (api (observability ev)).
Proof. apply always_map_error. by intros w. Qed.

Lemma map_error_ok {T} f (m : W T) w a w' : map_error f m w = (Ok a, w') ↔ m w = (Ok a, w').
Proof. unfold map_error. destruct (m w) as [[]]; naive_solver. Qed.

Lemma api_ok {T} (m : W T) w a w' : api m w = (Ok a, w') ↔ m w = (Ok a, w').
Proof. apply map_error_ok. Qed.

Lemma same_now_ms : always same_world now_ms.
Proof. unfold now_ms. solve_always. Qed.

Lemma same_verify_bearer value : always same_world (verify_bearer value).
Proof. unfold verify_bearer. solve_always. Qed.

Lemma same_session auth : always same_world (session auth).
Proof.
  unfold session. apply always_bind; [apply _|apply always_lift; apply _|intros value].
  apply always_map_error, same_verify_bearer.
Qed.

Lemma same_untouched w w' : same_world w w' → untouched w w'.
Proof. intros [Hd _ Hr]. split; by rewrite ?Hd, ?Hr. Qed.

Lemma untouched_session auth : always untouched (session auth).
Proof. intros w. apply same_untouched, same_session. Qed.

Lemma untouched_refuse b msg : always untouched (refuse_if b msg).
Proof. apply always_lift. apply _. Qed.

Lemma untouched_load_owner n p c : always untouched (api (load_owner n p c)).
Proof. apply untouched_api, same_query. Qed.

Lemma untouched_lift {T} (r : result ApiError T) : always untouched (lift r).
Proof. apply always_lift. apply _. Qed.

Lemma untouched_api_lift {T} (r : result string T) : always untouched (api (lift r)).
Proof. apply untouched_api, always_lift. apply _. Qed.

(** ** Sessions *)

(** The bearer token of the header is that of a live session of an admitted
    principal. *)
Definition authenticated (auth : option string) (session : VerifiedSession) (d : Db) : Prop :=
  ∃ header value t t',
    auth = Some header ∧ header_to_str header = Some ("Bearer " +:+ value) ∧
    is_blank value = false ∧
    head (live_sessions (db_clock t) (hash_token value) d) = Some session ∧
    admitted (db_clock t') d (vs_network_id session) (vs_principal_id session) = true.

Lemma session_ok auth w s w' :
  session auth w = (Ok s, w') → authenticated auth s (w_db w) ∧ same_world w w'.
Proof.
  intros H. split; [|by apply (always_run _ _ _ _ _ (same_session auth) H)].
  unfold session in H. apply M_bind_ok in H as (value & w1 & Hv & H). apply lift_ok in Hv as [Hv ->].
  apply ok_or_ok, bind_Some in Hv as (text & Ht & Hp). apply bind_Some in Ht as (header & -> & Ht).
  apply strip_prefix_Some in Hp as ->.
  apply map_error_ok in H. unfold verify_bearer, principal_is_admitted in H. inv_W. same_views.
  do 4 eexists. split_and!; try done.
  match goal with H : admitted _ (w_db ?x) _ _ = true, Hd : w_db ?x = _ |- _ =>
    rewrite Hd in H; exact H end.
Qed.

(** ** Commits *)

(** The lease named by the claims runs at some time of the request. *)
Definition lease_current (claims : CommitClaims) (d : Db) : Prop :=
  ∃ t owner, load_delivery_owner (db_clock t) (cc_network_id claims) (cc_principal_id claims)
      (cc_delivery_class claims) (db_owners d) = Some owner ∧
    do_instance_id owner = cc_owner_instance_id claims ∧
    do_consumer_epoch owner = cc_consumer_epoch claims.

End mailbox.

(** A step that leaves the world alone, in a run up to which it was left alone. *)
Ltac untouched_step H w0 :=
  apply (always_step untouched w0) in H as [[? ?]|(? & ? & ? & ? & H)];
    [by left| |assumption
     |first [apply untouched_refuse|apply untouched_load_owner|apply untouched_lift
            |apply untouched_api_lift|apply untouched_instant|apply untouched_session
            |apply untouched_api; first [apply same_now_ms|apply same_elapsed_since]
            |apply untouched_observability]].

Section commits.
Context `{JV : JsonValue, HO : Host, MS : !Memberships, TR : Transport, PR : !Protocol,
          CO : Controls, SE : !Sessions, HX : Hex, SHA : Sha256, HM : Hmac, CL : DeliveryClassOps,
          TJ : TupleJson, EC : !EnvelopeCodec, GC : !GapCodec, TC : TokenCodec, AM : Amqp,
          SC : Schema, HH : !HttpHost}.

(** The guard in front of a commit, on the owner and on the forwarding instance. *)
Lemma owner_gate {T} claims (extra : DeliveryOwner -> bool) msg msg' (k : DeliveryOwner -> A T)
    w0 w r w' :
  untouched w0 w →
  (o ← api (load_owner (cc_network_id claims) (cc_principal_id claims) (cc_delivery_class claims));
   o ← lift (ok_or o msg);
   _ ← refuse_if (negb (bool_decide (do_instance_id o = cc_owner_instance_id claims))
                  || negb (bool_decide (do_consumer_epoch o = cc_consumer_epoch claims))
                  || extra o) msg';
   k o) w = (r, w') →
  (untouched w0 w' ∧ ∃ e, r = Err e) ∨ lease_current claims (w_db w0).
Proof.
  intros H0 H. do 3 untouched_step H w0. right. unfold refuse_if in *.
  repeat match goal with
  | H : lift _ _ = (Ok _, _) |- _ => apply lift_ok in H as [H ?]; subst
  | H : ok_or _ _ = Ok _ |- _ => apply ok_or_ok in H; subst
  | H : bail_if _ _ = Ok _ |- _ => apply bail_if_ok in H
  | H : api (load_owner _ _ _) _ = _ |- _ => apply api_ok, query_ok in H as (_ & t & Ho)
  | H : _ || _ = false |- _ => apply orb_false_elim in H as [H ?]
  | H : negb _ = false |- _ => apply negb_false_iff, bool_decide_eq_true_1 in H
  end.
  exists t. eexists. split_and!; [|done..]. by destruct H0 as [<- _ _].
Qed.

Lemma commit_local_guarded cfg claims w0 w r w' :
  untouched w0 w → commit_local_deliveries cfg claims w = (r, w') →
  (untouched w0 w' ∧ ∃ e, r = Err e) ∨ lease_current claims (w_db w0).
Proof. apply owner_gate. Qed.

Lemma forward_guarded cfg request claims w0 w r w' :
  untouched w0 w → forward_commit_to_owner cfg request claims w = (r, w') →
  (untouched w0 w' ∧ ∃ e, r = Err e) ∨ lease_current claims (w_db w0).
Proof. apply owner_gate. Qed.
End commits.

(** C3: a commit has an effect only for its own session, page and lease.  Whatever
    the request and the outcome, either the handler leaves the database, the open
    pages and the broker as they were, or the bearer token is that of a live session
    of an admitted principal, the commit token verifies under the gateway's key to
    claims for exactly the requested page and class and for the network and principal
    of that session, and the lease of the mailbox, unexpired, is held by the instance
    and with the consumer epoch the claims name: after a takeover the old token does
    nothing. *)
Theorem commit_page_guarded `{JV : JsonValue, HO : Host, TR : Transport,
      HX : Hex, SHA : Sha256, HM : Hmac,
      CL : DeliveryClassOps, TJ : TupleJson, EC : !EnvelopeCodec, TC : TokenCodec,
      AM : Amqp, HH : !HttpHost} cfg auth request w :
  untouched w (MgHttp.commit_page cfg auth request w).2 ∨
  ∃ session claims now, authenticated auth session (w_db w) ∧
    verify (commit_hmac_secret cfg) (cm_commit_token request) now = Ok claims ∧
    cc_page_id claims = cm_page_id request ∧ cc_delivery_class claims = cm_delivery_class request ∧
    cc_network_id claims = vs_network_id session ∧
    cc_principal_id claims = vs_principal_id session ∧
    lease_current claims (w_db w).
Proof.
  destruct (MgHttp.commit_page cfg auth request w) as [r w'] eqn:H. cbn.
  unfold MgHttp.commit_page in H.
  apply M_bind_inv in H as [(e & H & _)|(session & w1 & Hs & H)].
  { left. by apply (always_run _ _ _ _ _ (untouched_session auth) H). }
  apply session_ok in Hs as [Hs Hu%same_untouched].
  apply (always_step untouched w) in H as [[? ?]|(now & w2 & Hu2 & _ & H)];
    [by left| |done|by apply untouched_api, same_now_ms].
  apply (always_step untouched w) in H as [[? ?]|(claims & w3 & Hu3 & Hv & H)];
    [by left| |done|by apply untouched_api_lift].
  apply api_ok, lift_ok in Hv as [Hv ->].
  apply (always_step untouched w) in H as [[? ?]|(u & w4 & Hu4 & Hb & H)];
    [by left| |done|by apply untouched_refuse].
  unfold refuse_if in Hb. apply lift_ok in Hb as [Hb _]. apply bail_if_ok in Hb.
  apply (always_step untouched w) in H as [[? ?]|(started & w5 & Hu5 & _ & H)];
    [by left| |done|by apply untouched_instant].
  apply attempt_bind in H as (outcome & w6 & Hc & H).
  assert ((untouched w w6 ∧ ∃ e, outcome = Err e) ∨ lease_current claims (w_db w)) as [[Hu6 [e ->]]|Hl].
  { destruct (negb (bool_decide (cc_owner_instance_id _ = _))); [by eapply forward_guarded|by eapply commit_local_guarded]. }
  - do 2 untouched_step H w. left. by injection H as _ <-.
  - right. exists session, claims, now.
    repeat match goal with
    | H : _ || _ = false |- _ => apply orb_false_elim in H as [H ?]
    | H : negb _ = false |- _ => apply negb_false_iff, bool_decide_eq_true_1 in H
    end. done.
Qed.

(** ** Pulling a page *)

Section pulls.
Context `{JV : JsonValue, HO : Host, MS : !Memberships, TR : Transport, PR : !Protocol,
          CO : Controls, SE : !Sessions, HX : Hex, SHA : Sha256, HM : Hmac, CL : DeliveryClassOps,
          TJ : TupleJson, EC : !EnvelopeCodec, GC : !GapCodec, TC : TokenCodec, AM : Amqp,
          SC : Schema, HH : !HttpHost}.

(** The two statements of the gap loader are the loader of [Gaps.v]. *)
Lemma load_gaps_ok n p c pg limit ms w out w' :
  load_gaps n p c pg limit ms w = (Ok out, w') →
  ∃ t1 t2, load_for_page t1 t2 n p c pg limit ms (db_gaps (w_db w)) = (Ok out, db_gaps (w_db w')) ∧
    w_db w' = on_gaps (fun _ => db_gaps (w_db w')) (w_db w) ∧ w_rabbit w' = w_rabbit w.
Proof.
  unfold load_gaps. intros H. apply M_bind_ok in H as (ms' & w1 & Hm & H).
  apply lift_ok in Hm as [Hm ->]. apply M_bind_ok in H as (rows & w2 & Hq & H).
  apply execute_ok in Hq as (t1 & Hq & _ & Hr2). apply result_bind_ok in Hq as (u & Hb & Hq).
  injection Hq as Hrows Hd2. apply M_bind_ok in H as ([] & w3 & Hu & H). apply lift_ok in H as [Hg Hw]. subst w3.
  assert (∃ t2, w_rabbit w' = w_rabbit w2 ∧ whenM (E:=string) (negb (bool_decide (rows = [])))
      (modify (mark_delivered t2 n p c pg (map (fun kr => kr.1.2) rows))) (db_gaps (w_db w))
      = (Ok (), db_gaps (w_db w')) ∧
      w_db w' = on_gaps (fun _ => db_gaps (w_db w')) (w_db w)) as (t2 & Hr3 & Hmark & Hd).
  { unfold whenM in *. destruct (negb _).
    - apply execute_ok in Hu as (t2 & [= Hu] & _ & Hr3). exists (db_clock t2). rewrite <- Hd2 in Hu.
      rewrite <- Hu. split_and!; [done|done|]. by destruct (w_db w).
    - injection Hu as <-. exists 0%Z. rewrite <- Hd2. split_and!; [done|done|]. by destruct (w_db w). }
  exists (db_clock t1), t2. split_and!; [|done|congruence].
  unfold load_for_page. erewrite M_bind_step; [|by unfold lift; rewrite Hm].
  erewrite M_bind_step; [|by unfold lift; rewrite Hb].
  erewrite M_bind_step; [|reflexivity]. rewrite Hrows. erewrite M_bind_step; [|exact Hmark].
  unfold lift. by rewrite Hg.
Qed.

(** What a pulled page says, and the state it leaves. *)
Record page_pulled (cfg : Config) (session : VerifiedSession) (class : DeliveryClass)
    (limit : option Z) (page : DeliveryPage) (epoch : string) (acquired_at : Z) (w w' : World) : Prop := {
  pu_row := {| ow_instance_id := instance_id cfg; ow_consumer_epoch := epoch;
               ow_lease_expires_at := acquired_at + delivery_owner_lease cfg * 1000;
               ow_owner_route := default "" (internal_route cfg);
               ow_updated_at := acquired_at |};
  pu_key := owner_key (vs_network_id session) (vs_principal_id session) class;
  pu_free : ∀ held, db_owners (w_db w) !! pu_key = Some held →
    (ow_lease_expires_at held <= acquired_at)%Z ∨ ow_consumer_epoch held = epoch;
  pu_db : w_db w' = on_gaps (fun _ => db_gaps (w_db w'))
                      (on_owners (fun _ => <[pu_key := pu_row]> (db_owners (w_db w))) (w_db w));
  pu_gaps : ∃ t1 t2, load_for_page t1 t2 (vs_network_id session) (vs_principal_id session) class
      (dp_page_id page) (Z.of_nat (page_limit cfg limit))
      (delivery_owner_lease cfg) (db_gaps (w_db w)) = (Ok (dp_gaps page), db_gaps (w_db w'));
  pu_pulled : ∃ pulled, Rabbit.pull_page cfg (vs_network_id session) (vs_principal_id session) class
      (dp_page_id page) epoch (page_limit cfg limit)
      (w_rabbit w) = (Ok pulled, w_rabbit w') ∧
    dp_deliveries page = from_option pp_deliveries [] pulled ∧
    dp_controls page = from_option pp_controls [] pulled ∧
    (pulled = None → dp_gaps page ≠ []);
  pu_token : ∃ t, issue (commit_hmac_secret cfg) {|
      cc_page_id := dp_page_id page; cc_network_id := vs_network_id session;
      cc_principal_id := vs_principal_id session; cc_delivery_class := class;
      cc_owner_instance_id := instance_id cfg; cc_consumer_epoch := epoch;
      cc_expires_at := sat_add (as_u64 (Z.max (timestamp_millis (utc_now t)) 0)) (lease_ms cfg) |}
    = Ok (dp_commit_token page);
  pu_valid : page_validate page = Ok ();
}.

Lemma rabbit_call_ok {T} (m : R T) w a w' :
  rabbit m w = (Ok a, w') ↔ ∃ s, m (w_rabbit w) = (Ok a, s) ∧ w' = set_rabbit s w.
Proof. unfold rabbit, zoom. destruct (m (w_rabbit w)); naive_solver. Qed.

(** What the acquisition of a lease has established. *)
Lemma acquire_owner_true cfg session class epoch w w' :
  acquire_owner cfg session class epoch w = (Ok true, w') →
  let key := owner_key (vs_network_id session) (vs_principal_id session) class in
  ∃ t, (∀ held, db_owners (w_db w) !! key = Some held →
      (ow_lease_expires_at held <= db_clock t)%Z ∨ ow_consumer_epoch held = epoch) ∧
    w_db w' = on_owners (fun _ => <[key := {| ow_instance_id := instance_id cfg;
      ow_consumer_epoch := epoch;
      ow_lease_expires_at := db_clock t + delivery_owner_lease cfg * 1000;
      ow_owner_route := default "" (internal_route cfg);
      ow_updated_at := db_clock t |}]> (db_owners (w_db w))) (w_db w) ∧
    w_rabbit w' = w_rabbit w.
Proof.
  intros H key. apply execute_ok in H as (t & H & _ & Hr). exists t.
  apply result_bind_ok in H as ([b owners] & Ha & H). injection H as -> Hd.
  split_and!; [|by rewrite <- Hd, (try_acquire_true _ _ _ _ _ _ _ _ _ _ Ha)|done].
  intros held Hheld. unfold try_acquire_delivery_owner in Ha. cbv zeta in Ha. subst key.
  rewrite Hheld in Ha. inv_result. case_match eqn:Hc; simplify_eq. apply orb_true_iff in Hc as [Hc|Hc].
  - left. by apply Z.leb_le.
  - right. by apply bool_decide_eq_true_1 in Hc.
Qed.

(** A pulled page carries the binding and epoch it was pulled with. *)
Lemma pull_page_fields cfg n p c pg ep limit s page s' :
  Rabbit.pull_page cfg n p c pg ep limit s = (Ok (Some page), s') → pp_consumer_epoch page = ep.
Proof.
  unfold Rabbit.pull_page. intros H. do 9 (apply M_bind_ok in H as (? & ? & _ & H)).
  case_bool_decide; [by inv_M|]. do 2 (apply M_bind_ok in H as (? & ? & _ & H)).
  case_match; by inv_M.
Qed.

(** Pulling under the lease: either something was pulled and the lease stays, or
    nothing was and it is released. *)
Lemma pull_owned_ok cfg session class pg epoch limit w pulled gaps w' :
  pull_owned cfg session class pg epoch limit w = (Ok (pulled, gaps), w') →
  nothing_pulled pulled gaps = false →
  Rabbit.pull_page cfg (vs_network_id session) (vs_principal_id session) class pg epoch limit
    (w_rabbit w) = (Ok pulled, w_rabbit w') ∧
  (∃ t1 t2, load_for_page t1 t2 (vs_network_id session) (vs_principal_id session) class pg
     (Z.of_nat limit) (delivery_owner_lease cfg) (db_gaps (w_db w))
     = (Ok gaps, db_gaps (w_db w'))) ∧
  w_db w' = on_gaps (fun _ => db_gaps (w_db w')) (w_db w).
Proof.
  unfold pull_owned. intros H Hsome. apply M_bind_ok in H as (pulled' & w1 & Hp & H).
  apply rabbit_call_ok in Hp as (s & Hp & ->). apply M_bind_ok in H as (gaps' & w2 & Hg & H).
  apply M_bind_ok in H as (u & w3 & Hrel & H). injection H as -> -> ->.
  apply load_gaps_ok in Hg as (t1 & t2 & Hg & Hd & Hr). cbn in Hg, Hd, Hr.
  rewrite Hsome in Hrel. assert (w' = w2) as -> by (by injection Hrel). rewrite Hr. eauto.
Qed.

Lemma pull_page_ok cfg auth class limit w page w' :
  MgHttp.pull_page cfg auth class limit w = (Ok (Some page), w') →
  ∃ session epoch t, authenticated auth session (w_db w) ∧
    page_pulled cfg session class limit page epoch (db_clock t) w w'.
Proof.
  unfold MgHttp.pull_page. intros H. apply M_bind_ok in H as (session & w1 & Hs & H).
  apply session_ok in Hs as [Hs Hu]. apply M_bind_ok in H as (pg & w2 & Hpg & H).
  apply api_ok, (always_run _ _ _ _ _ same_new_v4) in Hpg.
  apply M_bind_ok in H as (epoch & w3 & Hep & H).
  apply api_ok, (always_run _ _ _ _ _ same_new_v4) in Hep.
  apply M_bind_ok in H as (acquired & w4 & Ha & H). apply api_ok in Ha.
  apply M_bind_ok in H as ([pulled gaps] & w5 & Hp & H).
  destruct acquired; [|injection Hp as <- <- <-; by injection H].
  apply api_ok in Hp. apply acquire_owner_true in Ha as (t & Hfree & Hd4 & Hr4).
  assert (w_db w3 = w_db w) as Hd3 by (destruct Hu, Hpg, Hep; congruence).
  exists session, epoch, t. split; [done|].
  destruct (nothing_pulled pulled gaps) eqn:Hsome; [by injection H|].
  apply pull_owned_ok in Hp as (Hp & (t1 & t2 & Hg) & Hd5); [|done].
  apply M_bind_ok in H as (response & w6 & H & Hret). injection Hret as -> ->.
  apply api_ok in H. unfold page_response in H.
  assert (from_option pp_consumer_epoch epoch pulled = epoch) as Hepoch.
  { destruct pulled; [|done]. by apply pull_page_fields in Hp. }
  rewrite Hepoch in H. apply M_bind_ok in H as (now & w7 & Hnow & H).
  unfold now_ms in Hnow. inv_W. same_views.
  assert (w_rabbit w' = w_rabbit w5) as Hr' by congruence.
  assert (w_db w' = w_db w5) as Hd' by congruence.
  assert (w_rabbit w4 = w_rabbit w) as Hr0 by congruence.
  rewrite Hd3 in Hd4, Hfree. rewrite Hr0, <- Hr' in Hp. rewrite Hd4, <- Hd' in Hg.
  rewrite <- Hd', Hd4 in Hd5. split; cbn; eauto.
  exists pulled. split_and!; [done..|]. intros ->. by destruct gaps.
Qed.

(** While another consumer's lease runs the acquisition is refused. *)
Lemma acquire_owner_held cfg session class epoch w r w' held :
  db_owners (w_db w) !! owner_key (vs_network_id session) (vs_principal_id session) class
    = Some held →
  (∀ t, (db_clock t < ow_lease_expires_at held)%Z) → epoch ≠ ow_consumer_epoch held →
  acquire_owner cfg session class epoch w = (r, w') →
  untouched w w' ∧ (r = Ok false ∨ ∃ e, r = Err e).
Proof.
  intros Hheld Hclock Hne H. unfold acquire_owner, execute in H.
  apply (always_step same_world w) in H as [[Hs [e ->]]|(now & w1 & Hs & Hst & H)];
    [split; [by apply same_untouched|eauto]| |done|apply same_statement].
  apply statement_ok in Hst as (_ & t & ->). destruct Hs as [Hd Ht Hr].
  unfold mbind, M_bind, gets, lift, modify in H. cbn in H. rewrite Hd in H.
  destruct (try_acquire_delivery_owner _ _ _ _ _ _ _ _ _) as [[b owners]|e] eqn:Ha.
  - cbn in H. simplify_eq. pose proof (try_acquire_lease _ _ _ _ _ _ _ _ _ _ Ha) as Hl.
    rewrite (try_acquire_held _ _ _ _ _ _ _ _ _ _ Hheld (Hclock t) Hne Hl) in Ha. simplify_eq.
    injection H as <- <-. split; [|by left]. split; cbn; [|by rewrite Hr..]. by destruct (w_db w).
  - cbn in H. simplify_eq. split; [by split; rewrite ?Hd, ?Hr|eauto].
Qed.
End pulls.

(** A mailbox is pulled by one consumer at a time.  While a lease on the mailbox
    runs, another pull for the same principal and class, on whatever instance,
    answers [204 No Content] or an error; it asks the broker for nothing and changes
    neither the leases nor the gaps. *)
Theorem pull_page_excluded `{JV : JsonValue, HO : Host, TR : Transport,
      HX : Hex, SHA : Sha256, HM : Hmac,
      CL : DeliveryClassOps, TJ : TupleJson, EC : !EnvelopeCodec, TC : TokenCodec,
      AM : Amqp, HH : !HttpHost} cfg auth class limit w r w' held :
  (∀ session, authenticated auth session (w_db w) →
     db_owners (w_db w) !! owner_key (vs_network_id session) (vs_principal_id session) class
       = Some held) →
  (∀ t, (db_clock t < ow_lease_expires_at held)%Z ∧ fresh_uuid t ≠ ow_consumer_epoch held) →
  MgHttp.pull_page cfg auth class limit w = (r, w') →
  untouched w w' ∧ (r = Ok None ∨ ∃ e, r = Err e).
Proof.
  intros Hheld Hlease H. unfold MgHttp.pull_page in H.
  apply M_bind_inv in H as [(e & H & ->)|(session & w1 & Hs & H)].
  { split; [by apply (always_run _ _ _ _ _ (untouched_session auth) H)|eauto]. }
  apply session_ok in Hs as [Hs Hu]. specialize (Hheld _ Hs).
  apply (always_step same_world w) in H as [[Hu2 ?]|(pg & w2 & Hu2 & _ & H)];
    [split; [by apply same_untouched|eauto]| |done|by apply always_map_error, same_new_v4].
  apply (always_step same_world w) in H as [[Hu3 ?]|(epoch & w3 & Hu3 & He & H)];
    [split; [by apply same_untouched|eauto]| |done|by apply always_map_error, same_new_v4].
  assert (∃ t, epoch = fresh_uuid t) as [t ->].
  { apply api_ok in He. unfold new_v4, tick, mbind, M_bind in He. inv_M. eauto. }
  rewrite <- (sw_db _ _ Hu3) in Hheld.
  assert (∀ r4 w4, acquire_owner cfg session class (fresh_uuid t) w3 = (r4, w4) →
    untouched w w4 ∧ (r4 = Ok false ∨ ∃ e, r4 = Err e)) as Hacq.
  { intros r4 w4 Ha. destruct (acquire_owner_held _ _ _ _ _ _ _ _ Hheld
      (fun t => proj1 (Hlease t)) (proj2 (Hlease t)) Ha) as [H4 Hr4].
    split; [|done]. etrans; [by apply same_untouched|done]. }
  unfold mbind at 1, M_bind at 1, api at 1, map_error in H.
  destruct (acquire_owner cfg session class (fresh_uuid t) w3) as [r4 w4].
  destruct (Hacq _ _ eq_refl) as [Hu4 [->|[e ->]]]; cbn in H; injection H as <- <-; eauto.
Qed.

(** ** Fault-free runs *)

Section runs.
Context `{JV : JsonValue, HO : Host, MS : !Memberships, TR : Transport, PR : !Protocol,
          CO : Controls, SE : !Sessions, HX : Hex, SHA : Sha256, HM : Hmac, CL : DeliveryClassOps,
          TJ : TupleJson, EC : !EnvelopeCodec, GC : !GapCodec, TC : TokenCodec, AM : Amqp,
          SC : Schema, HH : !HttpHost}.

(** The database answers, and the broker accepts acknowledgements and the closing of
    channels. *)
Record reliable : Prop := {
  rl_db : ∀ t, db_fault t = None;
  rl_ack : ∀ ch tag b, (amqp (BasicAck ch tag) b).1 = Ok ();
  rl_close : ∀ ch code text b, (amqp (ChannelClose ch code text) b).1 = Ok ();
}.

Context (REL : reliable).

Lemma statement_runs w : ∃ t w', statement w = (Ok (db_clock t), w') ∧ same_world w w'.
Proof.
  unfold statement, tick, mbind, M_bind. rewrite (rl_db REL). by do 2 eexists.
Qed.

Lemma query_runs {T} (f : Z -> Db -> T) w :
  ∃ t w', query f w = (Ok (f (db_clock t) (w_db w)), w') ∧ same_world w w'.
Proof.
  destruct (statement_runs w) as (t & w1 & H & S). exists t, w1. split; [|done].
  unfold query. rewrite (M_bind_step _ _ _ _ _ H). unfold gets. by rewrite (sw_db _ _ S).
Qed.

Lemma execute_runs {T} (f : Z -> Db -> result string (T * Db)) w :
  (∀ t, ∃ a d, f (db_clock t) (w_db w) = Ok (a, d)) →
  ∃ t a w', execute f w = (Ok a, w') ∧ f (db_clock t) (w_db w) = Ok (a, w_db w') ∧
    w_rabbit w' = w_rabbit w.
Proof.
  intros Hf. destruct (statement_runs w) as (t & w1 & H & [Hd _ Hr]). destruct (Hf t) as (a & d & Ha).
  exists t, a, (set_db d w1). split_and!; [|done|done]. unfold execute.
  rewrite (M_bind_step _ _ _ _ _ H). unfold mbind, M_bind, gets, lift. cbn. by rewrite Hd, Ha.
Qed.

Lemma api_run {T} (m : W T) w a w' : m w = (Ok a, w') → api m w = (Ok a, w').
Proof. apply api_ok. Qed.

Lemma now_ms_runs w :
  ∃ t w', now_ms w = (Ok (as_u64 (Z.max (timestamp_millis (utc_now t)) 0)), w') ∧ same_world w w'.
Proof. by do 2 eexists. Qed.

Lemma instant_runs w : rabbit instant w = (Ok (instant_now (rb_broker (w_rabbit w))), w).
Proof. by destruct w. Qed.

Lemma elapsed_runs started w :
  elapsed_since started w = (Ok (instant_now (rb_broker (w_rabbit w)) - started)%Z, w).
Proof. by destruct w. Qed.

Lemma call_runs {T} (op : AmqpOp T) a s :
  (amqp op (rb_broker s)).1 = Ok a →
  ∃ s', call op s = (Ok a, s') ∧ rb_trace s' = rb_trace s ++ [Call op] ∧
    rb_pending_pages s' = rb_pending_pages s.
Proof.
  unfold call. destruct (amqp op (rb_broker s)) as [r b]. cbn. intros ->. by eexists.
Qed.

Lemma ack_all_runs ch tags : ∀ s,
  ∃ s', for_each tags (fun tag => call (BasicAck ch tag)) s = (Ok (), s').
Proof.
  induction tags as [|tag tags IH]; intros s; cbn; [by eexists|].
  destruct (call_runs (BasicAck ch tag) () s) as (s1 & H & _); [apply (rl_ack REL)|].
  erewrite M_bind_step; [apply IH|done].
Qed.

(** A page committed with its own principal, class and epoch. *)
Lemma rabbit_commit_runs pg p c ep s pending :
  rb_pending_pages s !! pg = Some pending →
  pg_principal_id pending = p → pg_delivery_class pending = c → pg_consumer_epoch pending = ep →
  ∃ s', Rabbit.commit_page pg p c ep s = (Ok (Some (length (pg_delivery_tags pending))), s') ∧ True.
Proof.
  intros Hpg <- <- <-. unfold Rabbit.commit_page. run_pure.
  rewrite Hpg. run_pure.
  rewrite !bool_decide_eq_true_2 by done. run_pure.
  destruct (ack_all_runs (pg_channel pending) (pg_delivery_tags pending)
    (set_pending (delete pg) s).2) as [s1 H1]. run_step H1.
  destruct (call_runs (ChannelClose (pg_channel pending) 200 "mailbox page committed") () s1)
    as (s2 & H2 & _); [apply (rl_close REL)|].
  run_step H2. by eexists.
Qed.

Lemma release_owner_runs n p c i ep w :
  ∃ b w', release_owner n p c i ep w = (Ok b, w') ∧ w_rabbit w' = w_rabbit w ∧
    w_db w' = on_owners (fun _ => (release_delivery_owner n p c i ep (db_owners (w_db w))).2) (w_db w).
Proof.
  edestruct (execute_runs (fun _ d =>
    let '(released, owners) := release_delivery_owner n p c i ep (db_owners d) in
    Ok (released, on_owners (fun _ => owners) d)) w) as (t & b & w' & H & Hd & Hr).
  { intros t. destruct (release_delivery_owner _ _ _ _ _ _). by do 2 eexists. }
  exists b, w'. split_and!; [exact H|done|].
  destruct (release_delivery_owner _ _ _ _ _ _). by simplify_eq.
Qed.

Lemma acknowledge_gaps_runs n p c pg w :
  ∃ t k w', acknowledge_gaps n p c pg w = (Ok k, w') ∧ w_rabbit w' = w_rabbit w ∧
    k = (acknowledge_page (db_clock t) n p c pg (db_gaps (w_db w))).1 ∧
    w_db w' = on_gaps (fun _ => (acknowledge_page (db_clock t) n p c pg (db_gaps (w_db w))).2) (w_db w).
Proof.
  edestruct (execute_runs (fun now d =>
    let '(count, gaps) := acknowledge_page now n p c pg (db_gaps d) in
    Ok (count, on_gaps (fun _ => gaps) d)) w) as (t & k & w' & H & Hd & Hr).
  { intros t. destruct (acknowledge_page _ _ _ _ _ _). by do 2 eexists. }
  exists t, k, w'. split; [exact H|]. split; [done|].
  destruct (acknowledge_page _ _ _ _ _ _). by simplify_eq.
Qed.

Lemma release_held n p c i ep owners row :
  owners !! owner_key n p c = Some row → ow_instance_id row = i → ow_consumer_epoch row = ep →
  release_delivery_owner n p c i ep owners = (true, delete (owner_key n p c) owners).
Proof.
  intros Hrow <- <-. unfold release_delivery_owner. by rewrite Hrow, !bool_decide_eq_true_2.
Qed.

(** The lease of the claims is held here and does not expire. *)
Record holds_lease (cfg : Config) (claims : CommitClaims) (d : Db) : Prop := {
  hl_row : ∃ row, db_owners d !! owner_key (cc_network_id claims) (cc_principal_id claims)
                    (cc_delivery_class claims) = Some row ∧
    ow_instance_id row = cc_owner_instance_id claims ∧
    ow_consumer_epoch row = cc_consumer_epoch claims ∧
    ∀ t, (db_clock t < ow_lease_expires_at row)%Z;
  hl_here : cc_owner_instance_id claims = instance_id cfg;
}.

Lemma commit_local_runs cfg claims w out s' :
  holds_lease cfg claims (w_db w) →
  Rabbit.commit_page (cc_page_id claims) (cc_principal_id claims) (cc_delivery_class claims)
    (cc_consumer_epoch claims) (w_rabbit w) = (Ok out, s') →
  ∃ w', commit_local_deliveries cfg claims w = (Ok out, w') ∧
    (w_rabbit w' = s' ∧
     w_db w' = match out with
               | Some _ => on_owners (delete (owner_key (cc_network_id claims)
                   (cc_principal_id claims) (cc_delivery_class claims))) (w_db w)
               | None => w_db w
               end).
Proof.
  intros [(row & Hrow & Hi & He & Hl) Hhere] Hc. unfold commit_local_deliveries.
  destruct (query_runs (fun now d => load_delivery_owner now (cc_network_id claims)
    (cc_principal_id claims) (cc_delivery_class claims) (db_owners d)) w) as (t & w1 & Hq & [Hd _ Hr]).
  unfold load_delivery_owner in Hq. cbv beta in Hq. rewrite Hrow, (proj2 (Z.ltb_lt _ _) (Hl t)) in Hq.
  run_step (api_run _ _ _ _ Hq). run_pure. cbn. rewrite Hi, He, <- Hhere.
  rewrite !bool_decide_eq_true_2 by done. run_pure.
  eapply (M_bind_ex _ _ _ _ out (set_rabbit s' w1)).
  { apply api_run, rabbit_call_ok. rewrite Hr. eauto. }
  destruct out as [k|].
  - rewrite bool_decide_eq_true_2 by (by eexists). unfold whenM.
    destruct (release_owner_runs (cc_network_id claims) (cc_principal_id claims)
      (cc_delivery_class claims) (cc_owner_instance_id claims) (cc_consumer_epoch claims)
      (set_rabbit s' w1)) as (b & w2 & Hrel & Hr2 & Hd2). cbn in Hr2, Hd2.
    eapply (M_bind_ex _ _ _ _ () w2).
    { apply M_bind_ok. do 2 eexists. split; [by apply api_run|reflexivity]. }
    eexists. split; [reflexivity|]. split; [done|]. rewrite Hd2, Hd.
    rewrite (release_held _ _ _ _ _ _ _ Hrow Hi He). by destruct (w_db w).
  - rewrite bool_decide_eq_false_2 by (by intros []). run_pure.
    eexists. split; [reflexivity|]. by split.
Qed.

(** ** From a pulled page to its commit *)

(** No session and no grant expires while the requests run. *)
Record steady (d : Db) : Prop := {
  st_sessions : ∀ t t' h, live_sessions (db_clock t) h d = live_sessions (db_clock t') h d;
  st_admitted : ∀ t t' n p, admitted (db_clock t) d n p = admitted (db_clock t') d n p;
}.

Lemma session_runs auth s d w :
  steady d → authenticated auth s d →
  (∀ now h, live_sessions now h (w_db w) = live_sessions now h d) →
  (∀ now n p, admitted now (w_db w) n p = admitted now d n p) →
  ∃ w', session auth w = (Ok s, w') ∧ same_world w w'.
Proof.
  intros [Hsess Hadm] (header & value & t & t' & -> & Hh & Hb & Hlive & Ha) Hl Hm.
  unfold session. cbn [mbind option_bind]. rewrite Hh. cbn [mbind option_bind].
  rewrite (proj2 (strip_prefix_Some _ _ _) eq_refl). run_pure.
  unfold verify_bearer.
  enough (∃ w', verify_bearer value w = (Ok s, w') ∧ same_world w w') as (w' & H & Hw).
  { exists w'. split; [by apply map_error_ok|done]. }
  unfold verify_bearer. rewrite Hb. run_pure.
  destruct (query_runs (fun now d => head (live_sessions now (hash_token value) d)) w)
    as (t1 & w1 & Hq & S1). rewrite Hl, (Hsess t1 t), Hlive in Hq. run_step Hq. run_pure.
  unfold principal_is_admitted.
  destruct (query_runs (fun now d => admitted now d (vs_network_id s) (vs_principal_id s)) w1)
    as (t2 & w2 & Hq2 & S2). rewrite (sw_db _ _ S1), Hm, (Hadm t2 t'), Ha in Hq2.
  run_step Hq2. run_pure. exists w2. split; [done|by etrans].
Qed.

(** An empty pull leaves no page open under its id. *)
Definition stays_closed (pg : string) (s s' : RabbitAdapter) : Prop :=
  rb_pending_pages s !! pg = None → rb_pending_pages s' !! pg = None.
#[export] Instance stays_closed_preorder pg : PreOrder (stays_closed pg).
Proof. split; [intros s H; exact H|]. intros s1 s2 s3 H1 H2 H. by apply H2, H1. Qed.

Lemma stays_closed_same pg {T} (m : R T) :
  (∀ s, rb_pending_pages (m s).2 = rb_pending_pages s) → always (stays_closed pg) m.
Proof. intros H s. unfold stays_closed. by rewrite H. Qed.

Lemma closed_call pg {T} (op : AmqpOp T) : always (stays_closed pg) (call op).
Proof. apply stays_closed_same. intros s. unfold call. by destruct (amqp _ _). Qed.
Hint Resolve closed_call : gw_always.

Lemma closed_observe pg ev : always (stays_closed pg) (observe_event ev).
Proof. by apply stays_closed_same. Qed.
Hint Resolve closed_observe : gw_always.

Lemma closed_instant pg : always (stays_closed pg) instant.
Proof. by apply stays_closed_same. Qed.
Hint Resolve closed_instant : gw_always.

Lemma closed_abandon pg cfg n p c : always (stays_closed pg) (abandon_expired_pages cfg n p c).
Proof.
  unfold abandon_expired_pages, close_expired. solve_always.
  intros s H. cbn. match goal with |- context [foldr _ _ ?l] => induction l as [|kp l IH] end; cbn;
    [done|]. by apply lookup_delete_None; right.
Qed.
Hint Resolve closed_abandon : gw_always.

Lemma closed_recording pg body :
  always (stays_closed pg) body → always (stays_closed pg) (recording_binding body).
Proof. intros. unfold recording_binding. solve_always. Qed.

Lemma closed_ensure pg cfg n p : always (stays_closed pg) (ensure_tenant_mailboxes cfg n p).
Proof. apply closed_recording. solve_always. Qed.
Hint Resolve closed_ensure : gw_always.

Lemma closed_take pg limit : ∀ ch tag, always (stays_closed pg) (take_messages limit ch tag).
Proof. induction limit as [|limit IH]; intros ch tag; cbn; solve_always. Qed.
Hint Resolve closed_take : gw_always.

Lemma pull_page_none cfg n p c pg ep limit s s' :
  Rabbit.pull_page cfg n p c pg ep limit s = (Ok None, s') →
  rb_pending_pages s !! pg = None → rb_pending_pages s' !! pg = None.
Proof.
  unfold Rabbit.pull_page. intros H Hnone.
  do 9 (apply (always_step (stays_closed pg) s) in H as [[_ [? [=]]]|(? & ? & ? & ? & H)];
    [|first [reflexivity|assumption]|solve_always]).
  case_bool_decide.
  - run_always (stays_closed pg) H. match goal with H0 : stays_closed pg s ?x, H1 : stays_closed pg ?x s' |- _ =>
      by apply H1, H0 end.
  - do 2 (apply M_bind_ok in H as (? & ? & _ & H)). case_match.
    + apply M_bind_ok in H as ([] & ? & Hset & H). run_always (stays_closed pg) H.
      unfold set_pending in Hset. simplify_eq.
      match goal with H1 : stays_closed pg _ s' |- _ => apply H1 end. cbn. apply lookup_delete_eq.
    + by inv_M.
Qed.

(** An issued token verifies before it expires. *)
Lemma issued_verifies `{!HexLaws, !TokenCodecLaws} secret claims token now :
  issue secret claims = Ok token → (now < cc_expires_at claims)%Z →
  verify secret token now = Ok claims.
Proof.
  intros (payload & Hp & Ht)%issue_expose Hx. rewrite (verify_issued _ _ _ _ _ _ Hp Ht).
  rewrite (bool_decide_eq_true_2 _ eq_refl), (proj2 (Z.leb_gt _ _)) by done. done.
Qed.

(** [now_ms] at a reading of the wall clock. *)
Definition unix_ms (t : nat) : Z := as_u64 (Z.max (timestamp_millis (utc_now t)) 0).

Lemma release_absent n p c i ep owners :
  owners !! owner_key n p c = None → release_delivery_owner n p c i ep owners = (false, owners).
Proof. intros H. unfold release_delivery_owner. by rewrite H. Qed.

(** The lease is gone once something of the page has been committed. *)
Lemma release_after_gaps (k : Z) claims w :
  db_owners (w_db w) !! owner_key (cc_network_id claims) (cc_principal_id claims)
    (cc_delivery_class claims) = None ∨
  (0 < k)%Z ∧ (∃ cfg, holds_lease cfg claims (w_db w)) →
  ∃ w', whenM (0 <? k)%Z
          (_ ← api (release_owner (cc_network_id claims) (cc_principal_id claims)
                 (cc_delivery_class claims) (cc_owner_instance_id claims)
                 (cc_consumer_epoch claims)); mret ()) w = (Ok (), w') ∧
    (w_rabbit w' = w_rabbit w ∧ db_gaps (w_db w') = db_gaps (w_db w) ∧
     db_owners (w_db w') = delete (owner_key (cc_network_id claims) (cc_principal_id claims)
       (cc_delivery_class claims)) (db_owners (w_db w))).
Proof.
  intros Hcase. unfold whenM. destruct (0 <? k)%Z eqn:Hk.
  - destruct (release_owner_runs (cc_network_id claims) (cc_principal_id claims)
      (cc_delivery_class claims) (cc_owner_instance_id claims) (cc_consumer_epoch claims) w)
      as (b & w2 & Hrel & Hr2 & Hd2).
    run_step (api_run _ _ _ _ Hrel). eexists. split; [reflexivity|]. rewrite Hd2. cbn.
    split_and!; [done..|]. destruct Hcase as [Hnone|[_ [cfg [(row & Hrow & Hi & He & _) _]]]].
    + by rewrite (release_absent _ _ _ _ _ _ Hnone), delete_id.
    + by rewrite (release_held _ _ _ _ _ _ _ Hrow Hi He).
  - exists w. split; [done|]. split_and!; [done..|]. apply Z.ltb_ge in Hk.
    destruct Hcase as [Hnone|[? _]]; [by rewrite delete_id|lia].
Qed.

Lemma commit_page_runs cfg auth request claims session w w1 out s' :
  MgHttp.session auth w = (Ok session, w1) → same_world w w1 →
  (∀ t, verify (commit_hmac_secret cfg) (cm_commit_token request) (unix_ms t) = Ok claims) →
  cc_page_id claims = cm_page_id request → cc_delivery_class claims = cm_delivery_class request →
  cc_network_id claims = vs_network_id session → cc_principal_id claims = vs_principal_id session →
  holds_lease cfg claims (w_db w) →
  Rabbit.commit_page (cc_page_id claims) (cc_principal_id claims) (cc_delivery_class claims)
    (cc_consumer_epoch claims) (w_rabbit w) = (Ok out, s') →
  (out = None → ∀ now, (0 < (acknowledge_page now (cc_network_id claims) (cc_principal_id claims)
     (cc_delivery_class claims) (cc_page_id claims) (db_gaps (w_db w))).1)%Z) →
  ∃ now resp w', MgHttp.commit_page cfg auth request w = (Ok resp, w') ∧
    co_committed_deliveries resp = default 0 out ∧ rb_trace (w_rabbit w') = rb_trace s' ∧
    db_owners (w_db w') = delete (owner_key (cc_network_id claims) (cc_principal_id claims)
      (cc_delivery_class claims)) (db_owners (w_db w)) ∧
    db_gaps (w_db w') = (acknowledge_page now (cc_network_id claims) (cc_principal_id claims)
      (cc_delivery_class claims) (cc_page_id claims) (db_gaps (w_db w))).2.
Proof.
  intros Hs S1 Hv Hpg Hc Hn Hp Hl Hcommit Hgaps.
  destruct (now_ms_runs w1) as (t & w2 & Hnow & S2).
  assert (same_world w w2) as [Hd2 _ Hr2] by (by etrans).
  destruct (commit_local_runs cfg claims w2 out s') as (w3 & Hloc & Hr3 & Hd3);
    [by rewrite Hd2|by rewrite Hr2|]. rewrite Hd2 in Hd3.
  set (elapsed := (instant_now (rb_broker (w_rabbit w3)) - instant_now (rb_broker (w_rabbit w2)))%Z).
  set (w4 := (observability (RecordCommit elapsed false true) w3).2).
  assert (w_db w4 = w_db w3 ∧ rb_trace (w_rabbit w4) = rb_trace s') as [Hd4 Hr4]
    by (unfold w4; cbn; by rewrite Hr3).
  assert (observability (RecordCommit elapsed false true) w3 = (Ok (), w4)) as Hobs by reflexivity.
  clearbody w4.
  assert (db_gaps (w_db w4) = db_gaps (w_db w)) as Hg4 by (rewrite Hd4, Hd3; by destruct out).
  destruct (acknowledge_gaps_runs (vs_network_id session) (vs_principal_id session)
    (cm_delivery_class request) (cm_page_id request) w4) as (t5 & k & w5 & Hack & Hr5 & Hk & Hd5).
  rewrite <- Hn, <- Hp, <- Hc, <- Hpg, Hg4 in Hk, Hd5.
  destruct (release_after_gaps k claims w5) as (w6 & Hrel & Hr6 & Hg6 & Ho6).
  { rewrite Hd5. cbn. rewrite Hd4, Hd3. destruct out as [n|].
    - left. cbn. apply lookup_delete_eq.
    - right. split; [by rewrite Hk; apply Hgaps|]. exists cfg. destruct Hl as [Hrow Hh]. by split. }
  exists (db_clock t5), {| co_committed_deliveries := default 0 out; co_committed_gaps := k |}, w6.
  split.
  - enough (∃ w', MgHttp.commit_page cfg auth request w
      = (Ok {| co_committed_deliveries := default 0 out; co_committed_gaps := k |}, w') ∧ w' = w6)
      as (w' & H & ->) by done.
    unfold MgHttp.commit_page. run_step Hs. run_step (api_run _ _ _ _ Hnow).
    fold (unix_ms t). rewrite Hv. run_pure.
    rewrite !bool_decide_eq_true_2 by first [done|apply Hl]. run_pure.
    run_step (api_run _ _ _ _ (instant_runs w2)). cbn [negb].
    eapply (M_bind_ex _ _ _ _ (Ok out) w3); [unfold attempt; by rewrite Hloc|].
    eapply M_bind_ex; [exact (api_run _ _ _ _ (elapsed_runs
      (instant_now (rb_broker (w_rabbit w2))) w3))|cbn beta]. run_step (api_run _ _ _ _ Hobs). run_pure.
    run_step (api_run _ _ _ _ Hack). run_step Hrel.
    assert (negb (bool_decide (is_Some out)) && (k =? 0)%Z = false) as ->.
    { destruct out as [n|]; [by rewrite bool_decide_eq_true_2 by (by eexists)|].
      specialize (Hgaps eq_refl (db_clock t5)). rewrite <- Hk in Hgaps.
      apply andb_false_iff. right. apply Z.eqb_neq. lia. }
    run_pure. by eexists.
  - split_and!; [done|by rewrite Hr6, Hr5| |].
    + rewrite Ho6, Hd5. cbn. rewrite Hd4, Hd3. destruct out; cbn; [apply delete_delete_eq|done].
    + by rewrite Hg6, Hd5.
Qed.
End runs.

(** C10: a pulled page can be committed.  If the database and the broker answer and
    neither the lease, the token nor the session expires in the meantime, presenting
    the commit token of a pulled page succeeds: it reports the deliveries and controls
    of the page, acknowledges as many messages on one channel, marks every gap of the
    page as acknowledged and gives the mailbox free for the next consumer. *)
Theorem pulled_page_commits `{JV : JsonValue, HO : Host, TR : Transport,
      HX : Hex, HXL : !HexLaws, SHA : Sha256,
      HM : Hmac, CL : DeliveryClassOps, TJ : TupleJson, EC : !EnvelopeCodec,
      TC : TokenCodec, TCL : !TokenCodecLaws, AM : Amqp, HH : !HttpHost}
    cfg auth class limit w page w1 :
  reliable → steady (w_db w) →
  (∀ t t', (db_clock t' < db_clock t + delivery_owner_lease cfg * 1000)%Z) →
  (∀ t t', (unix_ms t' < sat_add (unix_ms t) (lease_ms cfg))%Z) →
  rb_pending_pages (w_rabbit w) !! dp_page_id page = None →
  MgHttp.pull_page cfg auth class limit w = (Ok (Some page), w1) →
  ∃ session resp w2 channel tags,
    authenticated auth session (w_db w) ∧
    MgHttp.commit_page cfg auth {| cm_page_id := dp_page_id page; cm_delivery_class := class;
      cm_commit_token := dp_commit_token page |} w1 = (Ok resp, w2) ∧
    co_committed_deliveries resp = length (dp_deliveries page) + length (dp_controls page) ∧
    acks (rb_trace (w_rabbit w2)) = acks (rb_trace (w_rabbit w1)) ++ map (pair channel) tags ∧
    length tags = co_committed_deliveries resp ∧
    (∀ gap, gap ∈ dp_gaps page → ∃ row,
       db_gaps (w_db w2) !! (vs_network_id session, vs_principal_id session, mg_gap_id gap)
         = Some row ∧ is_Some (gp_acknowledged_at row)) ∧
    db_owners (w_db w2) !! owner_key (vs_network_id session) (vs_principal_id session) class = None.
Proof.
  intros REL Hsteady Hlease Hwall Hfresh (session & epoch & t & Hs & Hpull)%pull_page_ok.
  destruct Hpull as [row key Hfree Hdb (t1 & t2 & Hgaps) (pulled & Hp & Hdel & Hctl & Hnone)
                     [t3 Htok] _].
  destruct (session_runs REL auth session (w_db w) w1) as (w1' & Hsess & S1);
    [done|done|intros; by rewrite Hdb|intros; by rewrite Hdb|].
  set (claims := {| cc_page_id := dp_page_id page; cc_network_id := vs_network_id session;
      cc_principal_id := vs_principal_id session; cc_delivery_class := class;
      cc_owner_instance_id := instance_id cfg; cc_consumer_epoch := epoch;
      cc_expires_at := sat_add (unix_ms t3) (lease_ms cfg) |}).
  assert (holds_lease cfg claims (w_db w1)) as Hl.
  { split; [|done]. exists row. rewrite Hdb. cbn. by rewrite lookup_insert_eq. }
  assert (∃ out s', Rabbit.commit_page (dp_page_id page) (vs_principal_id session) class epoch
      (w_rabbit w1) = (Ok out, s') ∧
    default 0 out = length (dp_deliveries page) + length (dp_controls page) ∧
    (out = None → dp_gaps page ≠ []) ∧
    ∃ channel tags, acks (rb_trace s') = acks (rb_trace (w_rabbit w1)) ++ map (pair channel) tags ∧
      length tags = default 0 out) as (out & s' & Hc & Hout & Hsome & channel & tags & Hacks & Htags).
  { rewrite Hdel, Hctl. destruct pulled as [pulled|].
    - apply pull_page_some in Hp as (pending & ms & Hpg & _ & H1 & H2 & H3 & _ & _ & Hlen & _).
      destruct (rabbit_commit_runs REL _ _ _ _ _ _ Hpg H1 H2 H3) as (s' & Hc & _).
      pose proof (commit_page_some _ _ _ _ _ _ _ _ Hpg Hc) as (_ & _ & _ & _ & _ & Htrace).
      do 2 eexists. split; [done|]. split; [done|]. split; [done|].
      exists (pg_channel pending), (pg_delivery_tags pending). split; [|done].
      rewrite Htrace, !acks_app, (acks_map _ (fun tag => tag)). unfold acks at 2. cbn.
      by rewrite app_nil_r.
    - apply pull_page_none in Hp; [|done]. exists None, (w_rabbit w1).
      split; [unfold Rabbit.commit_page, gets, mbind, M_bind; by rewrite Hp|].
      split; [done|]. split; [by auto|]. exists 0%N, []. by rewrite app_nil_r. }
  destruct (commit_page_runs REL cfg auth {| cm_page_id := dp_page_id page;
    cm_delivery_class := class; cm_commit_token := dp_commit_token page |} claims session w1 w1'
    out s') as (now & resp & w2 & Hcommit & Hd & Htrace & Howners & Hg); try done.
  { intros t'. apply (issued_verifies _ claims); [done|]. apply Hwall. }
  { intros Hn now. apply Hsome in Hn. destruct (dp_gaps page) as [|gap gaps]; [done|]. cbn.
    destruct (load_for_page_gap _ _ _ _ _ _ _ _ _ _ _ gap Hgaps) as (_ & _ & _ & _ & row' & Hrow' & Hon & _);
      [by left|].
    exact (acknowledge_positive now _ _ _ _ _ _ _ Hrow' Hon). }
  exists session, resp, w2, channel, tags. rewrite Hd, Htrace, Howners. split_and!; [done..| |].
  - intros gap Hgap. destruct (load_for_page_gap _ _ _ _ _ _ _ _ _ _ _ _ Hgaps Hgap)
      as (_ & _ & _ & _ & row' & Hrow' & Hon & _).
    rewrite Hg, acknowledge_lookup, Hrow'. cbn. rewrite decide_True by done. by do 2 eexists.
  - apply lookup_delete_eq.
Qed.

(** An object is served only if it is what was asked for.  Bytes are returned only
    to an authenticated session, only from the directory of the session's network,
    under a name that is a SHA-256 digest in hexadecimal with an optional prefix and so
    names no other directory, and only if they hash to that digest; serving changes
    nothing. *)
Theorem fetch_object_verified `{JV : JsonValue, HO : Host, TR : Transport,
      HX : Hex, SHA : Sha256, TC : TokenCodec,
      AM : Amqp, HH : !HttpHost} cfg auth digest w bytes w' :
  fetch_object cfg auth digest w = (Ok (ObjectFound bytes), w') →
  ∃ session root expected,
    authenticated auth session (w_db w) ∧ object_store_root cfg = Some root ∧
    (digest = expected ∨ digest = "sha256:" +:+ expected) ∧
    len expected = 64%Z ∧ has_char "/" digest = false ∧ has_char "." digest = false ∧
    fs_read [root; hex_encode (sha256 (vs_network_id session)); digest] = Ok bytes ∧
    hex_encode (sha256 bytes) = to_ascii_lowercase expected ∧ same_world w w'.
Proof.
  unfold fetch_object. intros H. apply M_bind_ok in H as (session & w1 & Hs & H).
  apply session_ok in Hs as [Hs S1]. unfold refuse_if in H.
  apply M_bind_ok in H as (u & w2 & Hc & H). apply lift_ok in Hc as [Hc ->].
  apply bail_if_ok, orb_false_elim in Hc as [Hlen Hhex].
  apply negb_false_iff in Hlen, Hhex. apply Z.eqb_eq in Hlen.
  destruct (object_store_root cfg) as [root|]; [|done].
  destruct (fs_metadata _) as [[[] size]|]; [|done..].
  apply M_bind_ok in H as (u2 & w3 & Hc & H). apply lift_ok in Hc as [_ ->].
  apply M_bind_ok in H as (bytes' & w4 & Hr & H). apply api_ok, lift_ok in Hr as [Hr ->].
  apply M_bind_ok in H as (u3 & w5 & Hc & H). apply lift_ok in Hc as [Hd ->].
  apply bail_if_ok, negb_false_iff, bool_decide_eq_true_1 in Hd. injection H as -> ->.
  set (expected := default digest (strip_prefix "sha256:" digest)) in *.
  exists session, root, expected.
  assert (digest = expected ∨ digest = "sha256:" +:+ expected) as Hdig.
  { unfold expected. destruct (strip_prefix "sha256:" digest) as [e|] eqn:Hp; [|by left].
    right. by apply strip_prefix_Some in Hp. }
  clearbody expected.
  assert (∀ c, is_ascii_hexdigit c = false → has_char c "sha256:" = false →
    has_char c digest = false) as Hno.
  { intros c Hc1 Hc2. pose proof (all_bytes_has_char _ c _ Hhex Hc1) as He.
    destruct Hdig as [Hdig|Hdig]; rewrite Hdig; [done|]. by rewrite has_char_app, Hc2, He. }
  split_and!; try done; by apply Hno.
Qed.

(** ** Witnesses *)

(** A gateway without peers whose object store holds one object. *)
Definition http_impl :
    @HttpHost json_value_impl transport_impl sample_codec := {|
  header_to_str := Some;
  page_validate _ := Ok ();
  identity_from_pem _ := Ok ();
  certificate_from_pem _ := Ok ();
  client_build := Ok ();
  ResponseBody := option Z;
  post_commit _ _ _ d := (Err "connection refused", d);
  body_committed_deliveries b := b;
  fs_metadata _ := Some (true, 5%Z);
  fs_read _ := Ok "12345678901234567890123456789012";
|}.

Definition sample_session_row : SessionRow := {|
  ss_token_hash := hash_token (HX:=hex_impl) (SHA:=sha256_id) "tok"; ss_network_id := "net";
  ss_expires_at := 9000000%Z; ss_created_at := 0%Z |}.

Definition sample_mailbox_db (owners : OwnerTable) : @Db json_value_impl :=
  on_owners (fun _ => owners)
  (on_gaps (fun _ => sample_gaps)
  (on_session_principals (insert ("s1", "alice") {| sr_verified_at := 0%Z; sr_expires_at := 9000000%Z |})
  (on_sessions (insert "s1" sample_session_row)
  (on_members (insert ("net", "global", "alice") (sample_member "v1" [])) db_empty)))).

Definition sample_mailbox_world (owners : OwnerTable) : @World json_value_impl amqp_impl := {|
  w_db := sample_mailbox_db owners; w_tx := fun d => d; w_rabbit := sample_mailbox;
  w_tick := 0%nat |}.

Definition sample_bearer : option string := Some "Bearer tok".

Definition sample_pull_page (w : @World json_value_impl amqp_impl) :=
  MgHttp.pull_page (HO:=frozen_host) (HX:=hex_impl) (SHA:=sha256_id) (HM:=hmac_pair)
    (CL:=class_impl) (TJ:=json_impl) (EC:=envelope_impl) (HH:=http_impl) sample_config sample_bearer
    Bulk None w.

Definition sample_page : result ApiError (option (@DeliveryPage transport_impl sample_codec)) :=
  (sample_pull_page (sample_mailbox_world ∅)).1.

Definition pulled_counts (r : result ApiError (option (@DeliveryPage transport_impl sample_codec))) :
    option (nat * nat * nat) :=
  match r with
  | Ok (Some page) =>
      Some (length (dp_deliveries page), length (dp_controls page), length (dp_gaps page))
  | _ => None
  end.

Lemma sample_reliable : reliable (HO:=frozen_host) (AM:=amqp_impl).
Proof. split; reflexivity. Qed.

Lemma pulled_page_commits_witness :
  ∃ page resp w2, (sample_pull_page (sample_mailbox_world ∅)).1 = Ok (Some page) ∧
    length (dp_deliveries page) = 1 ∧ length (dp_gaps page) = 1 ∧
    MgHttp.commit_page (HO:=frozen_host) (HX:=hex_impl) (SHA:=sha256_id) (HM:=hmac_pair)
      (CL:=class_impl) (HH:=http_impl) sample_config sample_bearer
      {| cm_page_id := dp_page_id page; cm_delivery_class := Bulk;
         cm_commit_token := dp_commit_token page |} (sample_pull_page (sample_mailbox_world ∅)).2
      = (Ok resp, w2) ∧ co_committed_deliveries resp = 1.
Proof.
  assert (pulled_counts sample_page = Some (1, 0, 1)) as Hcounts by (vm_compute; reflexivity).
  unfold pulled_counts in Hcounts.
  destruct sample_page as [[page|]|] eqn:Hpage; [|discriminate..]. injection Hcounts as H1 H2 H3.
  unfold sample_page in Hpage. pose proof (M_run_ok _ _ _ Hpage) as Hrun.
  assert (steady (HO:=frozen_host) (w_db (sample_mailbox_world ∅))) as Hsteady by (split; reflexivity).
  assert (rb_pending_pages (w_rabbit (sample_mailbox_world ∅)) !! dp_page_id page = None)
    as Hfresh by apply lookup_empty.
  assert (∀ t t', (db_clock (Host:=frozen_host) t' <
    db_clock (Host:=frozen_host) t + delivery_owner_lease sample_config * 1000)%Z) as Hlease
    by (intros t t'; vm_compute; reflexivity).
  assert (∀ t t', (unix_ms (HO:=frozen_host) t' <
    sat_add (unix_ms (HO:=frozen_host) t) (lease_ms sample_config))%Z) as Hwall
    by (intros t t'; vm_compute; reflexivity).
  unfold sample_pull_page in *.
  destruct (pulled_page_commits (HXL:=hex_impl_laws) (TCL:=sample_codec_laws) _ _ _ _ _ _ _
    sample_reliable Hsteady Hlease Hwall Hfresh Hrun)
    as (session & resp & w2 & ch & tags & _ & Hc & Hd & _).
  exists page, resp, w2. split; [exact Hpage|]. split; [exact H1|]. split; [exact H3|].
  split; [exact Hc|]. rewrite Hd, H1, H2. reflexivity.
Defined.

(** The mailbox is leased to another consumer until after every reading of the
    clock. *)
Definition sample_held : OwnerRow := {|
  ow_instance_id := "gateway-b"; ow_consumer_epoch := "other-epoch";
  ow_lease_expires_at := 9000000%Z; ow_owner_route := ""; ow_updated_at := 0%Z |}.

Definition sample_leased : @World json_value_impl amqp_impl :=
  sample_mailbox_world
    {[ owner_key (CL:=class_impl) "net" "alice" Bulk := sample_held ]}.

Lemma sample_authenticated owners session :
  authenticated (HO:=frozen_host) (HX:=hex_impl) (SHA:=sha256_id) (HH:=http_impl) sample_bearer
    session (sample_mailbox_db owners) →
  vs_network_id session = "net" ∧ vs_principal_id session = "alice".
Proof.
  intros (header & value & t & t' & [= <-] & [= <-] & _ & Hl & _).
  assert (live_sessions 1000000 (hash_token (HX:=hex_impl) (SHA:=sha256_id) "tok")
    (sample_mailbox_db owners) = [{| vs_session_id := "s1"; vs_network_id := "net";
      vs_principal_id := "alice" |}]) as Hlive by (vm_compute; reflexivity).
  change (head (live_sessions 1000000 (hash_token (HX:=hex_impl) (SHA:=sha256_id) "tok")
    (sample_mailbox_db owners)) = Some session) in Hl.
  rewrite Hlive in Hl. clear Hlive. injection Hl as <-. split; reflexivity.
Qed.

Lemma pull_page_excluded_witness :
  (sample_pull_page sample_leased).1 = Ok None ∧
  untouched sample_leased (sample_pull_page sample_leased).2.
Proof.
  assert (match (sample_pull_page sample_leased).1 with Ok None => true | _ => false end = true)
    as Hnone by (vm_compute; reflexivity).
  split; [by destruct (sample_pull_page sample_leased).1 as [[]|]; try discriminate|].
  assert (∀ session, authenticated (HO:=frozen_host) (HX:=hex_impl) (SHA:=sha256_id)
      (HH:=http_impl) sample_bearer session (w_db sample_leased) →
    db_owners (w_db sample_leased) !! owner_key (CL:=class_impl) (vs_network_id session)
      (vs_principal_id session) Bulk = Some sample_held) as Hheld.
  { intros session [-> ->]%sample_authenticated. reflexivity. }
  assert (∀ t, (db_clock (Host:=frozen_host) t < ow_lease_expires_at sample_held)%Z ∧
    fresh_uuid (Host:=frozen_host) t ≠ ow_consumer_epoch sample_held) as Hlease
    by (intros t; split; [reflexivity|discriminate]).
  apply (pull_page_excluded (HO:=frozen_host) (HX:=hex_impl) (SHA:=sha256_id) (HM:=hmac_pair)
    (CL:=class_impl) (TJ:=json_impl) (EC:=envelope_impl) (HH:=http_impl) sample_config sample_bearer
    Bulk None sample_leased (sample_pull_page sample_leased).1
    (sample_pull_page sample_leased).2 sample_held Hheld Hlease).
  apply surjective_pairing.
Defined.

Definition sample_store_env : ProcessEnv := {|
  env_var key := if bool_decide (key = "WATTSWARM_CS_OBJECT_STORE_ROOT") then Some "/objects"
                 else env_var sample_env key;
  env_file := env_file sample_env; env_fresh_uuid := env_fresh_uuid sample_env;
  env_parse_addr := env_parse_addr sample_env;
  env_decode_genesis := env_decode_genesis sample_env |}.

Definition sample_digest : string :=
  "sha256:" +:+ hex_encode_bytes "12345678901234567890123456789012".

Definition sample_fetch : option (result ApiError ObjectResponse) :=
  match @from_env hex_impl sample_store_env with
  | Ok config => Some (fetch_object (HO:=frozen_host) (HX:=hex_impl) (SHA:=sha256_id)
      (HH:=http_impl) config sample_bearer sample_digest (sample_mailbox_world ∅)).1
  | Err _ => None
  end.

Lemma fetch_object_verified_witness :
  sample_fetch = Some (Ok (ObjectFound "12345678901234567890123456789012")) ∧
  has_char "/" sample_digest = false.
Proof.
  assert (sample_fetch = Some (Ok (ObjectFound "12345678901234567890123456789012"))) as H
    by (vm_compute; reflexivity).
  split; [exact H|]. unfold sample_fetch in H.
  destruct (from_env sample_store_env) as [config|]; [|discriminate]. apply (inj Some) in H.
  destruct (fetch_object_verified (HO:=frozen_host) (HX:=hex_impl) (SHA:=sha256_id) (HH:=http_impl)
    _ _ _ _ _ _ (M_run_ok _ _ _ H)) as (session & root & expected & _ & _ & _ & _ & Hno & _).
  exact Hno.
Defined.
