(* ===== verification/Membership.v ===== *)
(** * Membership changes

    Theorems about the membership part of [Service.v]: what
    [apply_membership_mutation] leaves in the database and at the broker, the
    quorum rule of [validate_membership_snapshot_authority], the limit on mutations
    per window, and what admitting a grant does to the roles of the members. *)

From S2P Require Import Prelude Str External MgConfig Owners Buckets Gaps Observability Amqp Rabbit Protocol MgDb Auth Service.

Section store.
Context `{JV : JsonValue, HO : Host, MS : !Memberships, TR : Transport, CL : DeliveryClassOps,
          AM : Amqp}.

(** A database without the four tables that belong to scopes. *)
Definition without_scopes (d : Db) : Db :=
  on_members (fun _ => ∅) (on_versions (fun _ => ∅) (on_routes (fun _ => ∅)
    (on_windows (fun _ => ∅) d))).

(** Only rows of one scope differ: its members, routes, version and window. *)
Record only_scope (n l : string) (d d' : Db) : Prop := {
  os_members n' l' p : (n', l') ≠ (n, l) → db_members d' !! (n', l', p) = db_members d !! (n', l', p);
  os_routes n' l' r p c : (n', l') ≠ (n, l) →
    db_routes d' !! (n', l', r, p, c) = db_routes d !! (n', l', r, p, c);
  os_versions k : k ≠ (n, l) → db_versions d' !! k = db_versions d !! k;
  os_windows k : k ≠ (n, l) → db_windows d' !! k = db_windows d !! k;
  os_rest : without_scopes d' = without_scopes d;
}.

#[export] Instance only_scope_preorder n l : PreOrder (only_scope n l).
Proof.
  split; [by split|]. intros d1 d2 d3 [A1 A2 A3 A4 A5] [B1 B2 B3 B4 B5]. split; intros.
  - by rewrite B1, A1.
  - by rewrite B2, A2.
  - by rewrite B3, A3.
  - by rewrite B4, A4.
  - congruence.
Qed.

(** The row of a member of the new version. *)
Definition member_row (n l : string) (m : MembershipMutation) (d : Db) (p : string) : Prop :=
  ∃ row, db_members d !! (n, l, p) = Some row ∧ me_state row = Active ∧
    me_membership_version row = mutation_version m ∧ mutation_roles m p = Ok (me_roles_json row).

(** The route rows of a scope: one for each route, member and class. *)
Definition routes_exactly (n l v : string) (routes : list string) (desired : string -> Prop)
    (d : Db) : Prop :=
  ∀ r p c,
    (is_Some (db_routes d !! (n, l, r, p, c)) ↔
       r ∈ routes ∧ desired p ∧ c ∈ class_as_str <$> class_all) ∧
    (∀ row, db_routes d !! (n, l, r, p, c) = Some row →
       ro_membership_version row = v ∧ ro_binding_state row = "active").

(** The tables of a scope after a mutation has been stored. *)
Record stored (n l : string) (m : MembershipMutation) (routes desired : list string) (d d' : Db) :
    Prop := {
  st_in p : p ∈ desired → member_row n l m d' p;
  st_out p : p ∉ desired → ∀ row, db_members d' !! (n, l, p) = Some row → me_state row = Revoked;
  st_version : scope_version n l d' = Some (mutation_version m);
  st_routes : routes_exactly n l (mutation_version m) routes (fun p => p ∈ desired) d';
  st_only : only_scope n l d d';
}.

Lemma revoke_scope_lookup now n l v d k row :
  db_members (revoke_scope now n l v d) !! k = Some row →
  (k.1 = (n, l) ∧ me_state row = Revoked) ∨ (k.1 ≠ (n, l) ∧ db_members d !! k = Some row).
Proof.
  cbn. rewrite map_lookup_imap. destruct (db_members d !! k) as [old|]; cbn; [|done].
  case_decide; intros [= <-]; auto.
Qed.

Lemma revoke_scope_only now n l v d : only_scope n l d (revoke_scope now n l v d).
Proof.
  split; try done. intros n' l' p Hne. cbn. rewrite map_lookup_imap.
  destruct (db_members d !! _); cbn; [|done]. by rewrite decide_False.
Qed.

Lemma upsert_member_only now n l p v roles d :
  only_scope n l d (upsert_member now n l p v roles d).
Proof. split; try done. intros n' l' q Hne. cbn. by rewrite lookup_insert_ne by congruence. Qed.

Lemma upsert_version_only now n l v d : only_scope n l d (upsert_version now n l v d).
Proof. split; try done. intros k Hne. cbn. by rewrite lookup_insert_ne. Qed.

Lemma delete_scope_routes_only n l d : only_scope n l d (delete_scope_routes n l d).
Proof.
  split; try done. intros n' l' r p c Hne. cbn. rewrite map_lookup_filter.
  destruct (db_routes d !! _) as [row|]; cbn; [|done]. by rewrite option_guard_True.
Qed.

Lemma delete_scope_routes_gone n l r p c d :
  db_routes (delete_scope_routes n l d) !! (n, l, r, p, c) = None.
Proof. cbn. apply map_lookup_filter_None. right. intros row _ Hne. by apply Hne. Qed.

(** What the upserts of the loop leave. *)
Record upserted (n l : string) (m : MembershipMutation) (ps : list string) (d d' : Db) : Prop := {
  up_in p : p ∈ ps → member_row n l m d' p;
  up_out k : (∀ p, p ∈ ps → k ≠ (n, l, p)) → db_members d' !! k = db_members d !! k;
  up_only : only_scope n l d d';
}.

Lemma upserted_step now n l m ps p roles d d' :
  upserted n l m ps d d' → mutation_roles m p = Ok roles →
  upserted n l m (ps ++ [p]) d (upsert_member now n l p (mutation_version m) roles d').
Proof.
  intros [H1 H2 H3] Hr. split; [| |by etrans; [|apply upsert_member_only]]; cbn.
  - intros q Hq. unfold member_row. cbn. destruct (decide (q = p)) as [->|Hne].
    + rewrite lookup_insert_eq. eexists. done.
    + rewrite lookup_insert_ne by congruence. apply H1. set_solver.
  - intros k Hk. rewrite lookup_insert_ne; [apply H2|]; intros; [|symmetry]; apply Hk; set_solver.
Qed.

Lemma upsert_loop n l m ps w w' :
  for_each ps (fun principal =>
    roles ← lift (mutation_roles m principal);
    tx_update (fun now => upsert_member now n l principal (mutation_version m) roles)) w
    = (Ok (), w') →
  upserted n l m ps (tx_view w) (tx_view w') ∧ w_db w' = w_db w ∧ w_rabbit w' = w_rabbit w.
Proof.
  apply (for_each_ok_ind (fun ps s => upserted n l m ps (tx_view w) (tx_view s) ∧
    w_db s = w_db w ∧ w_rabbit s = w_rabbit w)).
  - intros ys x _ s s' _ (HI & Hd & Hr) Hs. inv_W. rewrite Hd, Hr in *.
    match goal with H : tx_view s' = _ |- _ => rewrite H end. split; [by apply upserted_step|done].
  - split; [|done]. split; [set_solver|done|reflexivity].
Qed.

(** Statements that only add route rows, of the version [v], under the keys [K]. *)
Record routed (v : string) (K : string * string * string * string * string -> Prop) (w w' : World) :
    Prop := {
  rt_new k row : db_routes (tx_view w') !! k = Some row →
    db_routes (tx_view w) !! k = Some row ∨
    K k ∧ ro_membership_version row = v ∧ ro_binding_state row = "active";
  rt_all k : K k → is_Some (db_routes (tx_view w') !! k);
  rt_old k row : db_routes (tx_view w) !! k = Some row → db_routes (tx_view w') !! k = Some row;
  rt_rest : on_routes (fun _ => ∅) (tx_view w') = on_routes (fun _ => ∅) (tx_view w);
  rt_db : w_db w' = w_db w;
  rt_rabbit : w_rabbit w' = w_rabbit w;
}.

Lemma routed_for_each {A} v (K : A -> _ -> Prop) (f : A -> W ()) xs w w' :
  (∀ x w w', f x w = (Ok (), w') → routed v (K x) w w') →
  for_each xs f w = (Ok (), w') → routed v (fun k => ∃ x, x ∈ xs ∧ K x k) w w'.
Proof.
  intros Hf. apply (for_each_ok_ind (fun xs => routed v (fun k => ∃ x, x ∈ xs ∧ K x k) w)).
  - intros ys x _ s s' _ [A1 A2 A3 A4 A5 A6] [B1 B2 B3 B4 B5 B6]%Hf. split; [| |auto|congruence..].
    + intros k row [[|((y & ? & ?) & ?)]%A1|(? & ?)]%B1; [by left|right|right]; split; try done;
        [exists y|exists x]; set_solver.
    + intros k (y & [Hy| ->%list_elem_of_singleton]%elem_of_app & HK); [|by apply B2].
      destruct (A2 k) as [row Hrow]; [by exists y|]. eauto.
  - split; try done; [by left|set_solver].
Qed.

Lemma insert_route_routed n l r p c v w w' :
  tx_execute (fun now => insert_route now n l r p c v) w = (Ok (), w') →
  routed v (eq (n, l, r, p, class_as_str c)) w w'.
Proof.
  intros (now & Hu & Hd & Hr)%tx_execute_ok. unfold insert_route in Hu.
  destruct (insert_new _ _ _) as [rs|] eqn:Hi in Hu; [|done]. apply insert_new_ok in Hi as [Hn ->].
  cbn in Hu. injection Hu as Hu. split; try done; rewrite <- Hu; cbn; [| | |done].
  - intros k row [[<- <-]|[_ ?]]%lookup_insert_Some; [by right|by left].
  - intros k <-. by rewrite lookup_insert_eq.
  - intros k row Hk. rewrite lookup_insert_ne by congruence. done.
Qed.

Lemma route_loop n l v rs ps cs w w' :
  for_each rs (fun route => for_each ps (fun principal => for_each cs (fun class =>
    tx_execute (fun now => insert_route now n l route principal class v)))) w = (Ok (), w') →
  routed v (fun k => ∃ r, r ∈ rs ∧ ∃ p, p ∈ ps ∧ ∃ c, c ∈ cs ∧ (n, l, r, p, class_as_str c) = k) w w'.
Proof.
  apply (routed_for_each v (fun r k => ∃ p, p ∈ ps ∧ ∃ c, c ∈ cs ∧ (n, l, r, p, class_as_str c) = k)).
  intros r s s'.
  apply (routed_for_each v (fun p k => ∃ c, c ∈ cs ∧ (n, l, r, p, class_as_str c) = k)).
  intros p t t'. apply (routed_for_each v (fun c k => (n, l, r, p, class_as_str c) = k)).
  intros c u u'. apply insert_route_routed.
Qed.

(** Replacing the routes of a scope. *)
Lemma routes_replaced n l v rs (ps : list string) d w w' :
  tx_view w = delete_scope_routes n l d →
  routed v (fun k => ∃ r, r ∈ rs ∧ ∃ p, p ∈ ps ∧ ∃ c, c ∈ class_all ∧
    (n, l, r, p, class_as_str c) = k) w w' →
  routes_exactly n l v rs (fun p => p ∈ ps) (tx_view w') ∧ only_scope n l d (tx_view w').
Proof.
  intros Hw [R1 R2 R3 R4 _ _]. split.
  - assert (∀ r p c row, db_routes (tx_view w') !! (n, l, r, p, c) = Some row →
      (r ∈ rs ∧ p ∈ ps ∧ c ∈ class_as_str <$> class_all) ∧
      ro_membership_version row = v ∧ ro_binding_state row = "active") as Hnew.
    { intros r p c row [H|((r' & Hr & p' & Hp & c' & Hc & [= -> -> <-]) & ?)]%R1.
      - rewrite Hw, delete_scope_routes_gone in H. done.
      - split; [|done]. split_and!; [done..|]. by apply list_elem_of_fmap_2. }
    intros r p c. split; [|by intros row [_ ?]%Hnew]. split.
    + by intros [row [? _]%Hnew].
    + intros (? & ? & (c' & -> & ?)%list_elem_of_fmap). apply R2. eauto 10.
  - etrans; [apply (delete_scope_routes_only n l)|]. rewrite <- Hw. split; try done.
    + intros n' l' p _. exact (f_equal (fun d => db_members d !! (n', l', p)) R4).
    + intros n' l' r p c Hne. destruct (db_routes (tx_view w) !! _) as [row|] eqn:Hk; [by apply R3|].
      destruct (db_routes (tx_view w') !! _) as [row|] eqn:Hk'; [|done].
      apply R1 in Hk' as [Hk'|((? & _ & ? & _ & ? & _ & ?) & _)]; congruence.
    + intros k _. exact (f_equal (fun d => db_versions d !! k) R4).
    + intros k _. exact (f_equal (fun d => db_windows d !! k) R4).
    + exact (f_equal without_scopes R4).
Qed.

Lemma store_membership_ok n l m routes desired w w' :
  store_membership n l m routes desired w = (Ok (), w') →
  stored n l m routes desired (tx_view w) (tx_view w') ∧
  w_db w' = w_db w ∧ w_rabbit w' = w_rabbit w.
Proof.
  unfold store_membership. intros H.
  apply M_bind_ok in H as ([] & w1 & H1 & H). apply M_bind_ok in H as ([] & w2 & H2 & H).
  apply M_bind_ok in H as ([] & w3 & H3 & H). apply M_bind_ok in H as ([] & w4 & H4 & H5).
  apply upsert_loop in H2 as ([U1 U2 U3] & Hd2 & Hr2). apply route_loop in H4 as Hrt.
  apply tx_update_ok in H1 as (t1 & Hv1 & Hd1 & Hr1).
  apply tx_update_ok in H3 as (t3 & Hv3 & Hd3 & Hr3).
  apply tx_update_ok in H5 as (t5 & Hv5 & Hd5 & Hr5).
  pose proof Hrt as [_ _ _ Hrest Hd4 Hr4].
  apply (routes_replaced _ _ _ _ _ _ _ _ Hv3) in Hrt as [Hroutes Honly].
  assert (db_members (tx_view w4) = db_members (tx_view w2)) as Hm.
  { rewrite Hv3 in Hrest. exact (f_equal db_members Hrest). }
  split; [|split; congruence]. rewrite Hv5. split.
  - intros p Hp. unfold member_row. cbn. rewrite Hm. by apply U1.
  - intros p Hp row. cbn. rewrite Hm, U2 by (intros; intros ?; by simplify_eq). rewrite Hv1.
    intros [[_ ?]|[? _]]%revoke_scope_lookup; done.
  - unfold scope_version. cbn. rewrite lookup_insert_eq. done.
  - exact Hroutes.
  - etrans; [apply (revoke_scope_only (db_clock t1) n l (mutation_version m))|]. rewrite <- Hv1.
    etrans; [exact U3|]. etrans; [exact Honly|]. apply upsert_version_only.
Qed.
End store.

Section cutover.
Context `{JV : JsonValue, HO : Host, MS : !Memberships, TR : Transport, PR : !Protocol, HX : Hex,
          SHA : Sha256, CL : DeliveryClassOps, TJ : TupleJson, EC : !EnvelopeCodec,
          AML : AmqpLaws}.

Lemma binds_before_deadline P deadline msg step :
  binds P step → binds P (before_deadline deadline msg step).
Proof.
  intros H. eapply binds_weaken, (binds_bind P no_bindings); [|done|intros []].
  - unfold no_bindings. tauto.
  - eapply binds_weaken, (binds_bind no_bindings no_bindings); [|apply binds_gets|intros now;
      apply binds_lift]. unfold no_bindings. tauto.
Qed.

(** The bindings a membership change asks for. *)
Definition member_bindings (n v : string) (routes desired fresh : list string) (e k q : string) :
    Prop :=
  (∃ r, r ∈ routes ∧ ∃ p, p ∈ desired ∧
     (mailbox_bindings n p e k q ∨ scope_bindings n p r v e k q)) ∨
  (∃ p, p ∈ fresh ∧ mailbox_bindings n p e k q).

Lemma binds_bind_members cfg n v routes desired fresh :
  binds (member_bindings n v routes desired fresh) (bind_members cfg n v routes desired fresh).
Proof.
  unfold bind_members. eapply binds_weaken, (binds_bind no_bindings);
    [|apply binds_gets|intros started].
  2: { apply binds_bind; [|intros _].
    - apply (binds_for_each (fun r e k q => ∃ p, p ∈ desired ∧
        (mailbox_bindings n p e k q ∨ scope_bindings n p r v e k q))). intros r.
      apply (binds_for_each (fun p e k q =>
        mailbox_bindings n p e k q ∨ scope_bindings n p r v e k q)). intros p.
      apply binds_before_deadline, binds_bind_scope_member.
    - apply (binds_for_each (fun p e k q => mailbox_bindings n p e k q)). intros p.
      apply binds_before_deadline, binds_ensure_tenant_mailboxes. }
  unfold no_bindings, member_bindings. tauto.
Qed.

(** On the scope exchanges only the members of the change are bound. *)
Lemma member_bindings_scope n v routes desired fresh c k q :
  member_bindings n v routes desired fresh (scope_exchange c) k q ↔
  ∃ r p, r ∈ routes ∧ p ∈ desired ∧ c ∈ class_all ∧ k = scope_route_key n r v ∧
    q = queue_name n p c.
Proof.
  split.
  - intros [(r & Hr & p & Hp & [H|H])|(p & _ & H)]; try by apply mailbox_not_scope in H.
    destruct H as (c' & Hc & He & -> & ->). apply scope_exchange_inj in He as ->. eauto 10.
  - intros (r & p & Hr & Hp & Hc & -> & ->). left. exists r. split; [done|]. exists p.
    split; [done|]. right. exists c. done.
Qed.

Lemma rabbit_ok {A} (m : R A) w a w' :
  rabbit m w = (Ok a, w') →
  m (w_rabbit w) = (Ok a, w_rabbit w') ∧ w_db w' = w_db w ∧ tx_view w' = tx_view w.
Proof.
  unfold rabbit, zoom. destruct (m (w_rabbit w)) as [r s] eqn:Hm. by intros [= -> <-].
Qed.

Lemma record_membership_mutation_ok cfg n l v w w' :
  record_membership_mutation cfg n l v w = (Ok (), w') →
  w_db w' = w_db w ∧ w_rabbit w' = w_rabbit w ∧
  (∃ row, tx_view w' = on_windows (insert (n, l) row) (tx_view w)) ∧
  ∃ t row, row = next_window (db_clock t) (as_i64 (membership_mutation_window cfg)) v
      (db_windows (tx_view w) !! (n, l)) ∧
    db_windows (tx_view w') !! (n, l) = Some row ∧
    (as_u64 (wi_mutation_count row) <= max_membership_mutations_per_scope_per_window cfg)%Z.
Proof.
  unfold record_membership_mutation. intros H. inv_W. same_views.
  match goal with H : tx_view _ = on_windows _ _ |- _ => rewrite H in * end.
  cbn in *. rewrite lookup_insert_eq in *. cbn in *. simplify_eq. split_and!; try congruence.
  - eexists. chase_worlds. done.
  - eexists _, _. split; [done|]. chase_worlds. cbn. rewrite lookup_insert_eq.
    split; [done|]. by apply Z.ltb_ge.
Qed.

Lemma stored_after_window n l m routes desired window d d' :
  stored n l m routes desired (on_windows (insert (n, l) window) d) d' →
  stored n l m routes desired d d'.
Proof.
  intros [H1 H2 H3 H4 H5]. split; try done. etrans; [|exact H5].
  split; try done. intros k Hk. cbn. by rewrite lookup_insert_ne.
Qed.

(** The run of a successful mutation, from the transaction's view. *)
Lemma apply_membership_mutation_ok cfg n m add w count w' l :
  scope_label (mutation_scope m) = Ok l →
  apply_membership_mutation cfg n m add w = (Ok count, w') →
  let existing := list_to_set (active_members n l (tx_view w)).*1 : gset string in
  let desired := desired_members m existing in
  let routes := add_route add (scope_route_addresses n l (tx_view w)) in
  count = Z.of_nat (size desired) ∧
  (mutation_scope m = Global → validate_proposed_tenant_count cfg count = Ok ()) ∧
  w_db w' = w_db w ∧
  bind_members cfg n (mutation_version m) routes (btree desired) (btree (desired ∖ existing))
    (w_rabbit w) = (Ok (), w_rabbit w') ∧
  stored n l m routes (btree desired) (tx_view w) (tx_view w').
Proof.
  intros Hl. unfold apply_membership_mutation. intros H. cbn zeta in H.
  repeat match goal with
  | H : mbind _ _ _ = (Ok _, _) |- _ => apply M_bind_ok in H as (? & ? & ? & H)
  end.
  rewrite Hl in *. inv_W.
  match goal with H : rabbit instant _ = _ |- _ => apply rabbit_ok in H as (Hi & ? & ?) end.
  cbv [instant gets] in Hi. injection Hi as _ Hi.
  match goal with H : record_membership_mutation _ _ _ _ _ = _ |- _ =>
    apply record_membership_mutation_ok in H as (? & ? & [window Hf] & _) end.
  match goal with H : whenM _ _ _ = _ |- _ => apply whenM_lift_ok in H as [-> Hadm] end.
  match goal with H : rabbit _ _ = _ |- _ => apply rabbit_ok in H as (Hb & ? & ?) end.
  match goal with H : store_membership _ _ _ _ _ _ = _ |- _ =>
    apply store_membership_ok in H as (Hst & ? & ?) end.
  same_views.
  repeat match goal with H : tx_view ?x = _, K : context [tx_view ?x] |- _ =>
    lazymatch K with H => fail | _ => rewrite H in K end end.
  split_and!.
  - by rewrite Hf.
  - intros Hg. rewrite Hf. by apply Hadm, bool_decide_eq_true_2.
  - congruence.
  - replace (w_rabbit w) with (w_rabbit x10) by congruence.
    replace (w_rabbit w') with (w_rabbit x12) by congruence. exact Hb.
  - chase_worlds. exact (stored_after_window _ _ _ _ _ _ _ _ Hst).
Qed.
End cutover.

(** ** Quorum *)

Section quorum.
Context `{JV : JsonValue, HO : Host, MS : !Memberships, TR : Transport, PR : !Protocol,
          AM : Amqp}.

(** The counter never exceeds the number of distinct allowed signers whose
    signature verifies. *)
Lemma count_valid_signers allowed message sigs : ∀ unique valid, (0 <= valid)%Z →
  ∃ signers, NoDup signers ∧
    (count_valid allowed message unique valid sigs <= valid + Z.of_nat (length signers))%Z ∧
    ∀ s, s ∈ signers → s ∉ unique ∧ s ∈ allowed ∧
      ∃ sig, sig ∈ sigs ∧ se_signer_node_id sig = s ∧
        verify_signature s message (se_signature_hex sig) = Ok ().
Proof.
  induction sigs as [|sig sigs IH]; intros unique valid Hv; cbn [count_valid].
  { exists []. split_and!; [apply NoDup_nil_2|cbn; lia|set_solver]. }
  set (s := se_signer_node_id sig). set (unique' := {[s]} ∪ unique).
  assert (∀ valid', (0 <= valid')%Z → ∃ signers, NoDup signers ∧ s ∉ signers ∧
    (count_valid allowed message unique' valid' sigs <= valid' + Z.of_nat (length signers))%Z ∧
    ∀ x, x ∈ signers → x ∉ unique ∧ x ∈ allowed ∧ ∃ sig', sig' ∈ sig :: sigs ∧
      se_signer_node_id sig' = x ∧ verify_signature x message (se_signature_hex sig') = Ok ()) as IH'.
  { intros valid' Hv'. destruct (IH unique' valid' Hv') as (signers & H1 & H2 & H3).
    exists signers. split_and!; [done| |done|].
    - intros Hin. apply H3 in Hin as [Hin _]. set_solver.
    - intros x Hx. destruct (H3 x Hx) as (Hu & Ha & sig' & Hs & He). split_and!; [set_solver|done|].
      exists sig'. split; [by right|done]. }
  case_bool_decide as Hin; cbn; [destruct (IH' valid Hv) as (l & ? & _ & ? & ?); by exists l|].
  case_bool_decide as Hal; cbn; [|destruct (IH' valid Hv) as (l & ? & _ & ? & ?); by exists l].
  destruct (verify_signature s message (se_signature_hex sig)) as [[]|] eqn:Hver; cbn;
    [|destruct (IH' valid Hv) as (l & ? & _ & ? & ?); by exists l].
  unfold u32_saturating_succ, u32_max. destruct (IH' (Z.min (valid + 1) 4294967295)) as (l & Hnd & Hnin & Hc & Hall);
    [lia|].
  exists (s :: l). split_and!; [by apply NoDup_cons|cbn; lia|].
  intros x Hx. apply elem_of_cons in Hx as [->|Hx]; [|by apply Hall].
  split_and!; [done|done|]. exists sig. split; [by left|done].
Qed.

Lemma decode_roles_lookup rows : ∀ m p roles, decode_roles rows = Ok m → m !! p = Some roles →
  ∃ row, (p, row) ∈ rows ∧ roles_from_value (me_roles_json row) = Ok roles.
Proof.
  induction rows as [|[q row] rows IH]; intros m p roles Hm Hp; cbn in Hm; inv_result.
  - by rewrite lookup_empty in Hp.
  - apply lookup_insert_Some in Hp as [[-> ->]|[_ Hp]].
    + exists row. split; [by left|done].
    + destruct (IH _ _ _ ltac:(eassumption) Hp) as (row' & Hin & Hr). exists row'. split; [by right|done].
Qed.

(** [s] is an active member of the network with the Finalizer role. *)
Definition projected_finalizer (n : string) (d : Db) (s : string) : Prop :=
  ∃ row roles, db_members d !! (n, "global", s) = Some row ∧ me_state row = Active ∧
    roles_from_value (me_roles_json row) = Ok roles ∧ Finalizer ∈ roles.

Lemma decoded_finalizer n d m p roles :
  decode_roles (active_members n "global" d) = Ok m → m !! p = Some roles →
  has_finalizer roles = true → projected_finalizer n d p.
Proof.
  intros Hm Hp Hf. destruct (decode_roles_lookup _ _ _ _ Hm Hp) as (row & Hin & Hr).
  apply elem_of_active_members in Hin as [Hrow Ha]. exists row, roles.
  by apply bool_decide_eq_true_1 in Hf.
Qed.

Lemma allowed_signers_sound n d genesis author m allowed :
  decode_roles (active_members n "global" d) = Ok m →
  allowed_signers genesis author m = Ok allowed →
  author = genesis ∧ (∀ s, s ∈ allowed → s = genesis) ∨
  author ≠ genesis ∧ projected_finalizer n d author ∧
    ∀ s, s ∈ allowed → projected_finalizer n d s.
Proof.
  intros Hm. unfold allowed_signers. case_bool_decide as Hg; intros Ha; inv_result.
  - left. split; [done|]. set_solver.
  - right. match goal with H : negb _ = false |- _ => apply negb_false_iff in H as Hf end.
    split_and!; [done| |].
    + destruct (m !! author) eqn:Hl; [|done]. by apply (decoded_finalizer n d m _ _ Hm Hl).
    + intros s [roles Hs]%elem_of_dom. apply map_lookup_filter_Some in Hs as [Hs Hfin].
      by apply (decoded_finalizer n d m _ _ Hm Hs).
Qed.

Lemma snapshot_authority_ok n author m threshold sigs w w' :
  validate_membership_snapshot_authority n author m threshold sigs w = (Ok (), w') →
  ∃ genesis signers message,
    head (active_genesis n (w_db w)) = Some genesis ∧ membership_to_vec m = Ok message ∧
    threshold ≠ 0%Z ∧ NoDup signers ∧ (threshold <= Z.of_nat (length signers))%Z ∧
    (∀ s, s ∈ signers → ∃ sig, sig ∈ sigs ∧ se_signer_node_id sig = s ∧
       verify_signature s message (se_signature_hex sig) = Ok ()) ∧
    (author = genesis ∧ (∀ s, s ∈ signers → s = genesis) ∨
     author ≠ genesis ∧ projected_finalizer n (w_db w) author ∧
     ∀ s, s ∈ signers → projected_finalizer n (w_db w) s).
Proof.
  unfold validate_membership_snapshot_authority. intros H. inv_W. same_views.
  match goal with H : (_ <? _)%Z = false |- _ => apply Z.ltb_ge in H; rename H into Hle end.
  match goal with H : context [count_valid ?a ?m ∅ 0 sigs] |- _ =>
    destruct (count_valid_signers a m sigs ∅ 0 ltac:(done)) as (signers & Hnd & Hc & Hall) end.
  match goal with H : head _ = Some ?g, H' : membership_to_vec m = Ok ?msg |- _ =>
    exists g, signers, msg end.
  match goal with H : decode_roles (active_members _ _ (w_db ?x)) = Ok _,
                  H' : w_db ?x = _ |- _ => rewrite H' in H;
    pose proof (allowed_signers_sound _ _ _ _ _ _ H ltac:(eassumption)) as Hauth end.
  split_and!; [done|done|by apply Z.eqb_neq|done|lia|by intros s (_ & _ & ?)%Hall|].
  destruct Hauth as [[? Hs]|(? & ? & Hs)]; [left|right]; split_and?; try done;
    intros s (_ & Hin & _)%Hall; by apply Hs.
Qed.
End quorum.

(** ** Claims *)

(** C13: a membership snapshot is applied only with the signatures it needs.  When
    the authority check of a snapshot succeeds, the threshold the snapshot declares is
    not zero and there are at least as many distinct signers whose signatures over the
    new membership verify; when the author is the network's Genesis every one of them
    is the Genesis itself, at any time and not only for the first membership event,
    and otherwise the author and every one of them are active network members holding
    the Finalizer role. *)
Theorem snapshot_quorum `{JV : JsonValue, HO : Host, MS : !Memberships, TR : Transport,
      PR : !Protocol, AM : Amqp} n author m threshold sigs w w' :
  validate_membership_snapshot_authority n author m threshold sigs w = (Ok (), w') →
  ∃ genesis signers message,
    head (active_genesis n (w_db w)) = Some genesis ∧ membership_to_vec m = Ok message ∧
    threshold ≠ 0%Z ∧ NoDup signers ∧ (threshold <= Z.of_nat (length signers))%Z ∧
    (∀ s, s ∈ signers → ∃ sig, sig ∈ sigs ∧ se_signer_node_id sig = s ∧
       verify_signature s message (se_signature_hex sig) = Ok ()) ∧
    (author = genesis ∧ (∀ s, s ∈ signers → s = genesis) ∨
     author ≠ genesis ∧ projected_finalizer n (w_db w) author ∧
     ∀ s, s ∈ signers → projected_finalizer n (w_db w) s).
Proof. apply snapshot_authority_ok. Qed.

(** One signature is enough.  The threshold is the one the snapshot declares: with
    a threshold of one the author's own signature passes the check, for the Genesis
    whatever Finalizers and membership version the network already has, and for a
    single Finalizer whatever other Finalizers there are. *)
Theorem own_signature_suffices `{JV : JsonValue, HO : Host, MS : !Memberships, TR : Transport,
      PR : !Protocol, AM : Amqp} n author genesis roles m message sig w :
  (∀ t, db_fault t = None) →
  head (active_genesis n (w_db w)) = Some genesis →
  decode_roles (active_members n "global" (w_db w)) = Ok roles →
  (author = genesis ∨ ∃ rs, roles !! author = Some rs ∧ Finalizer ∈ rs) →
  membership_to_vec m = Ok message → se_signer_node_id sig = author →
  verify_signature author message (se_signature_hex sig) = Ok () →
  (validate_membership_snapshot_authority n author m 1 [sig] w).1 = Ok ().
Proof.
  intros Hfault Hg Hr Hauth Hm Hs Hv.
  assert (∃ allowed, allowed_signers genesis author roles = Ok allowed ∧ author ∈ allowed)
    as (allowed & Ha & Hin).
  { unfold allowed_signers. case_bool_decide as Hag; [subst; eexists; split; [done|set_solver]|].
    destruct Hauth as [?|(rs & Hrs & Hf)]; [done|]. rewrite Hrs. unfold has_finalizer.
    rewrite bool_decide_eq_true_2 by done. cbn. eexists. split; [done|].
    apply elem_of_dom. exists rs. apply map_lookup_filter_Some. split; [done|].
    by apply bool_decide_eq_true_2. }
  unfold validate_membership_snapshot_authority, query, statement, tick, gets, lift.
  unfold mbind, M_bind, mret, M_ret. cbn. rewrite !Hfault. cbn. rewrite Hg. cbn. rewrite Hr. cbn.
  rewrite Ha. cbn. rewrite Hm. cbn. rewrite Hs, Hv. rewrite (bool_decide_eq_true_2 _ Hin). done.
Qed.

(** Who is to be a member after a mutation, given who was one before. *)
Definition wanted `{JV : JsonValue, MS : !Memberships} (m : MembershipMutation)
    (member : string -> Prop) (p : string) : Prop :=
  match m with
  | Snapshot _ membership _ _ _ => is_Some (membership_members membership !! p)
  | Principal _ principal_id active _ =>
      if active then p = principal_id ∨ member p else member p ∧ p ≠ principal_id
  end.

Lemma desired_members_spec `{JV : JsonValue, MS : !Memberships} m n l d p :
  p ∈ desired_members m (list_to_set (active_members n l d).*1) ↔
  wanted m (fun p => active_member d n l p = true) p.
Proof.
  unfold desired_members, wanted. destruct m as [|? q active ?]; [apply elem_of_dom|].
  destruct active; rewrite ?elem_of_union, ?elem_of_difference, elem_of_list_to_set,
    elem_of_singleton, active_member_spec; done.
Qed.

Lemma cutover_to_desired `{JV : JsonValue, HO : Host, MS : !Memberships, TR : Transport,
      PR : !Protocol, HX : Hex, SHA : Sha256, CL : DeliveryClassOps, TJ : TupleJson,
      EC : !EnvelopeCodec, AML : AmqpLaws} cfg n m add w count w' l :
  scope_label (mutation_scope m) = Ok l →
  apply_membership_mutation cfg n m add w = (Ok count, w') →
  let desired := desired_members m (list_to_set (active_members n l (tx_view w)).*1) in
  count = Z.of_nat (size desired) ∧
  (∀ p, active_member (tx_view w') n l p = true ↔ p ∈ desired) ∧
  (∀ p, p ∈ desired → member_row n l m (tx_view w') p) ∧
  scope_version n l (tx_view w') = Some (mutation_version m) ∧
  routes_exactly n l (mutation_version m) (add_route add (scope_route_addresses n l (tx_view w)))
    (fun p => p ∈ desired) (tx_view w') ∧
  only_scope n l (tx_view w) (tx_view w') ∧
  (∀ c key q, bound_in (w_rabbit w') (scope_exchange c) key q ↔
     bound_in (w_rabbit w) (scope_exchange c) key q ∨
     ∃ r p, r ∈ add_route add (scope_route_addresses n l (tx_view w)) ∧ p ∈ desired ∧
       c ∈ class_all ∧ key = scope_route_key n r (mutation_version m) ∧ q = queue_name n p c) ∧
  w_db w' = w_db w.
Proof.
  intros Hl H. apply (apply_membership_mutation_ok _ _ _ _ _ _ _ _ Hl) in H
    as (-> & _ & Hdb & Hb & Hst). cbn zeta. split_and!; [done| | | | | | |done].
  - intros p. unfold active_member. destruct (decide (p ∈ btree
      (desired_members m (list_to_set (active_members n l (tx_view w)).*1)))) as [Hin|Hout].
    + destruct (st_in _ _ _ _ _ _ _ Hst p Hin) as (row & -> & -> & _).
      rewrite elem_of_btree in Hin. by rewrite bool_decide_eq_true_2.
    + pose proof (st_out _ _ _ _ _ _ _ Hst p Hout) as Hrev. rewrite elem_of_btree in Hout.
      destruct (db_members (tx_view w') !! (n, l, p)) as [row|]; [|done].
      by rewrite (Hrev row eq_refl).
  - intros p Hp. apply (st_in _ _ _ _ _ _ _ Hst). by apply elem_of_btree.
  - apply Hst.
  - intros r p c. rewrite <- (elem_of_btree p). apply (st_routes _ _ _ _ _ _ _ Hst).
  - apply Hst.
  - intros c key q. setoid_rewrite <- elem_of_btree. rewrite <- member_bindings_scope.
    pose proof (binds_bind_members cfg n (mutation_version m)
      (add_route add (scope_route_addresses n l (tx_view w)))
      (btree (desired_members m (list_to_set (active_members n l (tx_view w)).*1)))
      (btree (desired_members m (list_to_set (active_members n l (tx_view w)).*1)
              ∖ list_to_set (active_members n l (tx_view w)).*1))) as Hbinds. split.
    + intros Hq. by apply (binds_upper _ _ Hbinds _ _ _ _ _ _ Hb Hq).
    + intros [Hq|Hm]; [by eapply (binds_lower _ _ Hbinds)|by eapply (binds_complete _ _ Hbinds)].
Qed.


(** The number of membership changes per scope and window is limited.  For a
    scope without a window, any sequence of changes with distinct versions that is
    recorded while the clock stays within one window has at most the configured
    number of changes; one more is refused. *)
Theorem mutation_window_limit `{JV : JsonValue, HO : Host, AM : Amqp} cfg n l versions w w' t0 :
  db_windows (tx_view w) !! (n, l) = None → NoDup versions →
  (0 < max_membership_mutations_per_scope_per_window cfg < u64_max)%Z →
  (∀ t, (t0 <= db_clock t < t0 + as_i64 (membership_mutation_window cfg) * 1000)%Z) →
  for_each versions (record_membership_mutation cfg n l) w = (Ok (), w') →
  (Z.of_nat (length versions) <= max_membership_mutations_per_scope_per_window cfg)%Z.
Proof.
  intros Hnone Hnd Hmax Hclock.
  set (I := fun (ds : list string) (s : World) =>
    (Z.of_nat (length ds) <= max_membership_mutations_per_scope_per_window cfg)%Z ∧
    match db_windows (tx_view s) !! (n, l) with
    | None => ds = []
    | Some row => (t0 <= wi_window_started_at row)%Z ∧
        wi_mutation_count row = Z.of_nat (length ds) ∧ wi_last_membership_version row = last ds
    end).
  intros H. enough (I versions w') as [? _] by done. revert H.
  apply for_each_ok_ind; [|unfold I; rewrite Hnone; split; [cbn; lia|done]].
  intros ds v rest s s' -> [Hlen Hrow] Hr.
  apply record_membership_mutation_ok in Hr as (_ & _ & _ & t & row & -> & Hrow' & Hcount).
  specialize (Hclock t). unfold I. rewrite Hrow', last_snoc, length_app. cbn [length].
  destruct (db_windows (tx_view s) !! (n, l)) as [old|]; cbn in *.
  - destruct Hrow as (Hst & Hc & Hlast). rewrite (proj2 (Z.leb_gt _ _)) in * by lia.
    assert (wi_last_membership_version old ≠ Some v) as Hne.
    { rewrite Hlast. intros Hv. apply last_Some in Hv as [ds' ->].
      apply NoDup_app in Hnd as (_ & Hdisj & _). apply (Hdisj v); set_solver. }
    rewrite (bool_decide_eq_false_2 _ Hne) in *. rewrite Hc in *.
    rewrite as_u64_small in Hcount by (unfold is_u64; lia).
    split_and!; [lia|done|lia|done].
  - rewrite Hrow in *. cbn. split; [lia|]. split_and!; [lia|done|done].
Qed.

(** ** Grants *)

Section grants.
Context `{JV : JsonValue, HO : Host, MS : !Memberships, TR : Transport, PR : !Protocol, HX : Hex,
          SHA : Sha256, CL : DeliveryClassOps, TJ : TupleJson, EC : !EnvelopeCodec,
          AML : AmqpLaws}.

Lemma upsert_grant_ok g id w w' :
  upsert_network_membership_grant g id w = (Ok (), w') →
  w_db w' = w_db w ∧ w_rabbit w' = w_rabbit w ∧ ∃ f, tx_view w' = on_grants f (tx_view w).
Proof. unfold upsert_network_membership_grant. intros H. inv_W. eauto. Qed.

(** Admitting the grant of a principal that is not a member stores a principal
    mutation of the global scope. *)
Lemma admit_grant_ok cfg g w resp w' :
  scope_label Global = Ok "global" →
  active_member (w_db w) (grant_network_id g) "global" (grant_principal_id g) = false →
  admit_grant cfg g w = (Ok resp, w') →
  ∃ v routes desired d, grant_principal_id g ∈ desired ∧
    stored (grant_network_id g) "global" (Principal Global (grant_principal_id g) true v) routes
      desired d (w_db w').
Proof.
  intros Hl Hnew. unfold admit_grant. cbn zeta. intros H.
  unfold validate_network_membership_grant, principal_is_global_authority in H.
  inv_W. same_views.
  match goal with H : begin_scope_fence _ _ _ _ _ = _ |- _ =>
    unfold begin_scope_fence in H; apply in_transaction_ok in H as (w1 & w2 & Hb & Hd1 & Hv1 & _ & Hd2 & _)
  end.
  inv_W. same_views.
  match goal with H : upsert_network_membership_grant _ _ _ = _ |- _ =>
    apply upsert_grant_ok in H as (? & ? & f & Hf) end.
  match goal with H : context [admitted ?now (tx_view ?x) ?n ?p] |- _ =>
    assert (admitted now (tx_view x) n p = false) as Hna;
    [|rewrite Hna in H; rename H into Hrun] end.
  { unfold admitted, active_member in *. rewrite Hf. cbn.
    match type of Hnew with context [w_db ?x] =>
      replace (db_members (tx_view _)) with (db_members (w_db x)) by (chase_worlds; congruence) end.
    by rewrite Hnew. }
  inv_W. match goal with H : apply_membership_mutation _ _ _ _ _ = _ |- _ =>
    apply apply_membership_mutation_ok with (l := "global") in H as (_ & _ & _ & _ & Hst);
    [|exact Hl] end.
  eexists _, _, _, _. split; [|chase_worlds; exact Hst].
  rewrite elem_of_btree. cbn. set_solver.
Qed.
End grants.

(** Admitting a grant erases every role.  When a grant makes a principal an
    active member, the roles of all members of the network's global scope are
    replaced by the empty list: afterwards the Genesis alone can author a membership
    snapshot, whatever quorum of the former Finalizers signs it. *)
Theorem grant_admission_erases_roles `{JV : JsonValue, HO : Host, MS : !Memberships,
      TR : Transport, PR : !Protocol, HX : Hex, SHA : Sha256, CL : DeliveryClassOps,
      TJ : TupleJson, EC : !EnvelopeCodec, AML : AmqpLaws, TRL : !TransportLaws,
      MSL : !MembershipLaws} cfg g w resp w' :
  active_member (w_db w) (grant_network_id g) "global" (grant_principal_id g) = false →
  admit_grant cfg g w = (Ok resp, w') →
  active_member (w_db w') (grant_network_id g) "global" (grant_principal_id g) = true ∧
  ∀ author m threshold sigs w2,
    db_members (w_db w2) = db_members (w_db w') →
    head (active_genesis (grant_network_id g) (w_db w2)) ≠ Some author →
    ∃ error, (validate_membership_snapshot_authority (grant_network_id g) author m threshold sigs
                w2).1 = Err error.
Proof.
  intros Hnew H. apply (admit_grant_ok _ _ _ _ _ scope_label_global Hnew) in H
    as (v & routes & desired & d & Hin & Hst). split.
  - unfold active_member. destruct (st_in _ _ _ _ _ _ _ Hst _ Hin) as (row & -> & -> & _).
    by apply bool_decide_eq_true_2.
  - intros author m threshold sigs w2 Hm Hg.
    destruct (validate_membership_snapshot_authority _ _ _ _ _ w2) as [[[]|e] w3] eqn:Hv;
      [|by eexists].
    apply snapshot_authority_ok in Hv as (genesis & signers & msg & Hgen & _ & _ & _ & _ & _ & Hauth).
    destruct Hauth as [[-> _]|(_ & (row & roles & Hrow & Ha & Hroles & Hfin) & _)]; [done|].
    rewrite Hm in Hrow. destruct (decide (author ∈ desired)) as [Hd|Hd].
    + destruct (st_in _ _ _ _ _ _ _ Hst _ Hd) as (row' & Hrow' & _ & _ & Hr).
      cbn in Hr. injection Hr as Hr. assert (row' = row) as -> by congruence.
      rewrite <- Hr, roles_empty in Hroles. injection Hroles as <-. set_solver.
    + by rewrite (st_out _ _ _ _ _ _ _ Hst _ Hd _ Hrow) in Ha.
Qed.

(** ** Witnesses *)

Definition sample_scope_db : @Db json_value_impl :=
  on_members (insert ("net", "group:g", "alice") (sample_member "v1" [])) db_empty.

Definition sample_join : @MembershipMutation json_value_impl memberships_impl :=
  Principal (Group "g") "bob" true "v2".

Definition sample_cutover : result string Z * @World json_value_impl amqp_impl :=
  apply_membership_mutation (HO:=host_impl) (MS:=memberships_impl) (TR:=transport_impl)
    (HX:=hex_impl) (SHA:=sha256_id) (CL:=class_impl) (TJ:=json_impl) (AM:=amqp_impl)
    sample_config "net" sample_join (Some "route-a") (sample_world sample_scope_db (Ack None)).


Definition sample_quorum_db : @Db json_value_impl :=
  on_authorities (insert ("net", "root", "genesis")
    {| au_projection_version := "p"; au_state := Active; au_updated_at := 0%Z |})
  (on_members (fun m => <[("net", "global", "f1") := sample_member "v1" ["finalizer"]]>
    (<[("net", "global", "f2") := sample_member "v1" ["finalizer"]]> m)) db_empty).

Definition sample_membership : @Membership json_value_impl memberships_impl :=
  ({["carol" := [SVerifier]]} : gmap string (list sample_role)).

Definition sample_quorum_signatures : list SignatureEnvelope :=
  [{| se_signer_node_id := "f1"; se_signature_hex := "f1/carol" |};
   {| se_signer_node_id := "f2"; se_signature_hex := "f2/carol" |}].

Definition sample_quorum : result string () * @World json_value_impl amqp_impl :=
  validate_membership_snapshot_authority (HO:=host_impl) (PR:=protocol_impl [] [])
    "net" "f1" sample_membership 2 sample_quorum_signatures
    (sample_world sample_quorum_db (Ack None)).

Lemma snapshot_quorum_witness :
  ∃ (genesis : string) (signers : list string), genesis = "root" ∧ NoDup signers ∧ (2 <= Z.of_nat (length signers))%Z.
Proof.
  assert (sample_quorum.1 = Ok ()) as Hok by (vm_compute; reflexivity).
  pose proof (M_run_ok _ _ _ Hok) as Hrun.
  destruct (snapshot_quorum (HO:=host_impl) (PR:=protocol_impl [] []) "net" "f1"
    sample_membership 2 sample_quorum_signatures (sample_world sample_quorum_db (Ack None))
    sample_quorum.2 Hrun) as (genesis & signers & msg & Hg & _ & _ & Hnd & Hlen & _).
  exists genesis, signers. split; [|split; [exact Hnd|exact Hlen]].
  vm_compute in Hg. injection Hg as <-. reflexivity.
Defined.

(** The Genesis replaces the membership of a network with two Finalizers alone. *)
Example genesis_overrides_finalizers :
  (validate_membership_snapshot_authority (HO:=host_impl) (PR:=protocol_impl [] [])
    "net" "root" sample_membership 1 [{| se_signer_node_id := "root";
    se_signature_hex := "root/carol" |}] (sample_world sample_quorum_db (Ack None))).1 = Ok ().
Proof. vm_compute. reflexivity. Qed.

Definition sample_windows : result string () * @World json_value_impl amqp_impl :=
  for_each ["v1"; "v2"] (record_membership_mutation (HO:=frozen_host) sample_config "net" "global")
    (sample_world db_empty (Ack None)).

Lemma mutation_window_limit_witness :
  (Z.of_nat (length ["v1"; "v2"])
   <= max_membership_mutations_per_scope_per_window sample_config)%Z.
Proof.
  apply (mutation_window_limit (HO:=frozen_host) sample_config "net" "global" ["v1"; "v2"]
    (sample_world db_empty (Ack None)) sample_windows.2 1000000).
  - reflexivity.
  - repeat (apply NoDup_cons; split; [set_solver|]). apply NoDup_nil_2.
  - vm_compute. split; reflexivity.
  - intros t. vm_compute. split; [discriminate|reflexivity].
  - assert (sample_windows.1 = Ok ()) as Hok by (vm_compute; reflexivity).
    exact (M_run_ok _ _ _ Hok).
Defined.

Definition sample_genesis : string :=
  "00112233445566778899aabbccddeeff00112233445566778899aabbccddeeff".

Definition sample_genesis_env : ProcessEnv := {|
  env_var key :=
    if bool_decide (key = "WATTSWARM_CS_TRUSTED_NETWORK_GENESIS_FILE") then Some "/run/genesis"
    else env_var sample_env key;
  env_file path :=
    if bool_decide (path = "/run/genesis") then Some "{}" else env_file sample_env path;
  env_fresh_uuid := "instance-1";
  env_parse_addr := Some;
  env_decode_genesis _ := Some {["net" := sample_genesis]};
|}.

Definition sample_genesis_config : Config :=
  match @from_env hex_impl sample_genesis_env with Ok c => c | Err _ => sample_config end.

Definition sample_grant_db : @Db json_value_impl :=
  on_authorities (insert ("net", sample_genesis, "genesis")
    {| au_projection_version := "p"; au_state := Active; au_updated_at := 0%Z |}) sample_quorum_db.

Definition sample_admitted_grant : sample_grant :=
  {| sg_network := "net"; sg_principal := "bob"; sg_issuer := sample_genesis;
     sg_expires := None |}.

Definition sample_admission :
    result string GrantAdmissionResponse * @World json_value_impl amqp_impl :=
  admit_grant (HO:=host_impl) (MS:=memberships_impl) (TR:=transport_impl)
    (HX:=hex_impl) (SHA:=sha256_id) (CL:=class_impl) (TJ:=json_impl) (AM:=amqp_impl)
    sample_genesis_config sample_admitted_grant (sample_world sample_grant_db (Ack None)).

Lemma grant_admission_erases_roles_witness :
  active_member sample_grant_db "net" "global" "bob" = false ∧
  active_member (w_db sample_admission.2) "net" "global" "bob" = true ∧
  ∃ error, (validate_membership_snapshot_authority (HO:=host_impl) (PR:=protocol_impl [] [])
    "net" "f1" sample_membership 2 sample_quorum_signatures sample_admission.2).1 = Err error.
Proof.
  assert (is_ok sample_admission.1 = true) as Hok by (vm_compute; reflexivity).
  apply is_ok_spec in Hok as [resp Hok]. pose proof (M_run_ok _ _ _ Hok) as Hrun.
  destruct (grant_admission_erases_roles (HO:=host_impl) (PR:=protocol_impl [] [])
    (EC:=envelope_impl) (AML:=amqp_impl_laws) (TRL:=transport_impl_laws)
    (MSL:=memberships_impl_laws) sample_genesis_config sample_admitted_grant
    (sample_world sample_grant_db (Ack None)) resp sample_admission.2 eq_refl Hrun) as [H1 H2].
  split; [reflexivity|]. split; [exact H1|].
  apply (H2 "f1" sample_membership 2%Z sample_quorum_signatures sample_admission.2 eq_refl).
  vm_compute. discriminate.
Defined.
