(* ===== verification/Publish.v ===== *)
(** * Publishing

    Theorems about the publish and control handlers of [Service.v]: a record reaches
    the broker at most once and only when its author, its fan-out and the rate
    limits allow it, a publish that fails leaves memberships and receipts as they
    were, and a repeated publish is answered from its receipt. *)

From S2P Require Import Prelude Str External MgConfig Owners Buckets Gaps Observability Amqp Rabbit Protocol MgDb Auth Service Membership.

(** The messages handed to the broker. *)
Definition publish_of (c : AmqpCall) : option (string * string * string * string) :=
  match c with Call (BasicPublish _ e k _ payload id) => Some (e, k, payload, id) | _ => None end.

Section relations.
Context `{JV : JsonValue, HO : Host, MS : !Memberships, TR : Transport, PR : !Protocol, HX : Hex,
          SHA : Sha256, CL : DeliveryClassOps, TJ : TupleJson, EC : !EnvelopeCodec, AM : Amqp}.

Definition publishes (s : RabbitAdapter) : list (string * string * string * string) :=
  omap publish_of (rb_trace s).

(** What the authorisation rules read of the database, and the receipts: the
    binding states of the members are left out. *)
Definition member_core (row : MemberRow) : string * RowState * Json :=
  (me_membership_version row, me_state row, me_roles_json row).

Record same_authority (d d' : Db) : Prop := {
  sa_members : member_core <$> db_members d' = member_core <$> db_members d;
  sa_versions : db_versions d' = db_versions d;
  sa_authorities : db_authorities d' = db_authorities d;
  sa_grants : db_grants d' = db_grants d;
  sa_receipts : db_receipts d' = db_receipts d;
}.

#[export] Instance same_authority_preorder : PreOrder same_authority.
Proof. split; [done|]. intros d1 d2 d3 [] []. split; congruence. Qed.

(** No message is published and nothing authoritative is committed. *)
Record harmless (w w' : World) : Prop := {
  ha_publishes : publishes (w_rabbit w') = publishes (w_rabbit w);
  ha_authority : same_authority (w_db w) (w_db w');
}.

#[export] Instance harmless_preorder : PreOrder harmless.
Proof.
  split; [by intros w; split; [|reflexivity]|].
  intros w1 w2 w3 [H1 H2] [H3 H4]. split; [congruence|by etrans].
Qed.

Definition silent (s s' : RabbitAdapter) : Prop := publishes s' = publishes s.
#[export] Instance silent_preorder : PreOrder silent.
Proof. split; [done|]. intros s1 s2 s3. unfold silent. congruence. Qed.

(** ** Broker operations that publish nothing *)

Lemma silent_call {A} (op : AmqpOp A) : publish_of (Call op) = None → always silent (call op).
Proof.
  intros Hop s. unfold call, silent, publishes. destruct (amqp op (rb_broker s)). cbn.
  rewrite omap_app. assert (omap publish_of [Call op] = []) as ->; [|by rewrite app_nil_r].
  cbn -[publish_of]. by rewrite Hop.
Qed.
Hint Extern 1 (always silent (call _)) => apply silent_call; reflexivity : gw_always.

Lemma silent_observe ev : always silent (observe_event ev).
Proof. by intros s. Qed.
Hint Resolve silent_observe : gw_always.

Lemma silent_instant : always silent instant.
Proof. unfold instant. solve_always. Qed.
Hint Resolve silent_instant : gw_always.

Lemma silent_recording body : always silent body → always silent (recording_binding body).
Proof. intros. unfold recording_binding. solve_always. Qed.

Lemma silent_ensure cfg n p : always silent (ensure_tenant_mailboxes cfg n p).
Proof. apply silent_recording. solve_always. Qed.
Hint Resolve silent_ensure : gw_always.

Lemma silent_bind cfg n p r v : always silent (bind_scope_member cfg n p r v).
Proof. apply silent_recording. solve_always. Qed.
Hint Resolve silent_bind : gw_always.

Lemma silent_unbind n p r v : always silent (unbind_scope_member n p r v).
Proof. apply silent_recording. solve_always. Qed.
Hint Resolve silent_unbind : gw_always.

Lemma silent_deadline d msg step : always silent step → always silent (before_deadline d msg step).
Proof. intros. unfold before_deadline. solve_always. Qed.
Hint Extern 1 (always silent (before_deadline _ _ _)) => apply silent_deadline : gw_always.

Lemma silent_bind_members cfg n v rs ds fs : always silent (bind_members cfg n v rs ds fs).
Proof. unfold bind_members. solve_always; apply silent_deadline; solve_always. Qed.

(** ** Harmless steps of a request *)

Lemma harmless_same {A} (m : W A) : always same_world m → always harmless m.
Proof.
  intros H w. destruct (H w) as [Hd _ Hr]. split; [by rewrite Hr|by rewrite Hd].
Qed.

Lemma harmless_rabbit {A} (m : R A) : always silent m → always harmless (rabbit m).
Proof.
  intros H w. unfold rabbit, zoom. specialize (H (w_rabbit w)). destruct (m (w_rabbit w)) as [r s].
  by split.
Qed.

Lemma harmless_tx_execute {A} (f : Z -> Db -> result string (A * Db)) : always harmless (tx_execute f).
Proof.
  unfold tx_execute. apply always_bind; [apply _|apply harmless_same, same_statement|intros now].
  solve_always. intros w. by split.
Qed.

Lemma harmless_tx_update f : always harmless (tx_update f).
Proof. apply harmless_tx_execute. Qed.

Lemma harmless_execute {A} (f : Z -> Db -> result string (A * Db)) :
  (∀ now d a d', f now d = Ok (a, d') → same_authority d d') → always harmless (execute f).
Proof.
  intros Hf. unfold execute. apply always_bind; [apply _|apply harmless_same, same_statement|].
  intros now w. unfold mbind, M_bind, gets, lift, modify. cbn.
  destruct (f now (w_db w)) as [[a d']|e] eqn:H; cbn; [|reflexivity].
  split; [done|]. cbn. by eapply Hf.
Qed.

Lemma harmless_update f :
  (∀ now d, same_authority d (f now d)) → always harmless (update f).
Proof. intros Hf. apply harmless_execute. intros now d a d' [= _ <-]. apply Hf. Qed.

(** ** The steps of the handlers *)

Lemma same_global_authority n p : always same_world (principal_is_global_authority n p).
Proof. unfold principal_is_global_authority. solve_always. Qed.
Hint Resolve same_global_authority : gw_always.

Lemma same_authorized n sc p b : always same_world (authorized_scope_version_and_count n sc p b).
Proof. unfold authorized_scope_version_and_count. solve_always. Qed.

Lemma same_contains n sc p v : always same_world (scope_contains_principal n sc p v).
Proof. unfold scope_contains_principal. solve_always. Qed.
Hint Resolve same_contains : gw_always.

Lemma same_author_receives n sc m a v : always same_world (author_receives n sc m a v).
Proof. unfold author_receives. solve_always. Qed.

Lemma same_snapshot_authority n a m : always same_world (snapshot_authority n a m).
Proof. unfold snapshot_authority, validate_membership_snapshot_authority. solve_always. Qed.

Lemma same_load_receipt n p r h rh : always same_world (load_confirmed_receipt n p r h rh).
Proof. unfold load_confirmed_receipt. solve_always. Qed.

Hint Resolve harmless_tx_execute harmless_tx_update : gw_always.
Hint Extern 2 (always harmless (rabbit _)) => apply harmless_rabbit; solve_always : gw_always.
Hint Extern 3 (always harmless _) => apply harmless_same; solve [eauto with gw_always nocore]
  : gw_always.

Lemma harmless_observability ev : always harmless (observability ev).
Proof. apply harmless_rabbit, silent_observe. Qed.
Hint Resolve harmless_observability : gw_always.

Lemma harmless_record_mutation cfg n l v : always harmless (record_membership_mutation cfg n l v).
Proof. unfold record_membership_mutation. solve_always. Qed.
Hint Resolve harmless_record_mutation : gw_always.

Lemma harmless_store n l m rs ds : always harmless (store_membership n l m rs ds).
Proof. unfold store_membership. solve_always. Qed.
Hint Resolve harmless_store silent_bind_members : gw_always.

Lemma harmless_apply cfg n m r : always harmless (apply_membership_mutation cfg n m r).
Proof. unfold apply_membership_mutation. solve_always. Qed.
Hint Resolve harmless_apply : gw_always.

Lemma harmless_mutate cfg n rt m c : always harmless (mutate cfg n rt m c).
Proof. unfold mutate. solve_always. Qed.

Lemma same_acquire_clock : always same_world acquire_clock.
Proof. unfold acquire_clock. solve_always. Qed.
Hint Resolve same_acquire_clock : gw_always.

Lemma harmless_acquiring b m : always harmless m → always harmless (acquiring b m).
Proof. intros. unfold acquiring. solve_always. Qed.

Lemma harmless_global_tokens n c tr br bu v : always harmless (global_tokens n c tr br bu v).
Proof.
  unfold global_tokens. apply always_bind; [apply _|solve_always|intros t w].
  unfold mbind, M_bind, gets, modify, mret, M_ret. cbn. by destruct (acquire_global_token _ _ _ _ _ _ _ _).
Qed.

Lemma harmless_non_global_tokens n c r v : always harmless (non_global_tokens n c r v).
Proof.
  unfold non_global_tokens. do 2 (apply always_if; [solve_always|]).
  apply always_bind; [apply _|solve_always|intros t w].
  unfold mbind, M_bind, gets, modify, mret, M_ret. cbn.
  by destruct (acquire_non_global_delivery_tokens _ _ _ _ _ _).
Qed.

Lemma harmless_acquire_tokens cfg n sc c r v : always harmless (acquire_tokens cfg n sc c r v).
Proof.
  destruct sc; cbn; try (apply harmless_acquiring; first [apply harmless_global_tokens
    |apply harmless_non_global_tokens]). solve_always.
Qed.

Lemma mark_bound_authority now n l d : same_authority d (mark_bound now n l d).
Proof.
  split; try done. cbn. apply map_eq. intros k. rewrite !lookup_fmap, map_lookup_imap.
  destruct (db_members d !! k); cbn; [|done]. by case_decide.
Qed.

Lemma insert_route_authority now n l r p c v d u d' :
  insert_route now n l r p c v d = Ok (u, d') → same_authority d d'.
Proof. unfold insert_route. intros H. inv_result. by split. Qed.

Lemma harmless_insert_route n l r p c v :
  always harmless (execute (fun now => insert_route now n l r p c v)).
Proof. apply harmless_execute. intros now d u d'. apply insert_route_authority. Qed.

Lemma harmless_delete_routes f : always harmless (update (fun _ => on_routes f)).
Proof. apply harmless_update. by split. Qed.

Lemma harmless_mark_bound n l : always harmless (update (fun now => mark_bound now n l)).
Proof. apply harmless_update. intros now d. apply mark_bound_authority. Qed.
Hint Resolve harmless_insert_route harmless_delete_routes harmless_mark_bound : gw_always.

Lemma harmless_reconcile cfg n rt : always harmless (reconcile_scope_bindings cfg n rt).
Proof. unfold reconcile_scope_bindings. destruct (route_scope rt); solve_always. Qed.

(** ** Delivery *)

(** The exchange and the key of a record. *)
Definition address_of (record : BrokerRecord) (recipient : option string) :
    option (string * string) :=
  match recipient, br_membership_version record with
  | Some recipient, _ => Some (direct_exchange (br_delivery_class record),
                               direct_route_key (br_network_id record) recipient)
  | None, Some version => Some (scope_exchange (br_delivery_class record),
      scope_route_key (br_network_id record) (route_address (br_route record)) version)
  | None, None => None
  end.

(** Publishing a record hands over at most one message, with the record's own
    address and id. *)
Lemma rabbit_publish_once cfg recipient record s r s' :
  Rabbit.publish cfg recipient record s = (r, s') →
  publishes s' = publishes s ∨
  ∃ e k payload, address_of record recipient = Some (e, k) ∧
    envelope_to_vec (EnvelopeRecord record) = Ok payload ∧
    publishes s' = publishes s ++ [(e, k, payload, br_record_id record)].
Proof.
  unfold Rabbit.publish. intros H.
  apply (always_step silent s) in H as [[? _]|(ch & s1 & S1 & _ & H)];
    [by left| |reflexivity|solve_always].
  apply (always_step silent s) in H as [[? _]|(u & s2 & S2 & _ & H)];
    [by left| |done|solve_always].
  apply (always_step silent s) in H as [[? _]|([e k] & s3 & S3 & Haddr & H)];
    [by left| |done|destruct recipient; solve_always].
  apply (always_step silent s) in H as [[? _]|(payload & s4 & S4 & Hp & H)];
    [by left| |done|solve_always].
  cbv [lift] in Hp. injection Hp as Hp _.
  assert (address_of record recipient = Some (e, k)) as He.
  { unfold address_of. destruct recipient; [by inv_M|]. inv_M.
    match goal with H : ok_or _ _ = Ok _ |- _ => apply ok_or_ok in H; by rewrite H end. }
  right. exists e, k, payload. split_and!; [done..|]. unfold silent in S4. rewrite <- S4.
  assert (∀ st, publishes (call (BasicPublish ch e k true payload (br_record_id record)) st).2 =
    publishes st ++ [(e, k, payload, br_record_id record)]) as Hpub.
  { intros st. unfold call, publishes. destruct (amqp _ (rb_broker st)). cbn. by rewrite omap_app. }
  specialize (Hpub s4).
  apply M_bind_inv in H as [(err & H & _)|(v & s5 & H5 & H)]; [by rewrite H in Hpub|].
  rewrite H5 in Hpub. cbn in Hpub. run_always silent H.
  unfold silent in *. congruence.
Qed.

(** What a delivered message is. *)
Record delivered (session : VerifiedSession) (frame : PublishFrame) (route : EventTransportRoute)
    (class : DeliveryClass) (version : option string) (s s' : RabbitAdapter) : Prop := {
  dv_message : ∃ record e k payload,
    publishes s' = publishes s ++ [(e, k, payload, pf_record_id frame)] ∧
    envelope_to_vec (EnvelopeRecord record) = Ok payload ∧
    br_network_id record = vs_network_id session ∧
    br_source_principal_id record = vs_principal_id session ∧
    br_record record = pf_payload frame ∧ br_route record = route ∧
    br_membership_version record = version ∧
    match route_scope route with
    | Node recipient => e = direct_exchange class ∧ k = direct_route_key (vs_network_id session) recipient
    | _ => ∃ v, version = Some v ∧ e = scope_exchange class ∧
        k = scope_route_key (vs_network_id session) (route_address route) v
    end;
}.

Lemma deliver_once cfg session frame route class version expected w r w' :
  deliver cfg session frame route class version expected w = (r, w') →
  w_db w' = w_db w ∧
  (publishes (w_rabbit w') = publishes (w_rabbit w) ∨
   delivered session frame route class version (w_rabbit w) (w_rabbit w')).
Proof.
  unfold deliver, attempt, elapsed_since, observability, rabbit, zoom, utc, tick, instant.
  unfold mbind, M_bind, gets, lift, mret, M_ret. cbn.
  match goal with |- context [Rabbit.publish cfg ?o ?rec (w_rabbit w)] =>
    destruct (Rabbit.publish cfg o rec (w_rabbit w)) as [r1 s1] eqn:Hp end.
  cbn. intros [= <- <-]. cbn. split; [done|].
  apply rabbit_publish_once in Hp as [?|(e & k & payload & Ha & He & Hp)]; [by left|right].
  split. eexists _, e, k, payload. split; [exact Hp|]. split; [exact He|].
  unfold address_of in Ha. cbn in *.
  destruct (route_scope route); cbn in *; [| |by simplify_eq|]; destruct version; by simplify_eq; eauto 10.
Qed.

(** ** The fenced part of a publish *)

(** The author may publish to the scope. *)
Definition may_publish (d : Db) (n : string) (scope : SwarmScope) (author : string) (join : bool) :
    Prop :=
  match scope with
  | Node recipient => ∃ t t', admitted (db_clock t) d n author = true ∧
      admitted (db_clock t') d n recipient = true
  | _ => ∃ label t, scope_label scope = Ok label ∧ grant_live (db_clock t) d n author = true ∧
      (active_member d n label author = true ∨
       join = true ∧ active_member d n "global" author = true)
  end.

Lemma authorized_ok n sc a j w res w' :
  authorized_scope_version_and_count n sc a j w = (Ok res, w') → may_publish (w_db w) n sc a j.
Proof.
  unfold authorized_scope_version_and_count, principal_is_admitted. destruct sc; cbn; intros H; inv_W.
  3: { match goal with H : and_also ?b _ _ = _ |- _ => destruct b eqn:Hb; cbn in H; inv_W end; [|done].
    same_views. match goal with H : w_db _ = w_db w |- _ => rewrite H in * end. eauto. }
  all: same_views; match goal with H : _ || _ = true |- _ => apply orb_true_iff in H end.
  all: eexists _, _; split; [eassumption|]; split; [eassumption|].
  all: match goal with H : _ ∨ _ |- _ => destruct H as [?|H]; [by left|right] end.
  all: match goal with H : _ && _ = true |- _ => apply andb_true_iff in H as [??] end; done.
Qed.

(** Who a message to a scope goes to: the active members of the scope's version, if
    it has one, with a live grant. *)
Definition receives (now : Z) (d : Db) (n label : string) (p : string) : Prop :=
  ∃ row, db_members d !! (n, label, p) = Some row ∧ me_state row = Active ∧
    version_matches (scope_version n label d) row = true ∧ grant_live now d n p = true.

(** The fan-out of a message, from the database at the start of the fence: the
    membership version it is published under and the principals it goes to. *)
Inductive fanout (d : Db) (n : string) (scope : SwarmScope) :
    option MembershipMutation -> option string -> gset string -> Prop :=
  | fanout_direct recipient :
      scope = Node recipient → fanout d n scope None None {[recipient]}
  | fanout_scope label t (ps : gset string) :
      is_node scope = false → scope_label scope = Ok label →
      (∀ p, p ∈ ps ↔ receives (db_clock t) d n label p) →
      fanout d n scope None (scope_version n label d) ps
  | fanout_mutation m label (ps : gset string) :
      scope_label (mutation_scope m) = Ok label →
      (∀ p, p ∈ ps ↔ wanted m (fun p => active_member d n label p = true) p) →
      fanout d n scope (Some m) (Some (mutation_version m)) ps.

Lemma active_members_nodup n l d : NoDup (active_members n l d).*1.
Proof.
  unfold active_members. generalize (NoDup_fst_map_to_list (db_members d)).
  induction (map_to_list (db_members d)) as [|[[[n' l'] p] row] rows IH]; cbn; [constructor|].
  intros [Hnew Hnd]%NoDup_cons. case_bool_decide as Hc; [|by apply IH]. cbn.
  apply NoDup_cons. split; [|by apply IH]. intros ([p' row'] & Heq & Hin)%list_elem_of_fmap.
  cbn in Heq. subst p'. apply list_elem_of_omap in Hin as ([[[n2 l2] p2] row2] & Hin & Hf).
  case_bool_decide as Hc2; [|done]. destruct_and!. simplify_eq.
  apply Hnew, list_elem_of_fmap. eexists; split; [|exact Hin]; done.
Qed.

(** Counting the recipients of a scope. *)
Lemma receivers_counted now n label d :
  ∃ ps : gset string, (∀ p, p ∈ ps ↔ receives now d n label p) ∧
    Z.of_nat (length (filter (fun pr => grant_live now d n pr.1 &&
      version_matches (scope_version n label d) pr.2 = true) (active_members n label d)))
    = Z.of_nat (size ps).
Proof.
  set (rows := filter _ _). exists (list_to_set rows.*1). split.
  - intros p. rewrite elem_of_list_to_set, list_elem_of_fmap. unfold receives. split.
    + intros ([p' row] & -> & [[? ?]%andb_prop Hin]%list_elem_of_filter).
      apply elem_of_active_members in Hin as [? ?]. by exists row.
    + intros (row & ? & ? & ? & ?). exists (p, row). split; [done|].
      apply list_elem_of_filter. split; [by apply andb_true_intro|]. by apply elem_of_active_members.
  - rewrite size_list_to_set, length_fmap; [done|].
    eapply sublist_NoDup; [apply active_members_nodup|]. apply fmap_sublist, sublist_filter.
Qed.

Lemma authorized_fanout n sc a j w version count w' :
  authorized_scope_version_and_count n sc a j w = (Ok (version, count), w') →
  ∃ ps, fanout (w_db w) n sc None version ps ∧ count = Z.of_nat (size ps).
Proof.
  unfold authorized_scope_version_and_count, principal_is_admitted. destruct sc; cbn; intros H; inv_W.
  3: { eexists. split; [by apply fanout_direct|]. by rewrite size_singleton. }
  all: same_views; repeat match goal with H : w_db _ = w_db _ |- _ => rewrite H in *; clear H end.
  all: match goal with |- context [filter (fun pr => grant_live ?now ?d ?n pr.1 && _ = true)
         (active_members _ ?l _)] =>
         destruct (receivers_counted now n l d) as (ps & Hps & Hcount) end.
  all: exists ps; split; [by eapply fanout_scope|exact Hcount].
Qed.

Lemma mutate_fanout cfg n route mutation scope version count w r w' :
  (∃ ps, fanout (tx_view w) n scope None version ps ∧ count = Z.of_nat (size ps)) →
  mutate cfg n route mutation (version, count) w = (Ok r, w') →
  ∃ ps, fanout (tx_view w) n scope mutation r.1 ps ∧ r.2 = Z.of_nat (size ps).
Proof.
  intros Hcur. destruct mutation as [m|]; cbn.
  2: { intros [= <- <-]. exact Hcur. }
  intros H. apply M_bind_ok in H as (t0 & w1 & H1 & H). apply rabbit_ok in H1 as (_ & _ & Hv).
  apply attempt_bind in H as (outcome & w2 & Hout & H).
  apply M_bind_ok in H as (? & w3 & _ & H). apply M_bind_ok in H as (? & w4 & _ & H).
  apply M_bind_ok in H as (count' & w5 & Hl & H). apply lift_ok in Hl as [-> _].
  cbv [mret M_ret] in H. injection H as <- _. cbn.
  destruct (scope_label (mutation_scope m)) as [l|e] eqn:Hl.
  - apply (apply_membership_mutation_ok _ _ _ _ _ _ _ _ Hl) in Hout as (-> & _).
    eexists. split; [eapply fanout_mutation; [exact Hl|]|done].
    rewrite Hv. intros p. apply desired_members_spec.
  - unfold apply_membership_mutation in Hout. apply M_bind_ok in Hout as (? & ? & _ & Hout).
    rewrite Hl in Hout. done.
Qed.

Lemma fenced_fanout cfg n scope route mutation a j w cur w1 version count w2 :
  tx_view w = w_db w →
  authorized_scope_version_and_count n scope a j w = (Ok cur, w1) →
  mutate cfg n route mutation cur w1 = (Ok (version, count), w2) →
  ∃ ps, fanout (w_db w) n scope mutation version ps ∧ count = Z.of_nat (size ps).
Proof.
  intros Hview Hauth Hmut. destruct cur as [v0 n0].
  pose proof (always_run _ _ _ _ _ (same_authorized n scope a j) Hauth) as [Hd Htx _].
  assert (tx_view w1 = w_db w) as Hv by (unfold tx_view in *; by rewrite Hd, Htx).
  rewrite <- Hv. apply (mutate_fanout _ _ _ _ scope) in Hmut; [exact Hmut|].
  rewrite Hv. by eapply authorized_fanout.
Qed.

(** A fan-out that passes the first guard has a recipient. *)
Lemma size_not_empty (ps : gset string) : (Z.of_nat (size ps) =? 0)%Z = false → ps ≠ ∅.
Proof. intros H ->. by rewrite size_empty in H. Qed.

Lemma commit_runs w r w' :
  commit w = (r, w') → w_rabbit w' = w_rabbit w ∧ ∀ e, r = Err e → w_db w' = w_db w.
Proof.
  unfold commit. intros H. apply (always_step same_world w) in H
    as [[[Hd _ Hr] _]|(now & w1 & [Hd _ Hr] & _ & H)];
    [by rewrite Hd, Hr| |reflexivity|apply same_statement].
  cbv [modify] in H. simplify_eq. done.
Qed.

(** Confirming the receipt talks to the database only, and a failure commits
    nothing. *)
Lemma confirm_receipt_runs session frame class h rh v n w r w' :
  confirm_receipt session frame class h rh v n w = (r, w') →
  w_rabbit w' = w_rabbit w ∧ ∀ e, r = Err e → w_db w' = w_db w.
Proof.
  set (pending := fun w w' : World => w_rabbit w' = w_rabbit w ∧ w_db w' = w_db w).
  assert (PreOrder pending) as Hpre.
  { split; [done|]. intros w1 w2 w3 [] []. split; congruence. }
  assert (∀ A (m : W A), always same_world m → always pending m) as Hsame.
  { intros A m Hm w0. by destruct (Hm w0) as [Hd _ Hr]. }
  assert (∀ f, always pending (tx_update f)) as Htx.
  { intros f w0. unfold tx_update, tx_execute, statement, tick, mbind, M_bind. cbn.
    by destruct (db_fault (w_tick w0)). }
  unfold confirm_receipt. cbn zeta. intros H.
  apply (always_step pending w) in H as [[[-> ->] _]|(i & w1 & P1 & _ & H)];
    [done| |reflexivity|by apply Hsame, same_new_v4].
  apply (always_step pending w) in H as [[[-> ->] _]|(c & w2 & P2 & _ & H)];
    [done| |done|by apply Hsame, same_utc].
  apply (always_step pending w) in H as [[[-> ->] _]|(u & w3 & P3 & _ & H)]; [done| |done|apply Htx].
  apply (always_step pending w) in H as [[[-> ->] _]|(u' & w4 & [Hr Hd] & _ & H)]; [done| |done|].
  2: { unfold record_audit. apply always_bind; [done|by apply Hsame, same_new_v4|intros ?; apply Htx]. }
  apply M_bind_inv in H as [(e & H & ->)|(u5 & w5 & H & Hret)]; apply commit_runs in H as [Hr' Hd'].
  - split; [congruence|]. intros _ _. by rewrite (Hd' e eq_refl).
  - cbv [mret M_ret] in Hret. simplify_eq. split; [congruence|done].
Qed.

Lemma publish_fenced_runs cfg session frame validated class h rh w r w' :
  tx_view w = w_db w →
  publish_fenced cfg session frame validated class h rh w = (r, w') →
  let route := vf_route validated in
  (publishes (w_rabbit w') = publishes (w_rabbit w) ∨
   may_publish (w_db w) (vs_network_id session) (route_scope route) (vs_principal_id session)
     (joins (vf_membership_mutation validated) (vs_principal_id session)) ∧
   ∃ version (ps : gset string),
     fanout (w_db w) (vs_network_id session) (route_scope route)
       (vf_membership_mutation validated) version ps ∧
     ps ≠ ∅ ∧ (Z.of_nat (size ps) <= max_fanout_recipients cfg)%Z ∧
     (len (pf_payload frame) * Z.of_nat (size ps) <= max_fanout_bytes_per_publish cfg)%Z ∧
     delivered session frame route class version (w_rabbit w) (w_rabbit w')) ∧
  (∀ e, r = Err e → same_authority (w_db w) (w_db w')).
Proof.
  intros Hview. unfold publish_fenced. cbn zeta. intros H.
  apply (always_step harmless w) in H as [[[] _]|([v0 n0] & w1 & H1 & Hauth & H)];
    [by split; [left|]| |reflexivity|apply harmless_same, same_authorized].
  apply (always_step harmless w) in H as [[[] _]|([version recipients] & w2 & H2 & Hmut & H)];
    [by split; [left|]| |done|apply harmless_mutate].
  pose proof (fenced_fanout _ _ _ _ _ _ _ _ _ _ _ _ _ Hview Hauth Hmut) as (ps & Hps & ->).
  apply authorized_ok in Hauth.
  apply (always_step harmless w) in H as [[[] _]|(u3 & w3 & H3 & Hb3 & H)];
    [by split; [left|]| |done|apply always_lift; apply _].
  apply (always_step harmless w) in H as [[[] _]|(rec & w4 & H4 & _ & H)];
    [by split; [left|]| |done|apply harmless_same, same_author_receives].
  apply (always_step harmless w) in H as [[[] _]|(bytes & w5 & H5 & Hb5 & H)];
    [by split; [left|]| |done|apply always_lift; apply _].
  apply (always_step harmless w) in H as [[[] _]|(u6 & w6 & H6 & Hb6 & H)];
    [by split; [left|]| |done|apply always_lift; apply _].
  apply (always_step harmless w) in H as [[[] _]|(u7 & w7 & H7 & _ & H)];
    [by split; [left|]| |done|apply harmless_acquire_tokens].
  apply (always_step harmless w) in H as [[[] _]|(u8 & w8 & [Hp8 Ha8] & _ & H)];
    [by split; [left|]| |done|apply always_whenM; [apply _|apply harmless_reconcile]].
  cbv [lift] in Hb3, Hb5, Hb6. inv_W.
  assert (∃ wd, w_db wd = w_db w8 ∧ w_rabbit w' = w_rabbit wd ∧
    (∀ e, r = Err e → w_db w' = w_db wd) ∧
    (publishes (w_rabbit wd) = publishes (w_rabbit w8) ∨
     delivered session frame (vf_route validated) class version (w_rabbit w8) (w_rabbit wd)))
    as (wd & Hd & Hr & Herr & Hmsg).
  { apply M_bind_inv in H as [(e & H & ->)|(u9 & w9 & H & Hc)]; apply deliver_once in H as [Hd Hm].
    - by exists w'.
    - apply confirm_receipt_runs in Hc as [Hr Herr]. by exists w9. }
  split; [|intros e He; rewrite (Herr e He), Hd; done]. rewrite Hr.
  destruct Hmsg as [Hs|[Hm]]; [left; congruence|right]. split; [done|].
  exists version, ps. split_and!; [done|by apply size_not_empty|by apply Z.ltb_ge| |].
  - match goal with H : checked_mul _ _ = Some _ |- _ => unfold checked_mul in H;
      destruct (_ <=? u64_max)%Z; [|done]; injection H as <- end. by apply Z.ltb_ge.
  - split. by rewrite <- Hp8.
Qed.
End relations.

(** ** The whole request *)

(** The committed database is as it was. *)
Definition db_kept `{JV : JsonValue, AM : Amqp} (w w' : World) : Prop := w_db w' = w_db w.
Global Instance db_kept_preorder `{JV : JsonValue, AM : Amqp} : PreOrder db_kept.
Proof. split; unfold db_kept; [done|congruence]. Qed.

Lemma kept_same `{JV : JsonValue, AM : Amqp} {A} (m : W A) : always same_world m → always db_kept m.
Proof. intros H w. by destruct (H w). Qed.

Lemma kept_rabbit `{JV : JsonValue, AM : Amqp} {A} (m : R A) : always db_kept (rabbit m).
Proof. intros w. unfold rabbit, zoom. by destruct (m (w_rabbit w)). Qed.

(** The committed database and the broker are as they were. *)
Record same_db `{JV : JsonValue, AM : Amqp} (w w' : World) : Prop := {
  sd_db : w_db w' = w_db w;
  sd_rabbit : w_rabbit w' = w_rabbit w;
}.

Section request.
Context `{JV : JsonValue, HO : Host, MS : !Memberships, TR : Transport, PR : !Protocol, HX : Hex,
          SHA : Sha256, CL : DeliveryClassOps, TJ : TupleJson, EC : !EnvelopeCodec, AM : Amqp}.

(** What has been checked when a request gets to its receipt. *)
Record checked (session : VerifiedSession) (frame : PublishFrame) (validated : ValidatedFrame)
    (json : string) (w : World) : Prop := {
  ck_network : pf_route_network_id frame = vs_network_id session;
  ck_policy : pf_delivery_policy_version frame = DELIVERY_POLICY_VERSION;
  ck_valid : validate_record_frame frame session = Ok validated;
  ck_snapshot : is_ok (snapshot_authority (vs_network_id session) (vs_principal_id session)
    (vf_membership_mutation validated) w).1 = true;
  ck_genesis : needs_genesis (vf_route validated) = true → ∃ row,
    db_authorities (w_db w) !! (vs_network_id session, vs_principal_id session, "genesis")
      = Some row ∧ au_state row = Active;
  ck_route : route_to_json (vf_route validated) = Ok json;
}.

(** A request fails without a trace, or has been checked and found its receipt, or
    the lack of one. *)
Lemma publish_runs cfg session frame w r w' :
  Service.publish cfg session frame w = (r, w') →
  (same_world w w' ∧ ∃ e, r = Err e) ∨
  ∃ validated json existing w1 w2, checked session frame validated json w ∧
    same_world w w1 ∧ same_world w w2 ∧
    let class := delivery_class_for_record (route_lane (vf_route validated)) (vf_urgency validated) in
    let h := hex_encode (sha256 (pf_payload frame)) in
    let rh := hex_encode (sha256 json) in
    load_confirmed_receipt (vs_network_id session) (vs_principal_id session) (pf_record_id frame)
      h rh w1 = (Ok existing, w2) ∧
    match existing with
    | Some receipt => publish_duplicate frame class receipt w2 = (r, w')
    | None => ∃ label, scope_label (route_scope (vf_route validated)) = Ok label ∧
        begin_scope_fence (vs_network_id session) label
          (negb (bool_decide (vf_membership_mutation validated = None)))
          (publish_fenced cfg session frame validated class h rh) w2 = (r, w')
    end.
Proof.
  unfold Service.publish. cbn zeta. intros H.
  apply (always_step same_world w) in H as [?|(u1 & w1 & S1 & Hb1 & H)];
    [by left| |reflexivity|apply always_lift; apply _].
  apply (always_step same_world w) in H as [?|(validated & w2 & S2 & Hval & H)];
    [by left| |done|apply always_lift; apply _].
  apply (always_step same_world w) in H as [?|(u3 & w3 & S3 & Hsnap & H)];
    [by left| |done|apply same_snapshot_authority].
  apply (always_step same_world w) in H as [?|(refused & w4 & S4 & Hgen & H)];
    [by left| |done|solve_always; apply same_global_authority].
  apply (always_step same_world w) in H as [?|(u5 & w5 & S5 & Hb5 & H)];
    [by left| |done|apply always_lift; apply _].
  apply (always_step same_world w) in H as [?|(json & w6 & S6 & Hjson & H)];
    [by left| |done|apply always_lift; apply _].
  apply (always_step same_world w) in H as [?|(existing & w7 & S7 & Hload & H)];
    [by left| |done|apply same_load_receipt].
  cbv [lift] in Hb1, Hval, Hb5, Hjson. injection Hb1 as Hb1 ?. injection Hval as Hval ?.
  injection Hb5 as Hb5 ?. injection Hjson as Hjson ?. subst w1 w2 w5 w6.
  assert (checked session frame validated json w) as Hck.
  { apply bail_if_ok in Hb1, Hb5. apply orb_false_elim in Hb1 as [Hb1 Hn].
    apply orb_false_elim in Hb1 as [_ Hp]. apply negb_false_iff in Hp, Hn.
    apply bool_decide_eq_true_1 in Hn. apply Z.eqb_eq in Hp.
    split; [done|done|done|by rewrite Hsnap| |done].
    intros Hneeds. rewrite Hneeds in Hgen. cbn in Hgen. unfold principal_is_global_authority in Hgen.
    inv_W. rewrite (sw_db _ _ S3) in *.
    destruct (db_authorities (w_db w) !! _) as [row|]; [|done]. exists row. by inv_W. }
  destruct existing as [receipt|].
  - right. exists validated, json, (Some receipt), w4, w7. done.
  - apply (always_step same_world w) in H as [?|(label & w8 & S8 & Hl & H)];
      [by left| |done|apply always_lift; apply _].
    cbv [lift] in Hl. injection Hl as Hl ?. subst w8.
    right. exists validated, json, None, w4, w7. eauto 10.
Qed.

(** The fence is opened and locked, or the request fails. *)
Lemma fence_runs {A} n l b (body : W A) w r w' :
  begin_scope_fence n l b body w = (r, w') →
  same_db w w' ∧ (∃ e, r = Err e) ∨
  ∃ w1 w2, same_db w w1 ∧ tx_view w1 = w_db w1 ∧ (∀ d, w_tx w1 d = d) ∧ body w1 = (r, w2) ∧
    w_rabbit w' = w_rabbit w2 ∧ w_db w' = w_db w2.
Proof.
  unfold begin_scope_fence, in_transaction. intros H.
  apply (always_step same_world w) in H as [[[? _ ?] ?]|(now & w1 & S1 & _ & H)];
    [by left| |reflexivity|apply same_statement].
  unfold rollback_on_drop in H.
  match type of H with (let '(_, _) := ?m in _) = _ => destruct m as [r2 w2] eqn:E end. simplify_eq.
  apply (always_step same_world (set_tx (fun d => d) w1)) in E
    as [[[? _ ?] ?]|(u & w3 & S3 & _ & E)]; [| |reflexivity|apply same_statement].
  - left. destruct S1. cbn in *. split; [|done]. split; cbn; congruence.
  - right. exists w3, w2. destruct S1, S3 as [? Htx ?]. cbn in *. unfold tx_view. rewrite Htx.
    split_and!; try done. split; congruence.
Qed.

Lemma harmless_duplicate frame class receipt : always harmless (publish_duplicate frame class receipt).
Proof.
  unfold publish_duplicate. apply always_bind; [apply _|apply always_lift; apply _|intros _].
  apply always_bind; [apply _|apply harmless_observability|intros _; apply always_ret; apply _].
Qed.
End request.

(** ** Receipts *)

Section receipts.
Context `{JV : JsonValue, HO : Host, MS : !Memberships, TR : Transport, PR : !Protocol, HX : Hex,
          SHA : Sha256, CL : DeliveryClassOps, TJ : TupleJson, EC : !EnvelopeCodec, AM : Amqp}.

(** The pending writes of the transaction do not touch the receipts. *)
Definition thru (w w' : World) : Prop :=
  (∀ d, db_receipts (w_tx w d) = db_receipts d) → ∀ d, db_receipts (w_tx w' d) = db_receipts d.
#[export] Instance thru_preorder : PreOrder thru.
Proof. split; unfold thru; auto. Qed.

Lemma thru_tx {A} (m : W A) : (∀ w, w_tx (m w).2 = w_tx w) → always thru m.
Proof. intros H w. unfold thru. by rewrite H. Qed.

Lemma thru_same {A} (m : W A) : always same_world m → always thru m.
Proof. intros H. apply thru_tx. intros w. by destruct (H w). Qed.

Lemma thru_rabbit {A} (m : R A) : always thru (rabbit m).
Proof. apply thru_tx. intros w. unfold rabbit, zoom. by destruct (m (w_rabbit w)). Qed.

Lemma thru_tx_execute {A} (f : Z -> Db -> result string (A * Db)) :
  (∀ now d a d', f now d = Ok (a, d') → db_receipts d' = db_receipts d) → always thru (tx_execute f).
Proof.
  intros Hf. unfold tx_execute. apply always_bind; [apply _|apply thru_same, same_statement|].
  intros now w. unfold mbind, M_bind, gets, lift, modify. cbn.
  destruct (f now (tx_view w)) as [[a d']|e]; cbn; [|reflexivity].
  intros Hw d. cbn. destruct (f now (w_tx w d)) as [[a' d'']|e] eqn:H; [|done].
  by rewrite (Hf _ _ _ _ H).
Qed.

Lemma thru_tx_update f : (∀ now d, db_receipts (f now d) = db_receipts d) → always thru (tx_update f).
Proof. intros Hf. apply thru_tx_execute. intros now d a d' [= _ <-]. apply Hf. Qed.

Hint Resolve thru_rabbit : gw_always.
Hint Extern 2 (always thru (tx_update _)) => apply thru_tx_update; intros; reflexivity : gw_always.
Hint Extern 3 (always thru _) => apply thru_same; solve [eauto with gw_always nocore] : gw_always.

Lemma thru_insert_route n l r p c v : always thru (tx_execute (fun now => insert_route now n l r p c v)).
Proof.
  apply thru_tx_execute. intros now d u d' H. unfold insert_route in H. by inv_result.
Qed.
Hint Resolve thru_insert_route : gw_always.

Lemma thru_mutate cfg n rt m c : always thru (mutate cfg n rt m c).
Proof.
  unfold mutate, apply_membership_mutation, store_membership, record_membership_mutation, observability.
  solve_always.
Qed.

Lemma thru_acquire cfg n sc c r v : always thru (acquire_tokens cfg n sc c r v).
Proof.
  assert (∀ d, always thru (modify (set_db d))) as Hset by (intros d; by apply thru_tx).
  unfold acquire_tokens, acquiring, global_tokens, non_global_tokens, acquire_clock, observability.
  solve_always.
Qed.

Lemma thru_reconcile cfg n rt : always thru (reconcile_scope_bindings cfg n rt).
Proof.
  assert (∀ d, always thru (modify (set_db d))) as Hset by (intros d; by apply thru_tx).
  unfold reconcile_scope_bindings, update, execute. solve_always.
Qed.

Lemma thru_deliver cfg se f rt c v n : always thru (deliver cfg se f rt c v n).
Proof. unfold deliver, observability. solve_always. Qed.

(** The stored receipt of an accepted publish. *)
Record receipted (session : VerifiedSession) (frame : PublishFrame) (class : DeliveryClass)
    (h rh : string) (acc : PublishAcceptance) (row : ReceiptRow) : Prop := {
  rc_route : re_authorized_route_hash row = rh;
  rc_record : re_record_hash row = h;
  rc_class : re_delivery_class row = class_as_str class;
  rc_policy : re_delivery_policy_version row = as_i64 (pf_delivery_policy_version frame);
  rc_status : re_publish_status row = "confirmed";
  rc_expires : ∃ t, re_expires_at row = (utc_now t + DAY_US)%Z;
  rc_acc_version : ac_membership_version acc = re_membership_version row;
  rc_acc_class : ac_delivery_class acc = class;
  rc_acc_policy : ac_delivery_policy_version acc = pf_delivery_policy_version frame;
  rc_acc_record : ac_record_id acc = pf_record_id frame;
}.

Definition receipt_key (session : VerifiedSession) (frame : PublishFrame) : string * string * string :=
  (vs_network_id session, vs_principal_id session, pf_record_id frame).

Lemma confirm_receipt_ok session frame class h rh v n w acc w' :
  confirm_receipt session frame class h rh v n w = (Ok acc, w') →
  db_receipts (tx_view w) !! receipt_key session frame = None →
  ∃ row, db_receipts (w_db w') !! receipt_key session frame = Some row ∧
    receipted session frame class h rh acc row.
Proof.
  unfold confirm_receipt, receipt_key. cbn zeta. intros H Hnone. inv_W. same_views.
  match goal with H : record_audit _ _ _ _ _ = _ |- _ => apply record_audit_ok in H as (_ & _ & f & Hf) end.
  chase_worlds. cbn. unfold store_receipt. cbn. rewrite Hnone.
  eexists. rewrite lookup_insert_eq. split; [done|]. split; cbn; eauto.
Qed.

(** A fenced publish of a new record leaves its receipt. *)
Lemma publish_fenced_ok cfg session frame validated class h rh w acc w' :
  publish_fenced cfg session frame validated class h rh w = (Ok acc, w') →
  (∀ d, w_tx w d = d) → db_receipts (w_db w) !! receipt_key session frame = None →
  ∃ row, db_receipts (w_db w') !! receipt_key session frame = Some row ∧
    receipted session frame class h rh acc row.
Proof.
  intros H Htx Hnone. unfold publish_fenced in H. cbn zeta in H.
  set (quiet := fun w w' : World => db_receipts (w_db w') = db_receipts (w_db w) ∧ thru w w').
  assert (PreOrder quiet) as Hpre.
  { split; [by intros ?; split|]. intros w1 w2 w3 [] []. split; [congruence|by etrans]. }
  assert (∀ A (m : W A), always harmless m → always thru m → always quiet m) as Hq.
  { intros A m Hh Ht x. split; [apply (ha_authority _ _ (Hh x))|apply Ht]. }
  assert (∀ A (m : W A), always same_world m → always quiet m) as Hsame.
  { intros A m Hm. apply Hq; [by apply harmless_same|by apply thru_same]. }
  assert (∀ v n, always quiet (deliver cfg session frame (vf_route validated) class v n)) as Hdel.
  { intros v n x. split; [|apply thru_deliver].
    destruct (deliver _ _ _ _ _ _ _ x) as [r x'] eqn:E. cbn.
    by apply deliver_once in E as [-> _]. }
  assert (∀ A (m : W A) x a x', always quiet m → m x = (Ok a, x') → quiet w x → quiet w x') as Hrun.
  { intros A m x a x' Hm E Hx. etrans; [exact Hx|]. by apply (always_run _ _ _ _ _ Hm E). }
  apply M_bind_ok in H as (cur & w1 & E1 & H). apply Hrun in E1; [|apply Hsame, same_authorized|reflexivity].
  apply M_bind_ok in H as ([version n] & w2 & E2 & H).
  apply Hrun in E2; [|apply Hq; [apply harmless_mutate|apply thru_mutate]|done].
  apply M_bind_ok in H as (u3 & w3 & E3 & H). apply Hrun in E3; [|apply always_lift; apply _|done].
  apply M_bind_ok in H as (rec & w4 & E4 & H). apply Hrun in E4; [|apply Hsame, same_author_receives|done].
  apply M_bind_ok in H as (by5 & w5 & E5 & H). apply Hrun in E5; [|apply always_lift; apply _|done].
  apply M_bind_ok in H as (u6 & w6 & E6 & H). apply Hrun in E6; [|apply always_lift; apply _|done].
  apply M_bind_ok in H as (u7 & w7 & E7 & H).
  apply Hrun in E7; [|apply Hq; [apply harmless_acquire_tokens|apply thru_acquire]|done].
  apply M_bind_ok in H as (u8 & w8 & E8 & H). apply Hrun in E8; [|apply always_whenM; [done|]; apply Hq;
    [apply harmless_reconcile|apply thru_reconcile]|done].
  apply M_bind_ok in H as (u9 & w9 & E9 & H). apply Hrun in E9 as [Hrec Hthru]; [|apply Hdel|done].
  eapply confirm_receipt_ok; [exact H|]. unfold tx_view.
  rewrite Hthru by (intros d; by rewrite Htx). by rewrite Hrec.
Qed.

(** With an unexpired receipt of the same record and route, a request is answered
    without the broker. *)
Lemma publish_receipted `{CLL : !DeliveryClassLaws} cfg session frame validated json acc row w r w' :
  is_u64 (pf_delivery_policy_version frame) →
  validate_record_frame frame session = Ok validated → route_to_json (vf_route validated) = Ok json →
  let class := delivery_class_for_record (route_lane (vf_route validated)) (vf_urgency validated) in
  db_receipts (w_db w) !! receipt_key session frame = Some row →
  receipted session frame class (hex_encode (sha256 (pf_payload frame)))
    (hex_encode (sha256 json)) acc row →
  (∀ t, (db_clock t < re_expires_at row)%Z) →
  Service.publish cfg session frame w = (r, w') →
  publishes (w_rabbit w') = publishes (w_rabbit w) ∧ w_db w' = w_db w ∧
  ∀ acc', r = Ok acc' → ac_record_id acc' = ac_record_id acc ∧
    ac_membership_version acc' = ac_membership_version acc ∧
    ac_delivery_class acc' = ac_delivery_class acc.
Proof.
  intros Hpol Hval Hjson class Hrow Hrc Hclock H.
  apply publish_runs in H as [[[-> _ ->] [e ->]]|(v & j & existing & w1 & w2 & Hck & S1 & S2 & Hload & H)];
    [done|].
  destruct Hck as [_ _ Hv _ _ Hj]. assert (v = validated) as -> by congruence.
  assert (j = json) as -> by congruence. destruct Hrc as [R1 R2 R3 R4 R5 R6 R7 R8 R9 R10].
  unfold load_confirmed_receipt in Hload. apply M_bind_ok in Hload as (o & w3 & Hq & Hload).
  apply query_ok in Hq as (_ & t & ->). rewrite (sw_db _ _ S1) in Hload.
  unfold confirmed_receipt in Hload. unfold receipt_key in Hrow. rewrite Hrow, R5 in Hload.
  rewrite (proj2 (Z.ltb_lt _ _) (Hclock t)) in Hload. cbn in Hload.
  rewrite (bool_decide_eq_true_2 ("confirmed" = "confirmed")) in Hload by done. cbn in Hload.
  assert (parse_class (class_as_str class) = Ok class) as Hparse.
  { unfold parse_class. destruct class; [by rewrite class_as_str_interactive|by rewrite class_as_str_bulk]. }
  unfold receipt_acceptance in Hload. rewrite R1, R2, R3, R4, Hparse in Hload. rewrite !bool_decide_eq_true_2 in Hload by done.
  cbn in Hload. cbv [lift mbind M_bind mret M_ret] in Hload. simplify_eq.
  unfold publish_duplicate in H. cbn in H.
  rewrite bool_decide_eq_true_2, as_u64_as_i64, Z.eqb_refl in H by done.
  unfold observability, rabbit, zoom, observe_event, lift, mbind, M_bind, mret, M_ret in H. cbn in H.
  simplify_eq. destruct S2 as [Hd _ Hr]. unfold publishes. cbn. rewrite Hr. split_and!; [done|done|].
  intros acc' [= <-]. cbn. by rewrite R10, R7, R8.
Qed.
End receipts.

(** ** Claims *)

(** C1: nothing reaches the broker unless it may.  Whatever the outcome of a publish
    request, either no message has been handed to the broker, or exactly one has: the
    frame is valid for the session and of the session's network; a membership
    snapshot it carries passed the quorum check and a Global rule or checkpoint comes
    from the Genesis; its author, as committed, is an active member of the scope or a
    network member joining it (and for a direct message, both ends are members); the
    fan-out is not empty and within the limits on recipients and bytes, where the
    fan-out is the recipient of a direct message, the active members of the scope's
    committed version with a live grant, or, when the frame carries a membership
    change, the members that change leaves; and the message carries the payload of
    the frame under the author's name, addressed to the mailbox of the recipient or to
    the scope's route and the version of that fan-out. *)
Theorem publish_guarded `{JV : JsonValue, HO : Host, MS : !Memberships, TR : Transport,
      PR : !Protocol, HX : Hex, SHA : Sha256, CL : DeliveryClassOps, TJ : TupleJson,
      EC : !EnvelopeCodec, AM : Amqp} cfg session frame w r w' :
  Service.publish cfg session frame w = (r, w') →
  publishes (w_rabbit w') = publishes (w_rabbit w) ∨
  ∃ validated version (ps : gset string),
    pf_route_network_id frame = vs_network_id session ∧
    validate_record_frame frame session = Ok validated ∧
    is_ok (snapshot_authority (vs_network_id session) (vs_principal_id session)
             (vf_membership_mutation validated) w).1 = true ∧
    (needs_genesis (vf_route validated) = true →
       ∃ row, db_authorities (w_db w) !! (vs_network_id session, vs_principal_id session, "genesis")
         = Some row ∧ au_state row = Active) ∧
    may_publish (w_db w) (vs_network_id session) (route_scope (vf_route validated))
      (vs_principal_id session)
      (joins (vf_membership_mutation validated) (vs_principal_id session)) ∧
    fanout (w_db w) (vs_network_id session) (route_scope (vf_route validated))
      (vf_membership_mutation validated) version ps ∧
    ps ≠ ∅ ∧ (Z.of_nat (size ps) <= max_fanout_recipients cfg)%Z ∧
    (len (pf_payload frame) * Z.of_nat (size ps) <= max_fanout_bytes_per_publish cfg)%Z ∧
    delivered session frame (vf_route validated)
      (delivery_class_for_record (route_lane (vf_route validated)) (vf_urgency validated))
      version (w_rabbit w) (w_rabbit w').
Proof.
  intros H. apply publish_runs in H as [[[] _]|(validated & json & existing & w1 & w2 & Hck & S1 & S2 & _ & H)];
    [left; congruence|].
  destruct existing as [receipt|].
  - left. apply (always_run harmless _ _ _ _ (harmless_duplicate _ _ _)) in H as [-> _].
    by destruct S2 as [_ _ ->].
  - destruct H as (label & _ & H). apply fence_runs in H as [[[_ ->] _]|(w3 & w4 & S3 & Hv & _ & H & Hr & _)].
    + left. by destruct S2 as [_ _ ->].
    + apply publish_fenced_runs in H as [[Hp|(Hmay & version & ps & Hps & ? & ? & ? & [Hm])] _];
        [| |exact Hv].
      * left. rewrite Hr, Hp. by destruct S3 as [_ ->], S2 as [_ _ ->].
      * right. exists validated, version, ps. destruct Hck.
        destruct S3 as [Hd3 Hr3], S2 as [Hd2 _ Hr2]. rewrite Hd3, Hd2 in Hmay, Hps.
        split_and!; try done. split. rewrite Hr. by rewrite Hr3, Hr2 in Hm.
Qed.

(** C15: a failed publish changes no authority.  When a publish request fails, at
    whatever step, the committed memberships (versions, states and roles), scope
    versions, authorities, grants and receipts are exactly what they were. *)
Theorem publish_atomic `{JV : JsonValue, HO : Host, MS : !Memberships, TR : Transport,
      PR : !Protocol, HX : Hex, SHA : Sha256, CL : DeliveryClassOps, TJ : TupleJson,
      EC : !EnvelopeCodec, AM : Amqp} cfg session frame w e w' :
  Service.publish cfg session frame w = (Err e, w') → same_authority (w_db w) (w_db w').
Proof.
  intros H. apply publish_runs in H as [[[-> _ _] _]|(validated & json & existing & w1 & w2 & _ & _ & S2 & _ & H)];
    [reflexivity|].
  destruct S2 as [Hd _ _]. rewrite <- Hd. destruct existing as [receipt|].
  - by apply (always_run harmless _ _ _ _ (harmless_duplicate _ _ _)) in H as [_ H].
  - destruct H as (label & _ & H). apply fence_runs in H as [[[-> _] _]|(w3 & w4 & [S3 _] & Hv & _ & H & _ & ->)];
      [reflexivity|].
    apply publish_fenced_runs in H as [_ H]; [|exact Hv]. rewrite <- S3. by eapply H.
Qed.

(** C8: a record is published at most once.  After a record without a receipt has
    been published, the same frame presented again by the same principal, while the
    clocks stay within a day, hands nothing to the broker and changes nothing in the
    database, whatever else has happened to memberships in between; if the repeated
    request succeeds, it reports the record, class and membership version of the
    first. *)
Theorem publish_at_most_once `{JV : JsonValue, HO : Host, MS : !Memberships, TR : Transport,
      PR : !Protocol, HX : Hex, SHA : Sha256, CL : DeliveryClassOps, CLL : !DeliveryClassLaws,
      TJ : TupleJson, EC : !EnvelopeCodec, AM : Amqp} cfg session frame w acc w' cfg2 w2 r2 w3 :
  is_u64 DELIVERY_POLICY_VERSION →
  (∀ t t', (db_clock t < utc_now t' + DAY_US)%Z) →
  db_receipts (w_db w) !! receipt_key session frame = None →
  Service.publish cfg session frame w = (Ok acc, w') →
  db_receipts (w_db w2) = db_receipts (w_db w') →
  Service.publish cfg2 session frame w2 = (r2, w3) →
  publishes (w_rabbit w3) = publishes (w_rabbit w2) ∧ w_db w3 = w_db w2 ∧
  ∀ acc', r2 = Ok acc' → ac_record_id acc' = ac_record_id acc ∧
    ac_membership_version acc' = ac_membership_version acc ∧
    ac_delivery_class acc' = ac_delivery_class acc.
Proof.
  intros Hpol Hclock Hnone H Hsame H2.
  apply publish_runs in H as [[_ [e [=]]]|(v & j & existing & w4 & w5 & Hck & S4 & S5 & Hload & H)].
  destruct Hck as [_ Hp Hv _ _ Hj]. rewrite <- Hp in Hpol.
  unfold load_confirmed_receipt in Hload. apply M_bind_ok in Hload as (o & w6 & Hq & Hload).
  apply query_ok in Hq as (_ & t & ->). rewrite (sw_db _ _ S4) in Hload.
  unfold confirmed_receipt in Hload. unfold receipt_key in Hnone. rewrite Hnone in Hload.
  cbv [mret M_ret] in Hload. simplify_eq. destruct H as (label & _ & H).
  apply fence_runs in H as [[_ [e [=]]]|(w7 & w8 & [S7 _] & _ & Htx & H & _ & Hd)].
  apply publish_fenced_ok in H as (row & Hrow & Hrc); [|done|by rewrite S7, (sw_db _ _ S5)].
  rewrite <- Hd, <- Hsame in Hrow. destruct (rc_expires _ _ _ _ _ _ _ Hrc) as [t' He].
  eapply (publish_receipted cfg2 session frame v j acc row); eauto.
  intros t''. rewrite He. apply Hclock.
Qed.

(** A validated event is the author's own.  An event frame is accepted only if
    the event's signature verifies, its id is the record id and its author the
    principal of the session; it travels on exactly the route of its scope and kind;
    an event on the Global route is a control event; and a membership change it
    carries is for the scope of its route, a snapshot only for the Global scope, and a
    subscription only of the author itself, never for the Global scope or a node. *)
Theorem event_frame_sound `{MS : Memberships, TR : Transport, PR : !Protocol}
    frame session validated :
  validate_event_frame frame session = Ok validated →
  ∃ event hint lane, event_from_slice (pf_payload frame) = Ok event ∧
    verify_event_signature event = Ok () ∧ event_id event = pf_record_id frame ∧
    author_node_id event = vs_principal_id session ∧
    parse_with_prefix_fallback (swarm_scope event) = Some hint ∧
    from_kind_label (scope_from_hint hint) lane (event_kind_debug (event_kind event))
      (is_public_global_control (event_payload event)) = Ok (vf_route validated) ∧
    vf_route validated = pf_route_transport frame ∧
    (route_scope (vf_route validated) = Global →
       is_public_global_control (event_payload event) = true) ∧
    match vf_membership_mutation validated with
    | None => True
    | Some (Snapshot scope _ _ _ version) =>
        scope = Global ∧ scope = route_scope (vf_route validated) ∧ version = pf_record_id frame
    | Some (Principal scope principal _ version) =>
        principal = vs_principal_id session ∧ scope = route_scope (vf_route validated) ∧
        scope ≠ Global ∧ is_node scope = false ∧ version = pf_record_id frame
    end.
Proof.
  unfold validate_event_frame. intros H.
  apply result_bind_ok in H as (event & Hev & H). apply result_bind_ok in H as ([] & Hsig & H).
  apply result_bind_ok in H as (u1 & Hid & H). apply result_bind_ok in H as (hint & Hh & H).
  apply result_bind_ok in H as (route & Hr & H). apply result_bind_ok in H as (u2 & Hrt & H).
  apply result_bind_ok in H as (u3 & _ & H). apply result_bind_ok in H as (u4 & Hg & H).
  apply result_bind_ok in H as (mutation & Hm & H). apply result_bind_ok in H as (u5 & Hsc & H).
  injection H as <-. cbn. apply bail_if_ok in Hid, Hrt, Hg, Hsc. apply ok_or_ok in Hh.
  apply orb_false_elim in Hid as [Hid Ha]. apply negb_false_iff in Hid, Ha, Hrt.
  apply bool_decide_eq_true_1 in Hid, Ha, Hrt.
  eexists event, hint, _. split_and!; try done.
  - intros HG. rewrite HG in Hg. rewrite bool_decide_eq_true_2 in Hg by done.
    by apply negb_false_iff in Hg.
  - unfold event_mutation in Hm. destruct (event_payload event); inv_result; try done.
    + apply negb_false_iff, bool_decide_eq_true_1 in Hsc. by rewrite <- Hid.
    + match goal with H : negb _ = false |- _ => apply negb_false_iff in H; apply bool_decide_eq_true_1 in H
      end.
      destruct (bool_decide _ || is_node _) eqn:Hn; [done|].
      apply orb_false_elim in Hn as [Hn1 Hn2]. apply bool_decide_eq_false_1 in Hn1.
      apply negb_false_iff in Hsc. apply bool_decide_eq_true_1 in Hsc.
      split_and!; try done; congruence.
Qed.

(** On a freshly created database no control frame is ever acknowledged.  The
    receipt of a control frame is inserted without a record hash, which the table
    created by the current schema does not allow: a control request without a receipt
    fails, after its message may have been confirmed by the broker, and leaves no
    receipt, so that a client that retries publishes the control again. *)
Theorem control_never_acknowledged `{JV : JsonValue, HO : Host, MS : !Memberships, TR : Transport,
      PR : !Protocol, CO : Controls, HX : Hex, SHA : Sha256, CL : DeliveryClassOps, TJ : TupleJson,
      EC : !EnvelopeCodec, AM : Amqp, SC : Schema} cfg session frame w r w' :
  record_hash_default = None →
  db_receipts (w_db w) !! (vs_network_id session, vs_principal_id session, cf_correlation_id frame)
    = None →
  send_control cfg session frame w = (r, w') →
  (∃ e, r = Err e) ∧ w_db w' = w_db w.
Proof.
  intros Hdef Hnone H. unfold send_control in H. cbn zeta in H.
  do 10 (apply (always_step db_kept w) in H as [[? ?]|(? & ? & ? & ? & H)];
    [done| |first [reflexivity|assumption]
     |first [apply always_lift; apply _|apply kept_same; first [apply same_admitted|apply same_query]]]).
  match goal with Hq : query _ ?x = (Ok ?o, _), Hx : db_kept w ?x |- _ =>
    apply query_ok in Hq as (_ & t & Ho); assert (o = None) as Hn;
    [rewrite Ho, Hx; unfold confirmed_receipt; by rewrite Hnone|rewrite Hn in H; clear Ho] end.
  do 4 (apply (always_step db_kept w) in H as [[? ?]|(? & ? & ? & ? & H)];
    [done| |assumption|first [apply kept_rabbit|apply kept_same, same_utc]]).
  apply M_bind_inv in H as [(e & H & ->)|(u & w3 & H & _)].
  - split; [by eexists|]. match type of H with execute _ ?x = _ =>
      assert (w_db w' = w_db x) as ->; [|assumption] end.
    unfold execute, statement, tick, mbind, M_bind, gets, lift in H. cbn in H.
    rewrite Hdef in H. cbn in H. by destruct (db_fault _); cbn in H; simplify_eq.
  - apply execute_ok in H as (t' & H & _). by rewrite Hdef in H.
Qed.

(** ** Witnesses *)

Definition sample_group_event : sample_event := {|
  sv_id := "e1"; sv_author := "alice"; sv_scope := "group:g"; sv_message := false;
  sv_payload := OtherPayload;
|}.

Definition sample_protocol : @Protocol json_value_impl memberships_impl transport_impl :=
  protocol_impl [("from-alice", sample_group_event)] [].

Definition sample_event_route : sample_route :=
  match from_kind_label (Transport:=transport_impl) (Group "g") Events "Other" false with
  | Ok r => r
  | Err _ => {| sr_scope := Global; sr_lane := Events; sr_address := "" |}
  end.

Definition sample_frame : @PublishFrame transport_impl :=
  @Build_PublishFrame transport_impl "1" 1 "net" sample_event_route "e1" "from-alice" PTEvent.

Definition sample_session (p : string) : VerifiedSession :=
  {| vs_session_id := "s"; vs_network_id := "net"; vs_principal_id := p |}.

Definition sample_publish_db : @Db json_value_impl :=
  on_versions (insert ("net", "group:g")
    {| ve_active_membership_version := "v1"; ve_routing_fence := 1%Z; ve_updated_at := 0%Z |})
  (on_members (fun m => <[("net", "group:g", "alice") := sample_member "v1" []]>
    (<[("net", "group:g", "bob") := sample_member "v1" []]> m)) db_empty).

Definition sample_publish (author : string) (w : @World json_value_impl amqp_impl) :
    result string PublishAcceptance * @World json_value_impl amqp_impl :=
  Service.publish (HO:=frozen_host) (MS:=memberships_impl) (TR:=transport_impl)
    (PR:=sample_protocol) (HX:=hex_impl) (SHA:=sha256_id) (CL:=class_impl) (TJ:=json_impl)
    (EC:=envelope_impl) (AM:=amqp_impl) sample_config (sample_session author) sample_frame w.

Definition sample_published : result string PublishAcceptance * @World json_value_impl amqp_impl :=
  sample_publish "alice" (sample_world sample_publish_db (Ack None)).

Definition sample_acceptance : PublishAcceptance :=
  match sample_published.1 with
  | Ok acc => acc
  | Err _ => {| ac_publish_receipt := ""; ac_record_id := ""; ac_delivery_class := Bulk;
                ac_delivery_policy_version := 0%Z; ac_membership_version := None |}
  end.

Lemma sample_published_ok :
  sample_publish "alice" (sample_world sample_publish_db (Ack None))
    = (Ok sample_acceptance, sample_published.2).
Proof.
  assert (is_ok sample_published.1 = true) as H by (vm_compute; reflexivity).
  apply is_ok_spec in H as [r H]. unfold sample_acceptance. rewrite H. cbn.
  rewrite <- H. apply surjective_pairing.
Qed.

Lemma publish_guarded_witness :
  publishes (w_rabbit sample_published.2) ≠ [] ∧
  may_publish (HO:=frozen_host) (TR:=transport_impl) sample_publish_db "net" (Group "g") "alice" false.
Proof.
  assert (publishes (w_rabbit sample_published.2) ≠ []) as Hne by (vm_compute; discriminate).
  split; [exact Hne|].
  destruct (publish_guarded _ _ _ _ _ _ sample_published_ok)
    as [H|(validated & version & n & _ & Hv & _ & _ & Hmay & _)].
  - exfalso. apply Hne. rewrite H. reflexivity.
  - assert (match validate_record_frame (PR:=sample_protocol) sample_frame (sample_session "alice")
            with Ok v => v = validated | Err _ => False end) as Hval by (rewrite Hv; reflexivity).
    vm_compute in Hval. subst validated. exact Hmay.
Defined.

Lemma publish_atomic_witness :
  (sample_publish "carol" (sample_world sample_publish_db (Ack None))).1 =
    Err "signed Event identity or author does not match session" ∧
  same_authority sample_publish_db
    (w_db (sample_publish "carol" (sample_world sample_publish_db (Ack None))).2).
Proof.
  assert ((sample_publish "carol" (sample_world sample_publish_db (Ack None))).1 =
    Err "signed Event identity or author does not match session") as Herr by (vm_compute; reflexivity).
  split; [exact Herr|].
  apply (publish_atomic (HO:=frozen_host) (PR:=sample_protocol) (HX:=hex_impl) (SHA:=sha256_id)
    (CL:=class_impl) (TJ:=json_impl) (EC:=envelope_impl) sample_config (sample_session "carol")
    sample_frame (sample_world sample_publish_db (Ack None))
    "signed Event identity or author does not match session").
  unfold sample_publish in *. rewrite <- Herr. apply surjective_pairing.
Defined.

Lemma publish_at_most_once_witness :
  publishes (w_rabbit (sample_publish "alice" sample_published.2).2) =
    publishes (w_rabbit sample_published.2).
Proof.
  assert (is_u64 (DELIVERY_POLICY_VERSION (Protocol:=sample_protocol))) as Hpol
    by (vm_compute; split; discriminate).
  assert (∀ t t', (db_clock (Host:=frozen_host) t < utc_now (Host:=frozen_host) t' + DAY_US)%Z)
    as Hclock by (intros t t'; vm_compute; reflexivity).
  assert (db_receipts (w_db (sample_world sample_publish_db (Ack None))) !!
    receipt_key (sample_session "alice") sample_frame = None) as Hnone by reflexivity.
  pose proof sample_published_ok as Hok.
  pose proof (surjective_pairing (sample_publish "alice" sample_published.2)) as Hagain.
  generalize dependent sample_published. intros p Hok Hagain.
  generalize dependent sample_acceptance. intros acc Hok. 
  generalize dependent (sample_publish "alice" p.2).1. intros r.
  generalize dependent (sample_publish "alice" p.2).2. intros w3 Hagain.
  unfold sample_publish in Hok, Hagain.
  exact (proj1 (publish_at_most_once (CLL:=class_impl_laws) _ _ _ _ _ _ _ _ _ _
    Hpol Hclock Hnone Hok eq_refl Hagain)).
Defined.

Lemma event_frame_sound_witness :
  ∃ event, event_from_slice (Protocol:=sample_protocol) "from-alice" = Ok event ∧
    author_node_id (Protocol:=sample_protocol) event = "alice".
Proof.
  destruct (event_frame_sound (PR:=sample_protocol) sample_frame (sample_session "alice")
    {| vf_route := sample_event_route : @EventTransportRoute transport_impl;
       vf_urgency := Background; vf_membership_mutation := None |})
    as (event & hint & lane & Hev & _ & _ & Ha & _); [vm_compute; reflexivity|].
  exists event. split; [exact Hev|exact Ha].
Defined.

Definition fresh_schema : Schema := {| record_hash_default := None |}.

Definition controls_impl : Controls := {|
  ControlKind := string; control_kind_as_str k := k;
  ControlFrame := string * string;
  cf_framing_version _ := "1"; cf_network_id _ := "net";
  cf_source_principal_id f := f.1; cf_target_principal_id f := f.2;
  cf_correlation_id _ := "corr"; cf_control_kind _ := "ping"; cf_payload _ := "hello";
  cf_signature_hex f := sample_signature f.1 "sign";
  control_frame_signing_message _ := Ok "sign";
  control_binding_to_vec target kind payload := Ok (target +:+ kind +:+ payload);
|}.

Definition sample_control_db : @Db json_value_impl :=
  on_members (insert ("net", "global", "bob") (sample_member "v1" [])) db_empty.

Definition sample_control : result string ControlAcceptance * @World json_value_impl amqp_impl :=
  send_control (HO:=frozen_host) (MS:=memberships_impl) (TR:=transport_impl) (PR:=sample_protocol)
    (CO:=controls_impl) (HX:=hex_impl) (SHA:=sha256_id) (CL:=class_impl) (TJ:=json_impl)
    (EC:=envelope_impl) (AM:=amqp_impl) (SC:=fresh_schema) sample_config (sample_session "alice")
    ("alice", "bob") (sample_world sample_control_db (Ack None)).

Lemma control_never_acknowledged_witness :
  length (publishes (w_rabbit sample_control.2)) = 1 ∧ ∃ e, sample_control.1 = Err e.
Proof.
  split; [vm_compute; reflexivity|].
  apply (control_never_acknowledged (HO:=frozen_host) (PR:=sample_protocol) (CO:=controls_impl)
    (HX:=hex_impl) (SHA:=sha256_id) (CL:=class_impl) (TJ:=json_impl) (EC:=envelope_impl)
    (SC:=fresh_schema) sample_config (sample_session "alice") ("alice", "bob")
    (sample_world sample_control_db (Ack None)) sample_control.1 sample_control.2).
  - reflexivity.
  - reflexivity.
  - apply surjective_pairing.
Defined.
