(* ===== verification/GwValue.v ===== *)
(** * JSON values of the gateway

    The gateway stores and rewrites [serde_json::Value] payloads.  The crate is not
    part of the repository: the type is opaque here, with the constructors and the
    accessors the sources use and their documented behaviour as laws.  A JSON
    object is a finite map; no function of the gateway depends on the order of its
    keys. *)

From S2P Require Import Prelude Str.

Class SerdeValue := {
  Value : Type;
  VNull : Value;
  VBool : bool -> Value;
  (** [Value::Number] of an integer. *)
  VNumber : Z -> Value;
  VString : string -> Value;
  VArray : list Value -> Value;
  VObject : gmap string Value -> Value;
  as_str : Value -> option string;
  as_object : Value -> option (gmap string Value);
  as_array : Value -> option (list Value);
}.

Class SerdeValueLaws `{SV : SerdeValue} : Prop := {
  as_str_spec v s : as_str v = Some s <-> v = VString s;
  as_object_spec v m : as_object v = Some m <-> v = VObject m;
  as_array_spec v l : as_array v = Some l <-> v = VArray l;
  string_not_object s m : VString s <> VObject m;
  null_not_object m : VNull <> VObject m;
}.

Section value.
Context `{SV : SerdeValue}.

(** [Value::get] with a key: nothing for a value that is not an object. *)
Definition value_get (v : Value) (key : string) : option Value :=
  object ← as_object v; object !! key.

(** [value[key]], which yields [Null] for an absent key. *)
Definition value_index (v : Value) (key : string) : Value := default VNull (value_get v key).

(** [object.entry(key).or_insert_with(value)] *)
Definition or_insert {A} (key : string) (v : A) (object : gmap string A) : gmap string A :=
  match object !! key with Some _ => object | None => <[key := v]> object end.

(** [json!({..})] of fields with distinct names. *)
Definition json_object (fields : list (string * Value)) : Value := VObject (list_to_map fields).

Definition json_opt {A} (f : A -> Value) (o : option A) : Value :=
  match o with Some a => f a | None => VNull end.
End value.

(** ** Facts about [or_insert] *)

Section or_insert.
Context {A : Type}.
Implicit Types (m : gmap string A).

Lemma or_insert_keeps k v m k' x : m !! k' = Some x → or_insert k v m !! k' = Some x.
Proof.
  unfold or_insert. intros H. destruct (m !! k) eqn:E; [done|].
  rewrite lookup_insert_ne; [done|congruence].
Qed.

Lemma or_insert_present k v m : is_Some (or_insert k v m !! k).
Proof.
  unfold or_insert. destruct (m !! k) eqn:E; [by rewrite E|by rewrite lookup_insert_eq].
Qed.

Lemma or_insert_ne k v m k' : k ≠ k' → or_insert k v m !! k' = m !! k'.
Proof.
  intros Hne. unfold or_insert. destruct (m !! k); [done|by rewrite lookup_insert_ne].
Qed.

Lemma or_insert_eq k v m : or_insert k v m !! k = Some (default v (m !! k)).
Proof. unfold or_insert. destruct (m !! k) eqn:E; [done|by rewrite lookup_insert_eq]. Qed.

Lemma or_insert_id k v m : is_Some (m !! k) → or_insert k v m = m.
Proof. unfold or_insert. by intros [x ->]. Qed.

Lemma or_insert_subset k v m : m ⊆ or_insert k v m.
Proof. apply map_subseteq_spec. intros. by apply or_insert_keeps. Qed.
End or_insert.

Create HintDb json.
#[export] Hint Resolve or_insert_keeps or_insert_present or_insert_subset : json.

(** ** An executable instance *)

Inductive json :=
  | JNull | JBool (b : bool) | JNumber (n : Z) | JString (s : string)
  | JArray (l : list json) | JObject (m : gmap string json).

Definition json_impl_value : SerdeValue := {|
  Value := json;
  VNull := JNull; VBool := JBool; VNumber := JNumber; VString := JString;
  VArray := JArray; VObject := JObject;
  as_str v := match v with JString s => Some s | _ => None end;
  as_object v := match v with JObject m => Some m | _ => None end;
  as_array v := match v with JArray l => Some l | _ => None end;
|}.

Lemma json_impl_value_laws : SerdeValueLaws (SV:=json_impl_value).
Proof. split; intros; cbn in *; try done; destruct v; naive_solver. Qed.
