(* ===== verification/Contracts.v ===== *)
(** * Data kinds and their policies

    Models [crates/gateway/src/contracts.rs] and [source_policy.rs]: the enums of the
    catalogue, one metadata record per data kind (a definition per arm of
    [data_kind_metadata]), the derived policies and the identity under which a
    projected record is stored.  The types of the contract crate ([DataKind],
    [Visibility], [ProvisionalExportPolicy], [EventScope], [SignedNodeEvent]) have the
    variants and fields the sources name; their serialisation is an interface. *)

From S2P Require Import Prelude Str GwValue.

(** ** Enums *)

Inductive DataKind :=
  | SpacePresence | Presence | Identity | OperatorProfile | OrganizationSummary
  | MissionLifecycle | TaskSummary | TaskVoteSignal | TaskRoundUpdate | TaskDecisionFinalized
  | GovernanceProposal | GovernanceVote | GovernanceDecision | OracleFeedUpdate
  | SettlementEvent | ReputationUpdate | RankingProjection | HiveMetadata | HiveSubscription
  | HiveMessagePosted | HiveActivity | BoardActivity | FriendRelationship | FriendRequestPending
  | PublicBlock | SocialThread | DmSummary | DmMessage | NetworkProjection | TravelState
  | GalaxyEvent | WorldEvent.
Global Instance DataKind_eq_dec : EqDecision DataKind.
Proof. solve_decision. Defined.

(** Every data kind, in the order of the catalogue. *)
Definition ALL_DATA_KINDS : list DataKind :=
  [SpacePresence; Presence; Identity; OperatorProfile; OrganizationSummary; MissionLifecycle;
   TaskSummary; TaskVoteSignal; TaskRoundUpdate; TaskDecisionFinalized; GovernanceProposal;
   GovernanceVote; GovernanceDecision; OracleFeedUpdate; SettlementEvent; ReputationUpdate;
   RankingProjection; HiveMetadata; HiveSubscription; HiveMessagePosted; HiveActivity;
   BoardActivity; FriendRelationship; FriendRequestPending; PublicBlock; SocialThread;
   DmSummary; DmMessage; NetworkProjection; TravelState; GalaxyEvent; WorldEvent].

Definition data_kind_index (kind : DataKind) : nat :=
  match kind with
  | SpacePresence => 0 | Presence => 1 | Identity => 2 | OperatorProfile => 3
  | OrganizationSummary => 4 | MissionLifecycle => 5 | TaskSummary => 6 | TaskVoteSignal => 7
  | TaskRoundUpdate => 8 | TaskDecisionFinalized => 9 | GovernanceProposal => 10 | GovernanceVote => 11
  | GovernanceDecision => 12 | OracleFeedUpdate => 13 | SettlementEvent => 14 | ReputationUpdate => 15
  | RankingProjection => 16 | HiveMetadata => 17 | HiveSubscription => 18 | HiveMessagePosted => 19
  | HiveActivity => 20 | BoardActivity => 21 | FriendRelationship => 22 | FriendRequestPending => 23
  | PublicBlock => 24 | SocialThread => 25 | DmSummary => 26 | DmMessage => 27
  | NetworkProjection => 28 | TravelState => 29 | GalaxyEvent => 30 | WorldEvent => 31
  end.

Global Instance DataKind_countable : Countable DataKind.
Proof.
  apply (inj_countable data_kind_index (fun n => ALL_DATA_KINDS !! n)). by intros [].
Defined.

Inductive Visibility := Public | Protected.
Global Instance Visibility_eq_dec : EqDecision Visibility.
Proof. solve_decision. Defined.

Inductive ProvisionalExportPolicy :=
  | NeverBeforeConfirmation | ProvisionalWithDowngrade | EphemeralOnly.
Global Instance ProvisionalExportPolicy_eq_dec : EqDecision ProvisionalExportPolicy.
Proof. solve_decision. Defined.

Inductive GatewayIngestMode :=
  | SnapshotPush | EventPush | GossipSubscribe | IrohDirectFetch | PullOnly | DerivedProjection.

Inductive UiDeliveryMode :=
  | WsStream | RestPoll | RestSnapshotBootstrap | RestOnDemand | DebugOnly.
Global Instance UiDeliveryMode_eq_dec : EqDecision UiDeliveryMode.
Proof. solve_decision. Defined.

Inductive HybridSubtype := Overlay | Merge | SemanticWrap.

Inductive SourceStatus := SourceActive | SourceSuspended | SourceRejected.

Inductive RetentionPolicy := Forever | RollingNDays | OverwriteLatest | DropAfterConclusion.

Inductive SemanticDomain :=
  | DomainProduct | DomainMechanism | DomainSocial | DomainGovernance | DomainNetwork | DomainWorld.

Inductive DataStage :=
  | StageInput | StageMechanismProcess | StageMechanismConclusion | StageProductProjection
  | StageAggregatedSummary.

Inductive LatencyClass := Hot | Warm | Cold.

Inductive ConsistencyClass :=
  | LocalCommit | EventualMechanism | ConfirmedMechanism | ProjectionAfterConfirmation
  | SnapshotLatest.

Inductive SourceSystem := SourceWattetheria | SourceWattswarm | SourceHybrid.

(** ** Catalogue *)

Record SlaTargets := { sla_hot_path_target_ms : option Z; sla_max_staleness_sec : Z }.

Definition DEFAULT_PROVENANCE_FIELDS : list string :=
  ["identity_key"; "source_kind"; "source_cursor_or_seq"; "ingest_path"; "last_confirmed_at";
   "last_provisional_at"].

Definition ALWAYS_PUBLIC_SLA : SlaTargets :=
  {| sla_hot_path_target_ms := None; sla_max_staleness_sec := 300 |}.
Definition LIVE_MECHANISM_SLA : SlaTargets :=
  {| sla_hot_path_target_ms := Some 350%Z; sla_max_staleness_sec := 15 |}.
Definition WARM_PRODUCT_SLA : SlaTargets :=
  {| sla_hot_path_target_ms := None; sla_max_staleness_sec := 60 |}.

Record DataKindMetadata := {
  dm_kind : DataKind;
  dm_domain : SemanticDomain;
  dm_stage : DataStage;
  dm_visibility : Visibility;
  dm_signing_authority : string;
  dm_semantic_authority : string;
  dm_latency_class : LatencyClass;
  dm_consistency_class : ConsistencyClass;
  dm_storage_shape : string;
  dm_identity_fields : list string;
  dm_payload_version : Z;
  dm_provisional_export_policy : ProvisionalExportPolicy;
  dm_retention_policy : RetentionPolicy;
  dm_provenance_fields : list string;
  dm_sla_targets : SlaTargets;
  dm_primary_source : SourceSystem;
  dm_fallback_source : option SourceSystem;
  dm_ingest_mode : GatewayIngestMode;
  dm_ui_delivery_mode : UiDeliveryMode;
  dm_hybrid_subtype : option HybridSubtype;
  dm_game_client_stable : bool;
  dm_pull_only_fallback_data : bool;
}.

Definition space_presence_metadata (kind : DataKind) : DataKindMetadata := {|
  dm_kind := kind; dm_domain := DomainWorld; dm_stage := StageProductProjection;
  dm_visibility := Public; dm_signing_authority := "agent identity key";
  dm_semantic_authority := "wattetheria space presence"; dm_latency_class := Warm;
  dm_consistency_class := LocalCommit; dm_storage_shape := "space_presence_latest";
  dm_identity_fields := ["space_id"; "agent_did"]; dm_payload_version := 1;
  dm_provisional_export_policy := NeverBeforeConfirmation;
  dm_retention_policy := OverwriteLatest; dm_provenance_fields := DEFAULT_PROVENANCE_FIELDS;
  dm_sla_targets := WARM_PRODUCT_SLA; dm_primary_source := SourceWattetheria;
  dm_fallback_source := None; dm_ingest_mode := EventPush; dm_ui_delivery_mode := WsStream;
  dm_hybrid_subtype := None; dm_game_client_stable := true; dm_pull_only_fallback_data := false |}.

Definition presence_metadata (kind : DataKind) : DataKindMetadata := {|
  dm_kind := kind; dm_domain := DomainSocial; dm_stage := StageAggregatedSummary;
  dm_visibility := Public; dm_signing_authority := "wattetheria node key";
  dm_semantic_authority := "wattetheria social projection"; dm_latency_class := Warm;
  dm_consistency_class := SnapshotLatest; dm_storage_shape := "node_public_state";
  dm_identity_fields := ["node_id"; "public_id"; "id"]; dm_payload_version := 1;
  dm_provisional_export_policy := NeverBeforeConfirmation;
  dm_retention_policy := OverwriteLatest; dm_provenance_fields := DEFAULT_PROVENANCE_FIELDS;
  dm_sla_targets := WARM_PRODUCT_SLA; dm_primary_source := SourceHybrid;
  dm_fallback_source := Some SourceWattetheria; dm_ingest_mode := DerivedProjection;
  dm_ui_delivery_mode := WsStream; dm_hybrid_subtype := Some Overlay;
  dm_game_client_stable := true; dm_pull_only_fallback_data := false |}.

Definition identity_metadata (kind : DataKind) : DataKindMetadata := {|
  dm_kind := kind; dm_domain := DomainProduct; dm_stage := StageProductProjection;
  dm_visibility := Public; dm_signing_authority := "wattetheria node key";
  dm_semantic_authority := "wattetheria product rules"; dm_latency_class := Warm;
  dm_consistency_class := LocalCommit; dm_storage_shape := "identity_projection";
  dm_identity_fields :=
    match kind with
    | OrganizationSummary => ["organization_id"; "id"]
    | _ => ["agent_did"; "public_id"; "id"]
    end;
  dm_payload_version := 1; dm_provisional_export_policy := NeverBeforeConfirmation;
  dm_retention_policy := OverwriteLatest; dm_provenance_fields := DEFAULT_PROVENANCE_FIELDS;
  dm_sla_targets := WARM_PRODUCT_SLA; dm_primary_source := SourceWattetheria;
  dm_fallback_source := None; dm_ingest_mode := SnapshotPush;
  dm_ui_delivery_mode := RestSnapshotBootstrap; dm_hybrid_subtype := None;
  dm_game_client_stable := true; dm_pull_only_fallback_data := false |}.

Definition mission_lifecycle_metadata (kind : DataKind) : DataKindMetadata := {|
  dm_kind := kind; dm_domain := DomainProduct; dm_stage := StageProductProjection;
  dm_visibility := Public; dm_signing_authority := "wattetheria node key";
  dm_semantic_authority := "wattetheria mission board"; dm_latency_class := Warm;
  dm_consistency_class := ProjectionAfterConfirmation;
  dm_storage_shape := "task_conclusion_projection";
  dm_identity_fields := ["mission_id"; "task_id"; "id"]; dm_payload_version := 1;
  dm_provisional_export_policy := NeverBeforeConfirmation; dm_retention_policy := Forever;
  dm_provenance_fields := DEFAULT_PROVENANCE_FIELDS; dm_sla_targets := WARM_PRODUCT_SLA;
  dm_primary_source := SourceWattetheria; dm_fallback_source := None;
  dm_ingest_mode := SnapshotPush; dm_ui_delivery_mode := RestSnapshotBootstrap;
  dm_hybrid_subtype := Some SemanticWrap; dm_game_client_stable := true;
  dm_pull_only_fallback_data := false |}.

Definition task_summary_metadata (kind : DataKind) : DataKindMetadata := {|
  dm_kind := kind; dm_domain := DomainProduct; dm_stage := StageProductProjection;
  dm_visibility := Public; dm_signing_authority := "wattetheria node key";
  dm_semantic_authority := "wattetheria mission/task projection"; dm_latency_class := Warm;
  dm_consistency_class := ProjectionAfterConfirmation;
  dm_storage_shape := "task_conclusion_projection";
  dm_identity_fields := ["task_id"; "mission_id"; "id"]; dm_payload_version := 1;
  dm_provisional_export_policy := NeverBeforeConfirmation;
  dm_retention_policy := OverwriteLatest; dm_provenance_fields := DEFAULT_PROVENANCE_FIELDS;
  dm_sla_targets := WARM_PRODUCT_SLA; dm_primary_source := SourceWattetheria;
  dm_fallback_source := None; dm_ingest_mode := SnapshotPush;
  dm_ui_delivery_mode := RestSnapshotBootstrap; dm_hybrid_subtype := Some SemanticWrap;
  dm_game_client_stable := true; dm_pull_only_fallback_data := false |}.

Definition task_vote_signal_metadata (kind : DataKind) : DataKindMetadata := {|
  dm_kind := kind; dm_domain := DomainMechanism;
  dm_stage :=
    if bool_decide (kind = TaskVoteSignal) then StageInput else StageMechanismProcess;
  dm_visibility := Public; dm_signing_authority := "agent or node key on each signed event";
  dm_semantic_authority := "wattswarm decision process"; dm_latency_class := Hot;
  dm_consistency_class := EventualMechanism; dm_storage_shape := "task_process_projection";
  dm_identity_fields := ["task_id"; "vote_id"; "round_id"; "id"]; dm_payload_version := 1;
  dm_provisional_export_policy :=
    if bool_decide (kind = TaskVoteSignal) then EphemeralOnly else ProvisionalWithDowngrade;
  dm_retention_policy := RollingNDays; dm_provenance_fields := DEFAULT_PROVENANCE_FIELDS;
  dm_sla_targets := LIVE_MECHANISM_SLA; dm_primary_source := SourceWattswarm;
  dm_fallback_source := Some SourceWattetheria; dm_ingest_mode := EventPush;
  dm_ui_delivery_mode := WsStream; dm_hybrid_subtype := None; dm_game_client_stable := true;
  dm_pull_only_fallback_data := false |}.

Definition task_decision_finalized_metadata (kind : DataKind) : DataKindMetadata := {|
  dm_kind := kind; dm_domain := DomainMechanism; dm_stage := StageMechanismConclusion;
  dm_visibility := Public;
  dm_signing_authority := "mechanism finality proof or node-exported signed conclusion";
  dm_semantic_authority := "wattswarm mechanism consensus"; dm_latency_class := Hot;
  dm_consistency_class := ConfirmedMechanism; dm_storage_shape := "task_conclusion_projection";
  dm_identity_fields := ["task_id"; "decision_id"; "id"]; dm_payload_version := 1;
  dm_provisional_export_policy := NeverBeforeConfirmation; dm_retention_policy := Forever;
  dm_provenance_fields := DEFAULT_PROVENANCE_FIELDS; dm_sla_targets := LIVE_MECHANISM_SLA;
  dm_primary_source := SourceWattswarm; dm_fallback_source := Some SourceWattetheria;
  dm_ingest_mode := EventPush; dm_ui_delivery_mode := WsStream; dm_hybrid_subtype := None;
  dm_game_client_stable := true; dm_pull_only_fallback_data := false |}.

Definition governance_proposal_metadata (kind : DataKind) : DataKindMetadata := {|
  dm_kind := kind; dm_domain := DomainGovernance;
  dm_stage :=
    match kind with
    | GovernanceProposal => StageInput
    | GovernanceVote => StageMechanismProcess
    | _ => StageMechanismConclusion
    end;
  dm_visibility := Public; dm_signing_authority := "wattetheria node key";
  dm_semantic_authority := "wattetheria governance engine";
  dm_latency_class :=
    if bool_decide (kind = GovernanceDecision) then Warm else Hot;
  dm_consistency_class :=
    if bool_decide (kind = GovernanceDecision) then ConfirmedMechanism else LocalCommit;
  dm_storage_shape := "task_conclusion_projection";
  dm_identity_fields := ["proposal_id"; "vote_id"; "id"]; dm_payload_version := 1;
  dm_provisional_export_policy :=
    if bool_decide (kind = GovernanceVote) then ProvisionalWithDowngrade else NeverBeforeConfirmation;
  dm_retention_policy := Forever; dm_provenance_fields := DEFAULT_PROVENANCE_FIELDS;
  dm_sla_targets := WARM_PRODUCT_SLA; dm_primary_source := SourceWattetheria;
  dm_fallback_source := None;
  dm_ingest_mode :=
    if bool_decide (kind = GovernanceDecision) then SnapshotPush else EventPush;
  dm_ui_delivery_mode :=
    if bool_decide (kind = GovernanceDecision) then RestSnapshotBootstrap else WsStream;
  dm_hybrid_subtype := None; dm_game_client_stable := true; dm_pull_only_fallback_data := false |}.

Definition oracle_feed_update_metadata (kind : DataKind) : DataKindMetadata := {|
  dm_kind := kind; dm_domain := DomainMechanism; dm_stage := StageMechanismConclusion;
  dm_visibility := Public; dm_signing_authority := "oracle signer";
  dm_semantic_authority := "oracle feed attestor"; dm_latency_class := Warm;
  dm_consistency_class := ConfirmedMechanism; dm_storage_shape := "network_projection";
  dm_identity_fields := ["feed_id"; "id"]; dm_payload_version := 1;
  dm_provisional_export_policy := NeverBeforeConfirmation; dm_retention_policy := RollingNDays;
  dm_provenance_fields := DEFAULT_PROVENANCE_FIELDS; dm_sla_targets := WARM_PRODUCT_SLA;
  dm_primary_source := SourceWattswarm; dm_fallback_source := Some SourceWattetheria;
  dm_ingest_mode := PullOnly; dm_ui_delivery_mode := RestPoll; dm_hybrid_subtype := None;
  dm_game_client_stable := true; dm_pull_only_fallback_data := false |}.

Definition settlement_event_metadata (kind : DataKind) : DataKindMetadata := {|
  dm_kind := kind; dm_domain := DomainMechanism; dm_stage := StageMechanismConclusion;
  dm_visibility := Public; dm_signing_authority := "mechanism conclusion signer";
  dm_semantic_authority := "wattswarm settlement and reputation engine";
  dm_latency_class := Warm; dm_consistency_class := ConfirmedMechanism;
  dm_storage_shape := "ranking_projection";
  dm_identity_fields := ["settlement_id"; "agent_did"; "id"]; dm_payload_version := 1;
  dm_provisional_export_policy := NeverBeforeConfirmation; dm_retention_policy := RollingNDays;
  dm_provenance_fields := DEFAULT_PROVENANCE_FIELDS; dm_sla_targets := WARM_PRODUCT_SLA;
  dm_primary_source := SourceWattswarm; dm_fallback_source := Some SourceWattetheria;
  dm_ingest_mode := PullOnly; dm_ui_delivery_mode := RestPoll; dm_hybrid_subtype := None;
  dm_game_client_stable := true; dm_pull_only_fallback_data := false |}.

Definition ranking_projection_metadata (kind : DataKind) : DataKindMetadata := {|
  dm_kind := kind; dm_domain := DomainProduct; dm_stage := StageAggregatedSummary;
  dm_visibility := Public; dm_signing_authority := "wattetheria node key";
  dm_semantic_authority := "wattetheria ranking projection"; dm_latency_class := Warm;
  dm_consistency_class := ProjectionAfterConfirmation; dm_storage_shape := "ranking_projection";
  dm_identity_fields := ["agent_did"; "public_id"; "id"]; dm_payload_version := 1;
  dm_provisional_export_policy := NeverBeforeConfirmation;
  dm_retention_policy := OverwriteLatest; dm_provenance_fields := DEFAULT_PROVENANCE_FIELDS;
  dm_sla_targets := WARM_PRODUCT_SLA; dm_primary_source := SourceWattetheria;
  dm_fallback_source := Some SourceWattswarm; dm_ingest_mode := SnapshotPush;
  dm_ui_delivery_mode := RestSnapshotBootstrap; dm_hybrid_subtype := None;
  dm_game_client_stable := true; dm_pull_only_fallback_data := false |}.

Definition hive_metadata_metadata (kind : DataKind) : DataKindMetadata := {|
  dm_kind := kind; dm_domain := DomainSocial; dm_stage := StageProductProjection;
  dm_visibility := Public; dm_signing_authority := "wattetheria node key";
  dm_semantic_authority := "wattetheria wraps wattswarm topic facts"; dm_latency_class := Warm;
  dm_consistency_class := ProjectionAfterConfirmation;
  dm_storage_shape := "topic_activity_projection"; dm_identity_fields := ["topic_id"; "id"];
  dm_payload_version := 1; dm_provisional_export_policy := NeverBeforeConfirmation;
  dm_retention_policy := OverwriteLatest; dm_provenance_fields := DEFAULT_PROVENANCE_FIELDS;
  dm_sla_targets := WARM_PRODUCT_SLA; dm_primary_source := SourceHybrid;
  dm_fallback_source := Some SourceWattetheria; dm_ingest_mode := DerivedProjection;
  dm_ui_delivery_mode := RestSnapshotBootstrap; dm_hybrid_subtype := Some SemanticWrap;
  dm_game_client_stable := true; dm_pull_only_fallback_data := false |}.

Definition hive_subscription_metadata (kind : DataKind) : DataKindMetadata := {|
  dm_kind := kind; dm_domain := DomainSocial; dm_stage := StageMechanismConclusion;
  dm_visibility := Public; dm_signing_authority := "wattswarm subscription projection signer";
  dm_semantic_authority := "wattswarm topic subscription projection"; dm_latency_class := Hot;
  dm_consistency_class := ConfirmedMechanism;
  dm_storage_shape := "topic_subscription_projection";
  dm_identity_fields := ["subscription_id"; "id"]; dm_payload_version := 1;
  dm_provisional_export_policy := NeverBeforeConfirmation;
  dm_retention_policy := OverwriteLatest; dm_provenance_fields := DEFAULT_PROVENANCE_FIELDS;
  dm_sla_targets := LIVE_MECHANISM_SLA; dm_primary_source := SourceWattswarm;
  dm_fallback_source := Some SourceWattetheria; dm_ingest_mode := PullOnly;
  dm_ui_delivery_mode := RestSnapshotBootstrap; dm_hybrid_subtype := None;
  dm_game_client_stable := true; dm_pull_only_fallback_data := false |}.

Definition hive_message_posted_metadata (kind : DataKind) : DataKindMetadata := {|
  dm_kind := kind; dm_domain := DomainSocial; dm_stage := StageInput; dm_visibility := Public;
  dm_signing_authority := "agent envelope signer";
  dm_semantic_authority := "wattswarm topic mechanism"; dm_latency_class := Hot;
  dm_consistency_class := EventualMechanism; dm_storage_shape := "topic_activity_projection";
  dm_identity_fields := ["message_id"; "topic_id"; "id"]; dm_payload_version := 1;
  dm_provisional_export_policy := EphemeralOnly; dm_retention_policy := DropAfterConclusion;
  dm_provenance_fields := DEFAULT_PROVENANCE_FIELDS; dm_sla_targets := LIVE_MECHANISM_SLA;
  dm_primary_source := SourceWattswarm; dm_fallback_source := Some SourceWattetheria;
  dm_ingest_mode := EventPush; dm_ui_delivery_mode := WsStream; dm_hybrid_subtype := None;
  dm_game_client_stable := true; dm_pull_only_fallback_data := false |}.

Definition hive_activity_metadata (kind : DataKind) : DataKindMetadata := {|
  dm_kind := kind; dm_domain := DomainSocial; dm_stage := StageMechanismConclusion;
  dm_visibility := Public; dm_signing_authority := "wattswarm message projection signer";
  dm_semantic_authority := "wattswarm topic history"; dm_latency_class := Hot;
  dm_consistency_class := ConfirmedMechanism; dm_storage_shape := "topic_activity_projection";
  dm_identity_fields := ["message_id"; "topic_id"; "id"]; dm_payload_version := 1;
  dm_provisional_export_policy := NeverBeforeConfirmation; dm_retention_policy := RollingNDays;
  dm_provenance_fields := DEFAULT_PROVENANCE_FIELDS; dm_sla_targets := LIVE_MECHANISM_SLA;
  dm_primary_source := SourceWattswarm; dm_fallback_source := Some SourceWattetheria;
  dm_ingest_mode := PullOnly; dm_ui_delivery_mode := WsStream; dm_hybrid_subtype := None;
  dm_game_client_stable := true; dm_pull_only_fallback_data := false |}.

Definition board_activity_metadata (kind : DataKind) : DataKindMetadata := {|
  dm_kind := kind; dm_domain := DomainSocial; dm_stage := StageProductProjection;
  dm_visibility := Public; dm_signing_authority := "wattetheria node key";
  dm_semantic_authority := "wattetheria message board"; dm_latency_class := Warm;
  dm_consistency_class := ProjectionAfterConfirmation;
  dm_storage_shape := "board_activity_projection"; dm_identity_fields := ["message_id"; "id"];
  dm_payload_version := 1; dm_provisional_export_policy := NeverBeforeConfirmation;
  dm_retention_policy := RollingNDays; dm_provenance_fields := DEFAULT_PROVENANCE_FIELDS;
  dm_sla_targets := WARM_PRODUCT_SLA; dm_primary_source := SourceWattetheria;
  dm_fallback_source := None; dm_ingest_mode := SnapshotPush; dm_ui_delivery_mode := WsStream;
  dm_hybrid_subtype := None; dm_game_client_stable := true; dm_pull_only_fallback_data := false |}.

Definition friend_relationship_metadata (kind : DataKind) : DataKindMetadata := {|
  dm_kind := kind; dm_domain := DomainSocial; dm_stage := StageAggregatedSummary;
  dm_visibility := Public; dm_signing_authority := "wattetheria node key";
  dm_semantic_authority := "relationship state machine"; dm_latency_class := Warm;
  dm_consistency_class := LocalCommit; dm_storage_shape := "node_public_state";
  dm_identity_fields := ["counterpart_public_id"; "public_id"; "id"]; dm_payload_version := 1;
  dm_provisional_export_policy := NeverBeforeConfirmation;
  dm_retention_policy := OverwriteLatest; dm_provenance_fields := DEFAULT_PROVENANCE_FIELDS;
  dm_sla_targets := WARM_PRODUCT_SLA; dm_primary_source := SourceHybrid;
  dm_fallback_source := Some SourceWattetheria; dm_ingest_mode := SnapshotPush;
  dm_ui_delivery_mode := RestPoll; dm_hybrid_subtype := Some Overlay;
  dm_game_client_stable := true; dm_pull_only_fallback_data := false |}.

Definition social_thread_metadata (kind : DataKind) : DataKindMetadata := {|
  dm_kind := kind; dm_domain := DomainSocial; dm_stage := StageAggregatedSummary;
  dm_visibility := Protected; dm_signing_authority := "wattetheria node key";
  dm_semantic_authority := "conversation projection"; dm_latency_class := Warm;
  dm_consistency_class := SnapshotLatest; dm_storage_shape := "node_public_state";
  dm_identity_fields := ["thread_id"; "id"]; dm_payload_version := 1;
  dm_provisional_export_policy := NeverBeforeConfirmation;
  dm_retention_policy := OverwriteLatest; dm_provenance_fields := DEFAULT_PROVENANCE_FIELDS;
  dm_sla_targets := WARM_PRODUCT_SLA; dm_primary_source := SourceHybrid;
  dm_fallback_source := Some SourceWattetheria; dm_ingest_mode := SnapshotPush;
  dm_ui_delivery_mode := RestOnDemand; dm_hybrid_subtype := Some Overlay;
  dm_game_client_stable := true; dm_pull_only_fallback_data := false |}.

Definition dm_message_metadata (kind : DataKind) : DataKindMetadata := {|
  dm_kind := kind; dm_domain := DomainSocial; dm_stage := StageAggregatedSummary;
  dm_visibility := Protected; dm_signing_authority := "wattetheria node key";
  dm_semantic_authority := "conversation projection"; dm_latency_class := Warm;
  dm_consistency_class := SnapshotLatest; dm_storage_shape := "node_public_state";
  dm_identity_fields := ["message_id"; "id"]; dm_payload_version := 1;
  dm_provisional_export_policy := NeverBeforeConfirmation; dm_retention_policy := RollingNDays;
  dm_provenance_fields := DEFAULT_PROVENANCE_FIELDS; dm_sla_targets := WARM_PRODUCT_SLA;
  dm_primary_source := SourceHybrid; dm_fallback_source := Some SourceWattetheria;
  dm_ingest_mode := SnapshotPush; dm_ui_delivery_mode := RestOnDemand;
  dm_hybrid_subtype := Some Overlay; dm_game_client_stable := true;
  dm_pull_only_fallback_data := false |}.

Definition network_projection_metadata (kind : DataKind) : DataKindMetadata := {|
  dm_kind := kind; dm_domain := DomainNetwork; dm_stage := StageAggregatedSummary;
  dm_visibility := Public; dm_signing_authority := "wattswarm network snapshot signer";
  dm_semantic_authority := "shared-fact network view"; dm_latency_class := Warm;
  dm_consistency_class := ProjectionAfterConfirmation; dm_storage_shape := "network_projection";
  dm_identity_fields := ["node_id"; "network_id"; "id"]; dm_payload_version := 1;
  dm_provisional_export_policy := NeverBeforeConfirmation;
  dm_retention_policy := OverwriteLatest; dm_provenance_fields := DEFAULT_PROVENANCE_FIELDS;
  dm_sla_targets := WARM_PRODUCT_SLA; dm_primary_source := SourceWattswarm;
  dm_fallback_source := Some SourceWattetheria; dm_ingest_mode := PullOnly;
  dm_ui_delivery_mode := RestPoll; dm_hybrid_subtype := None; dm_game_client_stable := true;
  dm_pull_only_fallback_data := false |}.

Definition travel_state_metadata (kind : DataKind) : DataKindMetadata := {|
  dm_kind := kind; dm_domain := DomainWorld; dm_stage := StageProductProjection;
  dm_visibility := Public; dm_signing_authority := "wattetheria node key";
  dm_semantic_authority := "travel state registry"; dm_latency_class := Warm;
  dm_consistency_class := LocalCommit; dm_storage_shape := "node_public_state";
  dm_identity_fields := ["route_id"; "public_id"; "id"]; dm_payload_version := 1;
  dm_provisional_export_policy := NeverBeforeConfirmation;
  dm_retention_policy := OverwriteLatest; dm_provenance_fields := DEFAULT_PROVENANCE_FIELDS;
  dm_sla_targets := WARM_PRODUCT_SLA; dm_primary_source := SourceWattetheria;
  dm_fallback_source := None; dm_ingest_mode := SnapshotPush;
  dm_ui_delivery_mode := RestSnapshotBootstrap; dm_hybrid_subtype := None;
  dm_game_client_stable := true; dm_pull_only_fallback_data := false |}.

Definition galaxy_event_metadata (kind : DataKind) : DataKindMetadata := {|
  dm_kind := kind; dm_domain := DomainWorld; dm_stage := StageProductProjection;
  dm_visibility := Public;
  dm_signing_authority :=
    if bool_decide (kind = WorldEvent) then "trusted Network Authority key" else "wattetheria node key";
  dm_semantic_authority := "world rule engine";
  dm_latency_class :=
    if bool_decide (kind = GalaxyEvent) then Hot else Warm;
  dm_consistency_class := LocalCommit; dm_storage_shape := "task_conclusion_projection";
  dm_identity_fields := ["event_id"; "id"]; dm_payload_version := 1;
  dm_provisional_export_policy := NeverBeforeConfirmation;
  dm_retention_policy :=
    if bool_decide (kind = GalaxyEvent) then RollingNDays else Forever;
  dm_provenance_fields := DEFAULT_PROVENANCE_FIELDS;
  dm_sla_targets :=
    if bool_decide (kind = GalaxyEvent) then LIVE_MECHANISM_SLA else ALWAYS_PUBLIC_SLA;
  dm_primary_source := SourceWattetheria; dm_fallback_source := None;
  dm_ingest_mode := EventPush; dm_ui_delivery_mode := WsStream; dm_hybrid_subtype := None;
  dm_game_client_stable := true; dm_pull_only_fallback_data := false |}.

Definition data_kind_metadata (kind : DataKind) : DataKindMetadata :=
  match kind with
  | SpacePresence => space_presence_metadata kind
  | Presence => presence_metadata kind
  | Identity | OperatorProfile | OrganizationSummary => identity_metadata kind
  | MissionLifecycle => mission_lifecycle_metadata kind
  | TaskSummary => task_summary_metadata kind
  | TaskVoteSignal | TaskRoundUpdate => task_vote_signal_metadata kind
  | TaskDecisionFinalized => task_decision_finalized_metadata kind
  | GovernanceProposal | GovernanceVote | GovernanceDecision => governance_proposal_metadata kind
  | OracleFeedUpdate => oracle_feed_update_metadata kind
  | SettlementEvent | ReputationUpdate => settlement_event_metadata kind
  | RankingProjection => ranking_projection_metadata kind
  | HiveMetadata => hive_metadata_metadata kind
  | HiveSubscription => hive_subscription_metadata kind
  | HiveMessagePosted => hive_message_posted_metadata kind
  | HiveActivity => hive_activity_metadata kind
  | BoardActivity => board_activity_metadata kind
  | FriendRelationship | FriendRequestPending | PublicBlock => friend_relationship_metadata kind
  | SocialThread | DmSummary => social_thread_metadata kind
  | DmMessage => dm_message_metadata kind
  | NetworkProjection => network_projection_metadata kind
  | TravelState => travel_state_metadata kind
  | GalaxyEvent | WorldEvent => galaxy_event_metadata kind
  end.

Record DataKindPolicy := {
  kp_ingest_mode : GatewayIngestMode;
  kp_ui_delivery_mode : UiDeliveryMode;
  kp_hybrid_subtype : option HybridSubtype;
  kp_visibility : Visibility;
}.

Definition data_kind_policy (kind : DataKind) : DataKindPolicy :=
  let metadata := data_kind_metadata kind in {|
    kp_ingest_mode := dm_ingest_mode metadata;
    kp_ui_delivery_mode := dm_ui_delivery_mode metadata;
    kp_hybrid_subtype := dm_hybrid_subtype metadata;
    kp_visibility := dm_visibility metadata |}.

Record SourcePolicy := {
  sp_primary : SourceSystem;
  sp_fallback : option SourceSystem;
  sp_ingest_mode : GatewayIngestMode;
  sp_ui_delivery_mode : UiDeliveryMode;
  sp_hybrid_subtype : option HybridSubtype;
  sp_pull_only_fallback_data : bool;
}.

Definition source_policy (kind : DataKind) : SourcePolicy :=
  let metadata := data_kind_metadata kind in {|
    sp_primary := dm_primary_source metadata;
    sp_fallback := dm_fallback_source metadata;
    sp_ingest_mode := dm_ingest_mode metadata;
    sp_ui_delivery_mode := dm_ui_delivery_mode metadata;
    sp_hybrid_subtype := dm_hybrid_subtype metadata;
    sp_pull_only_fallback_data := dm_pull_only_fallback_data metadata |}.

Definition allows_public_stream (kind : DataKind) : bool :=
  let metadata := data_kind_metadata kind in
  bool_decide (dm_visibility metadata = Public) &&
  bool_decide (dm_ui_delivery_mode metadata = WsStream).

Definition visibility_for_kind (kind : DataKind) : Visibility :=
  dm_visibility (data_kind_metadata kind).

Section identity.
Context `{SV : SerdeValue}.

(** [find_map(|key| value.get(key).and_then(Value::as_str))] *)
Fixpoint first_string (value : Value) (keys : list string) : option string :=
  match keys with
  | [] => None
  | key :: keys =>
      match value_get value key ≫= as_str with
      | Some s => Some s
      | None => first_string value keys
      end
  end.

Definition projection_identity_key (kind : DataKind) (value : Value)
    (fallback_source_node_id : string) : string :=
  match first_string value (dm_identity_fields (data_kind_metadata kind)) with
  | Some candidate => if is_blank candidate then fallback_source_node_id else candidate
  | None => fallback_source_node_id
  end.
End identity.

(** ** Events *)

Record EventScope := {
  es_node_id : option string;
  es_topic_id : option string;
  es_organization_id : option string;
  es_task_id : option string;
}.

Section events.
Context `{SV : SerdeValue}.

Record NodeEventPayload := {
  ne_event_id : string;
  ne_node_id : string;
  ne_public_key : string;
  ne_signer_agent_did : string;
  ne_seq : Z;
  ne_timestamp : Z;
  ne_data_kind : DataKind;
  ne_event_kind : string;
  ne_visibility : Visibility;
  ne_provisional_policy : ProvisionalExportPolicy;
  ne_scope : EventScope;
  ne_identity_key : option string;
  ne_payload : Value;
}.

Record SignedNodeEvent := { sn_payload : NodeEventPayload; sn_signature : string }.

Record GatewayUiEvent := {
  ue_cursor : Z;
  ue_event_id : string;
  ue_node_id : string;
  ue_data_kind : DataKind;
  ue_event_kind : string;
  ue_visibility : Visibility;
  ue_provisional : bool;
  ue_scope : EventScope;
  ue_generated_at : Z;
  ue_payload : Value;
}.
End events.

Record UiStreamQuery := {
  uq_token : option string;
  uq_cursor : option Z;
  uq_limit : option Z;
  uq_data_kind : option DataKind;
  uq_node_id : option string;
  uq_topic_id : option string;
  uq_organization_id : option string;
  uq_task_id : option string;
}.

(** ** Serialisation of the enums

    [serde_json::to_string] and [serde_json::from_value(Value::String(..))] on
    [DataKind] and [Visibility]: an enum variant is a quoted name. *)

Class ContractCodec := {
  data_kind_to_string : DataKind -> result string string;
  data_kind_from_name : string -> result string DataKind;
  visibility_to_string : Visibility -> result string string;
  visibility_from_name : string -> result string Visibility;
}.

Definition quote : Ascii.ascii := Ascii.ascii_of_nat 34.

(** [trim_matches] of the quotes. *)
Definition trim_quotes (s : string) : string :=
  trim_end_matches quote (trim_start_matches quote s).

Section names.
Context `{CC : ContractCodec}.

Definition data_kind_name (kind : DataKind) : result string string :=
  s ← data_kind_to_string kind; mret (trim_quotes s).

Definition visibility_name (visibility : Visibility) : result string string :=
  s ← visibility_to_string visibility; mret (trim_quotes s).
End names.

(** The documented round trip, with the names of the data kinds that the sources
    spell out. *)
Class ContractCodecLaws `{CC : ContractCodec} : Prop := {
  data_kind_roundtrip kind :
    ∃ name, data_kind_name kind = Ok name ∧ data_kind_from_name name = Ok kind;
  visibility_roundtrip v : ∃ name, visibility_name v = Ok name ∧ visibility_from_name name = Ok v;
  data_kind_from_inj a b kind :
    data_kind_from_name a = Ok kind → data_kind_from_name b = Ok kind → a = b;
  space_presence_name : data_kind_name SpacePresence = Ok "space_presence";
  presence_name : data_kind_name Presence = Ok "presence";
  world_event_name : data_kind_name WorldEvent = Ok "world_event";
  public_name : visibility_name Public = Ok "public";
}.

(** ** An executable codec *)

Definition kind_names : list (string * DataKind) :=
  [("space_presence", SpacePresence); ("presence", Presence); ("identity", Identity);
   ("operator_profile", OperatorProfile); ("organization_summary", OrganizationSummary);
   ("mission_lifecycle", MissionLifecycle); ("task_summary", TaskSummary);
   ("task_vote_signal", TaskVoteSignal); ("task_round_update", TaskRoundUpdate);
   ("task_decision_finalized", TaskDecisionFinalized);
   ("governance_proposal", GovernanceProposal); ("governance_vote", GovernanceVote);
   ("governance_decision", GovernanceDecision); ("oracle_feed_update", OracleFeedUpdate);
   ("settlement_event", SettlementEvent); ("reputation_update", ReputationUpdate);
   ("ranking_projection", RankingProjection); ("hive_metadata", HiveMetadata);
   ("hive_subscription", HiveSubscription); ("hive_message_posted", HiveMessagePosted);
   ("hive_activity", HiveActivity); ("board_activity", BoardActivity);
   ("friend_relationship", FriendRelationship);
   ("friend_request_pending", FriendRequestPending); ("public_block", PublicBlock);
   ("social_thread", SocialThread); ("dm_summary", DmSummary); ("dm_message", DmMessage);
   ("network_projection", NetworkProjection); ("travel_state", TravelState);
   ("galaxy_event", GalaxyEvent); ("world_event", WorldEvent)].

Definition name_of_kind (kind : DataKind) : string :=
  default "" (fst <$> kind_names !! data_kind_index kind).

Definition quoted (s : string) : string := String quote s +:+ String quote "".

Definition kind_of_name (s : string) : result string DataKind :=
  match list_find (fun e : string * DataKind => e.1 = s) kind_names with
  | Some (_, (_, kind)) => Ok kind
  | None => Err "unknown variant"
  end.

Definition codec_impl : ContractCodec := {|
  data_kind_to_string kind := Ok (quoted (name_of_kind kind));
  data_kind_from_name := kind_of_name;
  visibility_to_string v :=
    Ok (quoted (match v with Public => "public" | Protected => "protected" end));
  visibility_from_name s :=
    if bool_decide (s = "public") then Ok Public
    else if bool_decide (s = "protected") then Ok Protected
    else Err "unknown variant";
|}.

Lemma kind_names_inj a b kind : (a, kind) ∈ kind_names → (b, kind) ∈ kind_names → a = b.
Proof.
  assert (∀ e, e ∈ kind_names → e.1 = name_of_kind e.2) as H.
  { apply Forall_forall. by repeat (constructor; [reflexivity|]). }
  intros Ha%H Hb%H. cbn in *. congruence.
Qed.

Lemma kind_of_name_elem s kind : kind_of_name s = Ok kind → (s, kind) ∈ kind_names.
Proof.
  unfold kind_of_name. generalize kind_names as names. intros names.
  destruct (list_find _ names) as [[i [s' k]]|] eqn:H; [|done]. intros [= ->].
  apply list_find_Some in H as (H & <- & _). by apply list_elem_of_lookup_2 in H.
Qed.

Lemma codec_impl_laws : ContractCodecLaws (CC:=codec_impl).
Proof.
  split; [| | |reflexivity..].
  - intros []; eexists; (split; [reflexivity|vm_compute; reflexivity]).
  - intros []; eexists; (split; [reflexivity|vm_compute; reflexivity]).
  - intros a b kind Ha%kind_of_name_elem Hb%kind_of_name_elem. by eapply kind_names_inj.
Qed.
