(* ===== verification/GwModels.v ===== *)
(** * Records of the gateway

    Models [crates/gateway/src/models.rs]: signed snapshots and manifests and the
    rows of the gateway's tables, with the space records of the contract crate and
    the Network Authority announcement of the protocol crate (their fields as the
    sources build and read them).  Identifiers of type [Uuid] are strings in
    canonical form, timestamps are microseconds since the epoch. *)

From S2P Require Import Prelude Str GwValue Contracts.

(** ** Space records *)

Record SpacePresenceRecord := {
  pr_agent_did : string;
  pr_avatar_id : option Z;
  pr_network_id : string;
  pr_space_id : string;
  pr_space_version : string;
  pr_seq : Z;
  pr_entered : bool;
  pr_from_tile : Z * Z;
  pr_path : string;
  pr_depart_at : Z;
  pr_destination_place_id : string;
  pr_activity : string;
  pr_object_place_id : option string;
  pr_updated_at : Z;
}.

Record SignedSpacePresence := {
  ss_record : SpacePresenceRecord;
  ss_public_key : string;
  ss_signature : string;
}.

Record NodePresence := {
  np_node_id : string;
  np_agent_did : string;
  np_last_heartbeat_ms : Z;
  np_heartbeat_interval_sec : Z;
}.

(** The scheduled event of a Network Authority announcement. *)
Record WorldEventRecord := {
  wo_event_id : string;
  wo_space_id : string;
  wo_place_id : string;
  wo_title : string;
  wo_description : string;
  wo_starts_at : Z;
  wo_ends_at : Z;
}.

Section models.
Context `{SV : SerdeValue}.

Record EventAnnouncementPayload := {
  ea_announcement_id : string;
  ea_network_id : string;
  ea_authority_node_id : string;
  ea_issued_at : Z;
  ea_content : Value;
  ea_authority_signature : string;
}.

(** ** Snapshots *)

Record PublicClientSnapshot := {
  cs_generated_at : Z;
  cs_node_id : string;
  cs_agent_identity : option string;
  cs_public_id : option string;
  cs_public_key : string;
  cs_network_name : option string;
  cs_network_org_name : option string;
  cs_network_status : Value;
  cs_nodes : option (list Value);
  cs_peers : list Value;
  cs_operator : Value;
  cs_rpc_logs : list Value;
  cs_public_blocks : list Value;
  cs_public_topics : list Value;
  cs_public_topic_messages : list Value;
  cs_public_board_messages : list Value;
  cs_space_presences : list SignedSpacePresence;
  cs_node_presence : option NodePresence;
  cs_world_events : list Value;
  cs_swarm_task_activity : Value;
  cs_tasks : list Value;
  cs_organizations : list Value;
  cs_leaderboard : list Value;
}.

Record SignedPublicClientSnapshot := {
  sc_payload : PublicClientSnapshot;
  sc_signature : string;
  sc_signer_agent_did : string;
}.

(** ** Rows *)

Record NodeSourceRow := {
  so_id : string;
  so_name : string;
  so_export_url : string;
  so_wattetheria_snapshot_export_url : option string;
  so_wattetheria_events_export_url : option string;
  so_wattswarm_ui_base_url : option string;
  so_wattswarm_sync_grpc_endpoint : option string;
  so_region : option string;
  so_expected_signer_agent_did : option string;
  so_expected_wattswarm_node_id : option string;
  so_source_status : string;
  so_created_at : Z;
  so_updated_at : Z;
  so_last_sync_at : option Z;
  so_last_sync_status : option string;
  so_last_error : option string;
  so_transport_capabilities : option Value;
  so_transport_contact_material : option Value;
}.

Record SnapshotRow := {
  sr_source_id : option string;
  sr_node_id : string;
  sr_signer_agent_did : string;
  sr_public_key : string;
  sr_generated_at : Z;
  sr_ingested_at : Z;
  sr_payload : Value;
  sr_signature : string;
}.

Record ProjectionRow := {
  pj_data_kind : string;
  pj_identity_key : string;
  pj_source_node_id : string;
  pj_source_id : option string;
  pj_generated_at : Z;
  pj_ingested_at : Z;
  pj_visibility : string;
  pj_payload : Value;
  pj_provenance : Value;
}.

Record UiEventRow := {
  er_cursor : Z;
  er_event_id : string;
  er_source_id : option string;
  er_node_id : string;
  er_signer_agent_did : string;
  er_data_kind : string;
  er_event_kind : string;
  er_visibility : string;
  er_provisional : bool;
  er_topic_id : option string;
  er_organization_id : option string;
  er_task_id : option string;
  er_generated_at : Z;
  er_ingested_at : Z;
  er_payload : Value;
  er_ingest_path : string;
  er_source_cursor_or_seq : option Z;
}.

(** [DateTime::timestamp] *)
Definition timestamp_secs (us : Z) : Z := us `div` 1000000.

(** [TryFrom<UiEventRow> for GatewayUiEvent] *)
Definition ui_event_of_row `{CC : ContractCodec} (row : UiEventRow) :
    result string GatewayUiEvent :=
  data_kind ← data_kind_from_name (er_data_kind row);
  visibility ← visibility_from_name (er_visibility row);
  mret {|
    ue_cursor := er_cursor row; ue_event_id := er_event_id row; ue_node_id := er_node_id row;
    ue_data_kind := data_kind; ue_event_kind := er_event_kind row; ue_visibility := visibility;
    ue_provisional := er_provisional row;
    ue_scope := {| es_node_id := None; es_topic_id := er_topic_id row;
      es_organization_id := er_organization_id row; es_task_id := er_task_id row |};
    ue_generated_at := timestamp_secs (er_generated_at row); ue_payload := er_payload row |}.
End models.

(** ** The gateway registry *)

Record GatewayManifest := {
  gm_generated_at : Z;
  gm_gateway_id : string;
  gm_display_name : string;
  gm_base_url : string;
  gm_public_key : string;
  gm_region : option string;
  gm_operator_did : option string;
  gm_roles : list string;
  gm_supported_endpoints : list string;
  gm_federation_peers : list string;
  gm_allows_public_ingest : bool;
}.

Record SignedGatewayManifest := { sg_payload : GatewayManifest; sg_signature : string }.

(** [GatewayRegistryDbRow], and [GatewayRegistryEntry] with the same fields. *)
Record GatewayRegistryEntry := {
  ge_gateway_id : string;
  ge_display_name : string;
  ge_base_url : string;
  ge_public_key : string;
  ge_region : option string;
  ge_operator_did : option string;
  ge_roles : list string;
  ge_supported_endpoints : list string;
  ge_federation_peers : list string;
  ge_allows_public_ingest : bool;
  ge_manifest : GatewayManifest;
  ge_manifest_signature : string;
  ge_status : string;
  ge_discovery_tier : string;
  ge_review_reason : option string;
  ge_reviewed_at : option Z;
  ge_reviewed_by : option string;
  ge_created_at : Z;
  ge_updated_at : Z;
}.

Record GatewayRegistryQuery := {
  rq_region : option string;
  rq_tier : option string;
  rq_role : option string;
}.

Record ReviewGatewayRequest := {
  rr_status : string;
  rr_discovery_tier : option string;
  rr_reason : option string;
  rr_reviewed_by : option string;
}.
