(* ===== verification/Verify.v ===== *)
(** * Signatures of the gateway

    Models [crates/gateway/src/verify.rs]: canonical payload bytes, Ed25519
    signatures over them, and the resolution of a signer reference (a [did:key] or a
    base64 key) to the public key that must have signed.  The base64, DID, JCS and
    Ed25519 crates are interfaces. *)

From S2P Require Import Prelude Str GwValue Contracts GwModels.

Inductive DidKeyPublicKey := Ed25519 (bytes : string) | OtherKey.

Class Signatures := {
  b64_encode : string -> string;
  b64_decode : string -> option string;
  (** [Did::parse], [DidKey::from_did], [DidKey::decode_public_key] *)
  Did : Type;
  DidKey : Type;
  did_parse : string -> option Did;
  did_key_from_did : Did -> option DidKey;
  decode_public_key : DidKey -> option DidKeyPublicKey;
  (** [VerifyingKey::from_bytes] on 32 bytes, [VerifyingKey::verify] *)
  VerifyingKey : Type;
  verifying_key_from_bytes : string -> option VerifyingKey;
  ed25519_verify : VerifyingKey -> string -> string -> bool;
}.

(** [serde_jcs::to_string] for a payload type. *)
Class Jcs (X : Type) := jcs_to_string : X -> option string.

Section verify.
Context `{SV : SerdeValue, SI : Signatures}.

Definition canonical_bytes `{Jcs X} (payload : X) : result string string :=
  ok_or (jcs_to_string payload) "canonicalize payload".

Definition public_key_b64_from_did_key (agent_did : string) : result string string :=
  did ← ok_or (did_parse agent_did) "parse did:key";
  did_key ← ok_or (did_key_from_did did) "build did:key helper";
  public_key ← ok_or (decode_public_key did_key) "decode did:key public key";
  match public_key with
  | Ed25519 bytes => mret (b64_encode bytes)
  | OtherKey => Err "did:key is not an Ed25519 verification key"
  end.

Definition public_key_b64_from_ref (public_key_ref : string) : result string string :=
  if starts_with public_key_ref "did:" then public_key_b64_from_did_key public_key_ref
  else Ok public_key_ref.

Definition verify_canonical_signature `{Jcs X} (payload : X)
    (signature_b64 public_key_b64 context_label : string) : result string () :=
  public ← ok_or (b64_decode public_key_b64) "decode public key base64";
  signature ← ok_or (b64_decode signature_b64) "decode signature base64";
  _ ← bail_if (negb (len public =? 32)%Z) "invalid public key length";
  verifying ← ok_or (verifying_key_from_bytes public) "decode ed25519 verifying key";
  _ ← bail_if (negb (len signature =? 64)%Z) "invalid signature length";
  bytes ← canonical_bytes payload;
  bail_if (negb (ed25519_verify verifying bytes signature)) ("verify " +:+ context_label).

Definition verify_signed_space_presence `{Jcs SpacePresenceRecord} (presence : SignedSpacePresence) :
    result string () :=
  key ← public_key_b64_from_did_key (pr_agent_did (ss_record presence));
  _ ← bail_if (negb (bool_decide (key = ss_public_key presence)))
        "space presence agent_did does not resolve to public_key";
  verify_canonical_signature (ss_record presence) (ss_signature presence)
    (ss_public_key presence) "space presence signature".

(** The expected signer of a source, when it has one. *)
Definition check_expected_signer (expected : option string) (signer signer_key : string)
    (resolve_error unexpected : string) : result string () :=
  match expected with
  | None => Ok ()
  | Some expected =>
      expected_public_key_b64 ← with_context (public_key_b64_from_ref expected) resolve_error;
      bail_if (negb (bool_decide (signer = expected)) &&
               negb (bool_decide (signer_key = expected_public_key_b64)))
        (unexpected +:+ expected +:+ ", got " +:+ signer)
  end.

Definition verify_signed_snapshot `{Jcs PublicClientSnapshot}
    (snapshot : SignedPublicClientSnapshot) (expected_signer_agent_did : option string) :
    result string () :=
  let payload := sc_payload snapshot in
  signer_public_key_b64 ← with_context (public_key_b64_from_ref (sc_signer_agent_did snapshot))
    "resolve signer_agent_did public key";
  _ ← bail_if (is_blank (cs_node_id payload)) "snapshot node_id is empty";
  _ ← bail_if (is_blank (cs_public_key payload)) "snapshot public_key is empty";
  _ ← check_expected_signer expected_signer_agent_did (sc_signer_agent_did snapshot)
        signer_public_key_b64 "resolve expected_signer_agent_did public key"
        "unexpected signer_agent_did: expected ";
  _ ← bail_if (negb (bool_decide (signer_public_key_b64 = cs_public_key payload)))
        "signer_agent_did does not resolve to payload public_key";
  verify_canonical_signature payload (sc_signature snapshot) (cs_public_key payload)
    "snapshot signature".

Definition verify_signed_gateway_manifest `{Jcs GatewayManifest}
    (manifest : SignedGatewayManifest) : result string () :=
  let payload := sg_payload manifest in
  _ ← bail_if (is_blank (gm_gateway_id payload)) "manifest gateway_id is empty";
  _ ← bail_if (is_blank (gm_display_name payload)) "manifest display_name is empty";
  _ ← bail_if (is_blank (gm_base_url payload)) "manifest base_url is empty";
  _ ← bail_if (is_blank (gm_public_key payload)) "manifest public_key is empty";
  _ ← bail_if (bool_decide (gm_roles payload = [])) "manifest roles must not be empty";
  verify_canonical_signature payload (sg_signature manifest) (gm_public_key payload)
    "gateway manifest signature".

Definition verify_signed_node_event `{Jcs NodeEventPayload} (event : SignedNodeEvent)
    (expected_signer_agent_did : option string) : result string () :=
  let payload := sn_payload event in
  signer_public_key_b64 ← with_context (public_key_b64_from_ref (ne_signer_agent_did payload))
    "resolve node event signer_agent_did public key";
  _ ← bail_if (is_blank (ne_event_id payload)) "node event event_id is empty";
  _ ← bail_if (is_blank (ne_node_id payload)) "node event node_id is empty";
  _ ← bail_if (is_blank (ne_public_key payload)) "node event public_key is empty";
  _ ← bail_if (is_blank (ne_event_kind payload)) "node event event_kind is empty";
  _ ← check_expected_signer expected_signer_agent_did (ne_signer_agent_did payload)
        signer_public_key_b64
        "resolve expected_signer_agent_did public key for node event"
        "unexpected node event signer_agent_did: expected ";
  _ ← bail_if (negb (bool_decide (signer_public_key_b64 = ne_public_key payload)))
        "node event signer_agent_did does not resolve to payload public_key";
  verify_canonical_signature payload (sn_signature event) (ne_public_key payload)
    "node event signature".
End verify.

(** ** What a verified payload guarantees *)

Section authentic.
Context `{SV : SerdeValue, SI : Signatures}.

(** The signature is an Ed25519 signature of the canonical payload under the
    key with the given base64 form. *)
Definition signed_by `{Jcs X} (payload : X) (signature_b64 public_key_b64 : string) : Prop :=
  ∃ public signature key bytes,
    b64_decode public_key_b64 = Some public ∧ b64_decode signature_b64 = Some signature ∧
    len public = 32%Z ∧ len signature = 64%Z ∧
    verifying_key_from_bytes public = Some key ∧ jcs_to_string payload = Some bytes ∧
    ed25519_verify key bytes signature = true.

Lemma verify_canonical_signature_ok `{Jcs X} (payload : X) signature key label :
  verify_canonical_signature payload signature key label = Ok () ↔ signed_by payload signature key.
Proof.
  unfold verify_canonical_signature, canonical_bytes, signed_by. split.
  - intros H0. inv_result. repeat match goal with
    | H : negb _ = false |- _ => apply negb_false_iff in H
    | H : (_ =? _)%Z = true |- _ => apply Z.eqb_eq in H
    end. do 4 eexists. by split_and!.
  - intros (public & sig & vk & bytes & -> & -> & Hp & Hs & Hk & -> & Hv). cbn.
    rewrite Hp. cbn. rewrite Hk. cbn. rewrite Hs. cbn. by rewrite Hv.
Qed.

(** The signer is the expected one, up to the form in which its key is given. *)
Lemma check_expected_signer_ok expected signer key e1 e2 :
  public_key_b64_from_ref signer = Ok key →
  check_expected_signer expected signer key e1 e2 = Ok () →
  ∀ e, expected = Some e → public_key_b64_from_ref e = Ok key.
Proof.
  intros Hs H e ->. cbn in H. inv_result.
  repeat case_bool_decide; cbn in *; congruence.
Qed.

Record event_authentic `{Jcs NodeEventPayload} (event : SignedNodeEvent)
    (expected : option string) : Prop := {
  au_key : public_key_b64_from_ref (ne_signer_agent_did (sn_payload event))
    = Ok (ne_public_key (sn_payload event));
  au_expected : ∀ e, expected = Some e →
    public_key_b64_from_ref e = Ok (ne_public_key (sn_payload event));
  au_signed : signed_by (sn_payload event) (sn_signature event) (ne_public_key (sn_payload event));
  au_event_id : is_blank (ne_event_id (sn_payload event)) = false;
  au_node_id : is_blank (ne_node_id (sn_payload event)) = false;
}.

Lemma verify_signed_node_event_ok `{Jcs NodeEventPayload} event expected :
  verify_signed_node_event event expected = Ok () → event_authentic event expected.
Proof.
  unfold verify_signed_node_event. intros H0. inv_result.
  match goal with H : negb (bool_decide _) = false |- _ =>
    apply negb_false_iff, bool_decide_eq_true in H; subst end.
  split; try done; [by eapply check_expected_signer_ok|by eapply verify_canonical_signature_ok].
Qed.

Record snapshot_authentic `{Jcs PublicClientSnapshot} (snapshot : SignedPublicClientSnapshot)
    (expected : option string) : Prop := {
  sa_key : public_key_b64_from_ref (sc_signer_agent_did snapshot)
    = Ok (cs_public_key (sc_payload snapshot));
  sa_expected : ∀ e, expected = Some e →
    public_key_b64_from_ref e = Ok (cs_public_key (sc_payload snapshot));
  sa_signed : signed_by (sc_payload snapshot) (sc_signature snapshot)
    (cs_public_key (sc_payload snapshot));
  sa_node_id : is_blank (cs_node_id (sc_payload snapshot)) = false;
}.

Lemma verify_signed_snapshot_ok `{Jcs PublicClientSnapshot} snapshot expected :
  verify_signed_snapshot snapshot expected = Ok () → snapshot_authentic snapshot expected.
Proof.
  unfold verify_signed_snapshot. intros H0. inv_result.
  match goal with H : negb (bool_decide _) = false |- _ =>
    apply negb_false_iff, bool_decide_eq_true in H; subst end.
  split; try done; [by eapply check_expected_signer_ok|by eapply verify_canonical_signature_ok].
Qed.
End authentic.
