(* ===== verification/Identity.v ===== *)
(** * The gateway's own identity and the registry addresses

    Models [crates/gateway/src/gateway_identity.rs], the identity a gateway is configured
    with and the manifest it signs for registries, and the address functions of
    [crates/gateway/src/registry_client.rs].  Signing is an interface with the documented
    law that a signature verifies under the key that belongs to the signing key. *)

From stdpp Require Import sorting.
From S2P Require Import Prelude Str GwValue Contracts GwModels Verify.

(** [SigningKey] *)
Class Signing `{SI : Signatures} := {
  SigningKey : Type;
  signing_key_from_bytes : string -> SigningKey;
  (** [verifying_key().as_bytes()] and [sign(..).to_bytes()] *)
  verifying_key_bytes : SigningKey -> string;
  ed25519_sign : SigningKey -> string -> string;
}.

Class SigningLaws `{SG : Signing} : Prop := {
  b64_decode_encode s : b64_decode (b64_encode s) = Some s;
  b64_encode_not_blank s : len s = 32%Z → is_blank (b64_encode s) = false;
  verifying_key_len key : len (verifying_key_bytes key) = 32%Z;
  signature_len key bytes : len (ed25519_sign key bytes) = 64%Z;
  sign_verifies key bytes : ∃ verifying,
    verifying_key_from_bytes (verifying_key_bytes key) = Some verifying ∧
    ed25519_verify verifying bytes (ed25519_sign key bytes) = true;
}.

Inductive FederationMode := Open | Trusted.

(** [FederationMode::from_raw] *)
Definition federation_mode_from_raw (value : option string) : FederationMode :=
  match (fun s => to_ascii_lowercase (trim s)) <$> value with
  | Some "trusted" | Some "allowlist" | Some "allow-list" => Trusted
  | _ => Open
  end.

(** The order of [String]: by bytes. *)
Definition str_le (a b : string) : Prop := String.leb a b = true.
Global Instance str_le_dec : RelDecision str_le.
Proof. intros a b. unfold str_le. apply _. Defined.

(** [Vec::dedup]: runs of equal elements. *)
Fixpoint dedup (l : list string) : list string :=
  match l with
  | [] => []
  | a :: l =>
      match l with
      | [] => [a]
      | b :: _ => if bool_decide (a = b) then dedup l else a :: dedup l
      end
  end.

Definition normalized_list (values defaults : list string) : list string :=
  let entries := filter (fun value => is_empty value = false) (trim <$> values) in
  let entries := match entries with [] => defaults | _ => entries end in
  dedup (merge_sort str_le entries).

Definition default_roles : list string := ["ingest"; "query"; "federation"].

Definition default_endpoints : list string :=
  ["/api/network/status"; "/api/peers"; "/api/hives"; "/api/hive-messages"; "/api/board";
   "/api/missions"; "/api/organizations"; "/api/leaderboard"; "/api/registry/bootstrap";
   "/api/registry/discovery"; "/api/registry/gateways"; "/api/registry/self-manifest";
   "/api/registry/self-register"].

Record GatewayIdentityConfig := {
  ic_gateway_id : option string;
  ic_display_name : option string;
  ic_base_url : option string;
  ic_region : option string;
  ic_operator_did : option string;
  ic_roles : list string;
  ic_supported_endpoints : list string;
  ic_federation_mode : option string;
  ic_federation_peers : list string;
  ic_allows_public_ingest : bool;
  ic_signing_key_b64 : option string;
}.

Section identity.
Context `{SG : Signing, JM : !Jcs GatewayManifest}.

Record GatewayIdentity := {
  id_gateway_id : string;
  id_display_name : string;
  id_base_url : string;
  id_region : option string;
  id_operator_did : option string;
  id_roles : list string;
  id_supported_endpoints : list string;
  id_federation_mode : FederationMode;
  id_federation_peers : list string;
  id_allows_public_ingest : bool;
  id_signing_key : SigningKey;
}.

Definition decode_signing_key (signing_key_b64 : string) : result string SigningKey :=
  bytes ← ok_or (b64_decode signing_key_b64) "decode gateway signing key base64";
  _ ← bail_if (negb (len bytes =? 32)%Z) "gateway signing key must decode to 32 bytes";
  Ok (signing_key_from_bytes bytes).

(** [Option::filter(|value| !value.trim().is_empty())] and [ok_or_else] *)
Definition required (value : option string) (error : string) : result string string :=
  ok_or (value ≫= fun value => if is_empty (trim value) then None else Some value) error.

(** [GatewayIdentity::from_config] *)
Definition identity_from_config (config : GatewayIdentityConfig) :
    result string (option GatewayIdentity) :=
  if negb (bool_decide (is_Some (ic_gateway_id config)) ||
           bool_decide (is_Some (ic_display_name config)) ||
           bool_decide (is_Some (ic_base_url config)) ||
           bool_decide (is_Some (ic_signing_key_b64 config)) ||
           bool_decide (is_Some (ic_region config)) ||
           bool_decide (is_Some (ic_operator_did config)))
  then Ok None
  else
    gateway_id ← required (ic_gateway_id config) "WATTETHERIA_GATEWAY_IDENTITY_ID is required";
    display_name ← required (ic_display_name config)
      "WATTETHERIA_GATEWAY_IDENTITY_DISPLAY_NAME is required";
    base_url ← required (ic_base_url config) "WATTETHERIA_GATEWAY_IDENTITY_BASE_URL is required";
    signing_key_b64 ← required (ic_signing_key_b64 config)
      "WATTETHERIA_GATEWAY_IDENTITY_SIGNING_KEY is required";
    signing_key ← decode_signing_key signing_key_b64;
    Ok (Some {|
      id_gateway_id := gateway_id; id_display_name := display_name;
      id_base_url := trim_end_matches "/" base_url; id_region := ic_region config;
      id_operator_did := ic_operator_did config;
      id_roles := normalized_list (ic_roles config) default_roles;
      id_supported_endpoints := normalized_list (ic_supported_endpoints config) default_endpoints;
      id_federation_mode := federation_mode_from_raw (ic_federation_mode config);
      id_federation_peers := ic_federation_peers config;
      id_allows_public_ingest := ic_allows_public_ingest config;
      id_signing_key := signing_key |}).

(** [GatewayIdentity::signed_manifest], at the time [now] in seconds. *)
Definition signed_manifest (identity : GatewayIdentity) (now : Z) :
    result string SignedGatewayManifest :=
  let payload := {|
    gm_generated_at := now; gm_gateway_id := id_gateway_id identity;
    gm_display_name := id_display_name identity; gm_base_url := id_base_url identity;
    gm_public_key := b64_encode (verifying_key_bytes (id_signing_key identity));
    gm_region := id_region identity; gm_operator_did := id_operator_did identity;
    gm_roles := id_roles identity; gm_supported_endpoints := id_supported_endpoints identity;
    gm_federation_peers := id_federation_peers identity;
    gm_allows_public_ingest := id_allows_public_ingest identity |} in
  bytes ← canonical_bytes payload;
  Ok {| sg_payload := payload; sg_signature := b64_encode (ed25519_sign (id_signing_key identity) bytes) |}.

Definition allows_registry_federation (identity : GatewayIdentity) : bool :=
  match id_federation_mode identity with Open => true | Trusted => false end.
End identity.

(** ** Registry addresses *)

(** [s.strip_suffix(suffix)] *)
Fixpoint strip_suffix (suffix s : string) : option string :=
  if bool_decide (s = suffix) then Some ""
  else match s with "" => None | String a s => String a <$> strip_suffix suffix s end.

Definition ends_with (s suffix : string) : bool := bool_decide (is_Some (strip_suffix suffix s)).

(** [s.trim_end_matches(suffix)] for a text, which is removed as often as it occurs. *)
Fixpoint trim_end_text (fuel : nat) (suffix s : string) : string :=
  match fuel, strip_suffix suffix s with
  | S fuel, Some s => trim_end_text fuel suffix s
  | _, _ => s
  end.

Definition normalized_registry_list_url (registry_url : string) : string :=
  let trimmed := trim_end_matches "/" registry_url in
  if ends_with trimmed "/api/registry/gateways/register" then
    trim_end_matches "/" (trim_end_text (String.length trimmed) "/register" trimmed)
  else if ends_with trimmed "/api/registry/gateways" then trimmed
  else trimmed +:+ "/api/registry/gateways".

Definition normalized_registry_register_url (registry_url : string) : string :=
  let trimmed := trim_end_matches "/" registry_url in
  if ends_with trimmed "/api/registry/gateways/register" then trimmed
  else if ends_with trimmed "/api/registry/gateways" then trimmed +:+ "/register"
  else trimmed +:+ "/api/registry/gateways/register".

(** ** Properties *)

Lemma string_app_length s t : String.length (s +:+ t) = String.length s + String.length t.
Proof. induction s as [|a s IH]; cbn; [done|by rewrite IH]. Qed.

Lemma strip_suffix_Some suffix s p : strip_suffix suffix s = Some p ↔ s = p +:+ suffix.
Proof.
  revert p. induction s as [|a s IH]; intros p; cbn; case_bool_decide as He.
  - subst suffix. split; [by intros [= <-]|]. intros Hs. destruct p; cbn in Hs; congruence.
  - split; [done|]. intros Hs. destruct p; cbn in Hs; congruence.
  - split; [by intros [= <-]|]. destruct p as [|b p]; [done|]. subst suffix. intros Hs.
    exfalso. apply (f_equal String.length) in Hs. cbn in Hs. rewrite string_app_length in Hs.
    cbn in Hs. lia.
  - rewrite fmap_Some. split.
    + intros (q & ->%IH & ->). done.
    + intros Hs. destruct p as [|b p]; cbn in Hs; [congruence|]. injection Hs as -> Hs. exists p.
      by rewrite IH.
Qed.

Fixpoint last_byte (s : string) : option Ascii.ascii :=
  match s with
  | "" => None
  | String a s => match last_byte s with Some b => Some b | None => Some a end
  end.

Lemma last_byte_app s t b : last_byte t = Some b → last_byte (s +:+ t) = Some b.
Proof. intros Ht. induction s as [|a s IH]; cbn; [done|by rewrite IH]. Qed.

(** A text that ends in another byte than the suffix is not changed. *)
Lemma strip_suffix_other suffix s a b :
  last_byte suffix = Some a → last_byte s = Some b → a ≠ b → strip_suffix suffix s = None.
Proof.
  intros Ha Hb Hne. destruct (strip_suffix suffix s) as [p|] eqn:Hs; [|done].
  apply strip_suffix_Some in Hs as ->. by rewrite (last_byte_app _ _ _ Ha) in Hb; simplify_eq.
Qed.

Lemma trim_end_matches_app c s t a :
  last_byte t = Some a → trim_end_matches c t = t → trim_end_matches c (s +:+ t) = s +:+ t.
Proof.
  intros Ha Ht. induction s as [|b s IH]; cbn; [done|]. rewrite IH.
  assert (last_byte (s +:+ t) = Some a) as Hl by (by apply last_byte_app).
  by destruct (s +:+ t).
Qed.

(** The two addresses of a registry belong together.  Whatever form the operator
    configures a registry in (its base address, the address of the list or the address
    for registration, with any number of trailing slashes), manifests are posted to the
    address that the list of gateways is read from, followed by /register. *)
Theorem registry_urls_agree registry_url :
  normalized_registry_register_url registry_url =
  normalized_registry_list_url registry_url +:+ "/register".
Proof.
  unfold normalized_registry_register_url, normalized_registry_list_url, ends_with.
  set (trimmed := trim_end_matches "/" registry_url).
  case_bool_decide as H1; [|case_bool_decide as H2; [done|by rewrite string_app_assoc]].
  destruct H1 as [p Hp%strip_suffix_Some].
  assert (trimmed = (p +:+ "/api/registry/gateways") +:+ "/register") as Ht
    by (rewrite Hp, string_app_assoc; done).
  rewrite Ht. f_equal. set (q := p +:+ "/api/registry/gateways").
  destruct (String.length (q +:+ "/register")) as [|fuel] eqn:Hl.
  { rewrite string_app_length in Hl. cbn in Hl. lia. }
  cbn [trim_end_text]. rewrite (proj2 (strip_suffix_Some "/register" _ q)) by done.
  assert (trim_end_text fuel "/register" q = q) as ->.
  { destruct fuel; [done|]. cbn [trim_end_text].
    by rewrite (strip_suffix_other _ _ "r" "s") by (done || by apply last_byte_app). }
  symmetry. by eapply trim_end_matches_app.
Qed.

Section manifest.
Context `{SG : Signing, SGL : !SigningLaws, JM : !Jcs GatewayManifest}.

Lemma dedup_nonempty l : l ≠ [] → dedup l ≠ [].
Proof.
  induction l as [|a [|b l] IH]; intros Hl; [done|done|]. cbn. case_bool_decide; [|done].
  by apply IH.
Qed.

Lemma normalized_list_nonempty values defaults :
  defaults ≠ [] → normalized_list values defaults ≠ [].
Proof.
  intros Hd. unfold normalized_list. apply dedup_nonempty. intros Hs.
  assert (∀ l : list string, merge_sort str_le l = [] → l = []) as Hnil.
  { intros l Hl. apply Permutation_nil. by rewrite <- Hl, merge_sort_Permutation. }
  apply Hnil in Hs. by destruct (filter _ _).
Qed.

Lemma required_ok value error s : required value error = Ok s → is_blank s = false.
Proof.
  unfold required. intros H. inv_result. destruct value as [v|]; cbn in *; [|done].
  case_match eqn:He; simplify_eq. unfold is_blank, is_empty in *. by destruct (trim s).
Qed.

(** The fields that a registry requires. *)
Lemma identity_fields config identity :
  identity_from_config config = Ok (Some identity) →
  is_blank (id_gateway_id identity) = false ∧ is_blank (id_display_name identity) = false ∧
  id_roles identity ≠ [].
Proof.
  unfold identity_from_config. case_match; [done|]. intros H0. inv_result. cbn.
  split_and!; [by eapply required_ok|by eapply required_ok|by apply normalized_list_nonempty].
Qed.

(** The manifest a gateway signs is one that registries accept.  If the configuration
    is accepted and the base address has something in it besides slashes, the manifest
    that the gateway signs at any time verifies under the key it carries, with all
    required fields. *)
Theorem self_manifest_verifies config identity now manifest :
  identity_from_config config = Ok (Some identity) →
  is_blank (id_base_url identity) = false →
  signed_manifest identity now = Ok manifest →
  verify_signed_gateway_manifest manifest = Ok ().
Proof.
  intros (Hid & Hname & Hroles)%identity_fields Hurl Hm. unfold signed_manifest in Hm.
  apply result_bind_ok in Hm as (bytes & Hb & [= <-]). unfold verify_signed_gateway_manifest. cbn.
  rewrite Hid, Hname, Hurl, (b64_encode_not_blank _ (verifying_key_len _)). cbn.
  rewrite bool_decide_false by done. cbn. apply verify_canonical_signature_ok.
  destruct (sign_verifies (id_signing_key identity) bytes) as (key & Hkey & Hv).
  eexists _, _, key, bytes. split_and!; try apply b64_decode_encode; try done.
  - apply verifying_key_len.
  - apply signature_len.
  - unfold canonical_bytes in Hb. by inv_result.
Qed.

(** A base address of slashes is accepted in the configuration, and registries refuse
    every manifest of such a gateway. *)
Theorem slashes_refused config identity now manifest :
  identity_from_config config = Ok (Some identity) → ic_base_url config = Some "//" →
  signed_manifest identity now = Ok manifest →
  verify_signed_gateway_manifest manifest = Err "manifest base_url is empty".
Proof.
  intros Hc Hb Hm. pose proof (identity_fields _ _ Hc) as (Hid & Hname & _).
  assert (id_base_url identity = "") as Hurl.
  { unfold identity_from_config in Hc. rewrite Hb in Hc. case_match; [done|]. inv_result.
    assert (∀ e x, required (Some "//") e = Ok x → x = "//") as Hr by (by intros ?? [= <-]).
    match goal with H : required (Some _) _ = Ok _ |- _ => by apply Hr in H as -> end. }
  unfold signed_manifest in Hm. apply result_bind_ok in Hm as (bytes & _ & [= <-]).
  unfold verify_signed_gateway_manifest. cbn. rewrite Hid, Hname, Hurl. done.
Qed.
End manifest.

(** ** Concrete instances *)

(** A text of exactly [n] bytes. *)
Fixpoint fit (n : nat) (s : string) : string :=
  match n, s with
  | O, _ => ""
  | S n, "" => String "."%char (fit n "")
  | S n, String a s => String a (fit n s)
  end.

(** A toy signature: the key followed by the signed text. *)
Definition toy_sign (key text : string) : string := fit 32 key +:+ fit 32 text.

(** A toy encoding, in which no text is blank. *)
Definition dotted (s : string) : string := "." +:+ s.

Definition signatures_impl : Signatures := {|
  b64_encode := dotted; b64_decode := strip_prefix ".";
  Did := string; DidKey := string;
  did_parse s := Some s;
  did_key_from_did s := strip_prefix "did:key:" s;
  decode_public_key key := Some (Ed25519 key);
  VerifyingKey := string;
  verifying_key_from_bytes key := Some key;
  ed25519_verify key text signature := bool_decide (signature = toy_sign key text) |}.

Definition signing_impl : Signing (SI:=signatures_impl) := {|
  SigningKey := string; signing_key_from_bytes key := key;
  verifying_key_bytes := fit 32; ed25519_sign := toy_sign |}.

Lemma fit_length n s : String.length (fit n s) = n.
Proof. revert s. induction n as [|n IH]; intros [|a s]; cbn; [done|done|by rewrite IH..]. Qed.

Lemma fit_idemp n s : fit n (fit n s) = fit n s.
Proof. revert s. induction n as [|n IH]; intros [|a s]; cbn; [done|done|by rewrite IH..]. Qed.

Lemma signing_impl_laws : SigningLaws (SG:=signing_impl).
Proof.
  split.
  - done.
  - intros s _. by apply is_blank_dot.
  - intros key. unfold len. change (verifying_key_bytes key) with (fit 32 key).
    by rewrite fit_length.
  - intros key bytes. unfold len. change (ed25519_sign key bytes) with (fit 32 key +:+ fit 32 bytes).
    by rewrite string_app_length, !fit_length.
  - intros key bytes. exists (fit 32 key). split; [done|]. apply bool_decide_eq_true.
    unfold toy_sign. by rewrite fit_idemp.
Qed.

Section samples.
Local Existing Instances signatures_impl signing_impl signing_impl_laws.

Definition manifest_text : Jcs GatewayManifest := fun manifest => Some (gm_base_url manifest).
Local Existing Instance manifest_text.

Definition sample_identity_config (base_url : string) : GatewayIdentityConfig := {|
  ic_gateway_id := Some "gw-1"; ic_display_name := Some "Gateway"; ic_base_url := Some base_url;
  ic_region := None; ic_operator_did := None; ic_roles := [" query "; "query"; ""];
  ic_supported_endpoints := []; ic_federation_mode := Some "Trusted"; ic_federation_peers := [];
  ic_allows_public_ingest := true; ic_signing_key_b64 := Some (dotted (fit 32 "gateway key")) |}.

(** The manifest of a configuration, at the time 7. *)
Definition sample_manifest (base_url : string) : result string SignedGatewayManifest :=
  identity ← identity_from_config (sample_identity_config base_url);
  match identity with
  | Some identity => signed_manifest identity 7
  | None => Err "gateway identity is not configured"
  end.

Lemma self_manifest_verifies_witness :
  ∃ manifest, sample_manifest "https://gw.example/" = Ok manifest ∧
    verify_signed_gateway_manifest manifest = Ok ().
Proof.
  eexists. split; [vm_compute; reflexivity|].
  refine (self_manifest_verifies (sample_identity_config "https://gw.example/") _ 7 _
    _ _ _); [vm_compute; reflexivity|vm_compute; reflexivity|vm_compute; reflexivity].
Defined.
End samples.
