(* ===== verification/NetworkNode.v ===== *)
(** * The peer-to-peer node of the gateway

    The state directory of a node (crates/gateway-p2p/src/lib.rs): its lock file, its
    identity seed, start and stop of the runtime, the events that the synchronisation
    receives from it and the description of it that is served.  The network crate itself
    ([wattswarm_network_substrate] and the transport crates) is an interface.

    The file system has the contents of the files by path; every access can fail.  Other
    files of the state directory belong to the network crate and are not modelled.  The code
    of the start and of the destructor is a sequence of single accesses ([Proc]), because
    several gateways may be started, stopped and killed at the same time: [site_step]
    interleaves the accesses of any number of them in any order. *)

From S2P Require Import Prelude Str External GwValue Contracts GwModels Verify Identity.

(** ** The network crate *)

Class Namespace := {
  TopicNamespace : Type;
  (** [namespace.network = name] *)
  set_network : string -> TopicNamespace -> TopicNamespace;
}.

Record SubstrateConfig `{NS : Namespace} := {
  sb_namespace : TopicNamespace;
  sb_protocol_version : string;
  sb_listen_addrs : list string;
  sb_bootstrap_peers : list string;
  sb_max_established_per_peer : Z;
  sb_gossip_mesh_d : Z;
  sb_gossip_mesh_d_low : Z;
  sb_gossip_mesh_d_high : Z;
  sb_gossip_mesh_heartbeat_ms : Z;
  sb_gossip_mesh_max_transmit_size : Z;
  sb_max_backfill_events : Z;
  sb_max_backfill_events_hard_limit : Z;
  sb_control_request_timeout_ms : Z;
}.

(** [TrafficGuardPeerHealth], and what the gateway serves of it. *)
Record GatewayPeerHealth := {
  ph_peer : string;
  ph_score : Z;
  ph_blacklisted : bool;
  ph_reputation_tier : string;
  ph_quarantined : bool;
  ph_quarantine_remaining_ms : Z;
  ph_ban_remaining_ms : Z;
  ph_throttle_factor_percent : Z;
}.

Record NetworkRuntimeObservabilitySnapshot := {
  nb_nat_status : string;
  nb_nat_public_address : option string;
  nb_nat_confidence : Z;
  nb_relay_reservations : list string;
  nb_peer_health : list GatewayPeerHealth;
}.

Class Substrate `{SV : SerdeValue, NS : Namespace} := {
  substrate_default : SubstrateConfig;
  substrate_validate : SubstrateConfig -> result string ();
  SubstrateNode : Type;
  SubstrateRuntime : Type;
  (** [SubstrateNode::from_seed_bytes], [SubstrateRuntime::new] and
      [subscribe_scope(&SwarmScope::Global)] *)
  from_seed_bytes : nat -> SubstrateConfig -> string -> string -> result string SubstrateNode;
  substrate_start : nat -> SubstrateNode -> result string SubstrateRuntime;
  subscribe_global : nat -> SubstrateRuntime -> result string SubstrateRuntime;
  runtime_peer_id : SubstrateRuntime -> string;
  runtime_listen_addrs : SubstrateRuntime -> list string;
  runtime_observability : SubstrateRuntime -> NetworkRuntimeObservabilitySnapshot;
  (** [PeerTransportCapabilities::iroh_direct_default()] and the contact material, as JSON. *)
  iroh_direct_default : Value;
  local_contact_material : nat -> string -> string -> Z -> result string Value;
  (** Scopes and kinds of gossip. *)
  SwarmScope : Type;
  GossipKind : Type;
  SwarmScope_eq : EqDecision SwarmScope;
  GossipKind_eq : EqDecision GossipKind;
  Global : SwarmScope;
  Summaries : GossipKind;
  (** [ArtifactStore::ensure_layout] *)
  ensure_layout : nat -> string -> result string ();
}.
#[export] Existing Instances SwarmScope_eq GossipKind_eq.

(** The peer id of a node is a function of its seed, and the node keeps it. *)
Class SubstrateLaws `{SB : Substrate} := {
  peer_of_seed : string -> string;
  started_peer_id t1 t2 t3 config dir seed node runtime runtime' :
    from_seed_bytes t1 config dir seed = Ok node → substrate_start t2 node = Ok runtime →
    subscribe_global t3 runtime = Ok runtime' → runtime_peer_id runtime' = peer_of_seed seed;
}.

(** ** The file system *)

Class NodeHost := {
  (** The error of a file operation, if it fails. *)
  io_fault : nat -> option string;
  (** Whether [Path::exists] cannot tell, and answers no. *)
  stat_fault : nat -> bool;
  (** How much of a file is written when the write fails. *)
  torn_write : nat -> nat;
  (** [rand::random::<[u8; 32]>()] *)
  random_seed : nat -> string;
}.

Class NodeHostLaws `{NodeHost} : Prop := {
  random_seed_length t : String.length (random_seed t) = 32;
}.

Record NodeWorld := { nw_files : gmap string string; nw_tick : nat }.

Abbreviation NodeM A := (M NodeWorld string A).

Definition set_files (f : gmap string string -> gmap string string) (w : NodeWorld) : NodeWorld :=
  {| nw_files := f (nw_files w); nw_tick := nw_tick w |}.

Definition ntick : NodeM nat :=
  fun w => (Ok (nw_tick w), {| nw_files := nw_files w; nw_tick := S (nw_tick w) |}).

Section files.
Context `{NH : NodeHost}.

(** A file operation fails, or takes place. *)
Definition io : NodeM () :=
  t ← ntick; match io_fault t with Some error => throw error | None => mret () end.

(** [path.exists()] *)
Definition path_exists (path : string) : NodeM bool :=
  t ← ntick;
  files ← gets nw_files;
  mret (negb (stat_fault t) && bool_decide (is_Some (files !! path))).

(** [OpenOptions::new().create_new(true).write(true).open(path)]: one access
    ([O_CREAT | O_EXCL]), which finds the file absent and creates it, or fails. *)
Definition create_new (path : string) : NodeM () :=
  _ ← io;
  files ← gets nw_files;
  match files !! path with
  | Some _ => throw "File exists (os error 17)"
  | None => modify (set_files <[path := ""]>)
  end.

Definition read_to_string (path : string) : NodeM string :=
  _ ← io;
  files ← gets nw_files;
  lift (ok_or (files !! path) "No such file or directory (os error 2)").

(** The two accesses of [fs::write]: the file is emptied, and written. *)
Definition truncate (path : string) : NodeM () :=
  _ ← io;
  modify (set_files <[path := ""]>).

Definition write_all (path contents : string) : NodeM () :=
  t ← ntick;
  match io_fault t with
  | Some error =>
      _ ← modify (set_files <[path := String.substring 0 (torn_write t) contents]>); throw error
  | None => modify (set_files <[path := contents]>)
  end.

Definition remove_file (path : string) : NodeM () :=
  _ ← io;
  files ← gets nw_files;
  match files !! path with
  | Some _ => modify (set_files (delete path))
  | None => throw "No such file or directory (os error 2)"
  end.
End files.

(** ** Sequences of accesses *)

(** The code of a process: its next access, and how it goes on with the outcome. *)
Inductive Proc (A : Type) : Type :=
| Done (outcome : result string A)
| Access {X : Type} (access : NodeM X) (rest : result string X -> Proc A).
Arguments Done {A} outcome.
Arguments Access {A X} access rest.

(** One access. *)
Definition act {X} (access : NodeM X) : Proc X := Access access Done.

Global Instance Proc_ret : MRet Proc := fun A a => Done (Ok a).
Global Instance Proc_bind : MBind Proc := fun A B f =>
  fix bind p :=
    match p with
    | Done (Ok a) => f a
    | Done (Err error) => Done (Err error)
    | Access access rest => Access access (fun outcome => bind (rest outcome))
    end.

(** The outcome as a value. *)
Fixpoint outcome_of {A} (p : Proc A) : Proc (result string A) :=
  match p with
  | Done outcome => Done (Ok outcome)
  | Access access rest => Access access (fun outcome => outcome_of (rest outcome))
  end.

(** The run without interruption. *)
Fixpoint exec {A} (p : Proc A) : NodeM A :=
  match p with
  | Done outcome => lift outcome
  | Access access rest => fun w => let '(outcome, w') := access w in exec (rest outcome) w'
  end.

Lemma exec_bind {A B} (p : Proc A) (f : A -> Proc B) w :
  exec (p ≫= f) w = (exec p ≫= fun a => exec (f a)) w.
Proof.
  revert w. induction p as [[a|e]|X access rest IH]; intros w; [done..|]. cbn.
  cbv [mbind M_bind]. destruct (access w) as [outcome w']. apply IH.
Qed.

Lemma exec_act {A} (access : NodeM A) w : exec (act access) w = access w.
Proof. unfold act. cbn. by destruct (access w). Qed.

Lemma exec_outcome {A} (p : Proc A) w : exec (outcome_of p) w = attempt (exec p) w.
Proof.
  revert w. induction p as [r|X access rest IH]; intros w; [done|]. cbn. unfold attempt.
  destruct (access w) as [outcome w']. apply IH.
Qed.

Lemma exec_bind_inv {A B} (p : Proc A) (f : A -> Proc B) w r w' :
  exec (p ≫= f) w = (r, w') →
  (∃ e, exec p w = (Err e, w') ∧ r = Err e) ∨
  ∃ a w1, exec p w = (Ok a, w1) ∧ exec (f a) w1 = (r, w').
Proof. rewrite exec_bind. apply M_bind_inv. Qed.

Lemma always_exec_bind {A B} R `{!PreOrder R} (p : Proc A) (f : A -> Proc B) :
  always R (exec p) → (∀ a, always R (exec (f a))) → always R (exec (p ≫= f)).
Proof. intros Hp Hf w. rewrite exec_bind. by apply always_bind. Qed.

Lemma always_exec_act {A} R (access : NodeM A) : always R access → always R (exec (act access)).
Proof. intros H w. rewrite exec_act. apply H. Qed.

(** [dir.join(name)] of a plain file name. *)
Definition path_join (dir name : string) : string :=
  if is_empty dir || ends_with_char "/" dir then dir +:+ name else dir +:+ "/" +:+ name.

Definition NODE_SEED_FILE : string := "node_seed.hex".
Definition STATE_LOCK_FILE : string := ".wattetheria-gateway-p2p.lock".

(** ** The node *)

Record GatewayP2pConfig `{NS : Namespace} := {
  pc_enabled : bool;
  pc_state_dir : string;
  pc_namespace : TopicNamespace;
  pc_protocol_version : string;
  pc_listen_addrs : list string;
  pc_bootstrap_peers : list string;
  pc_max_established_per_peer : Z;
  pc_gossip_mesh_d : Z;
  pc_gossip_mesh_d_low : Z;
  pc_gossip_mesh_d_high : Z;
  pc_gossip_mesh_heartbeat_ms : Z;
  pc_gossip_mesh_max_transmit_size : Z;
  pc_max_backfill_events : Z;
  pc_max_backfill_events_hard_limit : Z;
}.

(** The lock file is held open; only its path matters. *)
Record GatewayNetworkNode `{SB : Substrate} := {
  gn_inner : SubstrateNode;
  gn_state_dir : string;
  gn_lock_path : string;
}.

Record GatewayNetworkRuntime `{SB : Substrate} := {
  run_inner : SubstrateRuntime;
  run_state_dir : string;
  run_lock_path : string;
}.

Record GatewayNetworkInfo `{SV : SerdeValue} := {
  gi_peer_id : string;
  gi_listen_addrs : list string;
  gi_transport_capabilities : Value;
  gi_transport_contact_material : option Value;
  gi_nat_status : string;
  gi_nat_public_address : option string;
  gi_nat_confidence : Z;
  gi_relay_reservations : list string;
  gi_peer_health : list GatewayPeerHealth;
}.

Record GatewayNetworkHandle `{SV : SerdeValue} := {
  gh_info : GatewayNetworkInfo;
  gh_state_dir : string;
  gh_local_peer_id : string;
}.

Section node.
Context `{HX : Hex, SB : Substrate, NH : NodeHost}.

(** *** Configuration *)

Definition from_substrate (config : SubstrateConfig) : GatewayP2pConfig := {|
  pc_enabled := false;
  pc_state_dir := ".wattetheria-gateway-p2p-state";
  pc_namespace := sb_namespace config;
  pc_protocol_version := sb_protocol_version config;
  pc_listen_addrs := sb_listen_addrs config;
  pc_bootstrap_peers := sb_bootstrap_peers config;
  pc_max_established_per_peer := sb_max_established_per_peer config;
  pc_gossip_mesh_d := sb_gossip_mesh_d config;
  pc_gossip_mesh_d_low := sb_gossip_mesh_d_low config;
  pc_gossip_mesh_d_high := sb_gossip_mesh_d_high config;
  pc_gossip_mesh_heartbeat_ms := sb_gossip_mesh_heartbeat_ms config;
  pc_gossip_mesh_max_transmit_size := sb_gossip_mesh_max_transmit_size config;
  pc_max_backfill_events := sb_max_backfill_events config;
  pc_max_backfill_events_hard_limit := sb_max_backfill_events_hard_limit config |}.

Definition p2p_default : GatewayP2pConfig :=
  let config := from_substrate substrate_default in {|
  pc_enabled := false;
  pc_state_dir := pc_state_dir config;
  pc_namespace := set_network "wattetheria-gateway" (pc_namespace config);
  pc_protocol_version := "/wattetheria-gateway/0.1.0";
  pc_listen_addrs := pc_listen_addrs config;
  pc_bootstrap_peers := pc_bootstrap_peers config;
  pc_max_established_per_peer := pc_max_established_per_peer config;
  pc_gossip_mesh_d := pc_gossip_mesh_d config;
  pc_gossip_mesh_d_low := pc_gossip_mesh_d_low config;
  pc_gossip_mesh_d_high := pc_gossip_mesh_d_high config;
  pc_gossip_mesh_heartbeat_ms := pc_gossip_mesh_heartbeat_ms config;
  pc_gossip_mesh_max_transmit_size := pc_gossip_mesh_max_transmit_size config;
  pc_max_backfill_events := pc_max_backfill_events config;
  pc_max_backfill_events_hard_limit := pc_max_backfill_events_hard_limit config |}.

Definition as_substrate (config : GatewayP2pConfig) : SubstrateConfig := {|
  sb_namespace := pc_namespace config;
  sb_protocol_version := pc_protocol_version config;
  sb_listen_addrs := pc_listen_addrs config;
  sb_bootstrap_peers := pc_bootstrap_peers config;
  sb_max_established_per_peer := pc_max_established_per_peer config;
  sb_gossip_mesh_d := pc_gossip_mesh_d config;
  sb_gossip_mesh_d_low := pc_gossip_mesh_d_low config;
  sb_gossip_mesh_d_high := pc_gossip_mesh_d_high config;
  sb_gossip_mesh_heartbeat_ms := pc_gossip_mesh_heartbeat_ms config;
  sb_gossip_mesh_max_transmit_size := pc_gossip_mesh_max_transmit_size config;
  sb_max_backfill_events := pc_max_backfill_events config;
  sb_max_backfill_events_hard_limit := pc_max_backfill_events_hard_limit config;
  sb_control_request_timeout_ms := sb_control_request_timeout_ms substrate_default |}.

Definition p2p_validate (config : GatewayP2pConfig) : result string () :=
  substrate_validate (as_substrate config).

(** *** Start *)

Definition artifact_store_path (state_dir : string) : string := path_join state_dir "artifacts".

Definition open_local_artifact_store (state_dir : string) : Proc () :=
  t ← act ntick; Done (ensure_layout t (artifact_store_path state_dir)).

(** [fs::create_dir_all] and the layout of the artifact store. *)
Definition initialize_state_dir (state_dir : string) : Proc () :=
  _ ← act io; open_local_artifact_store state_dir.

Definition acquire_state_dir_lock (state_dir : string) : Proc string :=
  let lock_path := path_join state_dir STATE_LOCK_FILE in
  opened ← outcome_of (act (create_new lock_path));
  match opened with
  | Ok _ => mret lock_path
  | Err error => Done (Err ("lock state dir " +:+ state_dir +:+ ": " +:+ error))
  end.

Definition fs_write (path contents : string) : Proc () :=
  _ ← act (truncate path); act (write_all path contents).

(** The text of the error of [hex::decode] is not modelled. *)
Definition load_or_create_identity_seed (seed_file : string) : Proc string :=
  exists_ ← act (path_exists seed_file);
  if exists_ : bool then
    text ← act (read_to_string seed_file);
    bytes ← Done (ok_or (hex_decode (trim text)) "invalid hex");
    _ ← Done (bail_if (negb (len bytes =? 32)%Z) "seed must be 32 bytes");
    mret bytes
  else
    t ← act ntick;
    let seed := random_seed t in
    _ ← act io;
    _ ← fs_write seed_file (hex_encode seed);
    mret seed.

(** [GatewayNetworkNode::generate] *)
Definition generate (config : GatewayP2pConfig) : Proc GatewayNetworkNode :=
  let state_dir := pc_state_dir config in
  _ ← initialize_state_dir state_dir;
  lock_path ← acquire_state_dir_lock state_dir;
  local_seed ← load_or_create_identity_seed (path_join state_dir NODE_SEED_FILE);
  t ← act ntick;
  inner ← Done (from_seed_bytes t (as_substrate config) state_dir local_seed);
  mret {| gn_inner := inner; gn_state_dir := state_dir; gn_lock_path := lock_path |}.

(** [GatewayNetworkRuntime::new] *)
Definition runtime_new (node : GatewayNetworkNode) : Proc GatewayNetworkRuntime :=
  t ← act ntick;
  inner ← Done (substrate_start t (gn_inner node));
  t ← act ntick;
  inner ← Done (subscribe_global t inner);
  mret {| run_inner := inner; run_state_dir := gn_state_dir node; run_lock_path := gn_lock_path node |}.

(** [GatewayNetworkRuntime::new(GatewayNetworkNode::generate(config)?)?]; only a runtime has
    a destructor, so that what fails on the way leaves the files as they are. *)
Definition start_network (config : GatewayP2pConfig) : Proc GatewayNetworkRuntime :=
  node ← generate config; runtime_new node.

(** [Drop for GatewayNetworkRuntime]: [shutdown_local_iroh_data_plane], of which only the
    time it takes is modelled, the removal of the lock file and [sync_all]; the fields of the
    runtime, [inner] among them, are dropped after that. *)
Definition drop_runtime (runtime : GatewayNetworkRuntime) : Proc () :=
  _ ← act ntick;
  _ ← outcome_of (act (remove_file (run_lock_path runtime)));
  _ ← outcome_of (act io);
  mret ().

(** *** What is served of the runtime *)

Definition export_info (runtime : GatewayNetworkRuntime) (generated_at : Z) :
    NodeM GatewayNetworkInfo :=
  let snapshot := runtime_observability (run_inner runtime) in
  let peer_id := runtime_peer_id (run_inner runtime) in
  t ← ntick;
  contact ← lift (local_contact_material t (run_state_dir runtime) peer_id generated_at);
  mret {|
    gi_peer_id := peer_id;
    gi_listen_addrs := runtime_listen_addrs (run_inner runtime);
    gi_transport_capabilities := iroh_direct_default;
    gi_transport_contact_material := Some contact;
    gi_nat_status := nb_nat_status snapshot;
    gi_nat_public_address := nb_nat_public_address snapshot;
    gi_nat_confidence := nb_nat_confidence snapshot;
    gi_relay_reservations := nb_relay_reservations snapshot;
    gi_peer_health := nb_peer_health snapshot |}.

Definition export_handle (runtime : GatewayNetworkRuntime) (generated_at : Z) :
    NodeM GatewayNetworkHandle :=
  info ← export_info runtime generated_at;
  mret {| gh_info := info; gh_state_dir := run_state_dir runtime;
          gh_local_peer_id := runtime_peer_id (run_inner runtime) |}.
End node.

(** ** Events of the network *)

Section events.
Context `{SB : Substrate}.

Record RawGossipMessage := { rg_scope : SwarmScope; rg_kind : GossipKind; rg_payload : string }.

(** The two kinds of event that matter; [OtherEvent] is any other. *)
Inductive SubstrateRuntimeEvent :=
| SubstrateGossip (propagation_source : string) (message : RawGossipMessage)
| GossipNeighborUp (peer : string) (scope : SwarmScope) (kind : GossipKind)
| OtherEvent.

Inductive GatewayNetworkSyncEvent :=
| SyncGossip (propagation_source payload : string)
| NeighborUp (peer : string).

Definition classify_sync_event (event : SubstrateRuntimeEvent) : option GatewayNetworkSyncEvent :=
  match event with
  | SubstrateGossip source message =>
      if bool_decide (rg_scope message = Global) && bool_decide (rg_kind message = Summaries)
      then Some (SyncGossip source (rg_payload message)) else None
  | GossipNeighborUp peer scope kind =>
      if bool_decide (scope = Global) && bool_decide (kind = Summaries)
      then Some (NeighborUp peer) else None
  | OtherEvent => None
  end.

(** The outcomes of [next_event] to come; [None] when all of them are used up and the
    function still waits. *)
Fixpoint next_sync_summary (incoming : list (result string SubstrateRuntimeEvent)) :
    option (result string GatewayNetworkSyncEvent * list (result string SubstrateRuntimeEvent)) :=
  match incoming with
  | [] => None
  | Err error :: incoming => Some (Err error, incoming)
  | Ok event :: incoming =>
      match classify_sync_event event with
      | Some event => Some (Ok event, incoming)
      | None => next_sync_summary incoming
      end
  end.

(** The outcomes that concern the synchronisation. *)
Definition sync_outcome (outcome : result string SubstrateRuntimeEvent) :
    option (result string GatewayNetworkSyncEvent) :=
  match outcome with
  | Err error => Some (Err error)
  | Ok event => Ok <$> classify_sync_event event
  end.

(** Called again and again, the function hands over exactly these, in their order. *)
Lemma next_sync_summary_spec incoming :
  match next_sync_summary incoming with
  | None => omap sync_outcome incoming = []
  | Some (outcome, rest) => omap sync_outcome incoming = outcome :: omap sync_outcome rest
  end.
Proof.
  induction incoming as [|[event|error] incoming IH]; cbn; [done| |done].
  by destruct (classify_sync_event event).
Qed.
End events.

(** ** Hexadecimal text has no white space around it *)

Section trimming.
Definition plain_byte (a : Ascii.ascii) : Prop := ws1 (byte_n a) = false ∧ (byte_n a < 128)%N.

Lemma hexdigit_plain a : is_ascii_hexdigit a = true → plain_byte a.
Proof.
  unfold is_ascii_hexdigit, plain_byte, ws1. rewrite !orb_true_iff, !andb_true_iff, !N.leb_le.
  intros H. split; [|lia]. apply not_true_iff_false. rewrite orb_true_iff, andb_true_iff, !N.leb_le, N.eqb_eq. lia.
Qed.

Lemma ws2_ascii a b : (byte_n a < 128)%N ∨ (byte_n b < 128)%N → ws2 (byte_n a) (byte_n b) = false.
Proof.
  intros H. apply not_true_iff_false. unfold ws2. rewrite andb_true_iff, orb_true_iff, !N.eqb_eq. lia.
Qed.

Lemma ws3_ascii a b c :
  (byte_n a < 128)%N ∨ (byte_n c < 128)%N → ws3 (byte_n a) (byte_n b) (byte_n c) = false.
Proof.
  intros H. apply not_true_iff_false. unfold ws3.
  rewrite ?orb_true_iff, ?andb_true_iff, ?orb_true_iff, ?andb_true_iff, !N.eqb_eq, !N.leb_le. lia.
Qed.

Lemma trim_start_plain a s : plain_byte a → trim_start (String a s) = String a s.
Proof.
  intros [H1 H2]. cbn. rewrite H1. destruct s as [|b s]; [done|].
  rewrite ws2_ascii by auto. destruct s as [|c s]; [done|]. by rewrite ws3_ascii by auto.
Qed.

Lemma trim_start_rev_plain a s : plain_byte a → trim_start_rev (String a s) = String a s.
Proof.
  intros [H1 H2]. cbn. rewrite H1. destruct s as [|b s]; [done|].
  rewrite ws2_ascii by auto. destruct s as [|c s]; [done|]. by rewrite ws3_ascii by auto.
Qed.

Lemma all_bytes_rev_app p s t : all_bytes p (String.rev_app s t) = all_bytes p s && all_bytes p t.
Proof.
  revert t. induction s as [|a s IH]; intros t; cbn; [done|]. rewrite IH. cbn.
  by destruct (p a), (all_bytes p s).
Qed.

Lemma rev_app_rev_app s : ∀ t u,
  String.rev_app (String.rev_app s t) u = String.rev_app t (s +:+ u).
Proof. induction s as [|a s IH]; intros t u; cbn; [done|]. by rewrite IH. Qed.

Lemma trim_hexdigits s : all_bytes is_ascii_hexdigit s = true → trim s = s.
Proof.
  intros Hs. unfold trim, trim_end. destruct s as [|a s]; [done|].
  assert (plain_byte a) as Ha by (apply hexdigit_plain; cbn in Hs; by apply andb_true_iff in Hs as [? _]).
  rewrite trim_start_plain by done.
  assert (all_bytes is_ascii_hexdigit (String.rev (String a s)) = true) as Hr
    by (unfold String.rev; by rewrite all_bytes_rev_app, Hs).
  assert (trim_start_rev (String.rev (String a s)) = String.rev (String a s)) as ->.
  { destruct (String.rev (String a s)) as [|b t]; [done|]. apply trim_start_rev_plain, hexdigit_plain.
    cbn in Hr. by apply andb_true_iff in Hr as [? _]. }
  unfold String.rev. rewrite rev_app_rev_app. cbn. by rewrite string_app_nil_r.
Qed.
End trimming.

(** ** Runs without interruption *)

Section runs.
Context `{HX : Hex, SB : Substrate, NH : NodeHost}.
Context (state_dir : string).

Definition lock_path : string := path_join state_dir STATE_LOCK_FILE.
Definition seed_path : string := path_join state_dir NODE_SEED_FILE.

Definition locked (w : NodeWorld) : Prop := is_Some (nw_files w !! lock_path).

Lemma lock_not_seed : lock_path ≠ seed_path.
Proof.
  unfold lock_path, seed_path, path_join, STATE_LOCK_FILE, NODE_SEED_FILE.
  destruct (is_empty state_dir || ends_with_char "/" state_dir); intros H%string_app_inj_l; done.
Qed.

Definition same_files (w w' : NodeWorld) : Prop := nw_files w' = nw_files w.

#[local] Instance same_files_preorder : PreOrder same_files.
Proof. unfold same_files. split; [done|]. intros a b c H1 H2. by rewrite H2. Qed.

Lemma ntick_same_files : always same_files ntick.
Proof. by intros w. Qed.
#[local] Hint Resolve ntick_same_files : gw_always.

Lemma io_same_files : always same_files io.
Proof. unfold io. solve_always. Qed.
#[local] Hint Resolve io_same_files : gw_always.

Lemma path_exists_same_files path : always same_files (path_exists path).
Proof. unfold path_exists. solve_always. Qed.

Lemma read_same_files path : always same_files (read_to_string path).
Proof. unfold read_to_string. solve_always. Qed.

(** *** Single accesses *)

Lemma create_new_run path w r w' :
  create_new path w = (r, w') →
  (same_files w w' ∧ ∃ e, r = Err e) ∨
  (r = Ok () ∧ nw_files w !! path = None ∧ nw_files w' = <[path := ""]> (nw_files w)).
Proof.
  unfold create_new. intros [(e & H & ->)|([] & w1 & H & Hr)]%M_bind_inv;
    apply (always_run _ _ _ _ _ io_same_files) in H; [eauto|].
  unfold same_files in *. cbv [mbind M_bind gets] in Hr. rewrite H in Hr.
  destruct (nw_files w !! path) eqn:Hp; injection Hr as <- <-; [eauto|].
  right. split; [done|]. split; [done|]. cbn. by rewrite H.
Qed.

Lemma path_exists_run path w r w' :
  path_exists path w = (r, w') →
  same_files w w' ∧
  r = Ok (negb (stat_fault (nw_tick w)) && bool_decide (is_Some (nw_files w !! path))).
Proof. by intros [= <- <-]. Qed.

Lemma read_run path w text w' :
  read_to_string path w = (Ok text, w') → nw_files w !! path = Some text.
Proof.
  unfold read_to_string. intros ([] & w1 & H1 & H)%M_bind_ok.
  apply (always_run _ _ _ _ _ io_same_files) in H1. cbv [mbind M_bind gets lift] in H.
  unfold same_files in H1. rewrite H1 in H. destruct (nw_files w !! path); [|done].
  by injection H as <- _.
Qed.

Lemma truncate_run path w r w' :
  truncate path w = (r, w') →
  (same_files w w' ∧ ∃ e, r = Err e) ∨ (r = Ok () ∧ nw_files w' = <[path := ""]> (nw_files w)).
Proof.
  unfold truncate. intros [(e & H & ->)|([] & w1 & H & Hr)]%M_bind_inv;
    apply (always_run _ _ _ _ _ io_same_files) in H; [eauto|].
  right. injection Hr as <- <-. cbn. by rewrite H.
Qed.

Lemma write_all_run path contents w r w' :
  write_all path contents w = (r, w') →
  ∃ text, nw_files w' = <[path := text]> (nw_files w) ∧
    ((∃ e, r = Err e) ∨ (r = Ok () ∧ text = contents)).
Proof.
  unfold write_all. cbv [mbind M_bind ntick modify mret M_ret throw]. cbn.
  destruct (io_fault _); intros [= <- <-]; cbn; eauto.
Qed.

Lemma remove_run path w r w' :
  remove_file path w = (r, w') → same_files w w' ∨ nw_files w' = delete path (nw_files w).
Proof.
  unfold remove_file. intros [(e & H & ->)|([] & w3 & H & Hr)]%M_bind_inv;
    apply (always_run _ _ _ _ _ io_same_files) in H; unfold same_files in *; [by left|].
  cbv [mbind M_bind gets] in Hr. rewrite H in Hr.
  destruct (nw_files w !! _); injection Hr as _ <-; [right; cbn; by rewrite H|by left].
Qed.

(** *** The start *)

Lemma acquire_run w r w' :
  exec (acquire_state_dir_lock state_dir) w = (r, w') →
  (same_files w w' ∧ ∃ e, r = Err e) ∨
  (r = Ok lock_path ∧ ¬ locked w ∧ nw_files w' = <[lock_path := ""]> (nw_files w)).
Proof.
  unfold acquire_state_dir_lock. rewrite exec_bind. unfold mbind, M_bind. rewrite exec_outcome.
  unfold attempt. rewrite exec_act.
  destruct (create_new _ w) as [o w1] eqn:H. apply create_new_run in H
    as [(Hs & e & ->)|(-> & Hn & Hf)]; intros [= <- <-]; [eauto|].
  right. split; [done|]. split; [|done]. unfold locked. fold lock_path in Hn. rewrite Hn. by intros [].
Qed.

(** The seed file has this seed. *)
Definition holds_seed (w : NodeWorld) (seed : string) : Prop :=
  ∃ text, nw_files w !! seed_path = Some text ∧ hex_decode (trim text) = Some seed ∧ len seed = 32%Z.

Lemma fs_write_run path contents w r w' :
  exec (fs_write path contents) w = (r, w') →
  (same_files w w' ∧ ∃ e, r = Err e) ∨
  ∃ text, nw_files w' = <[path := text]> (nw_files w) ∧
    ((∃ e, r = Err e) ∨ (r = Ok () ∧ text = contents)).
Proof.
  unfold fs_write. intros [(e & H & ->)|([] & w1 & H & Hr)]%exec_bind_inv; rewrite exec_act in H;
    apply truncate_run in H as [[? [e' ?]]|[? Hf]]; simplify_eq; [eauto|].
  rewrite exec_act in Hr. apply write_all_run in Hr as (text & Hw & Hr). right. exists text.
  by rewrite Hw, Hf, insert_insert_eq.
Qed.

(** The seed of an existing file. *)
Lemma read_seed_run w r w' :
  exec (text ← act (read_to_string seed_path);
        bytes ← Done (ok_or (hex_decode (trim text)) "invalid hex");
        _ ← Done (bail_if (negb (len bytes =? 32)%Z) "seed must be 32 bytes");
        mret bytes) w = (r, w') →
  same_files w w' ∧ ((∃ e, r = Err e) ∨ ∃ seed, r = Ok seed ∧ holds_seed w seed).
Proof.
  intros [(e & H & ->)|(text & w1 & H & Hr)]%exec_bind_inv; rewrite exec_act in H;
    pose proof (always_run _ _ _ _ _ (read_same_files _) H) as Hs; [eauto|].
  apply read_run in H. unfold ok_or, bail_if in Hr.
  destruct (hex_decode (trim text)) as [bytes|] eqn:Hd; cbn in Hr; [|injection Hr as <- <-; eauto].
  destruct (len bytes =? 32)%Z eqn:Hl; cbn in Hr; injection Hr as <- <-; [|eauto].
  split; [done|]. right. exists bytes. split; [done|]. exists text. split_and!; [done..|lia].
Qed.

Lemma load_run w r w' :
  exec (load_or_create_identity_seed seed_path) w = (r, w') →
  (same_files w w' ∧ ((∃ e, r = Err e) ∨ ∃ seed, r = Ok seed ∧ holds_seed w seed)) ∨
  ((nw_files w !! seed_path = None ∨ stat_fault (nw_tick w) = true) ∧
   ∃ text, nw_files w' = <[seed_path := text]> (nw_files w) ∧
     ((∃ e, r = Err e) ∨ ∃ t, r = Ok (random_seed t) ∧ text = hex_encode (random_seed t))).
Proof.
  unfold load_or_create_identity_seed. intros [(e & H & _)|(found & w1 & H & Hr)]%exec_bind_inv;
    rewrite exec_act in H; apply path_exists_run in H as [Hs [=->]].
  destruct (_ && _) eqn:Hf.
  - left. apply read_seed_run in Hr as [Hs' Hr]. split; [by etrans|].
    destruct Hr as [|(seed & ? & text & Ht & ?)]; [by left|right]. exists seed. split; [done|].
    exists text. by rewrite <- Hs.
  - assert (nw_files w !! seed_path = None ∨ stat_fault (nw_tick w) = true) as Hwhy.
    { destruct (stat_fault (nw_tick w)); [by right|left]. cbn in Hf.
      by apply bool_decide_eq_false, eq_None_not_Some in Hf. }
    apply exec_bind_inv in Hr as [(e & H & _)|(t & w2 & H & Hr)]; rewrite exec_act in H; [done|].
    apply (always_run _ _ _ _ _ ntick_same_files) in H. cbv zeta in Hr.
    assert (same_files w w2) as Hs2 by (by etrans). clear H Hs Hf.
    apply exec_bind_inv in Hr as [(e & H & ->)|([] & w3 & H & Hr)]; rewrite exec_act in H;
      apply (always_run _ _ _ _ _ io_same_files) in H.
    { left. split; [by etrans|eauto]. }
    assert (nw_files w3 = nw_files w) as Hs3 by (unfold same_files in *; congruence).
    apply exec_bind_inv in Hr as [(e & Hw & ->)|([] & w4 & Hw & Hr)].
    + apply fs_write_run in Hw as [[Hw _]|(text & Hw & _)].
      { left. split; [unfold same_files in *; congruence|eauto]. }
      right. split; [done|]. exists text. rewrite Hw, Hs3. eauto.
    + injection Hr as <- <-. apply fs_write_run in Hw as [[_ [e [=]]]|(text & Hw & [[e [=]]|[_ ->]])].
      right. split; [done|]. exists (hex_encode (random_seed t)). rewrite Hw, Hs3. eauto.
Qed.

Lemma initialize_same_files dir : always same_files (exec (initialize_state_dir dir)).
Proof.
  unfold initialize_state_dir, open_local_artifact_store.
  apply always_exec_bind; [apply _|apply always_exec_act, io_same_files|intros _].
  apply always_exec_bind; [apply _|apply always_exec_act, ntick_same_files|intros t].
  apply always_lift. apply _.
Qed.

Lemma runtime_new_same_files node : always same_files (exec (runtime_new node)).
Proof.
  unfold runtime_new. do 2 (apply always_exec_bind; [apply _|apply always_exec_act, ntick_same_files|];
    intros ?; apply always_exec_bind; [apply _|apply always_lift, _|]; intros ?).
  apply always_lift. apply _.
Qed.

Lemma generate_run config w r w' :
  pc_state_dir config = state_dir → exec (generate config) w = (r, w') →
  (same_files w w' ∧ ∃ e, r = Err e) ∨
  ∃ w1 seed w2, ¬ locked w ∧ nw_files w1 = <[lock_path := ""]> (nw_files w) ∧
    exec (load_or_create_identity_seed seed_path) w1 = (seed, w2) ∧ same_files w2 w' ∧
    ((∃ e, r = Err e) ∨ ∃ node bytes t, r = Ok node ∧ seed = Ok bytes ∧
       gn_lock_path node = lock_path ∧
       from_seed_bytes t (as_substrate config) state_dir bytes = Ok (gn_inner node)).
Proof.
  intros Hdir H. unfold generate in H. rewrite Hdir in H. cbv zeta in H.
  apply exec_bind_inv in H as [(e & H1 & ->)|([] & w0 & H1 & H)];
    apply (always_run _ _ _ _ _ (initialize_same_files _)) in H1; [eauto|].
  apply exec_bind_inv in H as [(e & H2 & ->)|(lock & w1 & H2 & H)];
    apply acquire_run in H2 as [(Hs & e' & He)|(He & Hl & Hf)]; try done.
  { left. split; [by etrans|eauto]. }
  injection He as ->. right. unfold locked, same_files in *. rewrite H1 in *.
  apply exec_bind_inv in H as [(e & H3 & ->)|(bytes & w2 & H3 & H)].
  { exists w1, (Err e), w'. eauto 10. }
  exists w1, (Ok bytes), w2. split; [done|]. split; [done|]. split; [done|].
  apply exec_bind_inv in H as [(e & H4 & _)|(t & w3 & H4 & H)]; rewrite exec_act in H4; [done|].
  apply (always_run _ _ _ _ _ ntick_same_files) in H4.
  apply exec_bind_inv in H as [(e & [= _ <-] & ->)|(inner & w4 & H5 & H)]; [eauto|].
  apply lift_ok in H5 as [H5 ->]. injection H as <- <-. split; [done|]. right.
  by eexists _, bytes, t.
Qed.

(** The runtime was built from these bytes. *)
Definition built_from (bytes : string) (runtime : GatewayNetworkRuntime) : Prop :=
  ∃ t1 t2 t3 config node inner, from_seed_bytes t1 (as_substrate config) state_dir bytes = Ok node ∧
    substrate_start t2 node = Ok inner ∧ subscribe_global t3 inner = Ok (run_inner runtime).

Lemma start_run config w r w' :
  pc_state_dir config = state_dir → exec (start_network config) w = (r, w') →
  (same_files w w' ∧ ∃ e, r = Err e) ∨
  ∃ w1 seed w2, ¬ locked w ∧ nw_files w1 = <[lock_path := ""]> (nw_files w) ∧
    exec (load_or_create_identity_seed seed_path) w1 = (seed, w2) ∧ same_files w2 w' ∧
    ((∃ e, r = Err e) ∨ ∃ runtime bytes, r = Ok runtime ∧ seed = Ok bytes ∧
       run_lock_path runtime = lock_path ∧ built_from bytes runtime).
Proof.
  intros Hdir H. unfold start_network in H.
  apply exec_bind_inv in H as [(e & H1 & ->)|(node & w3 & H1 & H)];
    (apply generate_run in H1 as [(Hs & e' & He)|(w1 & seed & w2 & Hl & Hf & Hload & Hs & Hr)];
     [..|done]); try done; [by eauto|right..]; exists w1, seed, w2; (do 3 (split; [done|])).
  { split; [done|]. eauto. }
  destruct Hr as [[e [=]]|(node' & bytes & t & [= ->] & -> & Hlock & Hseed)].
  pose proof (always_run _ _ _ _ _ (runtime_new_same_files _) H) as Hs'.
  split; [by etrans|]. unfold runtime_new in H.
  apply exec_bind_inv in H as [(e & H4 & _)|(t2 & w4 & _ & H)]; [done|].
  apply exec_bind_inv in H as [(e & _ & ->)|(inner & w5 & H5 & H)]; [eauto|]. apply lift_ok in H5 as [H5 _].
  apply exec_bind_inv in H as [(e & H6 & _)|(t3 & w6 & _ & H)]; [done|].
  apply exec_bind_inv in H as [(e & _ & ->)|(inner' & w7 & H7 & H)]; [eauto|]. apply lift_ok in H7 as [H7 _].
  injection H as <- _. right. eexists _, bytes. split_and!; [done..|].
  by exists t, t2, t3, config, (gn_inner node'), inner.
Qed.

Lemma drop_run runtime w r w' :
  exec (drop_runtime runtime) w = (r, w') →
  r = Ok () ∧ (same_files w w' ∨ nw_files w' = delete (run_lock_path runtime) (nw_files w)).
Proof.
  unfold drop_runtime. intros [(e & H & _)|(t & w1 & H & Hr)]%exec_bind_inv; rewrite exec_act in H; [done|].
  apply (always_run _ _ _ _ _ ntick_same_files) in H.
  rewrite exec_bind in Hr. unfold mbind, M_bind in Hr. rewrite exec_outcome in Hr.
  unfold attempt in Hr. rewrite exec_act in Hr. destruct (remove_file _ w1) as [o w2] eqn:Hrm.
  apply remove_run in Hrm. rewrite exec_bind in Hr. unfold mbind, M_bind in Hr.
  rewrite exec_outcome in Hr. unfold attempt in Hr. rewrite exec_act in Hr.
  destruct (io w2) as [o' w3] eqn:Hio. apply (always_run _ _ _ _ _ io_same_files) in Hio.
  injection Hr as <- <-. split; [done|]. unfold same_files in *. rewrite Hio, <- H. exact Hrm.
Qed.

Lemma io_ok w :
  (∀ t, io_fault t = None) → io w = (Ok (), {| nw_files := nw_files w; nw_tick := S (nw_tick w) |}).
Proof. intros Hio. unfold io. cbv [mbind M_bind ntick]. by rewrite Hio. Qed.

Lemma drop_unlocks runtime w w' :
  (∀ t, io_fault t = None) → run_lock_path runtime = lock_path →
  exec (drop_runtime runtime) w = (Ok (), w') → locked w →
  nw_files w' = delete lock_path (nw_files w).
Proof.
  intros Hio Hp H [text Ht]. unfold drop_runtime, remove_file in H. rewrite Hp in H.
  cbn in H. cbv [mbind M_bind gets modify] in H. rewrite io_ok in H by done.
  cbn in H. rewrite Ht in H. cbn in H. rewrite io_ok in H by done. by injection H as <-.
Qed.

(** A start that finds the lock file fails and changes nothing. *)
Lemma start_locked config w r w' :
  pc_state_dir config = state_dir → locked w → exec (start_network config) w = (r, w') →
  same_files w w' ∧ ∃ e, r = Err e.
Proof.
  intros Hdir Hl H. by apply start_run in H as [H|(? & ? & ? & ? & _)].
Qed.

(** What has the lock file keeps it up to the end of the start. *)
Lemma load_locked w r w' :
  exec (load_or_create_identity_seed seed_path) w = (r, w') → locked w → locked w'.
Proof.
  unfold locked. intros [[Hs _]|(_ & text & Hf & _)]%load_run; [by rewrite Hs|].
  rewrite Hf, lookup_insert_ne; [done|]. apply not_eq_sym, lock_not_seed.
Qed.

Lemma started_locked config w runtime w' :
  pc_state_dir config = state_dir → exec (start_network config) w = (Ok runtime, w') →
  ¬ locked w ∧ locked w' ∧ run_lock_path runtime = lock_path.
Proof.
  intros Hdir H. apply start_run in H as [(_ & e & [=])|(w1 & seed & w2 & Hl & Hf & Hload & Hs & Hr)];
    [|done].
  destruct Hr as [[e [=]]|(runtime' & bytes & [= <-] & _ & Hp & _)]. split; [done|]. split; [|done].
  unfold locked, same_files in *. rewrite Hs. apply (load_locked _ _ _ Hload). unfold locked.
  rewrite Hf, lookup_insert_eq. by eexists.
Qed.
End runs.

(** ** Gateways on one state directory *)

Section site.
Context `{HX : Hex, SB : Substrate, NH : NodeHost}.
Context (state_dir : string).

Abbreviation lock_path := (lock_path state_dir).
Abbreviation seed_path := (seed_path state_dir).
Abbreviation locked := (locked state_dir).

(** A process: it starts a gateway, has a runtime, or runs the destructor of its runtime,
    whose fields it still has. *)
Inductive Gateway :=
| Starting (rest : Proc GatewayNetworkRuntime)
| Running (runtime : GatewayNetworkRuntime)
| Dropping (runtime : GatewayNetworkRuntime) (rest : Proc ()).

Record Site := { si_world : NodeWorld; si_gateways : gmap nat Gateway }.

(** One access of one of the processes, or one of them begins or ends. *)
Inductive site_step : relation Site :=
| SiteLaunch w gs pid config : gs !! pid = None → pc_state_dir config = state_dir →
    site_step {| si_world := w; si_gateways := gs |}
              {| si_world := w; si_gateways := <[pid := Starting (start_network config)]> gs |}
| SiteStart w gs pid X (access : NodeM X) rest outcome w' :
    gs !! pid = Some (Starting (Access access rest)) → access w = (outcome, w') →
    site_step {| si_world := w; si_gateways := gs |}
              {| si_world := w'; si_gateways := <[pid := Starting (rest outcome)]> gs |}
| SiteStarted w gs pid runtime : gs !! pid = Some (Starting (Done (Ok runtime))) →
    site_step {| si_world := w; si_gateways := gs |}
              {| si_world := w; si_gateways := <[pid := Running runtime]> gs |}
  (** The runtime is dropped. *)
| SiteStop w gs pid runtime : gs !! pid = Some (Running runtime) →
    site_step {| si_world := w; si_gateways := gs |}
              {| si_world := w; si_gateways := <[pid := Dropping runtime (drop_runtime runtime)]> gs |}
| SiteDrop w gs pid runtime X (access : NodeM X) rest outcome w' :
    gs !! pid = Some (Dropping runtime (Access access rest)) → access w = (outcome, w') →
    site_step {| si_world := w; si_gateways := gs |}
              {| si_world := w'; si_gateways := <[pid := Dropping runtime (rest outcome)]> gs |}
  (** The process ends: a start that failed, the end of the destructor, or a kill, which runs
      no destructor, at any point. *)
| SiteExit w gs pid :
    site_step {| si_world := w; si_gateways := gs |}
              {| si_world := w; si_gateways := delete pid gs |}.

(** *** What a process does to the lock file *)

(** What others do between two accesses of a process that has the lock. *)
Definition same_seed (w w' : NodeWorld) : Prop := nw_files w' !! seed_path = nw_files w !! seed_path.

(** Every access of the process satisfies [S], as long as the others leave the seed file
    alone, and its outcome satisfies [Q]. *)
Fixpoint along {A} (S : relation NodeWorld) (p : Proc A) (Q : result string A -> NodeWorld -> Prop)
    (w : NodeWorld) : Prop :=
  match p with
  | Done outcome => Q outcome w
  | Access access rest => ∀ w1 outcome w', same_seed w w1 → access w1 = (outcome, w') →
      S w1 w' ∧ along S (rest outcome) Q w'
  end.

(** A process that has the lock keeps the lock file and, when [fixed], the seed file. *)
Definition keeps (fixed : Prop) (w w' : NodeWorld) : Prop :=
  nw_files w' !! lock_path = nw_files w !! lock_path ∧ (fixed → same_seed w w').

Definition holding (fixed : Prop) {A} (p : Proc A) Q w : Prop := along (keeps fixed) p Q w.

(** [Path::exists] tells the truth and the seed file is there. *)
Definition seed_fixed (w : NodeWorld) : Prop :=
  (∀ t, stat_fault t = false) ∧ is_Some (nw_files w !! seed_path).

(** A process that does not have the lock changes no file, except that it creates the lock
    file where there is none and has the lock from then on; without it, it fails. *)
Fixpoint before_lock {A} (p : Proc A) (Q : Prop -> result string A -> NodeWorld -> Prop) : Prop :=
  match p with
  | Done outcome => ∃ e, outcome = Err e
  | Access access rest => ∀ w outcome w', access w = (outcome, w') →
      same_files w w' ∧ before_lock (rest outcome) Q ∨
      ¬ locked w ∧ nw_files w' = <[lock_path := ""]> (nw_files w) ∧
        ∀ fixed : Prop, (fixed → seed_fixed w') → holding fixed (rest outcome) (Q fixed) w'
  end.

(** A process that changes no file. *)
Fixpoint harmless {A} (p : Proc A) : Prop :=
  match p with
  | Done _ => True
  | Access access rest => ∀ w outcome w', access w = (outcome, w') →
      same_files w w' ∧ harmless (rest outcome)
  end.

(** A destructor: it changes no file until it removes the lock file, and none after that. *)
Fixpoint leaving {A} (p : Proc A) : Prop :=
  match p with
  | Done _ => True
  | Access access rest => ∀ w outcome w', access w = (outcome, w') →
      same_files w w' ∧ leaving (rest outcome) ∨
      nw_files w' = delete lock_path (nw_files w) ∧ harmless (rest outcome)
  end.

Lemma along_bind {A B} S (p : Proc A) (f : A -> Proc B) Q w :
  along S p (fun r w => match r with Ok a => along S (f a) Q w | Err e => Q (Err e) w end) w →
  along S (p ≫= f) Q w.
Proof.
  revert w. induction p as [[a|e]|X access rest IH]; intros w; [done..|].
  intros H w1 outcome w' Hs Ha. destruct (H w1 outcome w' Hs Ha) as [? ?]. split; [done|]. by apply IH.
Qed.

Lemma along_stable {A} S (p : Proc A) Q w w' :
  (∀ r w w', same_seed w w' → Q r w → Q r w') → same_seed w w' → along S p Q w → along S p Q w'.
Proof.
  intros HQ Hs. destruct p as [r|X access rest]; cbn; [by apply HQ|].
  intros H w1 outcome w2 Hs'. apply H. unfold same_seed in *. congruence.
Qed.

Lemma along_mono {A} S (p : Proc A) Q Q' w :
  (∀ r w, Q r w → Q' r w) → along S p Q w → along S p Q' w.
Proof.
  intros HQ. revert w. induction p as [r|X access rest IH]; intros w; [apply HQ|].
  intros H w1 outcome w' Hs Ha. destruct (H w1 outcome w' Hs Ha). split; [done|]. by apply IH.
Qed.

Lemma before_lock_then {A B} (p : Proc A) (f : A -> Proc B) Q :
  harmless p → (∀ a, before_lock (f a) Q) → before_lock (p ≫= f) Q.
Proof.
  intros Hp Hf. induction p as [[a|e]|X access rest IH]; [apply Hf|by exists e|].
  intros w outcome w' Ha. destruct (Hp w outcome w' Ha) as [? ?]. left. split; [done|]. by apply IH.
Qed.

Lemma before_lock_bind {A B} (p : Proc A) (f : A -> Proc B) Q :
  before_lock p (fun fixed r w =>
    match r with Ok a => holding fixed (f a) (Q fixed) w | Err e => Q fixed (Err e) w end) →
  before_lock (p ≫= f) Q.
Proof.
  induction p as [[a|e]|X access rest IH]; [by intros [? [=]]|by exists e|].
  intros Hp w outcome w' Ha. destruct (Hp w outcome w' Ha) as [[? ?]|(? & ? & H)].
  - left. split; [done|]. by apply IH.
  - right. split_and!; [done..|]. intros fixed Hfix. apply along_bind. by apply H.
Qed.

(** *** The start and the destructor *)

(** The seed file has the seed of the runtime: it was read from it, or drawn and written to it. *)
Definition seed_of (w : NodeWorld) (runtime : GatewayNetworkRuntime) : Prop :=
  ∃ text bytes, nw_files w !! seed_path = Some text ∧ built_from state_dir bytes runtime ∧
    (hex_decode (trim text) = Some bytes ∨ ∃ t, bytes = random_seed t ∧ text = hex_encode bytes).

(** What a start leaves. *)
Definition started_with (outcome : result string GatewayNetworkRuntime) (w : NodeWorld) : Prop :=
  ∀ runtime, outcome = Ok runtime → run_lock_path runtime = lock_path ∧ seed_of w runtime.

(** The bytes are in the seed file. *)
Definition loaded (outcome : result string string) (w : NodeWorld) : Prop :=
  ∀ bytes, outcome = Ok bytes → ∃ text, nw_files w !! seed_path = Some text ∧
    (hex_decode (trim text) = Some bytes ∨ ∃ t, bytes = random_seed t ∧ text = hex_encode bytes).

Lemma same_files_keeps fixed w w' : same_files w w' → keeps fixed w w'.
Proof. intros Hf. unfold keeps, same_seed. by rewrite Hf. Qed.

Lemma seed_written_keeps (fixed : Prop) w w' text :
  ¬ fixed → nw_files w' = <[seed_path := text]> (nw_files w) → keeps fixed w w'.
Proof.
  intros Hn Hf. split; [|done]. rewrite Hf, lookup_insert_ne; [done|].
  apply not_eq_sym, lock_not_seed.
Qed.

(** An access that changes no file. *)
Lemma holding_quiet {A B} fixed (access : NodeM A) (f : A -> Proc B) Q w :
  always same_files access → (∀ e w', same_seed w w' → Q (Err e) w') →
  (∀ w1 a w', same_seed w w1 → access w1 = (Ok a, w') → same_seed w w' → holding fixed (f a) Q w') →
  holding fixed (act access ≫= f) Q w.
Proof.
  intros Hq He Hf. cbn. intros w1 outcome w' Hs Ha.
  pose proof (always_run _ _ _ _ _ Hq Ha) as Hs'. split; [by apply same_files_keeps|].
  assert (same_seed w w') as Hs2 by (unfold same_seed in *; by rewrite Hs').
  destruct outcome as [a|e]; [exact (Hf w1 a w' Hs Ha Hs2)|by apply He].
Qed.

Lemma holding_load fixed w :
  (fixed → seed_fixed w) →
  holding fixed (load_or_create_identity_seed seed_path) loaded w.
Proof.
  intros Hfix. unfold load_or_create_identity_seed.
  apply holding_quiet; [apply path_exists_same_files|by intros e w' _ ?|].
  intros w1 found w' Hs Ha Hs'. apply path_exists_run in Ha as [_ [= ->]].
  destruct (negb (stat_fault (nw_tick w1)) && bool_decide (is_Some (nw_files w1 !! seed_path))) eqn:Hf.
  - apply holding_quiet; [apply read_same_files|by intros e w2 _ ?|].
    intros w2 text w3 Hs2 Hr Hs3. pose proof (always_run _ _ _ _ _ (read_same_files _) Hr) as Hsame.
    apply read_run in Hr. rewrite <- Hsame in Hr.
    destruct (hex_decode (trim text)) as [bytes|] eqn:Hd; [|by intros ?].
    unfold bail_if. cbn. destruct (len bytes =? 32)%Z; cbn; [|by intros ?].
    intros b [= <-]. eauto.
  - assert (¬ fixed) as Hnf.
    { intros [Hstat Hsome]%Hfix. rewrite Hstat in Hf. cbn in Hf.
      apply bool_decide_eq_false in Hf. rewrite Hs in Hf. done. }
    apply holding_quiet; [apply ntick_same_files|by intros e w2 _ ?|]. intros w2 t w3 _ _ _.
    apply holding_quiet; [apply io_same_files|by intros e w4 _ ?|]. intros w4 [] w5 _ _ _.
    intros w6 o w7 _ Ht. apply truncate_run in Ht as [[Hq [e ->]]|[-> Ht]].
    { split; [by apply same_files_keeps|]. by intros ?. }
    split; [by eapply seed_written_keeps|]. intros w8 o w9 Hs8 Hw.
    apply write_all_run in Hw as (text & Hw & [[e ->]|[-> ->]]);
      (split; [by eapply seed_written_keeps|]); [by intros ?|].
    intros b [= <-]. exists (hex_encode (random_seed t)). rewrite Hw, lookup_insert_eq.
    split; [done|]. right. by exists t.
Qed.

Lemma loaded_stable r w w' : same_seed w w' → loaded r w → loaded r w'.
Proof. intros Hs H bytes Hb. destruct (H bytes Hb) as (text & Ht & Hd). exists text. by rewrite Hs. Qed.

Lemma started_stable r w w' : same_seed w w' → started_with r w → started_with r w'.
Proof.
  intros Hs H runtime Hr. destruct (H runtime Hr) as (Hp & text & bytes & Ht & Hd). split; [done|].
  exists text, bytes. by rewrite Hs.
Qed.

(** From the seed to the runtime. *)
Lemma holding_runtime fixed config node bytes w t0 :
  loaded (Ok bytes) w → gn_lock_path node = lock_path →
  from_seed_bytes t0 (as_substrate config) state_dir bytes = Ok (gn_inner node) →
  holding fixed (runtime_new node) started_with w.
Proof.
  intros Hl Hlock Hnode. unfold runtime_new.
  apply holding_quiet; [apply ntick_same_files|by intros e w' _ ?|]. intros w1 t1 w2 _ _ Hs2.
  destruct (substrate_start t1 (gn_inner node)) as [inner|e] eqn:Hstart; [|by intros ?].
  apply (holding_quiet fixed ntick); [apply ntick_same_files|by intros e w' _ ?|].
  intros w3 t2 w4 _ _ Hs4.
  destruct (subscribe_global t2 inner) as [inner'|e] eqn:Hsub; [|by intros ?].
  intros runtime [= <-]. split; [done|].
  assert (same_seed w w4) as Hs by (unfold same_seed in *; congruence).
  destruct (loaded_stable _ _ _ Hs Hl bytes eq_refl) as (text & Ht & Hd). exists text, bytes.
  split_and!; [done| |done]. by exists t0, t1, t2, config, (gn_inner node), inner.
Qed.

Lemma harmless_initialize dir : harmless (initialize_state_dir dir).
Proof.
  intros w o w' H. apply (always_run _ _ _ _ _ io_same_files) in H. split; [done|].
  destruct o as [[]|e]; [|done]. intros w1 o w2 H1. split; [by injection H1 as _ <-|].
  by destruct o.
Qed.

(** A start that begins does not have the lock. *)
Lemma before_lock_start config :
  pc_state_dir config = state_dir → before_lock (start_network config) (fun _ => started_with).
Proof.
  intros Hdir. unfold start_network. apply before_lock_bind. unfold generate. rewrite Hdir. cbv zeta.
  apply before_lock_then; [apply harmless_initialize|intros _]. intros w o w' H.
  apply create_new_run in H as [[Hs [e ->]]|(-> & Hn & Hf)]; [left; split; [done|]|right].
  { cbn. eauto. }
  fold lock_path in Hn, Hf. split_and!; [unfold NetworkNode.locked; rewrite Hn; by intros []|done|].
  intros fixed Hfix. apply (along_bind _ (load_or_create_identity_seed seed_path)). apply along_mono with (Q := loaded); [|by apply holding_load].
  intros [bytes|e] w1 Hl; [|by intros ?].
  apply holding_quiet; [apply ntick_same_files|by intros e w2 _ ?|]. intros w2 t w3 _ _ Hs3.
  destruct (from_seed_bytes t (as_substrate config) state_dir bytes) as [inner|e] eqn:Hnode; [|by intros ?].
  eapply holding_runtime; [by eapply loaded_stable|done|done].
Qed.

Lemma leaving_drop runtime : run_lock_path runtime = lock_path → leaving (drop_runtime runtime).
Proof.
  intros Hp w o w' H. left. split; [by injection H as _ <-|]. injection H as <- _.
  intros w1 o w2 H1. rewrite Hp in H1. apply remove_run in H1 as [H1|H1]; [left|right]; (split; [done|]).
  - intros w3 o' w4 H3. left. split; [|done]. by apply (always_run _ _ _ _ _ io_same_files) in H3.
  - intros w3 o' w4 H3. split; [|done]. by apply (always_run _ _ _ _ _ io_same_files) in H3.
Qed.

(** *** The site *)

(** What is known of a process that does not have the lock, and of the one that has it. *)
Definition bystander (g : Gateway) : Prop :=
  match g with
  | Starting p => before_lock p (fun _ => started_with)
  | Running _ => False
  | Dropping _ p => harmless p
  end.

Definition owns (fixed : Prop) (w : NodeWorld) (g : Gateway) : Prop :=
  match g with
  | Starting p => holding fixed p started_with w
  | Running runtime => started_with (Ok runtime) w
  | Dropping _ p => leaving p
  end.

Definition roles (fixed : Prop) (w : NodeWorld) (gs : gmap nat Gateway) (owner : option nat) : Prop :=
  ∀ pid g, gs !! pid = Some g → if decide (owner = Some pid) then owns fixed w g else bystander g.

(** At most one process has the lock, and the lock file is there while it does; when [fixed],
    the seed file is there and stays as it is. *)
Definition site_ok (fixed : Prop) (s : Site) : Prop :=
  ∃ owner, roles fixed (si_world s) (si_gateways s) owner ∧
    (is_Some owner → locked (si_world s)) ∧ (fixed → seed_fixed (si_world s)).

Lemma owns_stable fixed w w' g : same_seed w w' → owns fixed w g → owns fixed w' g.
Proof.
  intros Hs. destruct g as [p|runtime|runtime p]; cbn; [|by apply started_stable|done].
  apply along_stable; [apply started_stable|done].
Qed.

Lemma same_files_seed w w' : same_files w w' → same_seed w w'.
Proof. intros H. unfold same_seed. by rewrite H. Qed.

Lemma locked_files w w' : same_files w w' → locked w → locked w'.
Proof. unfold NetworkNode.locked. by intros ->. Qed.

Lemma seed_fixed_same w w' : same_seed w w' → seed_fixed w → seed_fixed w'.
Proof. intros Hs [H1 H2]. split; [done|]. by rewrite Hs. Qed.

Lemma roles_insert fixed w w' gs pid g owner owner' :
  roles fixed w gs owner → (if decide (owner' = Some pid) then owns fixed w' g else bystander g) →
  (∀ pid', pid' ≠ pid → owner' = Some pid' ↔ owner = Some pid') →
  (∀ pid', pid' ≠ pid → owner = Some pid' → same_seed w w') →
  roles fixed w' (<[pid := g]> gs) owner'.
Proof.
  intros Hr Hg Ho Hs pid' g' [[<- <-]|[Hne Hl]]%lookup_insert_Some; [done|].
  specialize (Hr pid' g' Hl). specialize (Ho pid' (not_eq_sym Hne)).
  destruct (decide (owner = Some pid')) as [He|He].
  - rewrite decide_True by (by apply Ho). eapply owns_stable, Hr. by apply (Hs pid').
  - rewrite decide_False by (by rewrite Ho). done.
Qed.

(** The step of a process that stays what it is, while no file changes for the others. *)
Lemma site_ok_same fixed w w' gs pid g owner :
  roles fixed w gs owner → (is_Some owner → locked w') → (fixed → seed_fixed w') →
  same_seed w w' ∨ owner = Some pid →
  (if decide (owner = Some pid) then owns fixed w' g else bystander g) →
  site_ok fixed {| si_world := w'; si_gateways := <[pid := g]> gs |}.
Proof.
  intros Hr Hl Hf Hs Hg. exists owner. split; [|done].
  eapply roles_insert; [exact Hr|exact Hg|done|]. intros pid' Hne ->.
  by destruct Hs as [|[= ->]].
Qed.

(** A process that starts makes an access. *)
Lemma start_access_ok fixed w gs pid X (access : NodeM X) rest outcome w' :
  site_ok fixed {| si_world := w; si_gateways := gs |} →
  gs !! pid = Some (Starting (Access access rest)) → access w = (outcome, w') →
  site_ok fixed {| si_world := w'; si_gateways := <[pid := Starting (rest outcome)]> gs |} ∧
  (fixed → same_seed w w').
Proof.
  intros (owner & Hr & Hl & Hf) Hg Ha. cbn in *. pose proof (Hr _ _ Hg) as Hrole.
  destruct (decide (owner = Some pid)) as [He|He].
  - destruct (Hrole w outcome w' eq_refl Ha) as [[Hk Hseed] Hrest]. split; [|done].
    eapply site_ok_same; [exact Hr| | |by right|by rewrite decide_True].
    + intros Ho. unfold NetworkNode.locked. rewrite Hk. by apply Hl.
    + intros Hfix. eapply seed_fixed_same; [by apply Hseed|by apply Hf].
  - destruct (Hrole w outcome w' Ha) as [[Hs Hrest]|(Hnl & Hw & Hhold)].
    + pose proof (same_files_seed _ _ Hs) as Hseed. split; [|done].
      eapply site_ok_same; [exact Hr| | |by left|by rewrite decide_False].
      * intros Ho. eapply locked_files; [exact Hs|by apply Hl].
      * intros Hfix. eapply seed_fixed_same; [exact Hseed|by apply Hf].
    + assert (same_seed w w') as Hseed
        by (unfold same_seed; rewrite Hw, lookup_insert_ne; [done|apply lock_not_seed]).
      split; [|done]. assert (fixed → seed_fixed w') as Hf'
        by (intros Hfix; eapply seed_fixed_same; [exact Hseed|by apply Hf]).
      exists (Some pid). split; [|split; [|done]].
      * eapply roles_insert; [exact Hr| | |done].
        -- rewrite decide_True by done. by apply Hhold.
        -- intros pid' Hne. split; [congruence|]. intros ->. destruct Hnl. apply Hl. by eexists.
      * intros _. unfold NetworkNode.locked. cbn. rewrite Hw, lookup_insert_eq. by eexists.
Qed.

(** A destructor makes an access. *)
Lemma drop_access_ok fixed w gs pid runtime X (access : NodeM X) rest outcome w' :
  site_ok fixed {| si_world := w; si_gateways := gs |} →
  gs !! pid = Some (Dropping runtime (Access access rest)) → access w = (outcome, w') →
  site_ok fixed {| si_world := w'; si_gateways := <[pid := Dropping runtime (rest outcome)]> gs |} ∧
  (fixed → same_seed w w').
Proof.
  intros (owner & Hr & Hl & Hf) Hg Ha. cbn in *. pose proof (Hr _ _ Hg) as Hrole.
  assert (same_files w w' → (if decide (owner = Some pid) then leaving (rest outcome)
      else harmless (rest outcome)) →
    site_ok fixed {| si_world := w'; si_gateways := <[pid := Dropping runtime (rest outcome)]> gs |} ∧
    (fixed → same_seed w w')) as Hsame.
  { intros Hs Hrest. pose proof (same_files_seed _ _ Hs) as Hseed. split; [|done].
    eapply site_ok_same; [exact Hr| | |by left|by destruct (decide _)].
    - intros Ho. eapply locked_files; [exact Hs|by apply Hl].
    - intros Hfix. eapply seed_fixed_same; [exact Hseed|by apply Hf]. }
  destruct (decide (owner = Some pid)) as [He|He].
  - destruct (Hrole w outcome w' Ha) as [[Hs Hrest]|[Hw Hrest]]; [by apply Hsame|].
    assert (same_seed w w') as Hseed
      by (unfold same_seed; rewrite Hw, lookup_delete_ne; [done|apply lock_not_seed]).
    split; [|done]. exists None. split_and!; [|by intros []|].
    + eapply roles_insert; [exact Hr|by rewrite decide_False| |by intros pid' _ _].
      intros pid' Hne. split; [done|]. rewrite He. congruence.
    + intros Hfix. eapply seed_fixed_same; [exact Hseed|by apply Hf].
  - destruct (Hrole w outcome w' Ha). by apply Hsame.
Qed.

Lemma site_step_ok fixed s s' :
  site_step s s' → site_ok fixed s → site_ok fixed s' ∧ (fixed → same_seed (si_world s) (si_world s')).
Proof.
  intros [w gs pid config Hn Hdir|w gs pid X access rest outcome w' Hg Ha|w gs pid runtime Hg
    |w gs pid runtime Hg|w gs pid runtime X access rest outcome w' Hg Ha|w gs pid] Hok; cbn.
  - split; [|done]. destruct Hok as (owner & Hr & Hl & Hf).
    exists (if decide (owner = Some pid) then None else owner). split_and!; [|by case_decide; [intros []|]|done].
    eapply roles_insert; [exact Hr| | |done].
    + rewrite decide_False by (case_decide; congruence). by apply before_lock_start.
    + intros pid' Hne. case_decide; [|done]. split; congruence.
  - by eapply start_access_ok.
  - split; [|done]. destruct Hok as (owner & Hr & Hl & Hf). pose proof (Hr _ _ Hg) as Hrole.
    eapply site_ok_same; [exact Hr|done|done|by left|].
    destruct (decide (owner = Some pid)); [done|by destruct Hrole].
  - split; [|done]. destruct Hok as (owner & Hr & Hl & Hf). pose proof (Hr _ _ Hg) as Hrole.
    eapply site_ok_same; [exact Hr|done|done|by left|].
    destruct (decide (owner = Some pid)); [|done]. by apply leaving_drop, (Hrole runtime).
  - by eapply drop_access_ok.
  - split; [|done]. destruct Hok as (owner & Hr & Hl & Hf). exists owner. split; [|done].
    intros pid' g Hg. cbn in Hg. apply lookup_delete_Some in Hg as [_ Hg]. by apply Hr.
Qed.

Lemma site_steps_ok fixed s s' :
  rtc site_step s s' → site_ok fixed s → site_ok fixed s' ∧ (fixed → same_seed (si_world s) (si_world s')).
Proof.
  induction 1 as [s|s s1 s' Hstep _ IH]; [done|]. intros Hok.
  apply (site_step_ok fixed) in Hstep as [Hok1 Hs1]; [|done]. destruct (IH Hok1) as [Hok' Hs'].
  split; [done|]. intros Hf. specialize (Hs1 Hf). specialize (Hs' Hf). unfold same_seed in *. congruence.
Qed.

Lemma empty_site_ok s : si_gateways s = ∅ → site_ok False s.
Proof. intros Hnil. exists None. split; [|split; [by intros []|done]]. intros pid g. by rewrite Hnil. Qed.

(** A gateway that runs has the lock. *)
Lemma running_owns fixed s pid runtime :
  site_ok fixed s → si_gateways s !! pid = Some (Running runtime) →
  locked (si_world s) ∧ started_with (Ok runtime) (si_world s) ∧
  ∀ pid' g, pid' ≠ pid → si_gateways s !! pid' = Some g → bystander g.
Proof.
  intros (owner & Hr & Hl & _) Hg. pose proof (Hr _ _ Hg) as Hrole.
  destruct (decide (owner = Some pid)) as [->|]; [|done]. split; [apply Hl; by eexists|]. split; [done|].
  intros pid' g Hne Hg'. specialize (Hr _ _ Hg'). by rewrite decide_False in Hr by congruence.
Qed.

(** *** Nothing moves while the lock file is there *)

(** The lock file is there, and no process but [pid], which runs, has the lock. *)
Definition frozen (pid : option nat) (s : Site) : Prop :=
  locked (si_world s) ∧
  ∀ pid' g, si_gateways s !! pid' = Some g → pid = Some pid' ∧ (∃ runtime, g = Running runtime) ∨ bystander g.

Lemma frozen_insert pid w w' gs pid' g :
  frozen pid {| si_world := w; si_gateways := gs |} → same_files w w' → bystander g →
  same_files w w' ∧ frozen pid {| si_world := w'; si_gateways := <[pid' := g]> gs |}.
Proof.
  intros [Hl Hf] Hs Hg. split; [done|]. split; [by eapply locked_files|].
  intros pid1 g1 Hl1. cbn in Hl1. apply lookup_insert_Some in Hl1 as [[<- <-]|[_ H1]]; [by right|by apply Hf].
Qed.

Lemma frozen_step pid s s' :
  frozen pid s → site_step s s' →
  (∀ p, pid = Some p → ∃ runtime, si_gateways s' !! p = Some (Running runtime)) →
  same_files (si_world s) (si_world s') ∧ frozen pid s'.
Proof.
  intros Hfr Hstep. revert Hfr.
  destruct Hstep as [w gs p config Hn Hdir|w gs p X access rest outcome w' Hg Ha|w gs p runtime Hg
    |w gs p runtime Hg|w gs p runtime X access rest outcome w' Hg Ha|w gs p]; intros Hfr Hrun;
    cbn [si_world si_gateways] in *.
  - apply (frozen_insert pid w w gs p); [exact Hfr|exact eq_refl|]. by apply before_lock_start.
  - pose proof Hfr as [Hl Hf]. destruct (Hf _ _ Hg) as [[_ [? [=]]]|Hb].
    destruct (Hb w outcome w' Ha) as [[Hs Hrest]|(Hnl & _)]; [|done]. by apply frozen_insert.
  - destruct Hfr as [Hl Hf]. destruct (Hf _ _ Hg) as [[_ [? [=]]]|[e [=]]].
  - destruct Hfr as [Hl Hf]. destruct (Hf _ _ Hg) as [[-> _]|[]].
    destruct (Hrun p eq_refl) as [rt Hrt]. by rewrite lookup_insert_eq in Hrt.
  - pose proof Hfr as [Hl Hf]. destruct (Hf _ _ Hg) as [[_ [? [=]]]|Hb].
    destruct (Hb w outcome w' Ha) as [Hs Hrest]. by apply frozen_insert.
  - split; [done|]. destruct Hfr as [Hl Hf]. split; [done|].
    intros p' g Hg. cbn in Hg. apply lookup_delete_Some in Hg as [_ Hg]. by apply Hf.
Qed.

Lemma frozen_steps s s' :
  rtc site_step s s' → frozen None s → same_files (si_world s) (si_world s') ∧ frozen None s'.
Proof.
  induction 1 as [s|s s1 s' Hstep _ IH]; [done|]. intros Hfr.
  apply (frozen_step None) in Hstep as [Hs Hfr']; [|done..]. destruct (IH Hfr') as [Hs' ?].
  split; [|done]. unfold same_files in *. congruence.
Qed.

Lemma frozen_none s pid runtime : frozen None s → si_gateways s !! pid ≠ Some (Running runtime).
Proof. intros [_ Hf] Hg. by destruct (Hf _ _ Hg) as [[? _]|[]]. Qed.

(** C28: at most one gateway runs on a state directory.  Any number of gateways are started,
    stopped and killed on a state directory at the same time, their accesses to the file system
    interleaved in any order and failing at any point.  While one of them runs (from the end of
    its start to the beginning of its destructor) its lock file is there, no other runs, no step
    of the others changes a file, and a start that is made fails and changes no file. *)
Theorem state_dir_exclusive s0 s pid runtime :
  si_gateways s0 = ∅ → rtc site_step s0 s → si_gateways s !! pid = Some (Running runtime) →
  locked (si_world s) ∧
  (∀ pid' runtime', si_gateways s !! pid' = Some (Running runtime') → pid' = pid) ∧
  (∀ s', site_step s s' → si_gateways s' !! pid = Some (Running runtime) →
     nw_files (si_world s') = nw_files (si_world s)) ∧
  (∀ config r w', pc_state_dir config = state_dir → exec (start_network config) (si_world s) = (r, w') →
     nw_files w' = nw_files (si_world s) ∧ ∃ e, r = Err e).
Proof.
  intros Hnil Hsteps Hrun. apply (site_steps_ok False) in Hsteps as [Hok _]; [|by apply empty_site_ok].
  destruct (running_owns _ _ _ _ Hok Hrun) as (Hl & _ & Hothers). split_and!; [done|..].
  - intros pid' runtime' Hrun'. destruct (decide (pid' = pid)); [done|].
    by destruct (Hothers pid' (Running runtime')).
  - intros s' Hstep Hrun'. apply (frozen_step (Some pid)) in Hstep as [Hs _]; [done| |].
    + split; [done|]. intros pid' g Hg. destruct (decide (pid' = pid)) as [->|]; [left|right; eauto].
      split; [done|]. rewrite Hrun in Hg. injection Hg as <-. by eexists.
    + intros p [= <-]. eauto.
  - intros config r w' Hdir H. by apply start_locked with (state_dir := state_dir) in H.
Qed.

(** C40: a gateway that was killed never starts again.  When the process of a running gateway
    ends without running its destructor, its lock file stays, and from then on no start on this
    state directory succeeds and no file changes, whatever happens. *)
Theorem killed_gateway_stays_down s0 s pid runtime s' :
  si_gateways s0 = ∅ → rtc site_step s0 s → si_gateways s !! pid = Some (Running runtime) →
  rtc site_step {| si_world := si_world s; si_gateways := delete pid (si_gateways s) |} s' →
  (∀ pid' runtime', si_gateways s' !! pid' ≠ Some (Running runtime')) ∧
  nw_files (si_world s') = nw_files (si_world s).
Proof.
  intros Hnil Hsteps Hrun Hlater.
  apply (site_steps_ok False) in Hsteps as [Hok _]; [|by apply empty_site_ok].
  destruct (running_owns _ _ _ _ Hok Hrun) as (Hl & _ & Hothers).
  apply frozen_steps in Hlater as [Hs Hfr].
  - split; [|exact Hs]. intros pid' runtime'. by apply frozen_none.
  - split; [done|]. intros pid' g Hg. cbn in Hg. apply lookup_delete_Some in Hg as [Hne Hg]. right.
    by eapply Hothers.
Qed.

(** The same holds for a start that fails once it has the lock. *)
Lemma half_started_stays_down config w e w' s' pid runtime :
  pc_state_dir config = state_dir → exec (start_network config) w = (Err e, w') →
  ¬ same_files w w' → rtc site_step {| si_world := w'; si_gateways := ∅ |} s' →
  si_gateways s' !! pid ≠ Some (Running runtime).
Proof.
  intros Hdir H Hne Hlater.
  eapply start_run in H as [[? _]|(w1 & seed & w2 & _ & Hf & Hload & Hs & _)]; [done| |done].
  apply frozen_steps in Hlater as [_ Hfr]; [by apply frozen_none|]. split; [|done].
  cbn. eapply locked_files; [exact Hs|]. apply (load_locked _ _ _ _ Hload).
  unfold NetworkNode.locked. rewrite Hf, lookup_insert_eq. by eexists.
Qed.

(** *** Runs of one process *)

Lemma start_steps p : ∀ w gs pid r w', exec p w = (r, w') →
  rtc site_step {| si_world := w; si_gateways := <[pid := Starting p]> gs |}
                {| si_world := w'; si_gateways := <[pid := Starting (Done r)]> gs |}.
Proof.
  induction p as [o|X access rest IH]; intros w gs pid r w' H; [by injection H as <- <-|].
  cbn in H. destruct (access w) as [outcome w1] eqn:Ha. eapply rtc_l.
  - eapply SiteStart; [apply lookup_insert_eq|exact Ha].
  - rewrite insert_insert_eq. by apply IH.
Qed.

Lemma launched config w gs pid runtime w' :
  gs !! pid = None → pc_state_dir config = state_dir →
  exec (start_network config) w = (Ok runtime, w') →
  rtc site_step {| si_world := w; si_gateways := gs |}
                {| si_world := w'; si_gateways := <[pid := Running runtime]> gs |}.
Proof.
  intros Hn Hdir H. eapply rtc_l; [by apply SiteLaunch|].
  etrans; [by apply start_steps|]. apply rtc_once.
  rewrite <- (insert_insert_eq gs pid (Running runtime) (Starting (Done (Ok runtime)))).
  apply SiteStarted, lookup_insert_eq.
Qed.

Lemma drop_steps runtime p : ∀ w gs pid r w', exec p w = (r, w') →
  rtc site_step {| si_world := w; si_gateways := <[pid := Dropping runtime p]> gs |}
                {| si_world := w'; si_gateways := <[pid := Dropping runtime (Done r)]> gs |}.
Proof.
  induction p as [o|X access rest IH]; intros w gs pid r w' H; [by injection H as <- <-|].
  cbn in H. destruct (access w) as [outcome w1] eqn:Ha. eapply rtc_l.
  - eapply SiteDrop; [apply lookup_insert_eq|exact Ha].
  - rewrite insert_insert_eq. by apply IH.
Qed.

Lemma stopped w gs pid runtime r w' :
  gs !! pid = None → exec (drop_runtime runtime) w = (r, w') →
  rtc site_step {| si_world := w; si_gateways := <[pid := Running runtime]> gs |}
                {| si_world := w'; si_gateways := gs |}.
Proof.
  intros Hn H. eapply rtc_l; [eapply SiteStop, lookup_insert_eq|]. rewrite insert_insert_eq.
  etrans; [by apply drop_steps|]. apply rtc_once.
  rewrite <- (delete_insert_id gs pid (Dropping runtime (Done r))) at 2 by done. apply SiteExit.
Qed.
End site.

(** *** Identity *)

Section identity.
Context `{HX : Hex, HXL : !HexLaws, SB : Substrate, SBL : !SubstrateLaws, NH : NodeHost,
          NHL : !NodeHostLaws}.
Context (state_dir : string).

Lemma seed_insert w w' text bytes :
  nw_files w' = <[seed_path state_dir := hex_encode bytes]> text → String.length bytes = 32 →
  w = w' → holds_seed state_dir w' bytes.
Proof.
  intros Hf Hl ->. exists (hex_encode bytes). rewrite Hf, lookup_insert_eq. split; [done|].
  rewrite trim_hexdigits by apply hex_encode_digits. rewrite hex_decode_encode.
  split; [done|]. unfold len. lia.
Qed.

Lemma holds_seed_lock w w' seed :
  nw_files w' = <[lock_path state_dir := ""]> (nw_files w) ∨
  nw_files w' = delete (lock_path state_dir) (nw_files w) ∨ same_files w w' →
  holds_seed state_dir w seed → holds_seed state_dir w' seed.
Proof.
  pose proof (lock_not_seed state_dir) as Hne.
  intros H (text & Ht & Hd). exists text. split; [|done].
  destruct H as [Hf|[Hf|Hf]]; rewrite Hf; [by rewrite lookup_insert_ne|by rewrite lookup_delete_ne|done].
Qed.

Lemma holds_seed_unique w seed seed' :
  holds_seed state_dir w seed → holds_seed state_dir w seed' → seed' = seed.
Proof. intros (? & ? & ? & _) (? & ? & ? & _). congruence. Qed.

(** A seed that has been loaded is in its file afterwards. *)
Lemma load_holds w seed w' :
  exec (load_or_create_identity_seed (seed_path state_dir)) w = (Ok seed, w') → holds_seed state_dir w' seed.
Proof.
  intros [[Hs [[e [=]]|(s & [= <-] & Hs')]]|(_ & text & Hf & [[e [=]]|(t & [= ->] & ->)])]%load_run.
  - eapply holds_seed_lock, Hs'. auto.
  - eapply seed_insert; [done|apply random_seed_length|done].
Qed.

(** As long as [Path::exists] tells the truth, a seed stays. *)
Lemma load_keeps w r w' seed :
  (∀ t, stat_fault t = false) →
  exec (load_or_create_identity_seed (seed_path state_dir)) w = (r, w') →
  holds_seed state_dir w seed → holds_seed state_dir w' seed.
Proof.
  intros Hstat [[Hs _]|([Hn|Hn] & _)]%load_run Hseed.
  - eapply holds_seed_lock, Hseed. auto.
  - destruct Hseed as (? & ? & _). congruence.
  - by rewrite Hstat in Hn.
Qed.

Lemma built_peer_id bytes runtime :
  built_from state_dir bytes runtime → runtime_peer_id (run_inner runtime) = peer_of_seed bytes.
Proof. intros (t1 & t2 & t3 & config & node & inner & H1 & H2 & H3). by eapply started_peer_id. Qed.

Lemma start_holds config w runtime w' :
  pc_state_dir config = state_dir → exec (start_network config) w = (Ok runtime, w') →
  ∃ seed, holds_seed state_dir w' seed ∧ runtime_peer_id (run_inner runtime) = peer_of_seed seed.
Proof.
  intros Hdir H. eapply start_run in H as [(_ & e & [=])|(w1 & seed & w2 & _ & Hf & Hload & Hs & Hr)];
    [|exact Hdir].
  destruct Hr as [[e [=]]|(rt & bytes & [= <-] & -> & _ & Hbuilt)].
  exists bytes. split; [|by apply built_peer_id].
  eapply holds_seed_lock; [|by eapply load_holds]. auto.
Qed.

Lemma start_keeps config w r w' seed :
  (∀ t, stat_fault t = false) → pc_state_dir config = state_dir →
  exec (start_network config) w = (r, w') → holds_seed state_dir w seed → holds_seed state_dir w' seed.
Proof.
  intros Hstat Hdir H Hseed.
  eapply start_run in H as [(Hs & _)|(w1 & s & w2 & _ & Hf & Hload & Hs & _)]; [..|exact Hdir].
  - eapply holds_seed_lock, Hseed. auto.
  - eapply holds_seed_lock; [right; right; exact Hs|]. eapply load_keeps; [done..|].
    eapply holds_seed_lock, Hseed. auto.
Qed.

(** The seed file says which seed a runtime was built from. *)
Lemma seed_of_unique w runtime1 runtime2 :
  seed_of state_dir w runtime1 → seed_of state_dir w runtime2 →
  runtime_peer_id (run_inner runtime2) = runtime_peer_id (run_inner runtime1).
Proof.
  assert (∀ text bytes, hex_decode (trim text) = Some bytes ∨
    (∃ t, bytes = random_seed t ∧ text = hex_encode bytes) → hex_decode (trim text) = Some bytes) as Hd.
  { intros text bytes [?|(t & -> & ->)]; [done|].
    by rewrite trim_hexdigits, hex_decode_encode by apply hex_encode_digits. }
  intros (text1 & bytes1 & H1 & B1 & D1%Hd) (text2 & bytes2 & H2 & B2 & D2%Hd).
  rewrite (built_peer_id _ _ B1), (built_peer_id _ _ B2). congruence.
Qed.

(** C29: a gateway keeps its identity.  Any two gateways that run on the same state directory,
    at the same time or one after the other, however many starts, stops, kills and failures,
    interleaved in any order, lie between them, have the same peer id, provided that the file
    system does not deny that an existing file exists. *)
Theorem identity_stable s0 s1 pid1 runtime1 s2 pid2 runtime2 :
  (∀ t, stat_fault t = false) → si_gateways s0 = ∅ → rtc (site_step state_dir) s0 s1 →
  si_gateways s1 !! pid1 = Some (Running runtime1) → rtc (site_step state_dir) s1 s2 →
  si_gateways s2 !! pid2 = Some (Running runtime2) →
  runtime_peer_id (run_inner runtime2) = runtime_peer_id (run_inner runtime1).
Proof.
  intros Hstat Hnil H01 Hrun1 H12 Hrun2.
  apply (site_steps_ok _ False) in H01 as [Hok _]; [|by apply empty_site_ok].
  destruct (running_owns _ _ _ _ _ Hok Hrun1) as (Hl & Hst & Hothers).
  destruct (Hst runtime1 eq_refl) as [_ Hseed1].
  assert (site_ok state_dir True s1) as Hfix.
  { exists (Some pid1). split_and!; [|done|].
    - intros pid g Hg. case_decide as He.
      + injection He as <-. rewrite Hrun1 in Hg. by injection Hg as <-.
      + apply (Hothers pid); [congruence|done].
    - intros _. split; [done|]. destruct Hseed1 as (text & ? & -> & _). by eexists. }
  apply (site_steps_ok _ True) in H12 as [Hok2 Hsame]; [|done]. specialize (Hsame I).
  destruct (running_owns _ _ _ _ _ Hok2 Hrun2) as (_ & Hst2 & _).
  destruct (Hst2 runtime2 eq_refl) as [_ Hseed2]. eapply seed_of_unique; [|exact Hseed2].
  destruct Hseed1 as (text & bytes & Ht & Hb). exists text, bytes. by rewrite Hsame.
Qed.

(** Otherwise a new seed replaces the one in the file. *)
Lemma denied_seed_replaced w :
  (∀ t, io_fault t = None) → stat_fault (nw_tick w) = true →
  ∃ w', exec (load_or_create_identity_seed (seed_path state_dir)) w = (Ok (random_seed (S (nw_tick w))), w') ∧
    nw_files w' = <[seed_path state_dir := hex_encode (random_seed (S (nw_tick w)))]> (nw_files w).
Proof.
  intros Hio Hstat. unfold load_or_create_identity_seed, path_exists. cbn.
  cbv [mbind M_bind ntick gets mret M_ret]. cbn. rewrite Hstat. cbn. rewrite io_ok by done. cbn.
  unfold truncate. cbv [mbind M_bind modify]. rewrite io_ok by done. cbn.
  unfold write_all. cbv [mbind M_bind ntick modify]. cbn. rewrite Hio. cbn.
  eexists. split; [done|]. cbn. by rewrite insert_insert_eq.
Qed.

(** *** Restart *)

(** Nothing fails on the way. *)
Record healthy : Prop := {
  hl_io t : io_fault t = None;
  hl_stat t : stat_fault t = false;
  hl_layout t path : ensure_layout t path = Ok ();
  hl_node t config dir seed : len seed = 32%Z → ∃ node, from_seed_bytes t config dir seed = Ok node;
  hl_start t node : ∃ runtime, substrate_start t node = Ok runtime;
  hl_subscribe t runtime : ∃ runtime', subscribe_global t runtime = Ok runtime';
}.

(** The seed file is absent, or has a seed. *)
Definition seed_usable (w : NodeWorld) : Prop :=
  nw_files w !! seed_path state_dir = None ∨ ∃ seed, holds_seed state_dir w seed.

Lemma exec_bind_run {A B} (p : Proc A) (f : A -> Proc B) w a w1 :
  exec p w = (Ok a, w1) → exec (p ≫= f) w = exec (f a) w1.
Proof. intros H. rewrite exec_bind. cbv [mbind M_bind]. by rewrite H. Qed.

Lemma exec_act_bind {A B} (access : NodeM A) (f : A -> Proc B) w a w1 :
  access w = (Ok a, w1) → exec (act access ≫= f) w = exec (f a) w1.
Proof. intros H. apply exec_bind_run. by rewrite exec_act. Qed.

Lemma load_succeeds w :
  healthy → seed_usable w →
  ∃ seed w', exec (load_or_create_identity_seed (seed_path state_dir)) w = (Ok seed, w') ∧ len seed = 32%Z.
Proof.
  intros Hh Hu. unfold load_or_create_identity_seed.
  rewrite (exec_act_bind (path_exists (seed_path state_dir)) _ w
    (negb (stat_fault (nw_tick w)) && bool_decide (is_Some (nw_files w !! seed_path state_dir)))
    {| nw_files := nw_files w; nw_tick := S (nw_tick w) |} eq_refl), (hl_stat Hh).
  destruct Hu as [Hn|(seed & text & Ht & Hd & Hl)].
  - rewrite bool_decide_false by (cbn; rewrite Hn; by intros []). cbn. rewrite io_ok by apply (hl_io Hh). cbn.
    unfold truncate. cbv [mbind M_bind modify]. rewrite io_ok by apply (hl_io Hh). cbn.
    unfold write_all. cbv [mbind M_bind ntick modify]. cbn. rewrite (hl_io Hh). cbn.
    eexists _, _. split; [done|]. unfold len. by rewrite random_seed_length.
  - rewrite bool_decide_true by (cbn; rewrite Ht; by eexists). cbn. unfold read_to_string.
    cbv [mbind M_bind gets lift]. rewrite io_ok by apply (hl_io Hh). cbn. rewrite Ht. cbn. rewrite Hd. cbn.
    rewrite Hl. cbn. eauto.
Qed.

Lemma lock_succeeds w :
  healthy → ¬ locked state_dir w →
  ∃ w', exec (acquire_state_dir_lock state_dir) w = (Ok (lock_path state_dir), w') ∧
    nw_files w' = <[lock_path state_dir := ""]> (nw_files w).
Proof.
  intros Hh Hl. unfold acquire_state_dir_lock. fold (lock_path state_dir). cbn.
  unfold create_new. cbv [mbind M_bind gets modify]. rewrite io_ok by apply (hl_io Hh). cbn.
  rewrite (proj2 (eq_None_not_Some _) Hl). cbn. by eexists.
Qed.

Lemma start_succeeds config w :
  healthy → pc_state_dir config = state_dir → ¬ locked state_dir w → seed_usable w →
  ∃ runtime w', exec (start_network config) w = (Ok runtime, w').
Proof.
  intros Hh Hdir Hl Hu. unfold start_network.
  assert (∃ node w', exec (generate config) w = (Ok node, w')) as (node & w1 & H1).
  - unfold generate. rewrite Hdir. cbv zeta. fold (seed_path state_dir).
    assert (∃ w0, exec (initialize_state_dir state_dir) w = (Ok (), w0) ∧ nw_files w0 = nw_files w)
      as (w0 & H0 & Hf0).
    { unfold initialize_state_dir, open_local_artifact_store. cbn. rewrite io_ok by apply (hl_io Hh). cbn.
      rewrite (hl_layout Hh). by eexists. }
    rewrite (exec_bind_run _ _ _ _ _ H0).
    destruct (lock_succeeds w0) as (w1 & H1 & Hf1); [done|unfold locked; by rewrite Hf0|].
    rewrite (exec_bind_run _ _ _ _ _ H1).
    destruct (load_succeeds w1) as (seed & w2 & H2 & Hlen); [done| |].
    { unfold seed_usable, holds_seed. rewrite Hf1, Hf0, lookup_insert_ne by apply lock_not_seed. done. }
    rewrite (exec_bind_run _ _ _ _ _ H2). cbn.
    destruct (hl_node Hh (nw_tick w2) (as_substrate config) state_dir seed Hlen) as [node ->]. cbn. eauto.
  - rewrite (exec_bind_run _ _ _ _ _ H1). cbn.
    destruct (hl_start Hh (nw_tick w1) (gn_inner node)) as [inner ->]. cbn.
    destruct (hl_subscribe Hh (S (nw_tick w1)) inner) as [inner' ->]. cbn. eauto.
Qed.

(** A gateway that is stopped can be started again.  When nothing fails, a gateway starts
    on a state directory that has no lock file and no broken seed; when its runtime is dropped
    the lock file goes, and the next start succeeds and gives the same peer id. *)
Theorem clean_restart config w :
  healthy → pc_state_dir config = state_dir → ¬ locked state_dir w → seed_usable w →
  ∃ runtime w1 w2 runtime' w3, exec (start_network config) w = (Ok runtime, w1) ∧
    exec (drop_runtime runtime) w1 = (Ok (), w2) ∧ ¬ locked state_dir w2 ∧
    exec (start_network config) w2 = (Ok runtime', w3) ∧
    runtime_peer_id (run_inner runtime') = runtime_peer_id (run_inner runtime).
Proof.
  intros Hh Hdir Hl Hu. destruct (start_succeeds config w) as (runtime & w1 & H1); [done..|].
  destruct (exec (drop_runtime runtime) w1) as [r w2] eqn:H2.
  destruct (started_locked state_dir _ _ _ _ Hdir H1) as (_ & Hl1 & Hp).
  destruct (drop_run _ _ _ _ H2) as [-> _]. pose proof (drop_unlocks state_dir _ _ _ (hl_io Hh) Hp H2 Hl1) as Hd.
  destruct (start_holds _ _ _ _ Hdir H1) as (seed & Hs & Hpeer).
  assert (holds_seed state_dir w2 seed) as Hs2 by (eapply holds_seed_lock, Hs; auto).
  assert (¬ locked state_dir w2) as Hl2 by (unfold locked; rewrite Hd, lookup_delete_eq; by intros []).
  destruct (start_succeeds config w2) as (runtime' & w3 & H3); [done..|by right; eexists|].
  exists runtime, w1, w2, runtime', w3. do 4 (split; [done|]).
  destruct (start_holds _ _ _ _ Hdir H3) as (seed' & Hs' & ->). rewrite Hpeer. f_equal.
  eapply holds_seed_unique; [|done]. eapply start_keeps; [apply (hl_stat Hh)|done..].
Qed.
End identity.

(** ** Concrete runs *)

Section samples.
Local Existing Instances json_impl_value hex_impl hex_impl_laws.

Definition namespace_impl : Namespace := {| TopicNamespace := string; set_network name _ := name |}.
Local Existing Instance namespace_impl.

(** A network whose peer ids are the seeds themselves. *)
Definition substrate_impl : Substrate := {|
  substrate_default := {|
    sb_namespace := "wattswarm"; sb_protocol_version := "/wattswarm/0.1.0";
    sb_listen_addrs := ["0.0.0.0:0"]; sb_bootstrap_peers := []; sb_max_established_per_peer := 4;
    sb_gossip_mesh_d := 6; sb_gossip_mesh_d_low := 4; sb_gossip_mesh_d_high := 12;
    sb_gossip_mesh_heartbeat_ms := 1000; sb_gossip_mesh_max_transmit_size := 65536;
    sb_max_backfill_events := 128; sb_max_backfill_events_hard_limit := 512;
    sb_control_request_timeout_ms := 1000 |};
  substrate_validate config := Ok ();
  SubstrateNode := string; SubstrateRuntime := string;
  from_seed_bytes t config dir seed := Ok seed;
  substrate_start t node := Ok node;
  subscribe_global t runtime := Ok runtime;
  runtime_peer_id runtime := runtime;
  runtime_listen_addrs runtime := [];
  runtime_observability runtime := {|
    nb_nat_status := "unknown"; nb_nat_public_address := None; nb_nat_confidence := 0;
    nb_relay_reservations := []; nb_peer_health := [] |};
  iroh_direct_default := JNull;
  local_contact_material t dir peer generated_at := Ok (JString peer);
  SwarmScope := bool; GossipKind := bool; SwarmScope_eq := _; GossipKind_eq := _;
  Global := true; Summaries := true;
  ensure_layout t path := Ok () |}.
Local Existing Instance substrate_impl.

Definition substrate_impl_laws : SubstrateLaws (SB:=substrate_impl).
Proof. refine {| peer_of_seed seed := seed |}. intros. by simplify_eq/=. Defined.
Local Existing Instance substrate_impl_laws.

(** Nothing fails; the seed depends on when it is drawn. *)
Definition node_host_impl : NodeHost := {|
  io_fault t := None; stat_fault t := false; torn_write t := 0;
  random_seed t := fit 32 (pretty t) |}.
Local Existing Instance node_host_impl.

Lemma node_host_impl_laws : NodeHostLaws (H:=node_host_impl).
Proof. split. intros t. apply fit_length. Qed.
Local Existing Instance node_host_impl_laws.

Lemma everything_healthy : healthy.
Proof. split; eauto. Qed.

Definition node_config : GatewayP2pConfig := p2p_default.
Definition empty_disk : NodeWorld := {| nw_files := ∅; nw_tick := 0 |}.
Definition node_dir : string := pc_state_dir node_config.

Lemma empty_disk_usable : seed_usable node_dir empty_disk.
Proof. left. reflexivity. Qed.

Lemma empty_disk_unlocked : ¬ locked node_dir empty_disk.
Proof. intros []. discriminate. Qed.

Lemma clean_restart_witness :
  ∃ runtime w1 w2 runtime' w3, exec (start_network node_config) empty_disk = (Ok runtime, w1) ∧
    exec (drop_runtime runtime) w1 = (Ok (), w2) ∧ exec (start_network node_config) w2 = (Ok runtime', w3) ∧
    run_inner runtime' = run_inner runtime.
Proof.
  destruct (clean_restart node_dir node_config empty_disk everything_healthy eq_refl
    empty_disk_unlocked empty_disk_usable) as (runtime & w1 & w2 & runtime' & w3 & H1 & H2 & _ & H3 & H4).
  exists runtime, w1, w2, runtime', w3. split; [exact H1|]. split; [exact H2|]. split; [exact H3|exact H4].
Defined.

(** A first start on the empty disk. *)
Definition idle_site : Site := {| si_world := empty_disk; si_gateways := ∅ |}.
Definition started : result string GatewayNetworkRuntime * NodeWorld :=
  exec (start_network node_config) empty_disk.
Definition started_runtime : GatewayNetworkRuntime := {|
  run_inner := fit 32 (pretty 4); run_state_dir := node_dir; run_lock_path := lock_path node_dir |}.
Definition running_site : Site :=
  {| si_world := started.2; si_gateways := <[0 := Running started_runtime]> ∅ |}.

Lemma first_start : rtc (site_step node_dir) idle_site running_site.
Proof. apply (launched node_dir node_config); [reflexivity..|vm_compute; reflexivity]. Qed.

Lemma state_dir_exclusive_witness :
  locked node_dir (si_world running_site) ∧
  ∃ e, (exec (start_network node_config) (si_world running_site)).1 = Err e.
Proof.
  destruct (state_dir_exclusive node_dir idle_site running_site 0 started_runtime eq_refl first_start
    eq_refl) as (H1 & _ & _ & H2).
  split; [exact H1|].
  destruct (H2 node_config _ _ eq_refl (surjective_pairing _)) as [_ H]. exact H.
Defined.

(** Another gateway is launched after the first was killed, and fails. *)
Definition second_try : result string GatewayNetworkRuntime * NodeWorld :=
  exec (start_network node_config) started.2.

Lemma killed_gateway_stays_down_witness :
  let s := {| si_world := second_try.2; si_gateways := <[1 := Starting (Done second_try.1)]> ∅ |} in
  (∀ pid runtime, si_gateways s !! pid ≠ Some (Running runtime)) ∧
  nw_files (si_world s) = nw_files started.2.
Proof.
  intros s.
  refine (killed_gateway_stays_down node_dir idle_site running_site 0 started_runtime s eq_refl
    first_start eq_refl _).
  eapply rtc_l; [apply (SiteLaunch node_dir _ _ 1 node_config); reflexivity|].
  apply start_steps. apply surjective_pairing.
Defined.

(** The runtime is dropped and started again. *)
Definition stopped_world : NodeWorld := (exec (drop_runtime started_runtime) started.2).2.
Definition restarted_site : Site := {|
  si_world := (exec (start_network node_config) stopped_world).2;
  si_gateways := <[1 := Running started_runtime]> ∅ |}.

Lemma second_start : rtc (site_step node_dir) running_site restarted_site.
Proof.
  etrans; [apply (stopped node_dir _ ∅ 0 started_runtime (Ok ()) stopped_world); [reflexivity|];
    vm_compute; reflexivity|].
  apply (launched node_dir node_config); [reflexivity..|vm_compute; reflexivity].
Qed.

Lemma identity_stable_witness :
  ∃ runtime, si_gateways restarted_site !! 1 = Some (Running runtime) ∧
    runtime_peer_id (run_inner runtime) = runtime_peer_id (run_inner started_runtime).
Proof.
  exists started_runtime. split; [reflexivity|].
  apply (identity_stable node_dir idle_site running_site 0 started_runtime restarted_site 1
    started_runtime).
  - reflexivity.
  - reflexivity.
  - exact first_start.
  - reflexivity.
  - exact second_start.
  - reflexivity.
Defined.

(** The destructor removes the lock file before the network of the runtime is dropped: a second
    gateway runs while the first one still has its network. *)
Example stopping_overlaps :
  ∃ w rest runtime, rtc (site_step node_dir) idle_site
    {| si_world := w;
       si_gateways := <[1 := Running runtime]> (<[0 := Dropping started_runtime rest]> ∅) |}.
Proof.
  eexists _, _, started_runtime. etrans; [exact first_start|].
  eapply rtc_l; [apply (SiteStop node_dir _ _ 0 started_runtime); reflexivity|].
  rewrite insert_insert_eq.
  eapply rtc_l; [eapply (SiteDrop node_dir _ _ 0 started_runtime);
    [apply lookup_insert_eq|reflexivity]|]. rewrite insert_insert_eq.
  eapply rtc_l; [eapply (SiteDrop node_dir _ _ 0 started_runtime);
    [apply lookup_insert_eq|apply surjective_pairing]|]. rewrite insert_insert_eq.
  apply (launched node_dir node_config); [reflexivity..|]. vm_compute. reflexivity.
Qed.
End samples.
