(* ===== verification/UiHub.v ===== *)
(** * Fan-out of user-interface events

    Models [crates/gateway/src/state.rs]: the cache of recently published event
    ids and the hub that sends every event to the unfiltered channel and to the
    channel of its data kind.  A broadcast channel is the sequence of the values
    sent to it; a receiver is the channel and the position at which it subscribed. *)

From S2P Require Import Prelude Str GwValue Contracts.

Definition PUBLISHED_EVENT_CACHE_CAPACITY : Z := 8192.

(** [serde_json::to_string] of an event. *)
Class UiEventJson `{SV : SerdeValue} := ui_event_to_string : GatewayUiEvent -> option string.

Record PublishedEventCache := { pc_event_ids : gset string; pc_order : list string }.

(** [PublishedEventCache::remember] *)
Definition remember (event_id : string) (cache : PublishedEventCache) :
    bool * PublishedEventCache :=
  if bool_decide (event_id ∈ pc_event_ids cache) then (false, cache)
  else
    let event_ids := {[event_id]} ∪ pc_event_ids cache in
    let order := pc_order cache ++ [event_id] in
    (true,
     if (PUBLISHED_EVENT_CACHE_CAPACITY <? Z.of_nat (length order))%Z
     then match order with
          | expired :: order => {| pc_event_ids := event_ids ∖ {[expired]}; pc_order := order |}
          | [] => {| pc_event_ids := event_ids; pc_order := order |}
          end
     else {| pc_event_ids := event_ids; pc_order := order |}).

Section hub.
Context `{UJ : UiEventJson}.

Record UiStreamEvent := { se_event : GatewayUiEvent; se_payload : string }.

(** [UiStreamEvent::from_event] *)
Definition from_event (event : GatewayUiEvent) : option UiStreamEvent :=
  payload ← ui_event_to_string event;
  Some {| se_event := event; se_payload := payload |}.

Record UiStreamHub := {
  hub_all : list UiStreamEvent;
  hub_filtered : gmap DataKind (list UiStreamEvent);
  hub_published : PublishedEventCache;
}.

(** [UiStreamHub::new] *)
Definition new_hub : UiStreamHub := {|
  hub_all := [];
  hub_filtered := ∅;
  hub_published := {| pc_event_ids := ∅; pc_order := [] |} |}.

Record Receiver := { rx_data_kind : option DataKind; rx_position : nat }.

(** [UiStreamHub::subscribe] *)
Definition subscribe (data_kind : option DataKind) (hub : UiStreamHub) : Receiver * UiStreamHub :=
  match data_kind with
  | Some kind =>
      let sent := default [] (hub_filtered hub !! kind) in
      ({| rx_data_kind := Some kind; rx_position := length sent |},
       {| hub_all := hub_all hub; hub_filtered := <[kind := sent]> (hub_filtered hub);
          hub_published := hub_published hub |})
  | None => ({| rx_data_kind := None; rx_position := length (hub_all hub) |}, hub)
  end.

(** [UiStreamHub::publish] *)
Definition hub_publish (event : GatewayUiEvent) (hub : UiStreamHub) : UiStreamHub :=
  match from_event event with
  | None => hub
  | Some stream_event =>
      let '(should_publish, published) :=
        if (ue_cursor event =? 0)%Z then (true, hub_published hub)
        else remember (ue_event_id event) (hub_published hub) in
      if should_publish then
        {| hub_all := hub_all hub ++ [stream_event];
           hub_filtered := alter (fun sent => sent ++ [stream_event]) (ue_data_kind event)
                             (hub_filtered hub);
           hub_published := published |}
      else
        {| hub_all := hub_all hub; hub_filtered := hub_filtered hub;
           hub_published := published |}
  end.

(** ** Sequences of operations *)

Inductive HubOp := Subscribe (data_kind : option DataKind) | PublishUi (event : GatewayUiEvent).

Definition hub_step (hub : UiStreamHub) (op : HubOp) : UiStreamHub :=
  match op with
  | Subscribe kind => (subscribe kind hub).2
  | PublishUi event => hub_publish event hub
  end.

Definition run_hub (ops : list HubOp) : UiStreamHub := foldl hub_step new_hub ops.

(** The ids of the persisted events (their cursor is not zero) sent so far. *)
Definition sent_ids (hub : UiStreamHub) : list string :=
  omap (fun se => if (ue_cursor (se_event se) =? 0)%Z then None
                  else Some (ue_event_id (se_event se))) (hub_all hub).

Definition of_kind (kind : DataKind) (sent : list UiStreamEvent) : list UiStreamEvent :=
  filter (fun se => ue_data_kind (se_event se) = kind) sent.
End hub.

(** ** The cache is the tail of what was sent *)

(** The last [PUBLISHED_EVENT_CACHE_CAPACITY] ids. *)
Definition recent (ids : list string) : list string :=
  drop (length ids - Z.to_nat PUBLISHED_EVENT_CACHE_CAPACITY) ids.

Record cache_of (ids : list string) (cache : PublishedEventCache) : Prop := {
  co_order : pc_order cache = recent ids;
  co_ids : pc_event_ids cache = list_to_set (recent ids);
  co_nodup : NoDup (recent ids);
}.

Lemma recent_snoc ids id :
  recent (ids ++ [id]) =
    (if (PUBLISHED_EVENT_CACHE_CAPACITY <? Z.of_nat (length (recent ids ++ [id])))%Z
     then tail (recent ids ++ [id]) else recent ids ++ [id]).
Proof.
  unfold recent. set (c := Z.to_nat PUBLISHED_EVENT_CACHE_CAPACITY).
  assert (Z.of_nat c = PUBLISHED_EVENT_CACHE_CAPACITY) as <- by (unfold c; by rewrite Z2Nat.id).
  assert (0 < c) by (unfold c, PUBLISHED_EVENT_CACHE_CAPACITY; lia). clearbody c.
  rewrite !length_app, length_drop. cbn. destruct (Z.ltb_spec (Z.of_nat c)
    (Z.of_nat (length ids - (length ids - c) + 1))).
  - replace (length ids + 1 - c) with (S (length ids - c)) by lia.
    rewrite drop_app_le by lia.
    assert (is_Some (ids !! (length ids - c))) as [x Hx] by (apply lookup_lt_is_Some; lia).
    by rewrite (drop_S _ _ _ Hx).
  - replace (length ids + 1 - c) with 0 by lia. by replace (length ids - c) with 0 by lia.
Qed.

Lemma remember_spec ids id cache :
  cache_of ids cache →
  (remember id cache).1 = bool_decide (id ∉ recent ids) ∧
  cache_of (if (remember id cache).1 then ids ++ [id] else ids) (remember id cache).2.
Proof.
  intros [Ho Hi Hn]. unfold remember. rewrite Ho, Hi.
  destruct (decide (id ∈ recent ids)) as [Hin|Hin].
  { rewrite bool_decide_true by set_solver. cbn. rewrite bool_decide_false by tauto. by split. }
  rewrite bool_decide_false by set_solver. cbn. rewrite bool_decide_true by done.
  split; [done|].
  assert (NoDup (recent ids ++ [id])) as Hn'
    by (apply NoDup_app; split_and!; [done|set_solver|apply NoDup_singleton]).
  pose proof (recent_snoc ids id) as Hr.
  destruct (Z.ltb_spec PUBLISHED_EVENT_CACHE_CAPACITY (Z.of_nat (length (recent ids ++ [id])))).
  - destruct (recent ids ++ [id]) as [|x l] eqn:E; [by destruct (recent ids)|].
    cbn in Hr. rewrite <- Hr in *. apply NoDup_cons in Hn' as [Hx Hn'].
    assert (list_to_set (recent ids ++ [id]) =@{gset string} list_to_set (x :: recent (ids ++ [id])))
      as Hs by by rewrite E.
    rewrite list_to_set_app_L in Hs. split; cbn; [done| |done].
    clear -Hs Hx. generalize dependent (recent (ids ++ [id])). intros l' Hx Hs.
    apply set_eq. intros y. assert (y ∈ list_to_set (recent ids) ∪ list_to_set [id] ↔ y ∈@{gset string} list_to_set (x :: l'))
      by by rewrite Hs. destruct (decide (y = x)); set_solver.
  - rewrite <- Hr in *. split; cbn; [done| |done]. rewrite Hr, list_to_set_app_L. set_solver.
Qed.

(** Two occurrences of an id are further apart than the cache reaches. *)
Definition spaced (ids : list string) : Prop :=
  ∀ i j id, ids !! i = Some id → ids !! j = Some id → (i < j)%nat →
    (PUBLISHED_EVENT_CACHE_CAPACITY < Z.of_nat j - Z.of_nat i)%Z.

Lemma spaced_snoc ids id : spaced ids → id ∉ recent ids → spaced (ids ++ [id]).
Proof.
  intros Hs Hid i j x Hi Hj Hij.
  assert (j < length ids ∨ j = length ids) as [Hlt| ->]
    by (apply lookup_lt_Some in Hj; rewrite length_app in Hj; cbn in Hj; lia).
  - rewrite lookup_app_l in Hi, Hj by lia. eauto.
  - rewrite list_lookup_middle in Hj by done. injection Hj as <-.
    rewrite lookup_app_l in Hi by done.
    destruct (decide (length ids - Z.to_nat PUBLISHED_EVENT_CACHE_CAPACITY <= i)) as [Hge|];
      [|unfold PUBLISHED_EVENT_CACHE_CAPACITY in *; lia].
    destruct Hid. apply list_elem_of_lookup.
    exists (i - (length ids - Z.to_nat PUBLISHED_EVENT_CACHE_CAPACITY)).
    unfold recent. rewrite lookup_drop. by rewrite Nat.add_sub_assoc, Nat.add_comm, Nat.add_sub.
Qed.

Section hub_facts.
Context `{UJ : UiEventJson}.

Record hub_ok (hub : UiStreamHub) : Prop := {
  ho_cache : cache_of (sent_ids hub) (hub_published hub);
  ho_spaced : spaced (sent_ids hub);
  ho_filtered kind sent : hub_filtered hub !! kind = Some sent →
    ∃ n, n <= length (hub_all hub) ∧ sent = of_kind kind (drop n (hub_all hub));
}.

Lemma new_hub_ok : hub_ok new_hub.
Proof. split; [split; [done|done|constructor]|by intros i j id ?|done]. Qed.

Lemma subscribe_ok kind hub : hub_ok hub → hub_ok (subscribe kind hub).2.
Proof.
  intros [Hc Hs Hf]. destruct kind as [kind|]; [|done]. cbn. split; [done|done|].
  intros k sent Hk. cbn in Hk. destruct (decide (kind = k)) as [<-|Hne].
  - rewrite lookup_insert_eq in Hk. injection Hk as <-.
    destruct (hub_filtered hub !! kind) as [sent|] eqn:E; [eauto|]. cbn.
    exists (length (hub_all hub)). split; [done|]. by rewrite drop_ge.
  - rewrite lookup_insert_ne in Hk by done. eauto.
Qed.

(** The hub after an event has been sent. *)
Definition after_send (se : UiStreamEvent) (published : PublishedEventCache) (hub : UiStreamHub) :
    UiStreamHub := {|
  hub_all := hub_all hub ++ [se];
  hub_filtered := alter (fun sent => sent ++ [se]) (ue_data_kind (se_event se)) (hub_filtered hub);
  hub_published := published |}.

Lemma filtered_after_send se published hub kind sent :
  hub_ok hub → hub_filtered (after_send se published hub) !! kind = Some sent →
  ∃ n, n <= length (hub_all (after_send se published hub)) ∧
    sent = of_kind kind (drop n (hub_all (after_send se published hub))).
Proof.
  intros Hok Hk. cbn in *. rewrite length_app.
  destruct (decide (ue_data_kind (se_event se) = kind)) as [Heq|Hne].
  - rewrite Heq in Hk. rewrite lookup_alter_eq in Hk.
    apply fmap_Some in Hk as (sent' & Hk & ->).
    apply (ho_filtered _ Hok) in Hk as (n & Hn & ->). exists n. split; [lia|].
    rewrite drop_app_le by done. unfold of_kind. rewrite filter_app.
    by rewrite filter_cons_True.
  - rewrite lookup_alter_ne in Hk by done.
    apply (ho_filtered _ Hok) in Hk as (n & Hn & ->). exists n. split; [lia|].
    rewrite drop_app_le by done. unfold of_kind. rewrite filter_app.
    by rewrite filter_cons_False, app_nil_r.
Qed.

(** What publishing does, in terms of what was sent before. *)
Lemma hub_publish_cases event hub :
  hub_ok hub →
  hub_ok (hub_publish event hub) ∧
  match from_event event with
  | None => hub_publish event hub = hub
  | Some se =>
      if (ue_cursor event =? 0)%Z || bool_decide (ue_event_id event ∉ recent (sent_ids hub))
      then ∃ published, hub_publish event hub = after_send se published hub
      else hub_all (hub_publish event hub) = hub_all hub ∧
           hub_filtered (hub_publish event hub) = hub_filtered hub
  end.
Proof.
  intros Hok. unfold hub_publish, from_event.
  destruct (ui_event_to_string event) as [payload|]; [|done]. cbn [mbind option_bind].
  destruct (Z.eqb_spec (ue_cursor event) 0) as [H0|H0]; cbn [orb].
  { split; [|by eexists]. apply Z.eqb_eq in H0. split.
    - unfold sent_ids. cbn. rewrite omap_app. cbn. rewrite H0, app_nil_r. apply Hok.
    - unfold sent_ids. cbn. rewrite omap_app. cbn. rewrite H0, app_nil_r. apply Hok.
    - intros. by eapply (filtered_after_send _ (hub_published hub)). }
  apply Z.eqb_neq in H0.
  pose proof (remember_spec _ (ue_event_id event) _ (ho_cache _ Hok)) as [Hb Hc].
  destruct (remember _ _) as [b published]. cbn in Hb, Hc. rewrite <- Hb.
  destruct b; (split; [|by eexists]).
  - symmetry in Hb. apply bool_decide_eq_true in Hb.
    assert (sent_ids (after_send {| se_event := event; se_payload := payload |} published hub)
      = sent_ids hub ++ [ue_event_id event]) as Hs
      by (unfold sent_ids; cbn; rewrite omap_app; cbn; by rewrite H0).
    change (hub_ok (after_send {| se_event := event; se_payload := payload |} published hub)).
    split.
    + by rewrite Hs.
    + rewrite Hs. apply spaced_snoc; [apply Hok|done].
    + intros. by eapply (filtered_after_send _ published).
  - split; [done|apply Hok|apply Hok].
Qed.

Lemma run_hub_ok ops : hub_ok (run_hub ops).
Proof.
  unfold run_hub. generalize new_hub_ok. generalize new_hub.
  induction ops as [|op ops IH]; intros hub Hok; [done|]. apply IH. destruct op; cbn [hub_step].
  - by apply subscribe_ok.
  - by apply hub_publish_cases.
Qed.

(** The live stream delivers every event and does not repeat itself.  After any
    sequence of subscriptions and publications, a persisted event is sent again only
    after more than 8192 other persisted events; every channel of a data kind carries
    exactly the events of that kind, in order, since the channel was created; and
    publishing an event that is ephemeral, or whose id is not among the last 8192,
    sends it on the unfiltered channel and on the channel of its kind. *)
Theorem hub_stream_exact ops :
  spaced (sent_ids (run_hub ops)) ∧
  (∀ kind sent, hub_filtered (run_hub ops) !! kind = Some sent →
     ∃ n, n <= length (hub_all (run_hub ops)) ∧
       sent = of_kind kind (drop n (hub_all (run_hub ops)))) ∧
  (∀ event se, from_event event = Some se →
     ue_cursor event = 0%Z ∨ ue_event_id event ∉ recent (sent_ids (run_hub ops)) →
     hub_all (hub_publish event (run_hub ops)) = hub_all (run_hub ops) ++ [se] ∧
     ∀ sent, hub_filtered (run_hub ops) !! ue_data_kind event = Some sent →
       hub_filtered (hub_publish event (run_hub ops)) !! ue_data_kind event = Some (sent ++ [se])).
Proof.
  pose proof (run_hub_ok ops) as Hok. generalize dependent (run_hub ops). intros hub Hok.
  split_and!; [apply Hok|apply Hok|]. intros event se Hse Hnew.
  destruct (hub_publish_cases event hub Hok) as [_ H]. rewrite Hse in H.
  replace (_ || _) with true in H.
  - destruct H as (published & ->). cbn. split; [done|]. intros sent Hsent.
    apply bind_Some in Hse as (payload & _ & [= <-]).
    cbn. rewrite lookup_alter_eq. by setoid_rewrite Hsent.
  - symmetry. apply orb_true_iff. by destruct Hnew as [H0|Hid];
      [left; apply Z.eqb_eq|right; apply bool_decide_eq_true].
Qed.
End hub_facts.
