(* ===== verification/GwDb.v ===== *)
(** * The gateway's database

    Models [crates/gateway/src/db.rs]: the tables as finite maps (the event log as a
    list in insertion order) and every statement of the file on node sources,
    snapshots, projections, user-interface events, the outbox of announcements, the
    audit log and the gateway registry.  A computation runs over a [GwWorld] with the
    committed database, the view of the open transaction, the sequences that number
    events and outbox rows, the event hub and the messages published on the bus.
    [GwHost] stands for the clocks, the random identifiers, the outcome of each
    statement and PostgreSQL's conversion of numbers to timestamps, so that a theorem
    about all hosts is a theorem about every clock and every pattern of failures. *)

From stdpp Require Import sorting.
From S2P Require Import Prelude Str GwValue Contracts GwModels UiHub.

Class GwHost := {
  (** [now()] in microseconds. *)
  gw_clock : nat -> Z;
  (** The error of the statement, if it fails. *)
  gw_fault : nat -> option string;
  (** [Utc::now()] in microseconds. *)
  gw_utc : nat -> Z;
  (** [Uuid::new_v4()] *)
  gw_uuid : nat -> string;
  (** [to_timestamp], on a number of microseconds: fails outside of the range of
      timestamps. *)
  to_timestamp : Z -> result string Z;
}.

(** ** Tables *)

Section tables.
Context `{SV : SerdeValue}.

Record P2pOutboxRow := {
  ob_id : Z;
  ob_dedupe_key : string;
  ob_command_kind : string;
  ob_payload : Value;
  ob_attempts : Z;
  ob_claimed_until : option Z;
  ob_created_at : Z;
}.

Record IngestAuditRow := {
  ia_record_kind : string;
  ia_data_kind : option string;
  ia_identity_key : option string;
  ia_source_id : option string;
  ia_source_node_id : option string;
  ia_generated_at : option Z;
  ia_ingest_path : string;
  ia_payload : Value;
  ia_provenance : Value;
  ia_created_at : Z;
}.

Record SpacePresenceRow := {
  sw_seq : Z;
  sw_source_node_id : string;
  sw_source_id : option string;
  sw_payload : SignedSpacePresence;
}.

Record SpaceEventRow := {
  sv_space_id : string;
  sv_place_id : string;
  sv_source_node_id : string;
  sv_source_id : option string;
  sv_payload : Value;
}.

Record NodePresenceRow := {
  nr_last_heartbeat_ms : Z;
  nr_source_id : option string;
  nr_payload : NodePresence;
}.

Record GwDb := {
  gd_sources : gmap string NodeSourceRow;
  gd_snapshots : gmap string SnapshotRow;
  gd_projections : gmap (string * string * string) ProjectionRow;
  gd_ui_events : list UiEventRow;
  gd_outbox : gmap Z P2pOutboxRow;
  gd_audit : list IngestAuditRow;
  gd_registry : gmap string GatewayRegistryEntry;
  gd_space_presence : gmap (string * string * string) SpacePresenceRow;
  gd_space_events : gmap (string * string) SpaceEventRow;
  gd_node_presence : gmap (string * string) NodePresenceRow;
}.

Definition on_sources (f : gmap string NodeSourceRow -> gmap string NodeSourceRow) (d : GwDb) : GwDb := {|
  gd_sources := f (gd_sources d); gd_snapshots := gd_snapshots d;
  gd_projections := gd_projections d; gd_ui_events := gd_ui_events d; gd_outbox := gd_outbox d;
  gd_audit := gd_audit d; gd_registry := gd_registry d;
  gd_space_presence := gd_space_presence d; gd_space_events := gd_space_events d;
  gd_node_presence := gd_node_presence d |}.

Definition on_snapshots (f : gmap string SnapshotRow -> gmap string SnapshotRow) (d : GwDb) : GwDb := {|
  gd_sources := gd_sources d; gd_snapshots := f (gd_snapshots d);
  gd_projections := gd_projections d; gd_ui_events := gd_ui_events d; gd_outbox := gd_outbox d;
  gd_audit := gd_audit d; gd_registry := gd_registry d;
  gd_space_presence := gd_space_presence d; gd_space_events := gd_space_events d;
  gd_node_presence := gd_node_presence d |}.

Definition on_projections (f : gmap (string * string * string) ProjectionRow -> gmap (string * string * string) ProjectionRow) (d : GwDb) : GwDb := {|
  gd_sources := gd_sources d; gd_snapshots := gd_snapshots d;
  gd_projections := f (gd_projections d); gd_ui_events := gd_ui_events d;
  gd_outbox := gd_outbox d; gd_audit := gd_audit d; gd_registry := gd_registry d;
  gd_space_presence := gd_space_presence d; gd_space_events := gd_space_events d;
  gd_node_presence := gd_node_presence d |}.

Definition on_ui_events (f : list UiEventRow -> list UiEventRow) (d : GwDb) : GwDb := {|
  gd_sources := gd_sources d; gd_snapshots := gd_snapshots d;
  gd_projections := gd_projections d; gd_ui_events := f (gd_ui_events d);
  gd_outbox := gd_outbox d; gd_audit := gd_audit d; gd_registry := gd_registry d;
  gd_space_presence := gd_space_presence d; gd_space_events := gd_space_events d;
  gd_node_presence := gd_node_presence d |}.

Definition on_outbox (f : gmap Z P2pOutboxRow -> gmap Z P2pOutboxRow) (d : GwDb) : GwDb := {|
  gd_sources := gd_sources d; gd_snapshots := gd_snapshots d;
  gd_projections := gd_projections d; gd_ui_events := gd_ui_events d;
  gd_outbox := f (gd_outbox d); gd_audit := gd_audit d; gd_registry := gd_registry d;
  gd_space_presence := gd_space_presence d; gd_space_events := gd_space_events d;
  gd_node_presence := gd_node_presence d |}.

Definition on_audit (f : list IngestAuditRow -> list IngestAuditRow) (d : GwDb) : GwDb := {|
  gd_sources := gd_sources d; gd_snapshots := gd_snapshots d;
  gd_projections := gd_projections d; gd_ui_events := gd_ui_events d; gd_outbox := gd_outbox d;
  gd_audit := f (gd_audit d); gd_registry := gd_registry d;
  gd_space_presence := gd_space_presence d; gd_space_events := gd_space_events d;
  gd_node_presence := gd_node_presence d |}.

Definition on_registry (f : gmap string GatewayRegistryEntry -> gmap string GatewayRegistryEntry) (d : GwDb) : GwDb := {|
  gd_sources := gd_sources d; gd_snapshots := gd_snapshots d;
  gd_projections := gd_projections d; gd_ui_events := gd_ui_events d; gd_outbox := gd_outbox d;
  gd_audit := gd_audit d; gd_registry := f (gd_registry d);
  gd_space_presence := gd_space_presence d; gd_space_events := gd_space_events d;
  gd_node_presence := gd_node_presence d |}.

Definition on_space_presence (f : gmap (string * string * string) SpacePresenceRow -> gmap (string * string * string) SpacePresenceRow) (d : GwDb) : GwDb := {|
  gd_sources := gd_sources d; gd_snapshots := gd_snapshots d;
  gd_projections := gd_projections d; gd_ui_events := gd_ui_events d; gd_outbox := gd_outbox d;
  gd_audit := gd_audit d; gd_registry := gd_registry d;
  gd_space_presence := f (gd_space_presence d); gd_space_events := gd_space_events d;
  gd_node_presence := gd_node_presence d |}.

Definition on_space_events (f : gmap (string * string) SpaceEventRow -> gmap (string * string) SpaceEventRow) (d : GwDb) : GwDb := {|
  gd_sources := gd_sources d; gd_snapshots := gd_snapshots d;
  gd_projections := gd_projections d; gd_ui_events := gd_ui_events d; gd_outbox := gd_outbox d;
  gd_audit := gd_audit d; gd_registry := gd_registry d;
  gd_space_presence := gd_space_presence d; gd_space_events := f (gd_space_events d);
  gd_node_presence := gd_node_presence d |}.

Definition on_node_presence (f : gmap (string * string) NodePresenceRow -> gmap (string * string) NodePresenceRow) (d : GwDb) : GwDb := {|
  gd_sources := gd_sources d; gd_snapshots := gd_snapshots d;
  gd_projections := gd_projections d; gd_ui_events := gd_ui_events d; gd_outbox := gd_outbox d;
  gd_audit := gd_audit d; gd_registry := gd_registry d;
  gd_space_presence := gd_space_presence d; gd_space_events := gd_space_events d;
  gd_node_presence := f (gd_node_presence d) |}.


End tables.

(** ** Statements *)

Section statements.
Context `{UJ : UiEventJson, GH : GwHost}.

Record GwWorld := {
  g_db : GwDb;
  g_tx : GwDb;
  g_cursor_seq : Z;
  g_outbox_seq : Z;
  g_hub : UiStreamHub;
  g_bus : list (string * Value);
  (** The snapshots handed to the artifact store, and the number of wake-ups sent to the
      announcement task. *)
  g_artifacts : list SignedPublicClientSnapshot;
  g_wakeups : nat;
  g_tick : nat;
}.

Definition G (A : Type) : Type := M GwWorld string A.

Definition set_gdb (d : GwDb) (w : GwWorld) : GwWorld :=
  {| g_db := d; g_tx := g_tx w; g_cursor_seq := g_cursor_seq w; g_outbox_seq := g_outbox_seq w;
     g_hub := g_hub w; g_bus := g_bus w; g_artifacts := g_artifacts w;
     g_wakeups := g_wakeups w; g_tick := g_tick w |}.

Definition set_gtx (d : GwDb) (w : GwWorld) : GwWorld :=
  {| g_db := g_db w; g_tx := d; g_cursor_seq := g_cursor_seq w; g_outbox_seq := g_outbox_seq w;
     g_hub := g_hub w; g_bus := g_bus w; g_artifacts := g_artifacts w;
     g_wakeups := g_wakeups w; g_tick := g_tick w |}.

Definition set_hub (h : UiStreamHub) (w : GwWorld) : GwWorld :=
  {| g_db := g_db w; g_tx := g_tx w; g_cursor_seq := g_cursor_seq w;
     g_outbox_seq := g_outbox_seq w; g_hub := h; g_bus := g_bus w;
     g_artifacts := g_artifacts w; g_wakeups := g_wakeups w; g_tick := g_tick w |}.

Definition set_bus (b : list (string * Value)) (w : GwWorld) : GwWorld :=
  {| g_db := g_db w; g_tx := g_tx w; g_cursor_seq := g_cursor_seq w;
     g_outbox_seq := g_outbox_seq w; g_hub := g_hub w; g_bus := b;
     g_artifacts := g_artifacts w; g_wakeups := g_wakeups w; g_tick := g_tick w |}.

Definition set_artifacts (a : list SignedPublicClientSnapshot) (w : GwWorld) : GwWorld :=
  {| g_db := g_db w; g_tx := g_tx w; g_cursor_seq := g_cursor_seq w;
     g_outbox_seq := g_outbox_seq w; g_hub := g_hub w; g_bus := g_bus w; g_artifacts := a;
     g_wakeups := g_wakeups w; g_tick := g_tick w |}.

Definition set_wakeups (n : nat) (w : GwWorld) : GwWorld :=
  {| g_db := g_db w; g_tx := g_tx w; g_cursor_seq := g_cursor_seq w;
     g_outbox_seq := g_outbox_seq w; g_hub := g_hub w; g_bus := g_bus w;
     g_artifacts := g_artifacts w; g_wakeups := n; g_tick := g_tick w |}.

Definition set_cursor_seq (n : Z) (w : GwWorld) : GwWorld :=
  {| g_db := g_db w; g_tx := g_tx w; g_cursor_seq := n; g_outbox_seq := g_outbox_seq w;
     g_hub := g_hub w; g_bus := g_bus w; g_artifacts := g_artifacts w;
     g_wakeups := g_wakeups w; g_tick := g_tick w |}.

Definition set_outbox_seq (n : Z) (w : GwWorld) : GwWorld :=
  {| g_db := g_db w; g_tx := g_tx w; g_cursor_seq := g_cursor_seq w; g_outbox_seq := n;
     g_hub := g_hub w; g_bus := g_bus w; g_artifacts := g_artifacts w;
     g_wakeups := g_wakeups w; g_tick := g_tick w |}.

Definition set_tick (n : nat) (w : GwWorld) : GwWorld :=
  {| g_db := g_db w; g_tx := g_tx w; g_cursor_seq := g_cursor_seq w;
     g_outbox_seq := g_outbox_seq w; g_hub := g_hub w; g_bus := g_bus w;
     g_artifacts := g_artifacts w; g_wakeups := g_wakeups w; g_tick := n |}.

Definition gtick : G nat := fun w => (Ok (g_tick w), set_tick (S (g_tick w)) w).

(** One statement: it fails, or runs at the time it returns. *)
Definition gstatement : G Z :=
  t ← gtick;
  match gw_fault t with Some error => throw error | None => mret (gw_clock t) end.

Definition gutc : G Z := t ← gtick; mret (gw_utc t).
Definition gnew_v4 : G string := t ← gtick; mret (gw_uuid t).

(** [nextval]: a sequence is not part of the transaction, a number that was drawn is
    not drawn again. *)
Definition next_cursor : G Z := fun w =>
  (Ok (g_cursor_seq w), set_cursor_seq (g_cursor_seq w + 1) w).

Definition next_outbox_id : G Z := fun w =>
  (Ok (g_outbox_seq w), set_outbox_seq (g_outbox_seq w + 1) w).

(** Statements on the pool: each is its own transaction, and leaves the view of a
    transaction at the committed database. *)
Definition gquery {A} (f : Z -> GwDb -> A) : G A :=
  now ← gstatement;
  gets (fun w => f now (g_db w)).

Definition gexecute {A} (f : Z -> GwDb -> result string (A * GwDb)) : G A :=
  now ← gstatement;
  d ← gets g_db;
  '(a, d') ← lift (f now d);
  _ ← modify (fun w => set_gtx d' (set_gdb d' w));
  mret a.

(** Statements of the open transaction, all at the time it began. *)
Definition gtx_execute {A} (f : GwDb -> result string (A * GwDb)) : G A :=
  _ ← gstatement;
  d ← gets g_tx;
  '(a, d') ← lift (f d);
  _ ← modify (set_gtx d');
  mret a.

Definition gbegin : G Z :=
  now ← gstatement;
  d ← gets g_db;
  _ ← modify (set_gtx d);
  mret now.

(** [COMMIT]: it fails and has no effect, or takes place; a lost acknowledgement is not
    modelled. *)
Definition gcommit : G () :=
  _ ← gstatement;
  d ← gets g_tx;
  modify (set_gdb d).

Definition grollback : G () := _ ← gstatement; mret ().
End statements.

(** ** Records passed to the statements *)

Section db_records.
Context `{SV : SerdeValue}.

Record UpsertSnapshotRecord := {
  us_source_id : option string;
  us_node_id : string;
  us_signer_agent_did : string;
  us_public_key : string;
  us_generated_at : Z;
  us_payload : Value;
  us_signature : string;
}.

Record SnapshotP2pAnnouncement := {
  sp_node_id : string;
  sp_signer_agent_did : string;
  sp_generated_at : Z;
}.

Record UpsertProjectionRecord := {
  up_data_kind : string;
  up_identity_key : string;
  up_source_node_id : string;
  up_source_id : option string;
  up_generated_at : Z;
  up_visibility : string;
  up_payload : Value;
  up_provenance : Value;
}.

Record InsertUiEventRecord := {
  iu_event_id : string;
  iu_source_id : option string;
  iu_node_id : string;
  iu_signer_agent_did : string;
  iu_data_kind : string;
  iu_event_kind : string;
  iu_visibility : string;
  iu_provisional : bool;
  iu_topic_id : option string;
  iu_organization_id : option string;
  iu_task_id : option string;
  iu_generated_at : Z;
  iu_payload : Value;
  iu_ingest_path : string;
  iu_source_cursor_or_seq : option Z;
}.

Record ListUiEventsQuery := {
  lq_cursor : Z;
  lq_data_kind : option string;
  lq_node_id : option string;
  lq_topic_id : option string;
  lq_organization_id : option string;
  lq_task_id : option string;
  lq_limit : Z;
}.

Record InsertAuditRecord := {
  ir_record_kind : string;
  ir_data_kind : option string;
  ir_identity_key : option string;
  ir_source_id : option string;
  ir_source_node_id : option string;
  ir_generated_at : option Z;
  ir_ingest_path : string;
  ir_payload : Value;
  ir_provenance : Value;
}.

Record InsertP2pOutboxRecord := {
  io_dedupe_key : string;
  io_command_kind : string;
  io_payload : Value;
}.

Record GatewayHealthCounts := {
  hc_source_count : Z;
  hc_active_source_count : Z;
  hc_snapshot_count : Z;
  hc_projection_count : Z;
  hc_ui_event_count : Z;
  hc_backfill_event_count : Z;
}.
End db_records.

Definition P2P_OUTBOX_COMMAND_SNAPSHOT : string := "snapshot_announce_v1".
Definition P2P_OUTBOX_COMMAND_EVENT : string := "event_v1".
Definition P2P_OUTBOX_MAX_ATTEMPTS : Z := 10.

Definition seconds (n : Z) : Z := (n * 1000000)%Z.

(** [format!] of an [i64]. *)
Definition show_i64 (n : Z) : string := if (n <? 0)%Z then "-" +:+ show_u64 (- n) else show_u64 n.

(** The column value of [generated_at]: numbers of at least 10^11 are milliseconds,
    smaller ones are seconds. *)
Definition generated_at_column `{GwHost} (generated_at : Z) : result string Z :=
  to_timestamp (if (100000000000 <=? Z.abs generated_at)%Z
                then generated_at * 1000 else generated_at * 1000000)%Z.

(** [coalesce(excluded.x, t.x)] *)
Definition coalesce {A} (a b : option A) : option A :=
  match a with Some _ => a | None => b end.

(** [$n::text is null or column = $n] *)
Definition unset_or (filter : option string) (column : string) : bool :=
  match filter with None => true | Some f => bool_decide (column = f) end.

(** The same on a nullable column. *)
Definition unset_or_opt (filter : option string) (column : option string) : bool :=
  match filter with None => true | Some f => bool_decide (column = Some f) end.

(** [ORDER BY key ASC] *)
Definition le_by {A} (key : A -> Z) (a b : A) : Prop := (key a <= key b)%Z.
Global Instance le_by_dec {A} (key : A -> Z) : RelDecision (le_by key).
Proof. intros a b. unfold le_by. apply _. Defined.
Definition order_by {A} (key : A -> Z) (l : list A) : list A := merge_sort (le_by key) l.

(** [LIMIT n] *)
Definition limit_rows {A} (n : Z) (l : list A) : list A := take (Z.to_nat n) l.

Section sources.
Context `{UJ : UiEventJson, GH : GwHost}.

Definition source_active (d : GwDb) (source_id : string) : bool :=
  match gd_sources d !! source_id with
  | Some row => bool_decide (so_source_status row = "active")
  | None => false
  end.

(** [source_id is null or exists (select 1 from node_sources ..)] *)
Definition visible (d : GwDb) (source_id : option string) : bool :=
  match source_id with None => true | Some id => source_active d id end.

(** [insert into node_sources ..]: the id is the primary key, the export URL is unique. *)
Definition insert_node_source (row : Z -> NodeSourceRow) : G () :=
  gexecute (fun now d =>
    let row := row now in
    if bool_decide (is_Some (gd_sources d !! so_id row)) ||
       existsb (fun other => bool_decide (so_export_url other = so_export_url row))
         (map_to_list (gd_sources d)).*2
    then Err "duplicate key value violates unique constraint"
    else Ok ((), on_sources <[so_id row := row]> d)).

Definition list_node_sources : G (list NodeSourceRow) :=
  gquery (fun _ d => order_by so_created_at (map_to_list (gd_sources d)).*2).

Definition get_node_source (source_id : string) : G (option NodeSourceRow) :=
  gquery (fun _ d => gd_sources d !! source_id).

(** The rank of a source in [find_node_source_for_identity]: a match of the signer
    before a match of the node. *)
Definition identity_rank (signer_agent_did : string) (row : NodeSourceRow) : Z :=
  if bool_decide (so_expected_signer_agent_did row = Some signer_agent_did) then 0 else 1.

Definition identity_le (signer_agent_did : string) (a b : NodeSourceRow) : Prop :=
  (identity_rank signer_agent_did a < identity_rank signer_agent_did b)%Z ∨
  (identity_rank signer_agent_did a = identity_rank signer_agent_did b ∧
   (so_created_at a <= so_created_at b)%Z).
Global Instance identity_le_dec signer : RelDecision (identity_le signer).
Proof. intros a b. unfold identity_le. apply _. Defined.

Definition matches_identity (node_id signer_agent_did : string) (row : NodeSourceRow) : bool :=
  bool_decide (so_expected_signer_agent_did row = Some signer_agent_did) ||
  bool_decide (so_expected_wattswarm_node_id row = Some node_id).

Definition source_for_identity (d : GwDb) (node_id signer_agent_did : string) :
    option NodeSourceRow :=
  head (take 2 (merge_sort (identity_le signer_agent_did)
    (filter (fun row => matches_identity node_id signer_agent_did row = true)
      (map_to_list (gd_sources d)).*2))).

Definition find_node_source_for_identity (node_id signer_agent_did : string) :
    G (option NodeSourceRow) :=
  gquery (fun _ d => source_for_identity d node_id signer_agent_did).

Definition set_sync_status (now : Z) (status : string) (error : option string)
    (row : NodeSourceRow) : NodeSourceRow := {|
  so_id := so_id row; so_name := so_name row; so_export_url := so_export_url row;
  so_wattetheria_snapshot_export_url := so_wattetheria_snapshot_export_url row;
  so_wattetheria_events_export_url := so_wattetheria_events_export_url row;
  so_wattswarm_ui_base_url := so_wattswarm_ui_base_url row;
  so_wattswarm_sync_grpc_endpoint := so_wattswarm_sync_grpc_endpoint row;
  so_region := so_region row;
  so_expected_signer_agent_did := so_expected_signer_agent_did row;
  so_expected_wattswarm_node_id := so_expected_wattswarm_node_id row;
  so_source_status := so_source_status row; so_created_at := so_created_at row;
  so_updated_at := now; so_last_sync_at := Some now; so_last_sync_status := Some status;
  so_last_error := error; so_transport_capabilities := so_transport_capabilities row;
  so_transport_contact_material := so_transport_contact_material row |}.

Definition update_source_sync_status (source_id status : string) (error : option string) : G () :=
  gexecute (fun now d => Ok ((), on_sources (alter (set_sync_status now status error) source_id) d)).
End sources.

(** ** Outbox of announcements *)

Section outbox.
Context `{UJ : UiEventJson, GH : GwHost}.

Definition outbox_has (dedupe_key : string) (outbox : gmap Z P2pOutboxRow) : bool :=
  existsb (fun row => bool_decide (ob_dedupe_key row = dedupe_key)) (map_to_list outbox).*2.

(** [insert into gateway_p2p_outbox .. on conflict (dedupe_key) do nothing] *)
Definition insert_outbox (now id : Z) (record : InsertP2pOutboxRecord) (d : GwDb) : GwDb :=
  if outbox_has (io_dedupe_key record) (gd_outbox d) then d
  else on_outbox <[id := {|
    ob_id := id; ob_dedupe_key := io_dedupe_key record;
    ob_command_kind := io_command_kind record; ob_payload := io_payload record;
    ob_attempts := 0; ob_claimed_until := None; ob_created_at := now |}]> d.

Definition tx_insert_outbox (now : Z) (record : InsertP2pOutboxRecord) : G () :=
  id ← next_outbox_id;
  gtx_execute (fun d => Ok ((), insert_outbox now id record d)).

Definition claimable (now : Z) (row : P2pOutboxRow) : bool :=
  match ob_claimed_until row with None => true | Some until => (until <? now)%Z end.

Definition set_claim (claimed_until attempts : Z) (row : P2pOutboxRow) : P2pOutboxRow := {|
  ob_id := ob_id row; ob_dedupe_key := ob_dedupe_key row;
  ob_command_kind := ob_command_kind row; ob_payload := ob_payload row;
  ob_attempts := attempts; ob_claimed_until := Some claimed_until;
  ob_created_at := ob_created_at row |}.

Definition claim_row (now : Z) (row : P2pOutboxRow) : P2pOutboxRow :=
  set_claim (now + seconds 30) (ob_attempts row + 1) row.

(** [with candidates as (..) update .. returning ..] *)
Definition claim_rows (now limit : Z) (outbox : gmap Z P2pOutboxRow) :
    list P2pOutboxRow * gmap Z P2pOutboxRow :=
  let candidates := limit_rows (Z.max limit 1)
    (order_by ob_id (filter (fun row => claimable now row = true) (map_to_list outbox).*2)) in
  let claimed := claim_row now <$> candidates in
  (claimed, foldl (fun m row => <[ob_id row := row]> m) outbox claimed).

Definition claim_p2p_outbox (limit : Z) : G (list P2pOutboxRow) :=
  now ← gbegin;
  rows ← gtx_execute (fun d =>
    let '(rows, outbox) := claim_rows now limit (gd_outbox d) in
    Ok (rows, on_outbox (fun _ => outbox) d));
  _ ← gcommit;
  mret rows.

Definition ack_p2p_outbox (id : Z) : G () :=
  gexecute (fun _ d => Ok ((), on_outbox (delete id) d)).

Definition exhausted (row : P2pOutboxRow) : bool :=
  (P2P_OUTBOX_MAX_ATTEMPTS <=? ob_attempts row)%Z.

Definition release_p2p_outbox (id : Z) : G bool :=
  deleted ← gexecute (fun _ d =>
    match gd_outbox d !! id with
    | Some row => if exhausted row then Ok (true, on_outbox (delete id) d) else Ok (false, d)
    | None => Ok (false, d)
    end);
  if (deleted : bool) then mret true
  else
    _ ← gexecute (fun now d =>
          Ok ((), on_outbox (alter (fun row => set_claim (now + seconds 5) (ob_attempts row) row) id) d));
    mret false.
End outbox.

(** ** Snapshots *)

Section snapshots.
Context `{UJ : UiEventJson, GH : GwHost}.

(** [insert into node_snapshots .. on conflict (node_id) do update .. where
    excluded.generated_at >= node_snapshots.generated_at], and whether a row was
    written. *)
Definition upsert_snapshot_row (now : Z) (record : UpsertSnapshotRecord) (d : GwDb) :
    result string (bool * GwDb) :=
  generated_at ← generated_at_column (us_generated_at record);
  let row source_id := {|
    sr_source_id := source_id; sr_node_id := us_node_id record;
    sr_signer_agent_did := us_signer_agent_did record; sr_public_key := us_public_key record;
    sr_generated_at := generated_at; sr_ingested_at := now; sr_payload := us_payload record;
    sr_signature := us_signature record |} in
  match gd_snapshots d !! us_node_id record with
  | None => Ok (true, on_snapshots <[us_node_id record := row (us_source_id record)]> d)
  | Some old =>
      if (sr_generated_at old <=? generated_at)%Z
      then Ok (true, on_snapshots
             <[us_node_id record := row (coalesce (us_source_id record) (sr_source_id old))]> d)
      else Ok (false, d)
  end.

Definition snapshot_outbox_record (announcement : SnapshotP2pAnnouncement) :
    InsertP2pOutboxRecord := {|
  io_dedupe_key := "snapshot:" +:+ sp_node_id announcement +:+ ":" +:+
    show_i64 (sp_generated_at announcement);
  io_command_kind := P2P_OUTBOX_COMMAND_SNAPSHOT;
  io_payload := json_object [
    ("node_id", VString (sp_node_id announcement));
    ("signer_agent_did", VString (sp_signer_agent_did announcement));
    ("generated_at", VNumber (sp_generated_at announcement))] |}.

Definition upsert_snapshot_inner (record : UpsertSnapshotRecord)
    (announcement : option SnapshotP2pAnnouncement) : G bool :=
  now ← gbegin;
  applied ← gtx_execute (upsert_snapshot_row now record);
  _ ← match announcement with
      | Some announcement =>
          whenM applied (tx_insert_outbox now (snapshot_outbox_record announcement))
      | None => mret ()
      end;
  _ ← gcommit;
  mret applied.

Definition upsert_snapshot (record : UpsertSnapshotRecord) : G bool :=
  upsert_snapshot_inner record None.

Definition upsert_snapshot_with_p2p_outbox (record : UpsertSnapshotRecord)
    (announcement : SnapshotP2pAnnouncement) : G bool :=
  upsert_snapshot_inner record (Some announcement).

(** [order by ingested_at desc] *)
Definition list_snapshots : G (list SnapshotRow) :=
  gquery (fun _ d => order_by (fun row => - sr_ingested_at row)%Z (map_to_list (gd_snapshots d)).*2).

Definition get_snapshot_by_node_id (node_id : string) : G (option SnapshotRow) :=
  gquery (fun _ d => gd_snapshots d !! node_id).

Definition list_visible_snapshots : G (list SnapshotRow) :=
  gquery (fun _ d => order_by (fun row => - sr_ingested_at row)%Z
    (filter (fun row => visible d (sr_source_id row) = true) (map_to_list (gd_snapshots d)).*2)).
End snapshots.

(** ** Projections *)

Section projections.
Context `{UJ : UiEventJson, GH : GwHost}.

Definition projection_key (record : UpsertProjectionRecord) : string * string * string :=
  (up_data_kind record, up_identity_key record, up_source_node_id record).

(** [insert into gateway_projection_rows .. on conflict do update .. where
    excluded.generated_at >= gateway_projection_rows.generated_at] *)
Definition upsert_projection (now : Z) (record : UpsertProjectionRecord) (d : GwDb) :
    result string (() * GwDb) :=
  generated_at ← generated_at_column (up_generated_at record);
  let row source_id := {|
    pj_data_kind := up_data_kind record; pj_identity_key := up_identity_key record;
    pj_source_node_id := up_source_node_id record; pj_source_id := source_id;
    pj_generated_at := generated_at; pj_ingested_at := now;
    pj_visibility := up_visibility record; pj_payload := up_payload record;
    pj_provenance := up_provenance record |} in
  match gd_projections d !! projection_key record with
  | None => Ok ((), on_projections <[projection_key record := row (up_source_id record)]> d)
  | Some old =>
      if (pj_generated_at old <=? generated_at)%Z
      then Ok ((), on_projections
             <[projection_key record := row (coalesce (up_source_id record) (pj_source_id old))]> d)
      else Ok ((), d)
  end.

Definition upsert_projection_row (record : UpsertProjectionRecord) : G () :=
  gexecute (fun now d => upsert_projection now record d).
End projections.

(** ** User-interface events *)

Section ui_events.
Context `{UJ : UiEventJson, GH : GwHost}.

Definition row_of_record (now cursor generated_at : Z) (record : InsertUiEventRecord) :
    UiEventRow := {|
  er_cursor := cursor; er_event_id := iu_event_id record; er_source_id := iu_source_id record;
  er_node_id := iu_node_id record; er_signer_agent_did := iu_signer_agent_did record;
  er_data_kind := iu_data_kind record; er_event_kind := iu_event_kind record;
  er_visibility := iu_visibility record; er_provisional := iu_provisional record;
  er_topic_id := iu_topic_id record; er_organization_id := iu_organization_id record;
  er_task_id := iu_task_id record; er_generated_at := generated_at; er_ingested_at := now;
  er_payload := iu_payload record; er_ingest_path := iu_ingest_path record;
  er_source_cursor_or_seq := iu_source_cursor_or_seq record |}.

Definition event_by_id (event_id : string) (rows : list UiEventRow) : option UiEventRow :=
  snd <$> list_find (fun row => er_event_id row = event_id) rows.

(** [insert into gateway_ui_events .. on conflict (event_id) do nothing returning ..] *)
Definition insert_event_row (row : UiEventRow) (d : GwDb) : option UiEventRow * GwDb :=
  match event_by_id (er_event_id row) (gd_ui_events d) with
  | Some _ => (None, d)
  | None => (Some row, on_ui_events (fun rows => rows ++ [row]) d)
  end.

Definition insert_audit_record (record : InsertAuditRecord) : G () :=
  gexecute (fun now d =>
    generated_at ← match ir_generated_at record with
                   | None => Ok None
                   | Some g => Some <$> generated_at_column g
                   end;
    Ok ((), on_audit (fun rows => rows ++ [{|
      ia_record_kind := ir_record_kind record; ia_data_kind := ir_data_kind record;
      ia_identity_key := ir_identity_key record; ia_source_id := ir_source_id record;
      ia_source_node_id := ir_source_node_id record; ia_generated_at := generated_at;
      ia_ingest_path := ir_ingest_path record; ia_payload := ir_payload record;
      ia_provenance := ir_provenance record; ia_created_at := now |}]) d)).

Definition ui_audit_record (record : InsertUiEventRecord) : InsertAuditRecord := {|
  ir_record_kind := "ui_event_insert"; ir_data_kind := Some (iu_data_kind record);
  ir_identity_key := Some (iu_event_id record); ir_source_id := iu_source_id record;
  ir_source_node_id := Some (iu_node_id record);
  ir_generated_at := Some (iu_generated_at record); ir_ingest_path := iu_ingest_path record;
  ir_payload := iu_payload record;
  ir_provenance := json_object [
    ("source_cursor_or_seq", json_opt VNumber (iu_source_cursor_or_seq record));
    ("visibility", VString (iu_visibility record));
    ("provisional", VBool (iu_provisional record))] |}.

(** One row with a number of its own. *)
Definition tx_insert_event (row : Z -> Z -> UiEventRow) (timestamp : result string Z) :
    G (option UiEventRow) :=
  cursor ← next_cursor;
  gtx_execute (fun d => generated_at ← timestamp; Ok (insert_event_row (row cursor generated_at) d)).

(** The transaction of [insert_ui_event_inner]. *)
Definition insert_ui_event_tx (record : InsertUiEventRecord)
    (outbox : option InsertP2pOutboxRecord) : G (option UiEventRow) :=
  now ← gbegin;
  row ← tx_insert_event (fun cursor generated_at => row_of_record now cursor generated_at record)
          (generated_at_column (iu_generated_at record));
  _ ← match row, outbox with
      | Some _, Some outbox => tx_insert_outbox now outbox
      | _, _ => mret ()
      end;
  _ ← gcommit;
  mret row.

Definition insert_ui_event_inner (record : InsertUiEventRecord)
    (outbox : option InsertP2pOutboxRecord) : G (option UiEventRow) :=
  row ← insert_ui_event_tx record outbox;
  _ ← whenM (bool_decide (is_Some row)) (insert_audit_record (ui_audit_record record));
  mret row.

Definition insert_ui_event (record : InsertUiEventRecord) : G (option UiEventRow) :=
  insert_ui_event_inner record None.

Definition insert_ui_event_with_p2p_outbox (record : InsertUiEventRecord)
    (outbox : InsertP2pOutboxRecord) : G (option UiEventRow) :=
  insert_ui_event_inner record (Some outbox).

Definition get_ui_event_by_id (event_id : string) : G (option UiEventRow) :=
  gquery (fun _ d => event_by_id event_id (gd_ui_events d)).

(** [max] of the sequence numbers, null without any. *)
Definition max_opt (a b : option Z) : option Z :=
  match a, b with Some a, Some b => Some (Z.max a b) | Some a, None => Some a | None, b => b end.

Definition max_ui_event_source_seq (node_id : string) (source_id : option string) :
    G (option Z) :=
  gquery (fun _ d => foldr (fun row => max_opt (er_source_cursor_or_seq row)) None
    (filter (fun row => er_node_id row = node_id ∧ er_source_id row = source_id)
      (gd_ui_events d))).

Definition selected (d : GwDb) (query : ListUiEventsQuery) (row : UiEventRow) : bool :=
  (lq_cursor query <? er_cursor row)%Z && visible d (er_source_id row) &&
  unset_or (lq_data_kind query) (er_data_kind row) &&
  unset_or (lq_node_id query) (er_node_id row) &&
  unset_or_opt (lq_topic_id query) (er_topic_id row) &&
  unset_or_opt (lq_organization_id query) (er_organization_id row) &&
  unset_or_opt (lq_task_id query) (er_task_id row).

Definition list_ui_events_after (query : ListUiEventsQuery) : G (list UiEventRow) :=
  gquery (fun _ d => limit_rows (Z.max (lq_limit query) 1)
    (order_by er_cursor (filter (fun row => selected d query row = true) (gd_ui_events d)))).

Definition earliest_ui_event_cursor : G (option Z) :=
  gquery (fun _ d => er_cursor <$> head (order_by er_cursor
    (filter (fun row => visible d (er_source_id row) = true) (gd_ui_events d)))).

Definition count_rows {A} (l : list A) : Z := Z.of_nat (length l).

Definition gateway_counts : G GatewayHealthCounts :=
  gquery (fun _ d => {|
    hc_source_count := count_rows (map_to_list (gd_sources d));
    hc_active_source_count := count_rows
      (filter (fun row => so_source_status row = "active") (map_to_list (gd_sources d)).*2);
    hc_snapshot_count := count_rows (map_to_list (gd_snapshots d));
    hc_projection_count := count_rows (map_to_list (gd_projections d));
    hc_ui_event_count := count_rows (gd_ui_events d);
    hc_backfill_event_count := count_rows
      (filter (fun row => ia_record_kind row = "gap_snapshot_refresh_applied") (gd_audit d)) |}).
End ui_events.

(** ** Gateway registry *)

Section registry.
Context `{UJ : UiEventJson, GH : GwHost}.

Definition registry_row (now : Z) (manifest : SignedGatewayManifest)
    (old : option GatewayRegistryEntry) : GatewayRegistryEntry :=
  let payload := sg_payload manifest in {|
    ge_gateway_id := gm_gateway_id payload; ge_display_name := gm_display_name payload;
    ge_base_url := gm_base_url payload; ge_public_key := gm_public_key payload;
    ge_region := gm_region payload; ge_operator_did := gm_operator_did payload;
    ge_roles := gm_roles payload; ge_supported_endpoints := gm_supported_endpoints payload;
    ge_federation_peers := gm_federation_peers payload;
    ge_allows_public_ingest := gm_allows_public_ingest payload; ge_manifest := payload;
    ge_manifest_signature := sg_signature manifest;
    ge_status := from_option ge_status "pending" old;
    ge_discovery_tier := from_option ge_discovery_tier "community" old;
    ge_review_reason := old ≫= ge_review_reason; ge_reviewed_at := old ≫= ge_reviewed_at;
    ge_reviewed_by := old ≫= ge_reviewed_by;
    ge_created_at := from_option ge_created_at now old; ge_updated_at := now |}.

Definition get_gateway_registry_entry (gateway_id : string) : G (option GatewayRegistryEntry) :=
  gquery (fun _ d => gd_registry d !! gateway_id).

(** [insert into gateway_registry_entries .. on conflict (gateway_id) do update ..]; the
    base URL is unique. *)
Definition upsert_gateway_manifest (manifest : SignedGatewayManifest) : G GatewayRegistryEntry :=
  let gateway_id := gm_gateway_id (sg_payload manifest) in
  _ ← gexecute (fun now d =>
    if existsb (fun other => bool_decide (ge_gateway_id other ≠ gateway_id ∧
         ge_base_url other = gm_base_url (sg_payload manifest))) (map_to_list (gd_registry d)).*2
    then Err "duplicate key value violates unique constraint"
    else Ok ((), on_registry
           <[gateway_id := registry_row now manifest (gd_registry d !! gateway_id)]> d));
  entry ← get_gateway_registry_entry gateway_id;
  lift (ok_or entry "registered gateway entry missing after upsert").

Definition set_review (now : Z) (status discovery_tier : string) (reason reviewed_by : option string)
    (row : GatewayRegistryEntry) : GatewayRegistryEntry := {|
  ge_gateway_id := ge_gateway_id row; ge_display_name := ge_display_name row;
  ge_base_url := ge_base_url row; ge_public_key := ge_public_key row;
  ge_region := ge_region row; ge_operator_did := ge_operator_did row; ge_roles := ge_roles row;
  ge_supported_endpoints := ge_supported_endpoints row;
  ge_federation_peers := ge_federation_peers row;
  ge_allows_public_ingest := ge_allows_public_ingest row; ge_manifest := ge_manifest row;
  ge_manifest_signature := ge_manifest_signature row; ge_status := status;
  ge_discovery_tier := discovery_tier; ge_review_reason := reason;
  ge_reviewed_at := Some now; ge_reviewed_by := reviewed_by;
  ge_created_at := ge_created_at row; ge_updated_at := now |}.

Definition review_gateway_manifest (gateway_id status discovery_tier : string)
    (reason reviewed_by : option string) : G (option GatewayRegistryEntry) :=
  _ ← gexecute (fun now d => Ok ((), on_registry
        (alter (set_review now status discovery_tier reason reviewed_by) gateway_id) d));
  get_gateway_registry_entry gateway_id.

Definition status_rank (row : GatewayRegistryEntry) : Z :=
  if bool_decide (ge_status row = "approved") then 0 else 1.

Definition tier_rank (row : GatewayRegistryEntry) : Z :=
  if bool_decide (ge_discovery_tier row = "official") then 0
  else if bool_decide (ge_discovery_tier row = "verified") then 1
  else if bool_decide (ge_discovery_tier row = "community") then 2
  else if bool_decide (ge_discovery_tier row = "manual") then 3
  else 4.

(** [order by status rank, tier rank, updated_at desc] *)
Definition registry_le (a b : GatewayRegistryEntry) : Prop :=
  (status_rank a < status_rank b)%Z ∨
  (status_rank a = status_rank b ∧
   ((tier_rank a < tier_rank b)%Z ∨
    (tier_rank a = tier_rank b ∧ (ge_updated_at b <= ge_updated_at a)%Z))).
Global Instance registry_le_dec : RelDecision registry_le.
Proof. intros a b. unfold registry_le. apply _. Defined.

Definition registry_selected (status tier region role : option string)
    (row : GatewayRegistryEntry) : bool :=
  unset_or status (ge_status row) && unset_or tier (ge_discovery_tier row) &&
  unset_or_opt region (ge_region row) &&
  match role with None => true | Some role => bool_decide (role ∈ ge_roles row) end.

Definition list_gateway_registry_entries (status tier region role : option string) :
    G (list GatewayRegistryEntry) :=
  gquery (fun _ d => merge_sort registry_le
    (filter (fun row => registry_selected status tier region role row = true)
      (map_to_list (gd_registry d)).*2)).
End registry.
