(* ===== verification/GwStore.v ===== *)
(** * Properties of the gateway's database

    Theorems about the statements of [GwDb]: the newest record of a node wins in
    whatever order records arrive, and the outbox hands every announcement out until
    it is acknowledged. *)

From stdpp Require Import sorting.
From S2P Require Import Prelude Str GwValue Contracts GwModels UiHub GwDb.

(** ** Runs of single statements *)

Section runs.
Context `{UJ : UiEventJson, GH : GwHost}.

(** Nothing but the clock, the sequences and the transaction view has moved. *)
Record quiet (w w' : GwWorld) : Prop := {
  qu_db : g_db w' = g_db w;
  qu_hub : g_hub w' = g_hub w;
  qu_bus : g_bus w' = g_bus w;
  qu_artifacts : g_artifacts w' = g_artifacts w;
  qu_wakeups : g_wakeups w' = g_wakeups w;
  qu_cursor : (g_cursor_seq w <= g_cursor_seq w')%Z;
  qu_outbox : (g_outbox_seq w <= g_outbox_seq w')%Z;
}.

(** Only the database, and the sequences, have moved. *)
Record only_db (w w' : GwWorld) : Prop := {
  od_hub : g_hub w' = g_hub w;
  od_bus : g_bus w' = g_bus w;
  od_artifacts : g_artifacts w' = g_artifacts w;
  od_wakeups : g_wakeups w' = g_wakeups w;
  od_cursor : (g_cursor_seq w <= g_cursor_seq w')%Z;
  od_outbox : (g_outbox_seq w <= g_outbox_seq w')%Z;
}.

Global Instance quiet_preorder : PreOrder quiet.
Proof.
  split; [intros w; split; done|]. intros a b c [] []. split; try congruence; lia.
Qed.

Global Instance only_db_preorder : PreOrder only_db.
Proof.
  split; [intros w; split; done|]. intros a b c [] []. split; try congruence; lia.
Qed.

Lemma quiet_only_db w w' : quiet w w' → only_db w w'.
Proof. intros []. by split. Qed.
End runs.

(** [sym_exec H] runs the primitive steps of the computation in [H], with one case
    for each outcome of a statement. *)
Ltac sym_exec H :=
  cbv [gquery gexecute gtx_execute gbegin gcommit grollback gstatement gutc gnew_v4 gtick
       next_cursor next_outbox_id mbind M_bind mret M_ret gets modify lift throw whenM
       tx_insert_outbox tx_insert_event] in H;
  cbn [g_db g_tx g_cursor_seq g_outbox_seq g_hub g_bus g_artifacts g_wakeups g_tick
       set_gdb set_gtx set_hub set_bus set_tick set_cursor_seq set_outbox_seq] in H;
  repeat (case_match; simplify_eq;
    cbn [g_db g_tx g_cursor_seq g_outbox_seq g_hub g_bus g_artifacts g_wakeups g_tick
       set_gdb set_gtx set_hub set_bus set_tick set_cursor_seq set_outbox_seq] in *).

(** [solve_worlds] closes the comparison of two explicit worlds. *)
Ltac solve_worlds := split; cbn; first [done|lia].

Section statement_runs.
Context `{UJ : UiEventJson, GH : GwHost}.

Lemma gexecute_run {A} (f : Z -> GwDb -> result string (A * GwDb)) w r w' :
  gexecute f w = (r, w') →
  (quiet w w' ∧ ∃ e, r = Err e) ∨
  (only_db w w' ∧ ∃ now a, r = Ok a ∧ f now (g_db w) = Ok (a, g_db w')).
Proof.
  intros H. sym_exec H.
  all: first [left; split; [by split|by eexists]|right; split; [by split|eauto]].
Qed.

Lemma gquery_run {A} (f : Z -> GwDb -> A) w r w' :
  gquery f w = (r, w') → quiet w w' ∧ ((∃ e, r = Err e) ∨ ∃ now, r = Ok (f now (g_db w))).
Proof. intros H. sym_exec H; (split; [by split|eauto]). Qed.

(** The outbox row that goes with a write, if there is one. *)
Definition announced (now id : Z) (record : option InsertP2pOutboxRecord) (d : GwDb) : GwDb :=
  match record with Some record => insert_outbox now id record d | None => d end.

(** A transaction that ends in [d], with the announcement [record]. *)
Record committed (w w' : GwWorld) (now : Z) (record : option InsertP2pOutboxRecord) (d : GwDb) :
    Prop := {
  cm_only : only_db w w';
  cm_db : g_db w' = announced now (g_outbox_seq w) record d;
  cm_seq : record ≠ None → (g_outbox_seq w < g_outbox_seq w')%Z;
}.

Lemma upsert_snapshot_run record announcement w r w' :
  upsert_snapshot_inner record announcement w = (r, w') →
  (quiet w w' ∧ ∃ e, r = Err e) ∨
  ∃ now applied d, r = Ok applied ∧ upsert_snapshot_row now record (g_db w) = Ok (applied, d) ∧
    committed w w' now (if applied then snapshot_outbox_record <$> announcement else None) d.
Proof.
  unfold upsert_snapshot_inner. intros H. sym_exec H.
  all: first [left; split; [solve_worlds|by eexists]|right; do 3 eexists; split_and!; eauto].
  all: split; [solve_worlds|cbn; by repeat case_match|cbn; intros ?; repeat case_match; first [done|lia]].
Qed.

Lemma insert_ui_event_tx_run record outbox w r w' :
  insert_ui_event_tx record outbox w = (r, w') →
  (quiet w w' ∧ ∃ e, r = Err e) ∨
  ∃ now generated_at row d, r = Ok row ∧
    generated_at_column (iu_generated_at record) = Ok generated_at ∧
    insert_event_row (row_of_record now (g_cursor_seq w) generated_at record) (g_db w) = (row, d) ∧
    (g_cursor_seq w < g_cursor_seq w')%Z ∧
    committed w w' now (row ≫= fun _ => outbox) d.
Proof.
  unfold insert_ui_event_tx. intros H. sym_exec H.
  all: cbv [result_bind] in *; repeat match goal with
    | H : match generated_at_column ?x with _ => _ end = _ |- _ =>
        destruct (generated_at_column x) eqn:?; simplify_eq
    end.
  all: first [left; split; [solve_worlds|by eexists]|right; do 4 eexists; split_and!; eauto; try lia].
  all: split; [solve_worlds|done|cbn; intros ?; first [done|lia]].
Qed.

Lemma claim_run limit w r w' :
  claim_p2p_outbox limit w = (r, w') →
  (quiet w w' ∧ ∃ e, r = Err e) ∨
  (only_db w w' ∧ g_outbox_seq w' = g_outbox_seq w ∧
   ∃ now, r = Ok (claim_rows now limit (gd_outbox (g_db w))).1 ∧
     g_db w' = on_outbox (fun _ => (claim_rows now limit (gd_outbox (g_db w))).2) (g_db w)).
Proof.
  unfold claim_p2p_outbox. intros H. sym_exec H.
  all: first [left; split; [solve_worlds|by eexists]|right; split_and!; [solve_worlds|done|]].
  exists (gw_clock (g_tick w)). by destruct (claim_rows _ _ _); simplify_eq.
Qed.

Lemma release_run id w r w' :
  release_p2p_outbox id w = (r, w') →
  only_db w w' ∧ g_outbox_seq w' = g_outbox_seq w ∧
  (g_db w' = g_db w ∨
   (∃ row, gd_outbox (g_db w) !! id = Some row ∧ exhausted row = true ∧
      g_db w' = on_outbox (delete id) (g_db w)) ∨
   ∃ now, g_db w' = on_outbox
     (alter (fun row => set_claim (now + seconds 5) (ob_attempts row) row) id) (g_db w)).
Proof.
  unfold release_p2p_outbox. intros H. sym_exec H.
  all: (split_and!; [solve_worlds|done|]; eauto 6).
Qed.
End statement_runs.

(** ** The newest record wins *)

Section lww.
Context {K V : Type} `{Countable K} (ts : V -> Z).
Implicit Types (m : gmap K V).

(** A write that is kept unless a newer value is already there. *)
Definition lww m (kv : K * V) : gmap K V :=
  match m !! kv.1 with
  | Some old => if (ts old <=? ts kv.2)%Z then <[kv.1 := kv.2]> m else m
  | None => <[kv.1 := kv.2]> m
  end.

(** Two writes are compatible unless they give the same key two values of the same time. *)
Definition compatible (a b : K * V) : Prop := a.1 = b.1 → ts a.2 = ts b.2 → a = b.

Lemma lww_lookup_ne m a k : a.1 ≠ k → lww m a !! k = m !! k.
Proof. intros. unfold lww. repeat case_match; by rewrite ?lookup_insert_ne. Qed.

Lemma lww_lookup_eq m a :
  lww m a !! a.1 = Some (match m !! a.1 with
                         | Some old => if (ts old <=? ts a.2)%Z then a.2 else old
                         | None => a.2
                         end).
Proof. unfold lww. repeat case_match; by rewrite ?lookup_insert_eq. Qed.

Lemma lww_comm m a b : compatible a b → lww (lww m a) b = lww (lww m b) a.
Proof.
  intros Hc. apply map_eq. intros k. destruct (decide (a.1 = b.1)) as [Heq|Hne].
  - destruct (decide (a.1 = k)) as [<-|]; [|by rewrite !lww_lookup_ne by congruence].
    rewrite (lww_lookup_eq _ a), Heq, (lww_lookup_eq _ b), (lww_lookup_eq _ b), <- Heq,
      (lww_lookup_eq _ a). f_equal.
    repeat case_match; try lia; destruct (Z.eq_dec (ts a.2) (ts b.2)) as [E|];
      try lia; by rewrite ?(Hc Heq E).
  - destruct (decide (a.1 = k)) as [<-|].
    { by rewrite (lww_lookup_ne _ b), !lww_lookup_eq, lww_lookup_ne by congruence. }
    destruct (decide (b.1 = k)) as [<-|]; [|by rewrite !lww_lookup_ne by congruence].
    by rewrite (lww_lookup_ne _ a), !lww_lookup_eq, lww_lookup_ne by congruence.
Qed.

Lemma lww_foldl_permutation l l' m :
  l ≡ₚ l' → (∀ a b, a ∈ l → b ∈ l → compatible a b) → foldl lww m l = foldl lww m l'.
Proof.
  intros Hp. revert m. induction Hp as [|x l l' Hp IH|x y l|l l' l'' Hp IH Hp' IH']; intros m Hc; cbn.
  - done.
  - apply IH. set_solver.
  - by rewrite lww_comm by set_solver.
  - rewrite IH, IH'; [done| |done]. intros a b Ha Hb. apply Hc; by rewrite Hp.
Qed.

(** The values a key has had, and the newest of them. *)
Definition seen m (l : list (K * V)) (k : K) (v : V) : Prop := m !! k = Some v ∨ (k, v) ∈ l.
Definition newest m (l : list (K * V)) (k : K) (final : option V) : Prop :=
  match final with
  | Some v => seen m l k v ∧ ∀ v', seen m l k v' → (ts v' <= ts v)%Z
  | None => ∀ v, ¬ seen m l k v
  end.

Lemma lww_seen m a k v : lww m a !! k = Some v → m !! k = Some v ∨ (k, v) = a.
Proof.
  destruct a as [j x]. destruct (decide (j = k)) as [->|Hne]; [|rewrite lww_lookup_ne by done; auto].
  pose proof (lww_lookup_eq m (k, x)) as Hx. cbn [fst snd] in Hx. rewrite Hx.
  repeat case_match; intros [= <-]; auto.
Qed.

Lemma lww_kept m a k v :
  m !! k = Some v ∨ (k, v) = a → ∃ v', lww m a !! k = Some v' ∧ (ts v <= ts v')%Z.
Proof.
  destruct a as [j x]. destruct (decide (j = k)) as [->|Hne].
  - pose proof (lww_lookup_eq m (k, x)) as Hx. cbn [fst snd] in Hx. rewrite Hx.
    intros [->|[= <-]].
    + destruct (Z.leb_spec (ts v) (ts x)); eexists; (split; [done|]); lia.
    + destruct (m !! k) as [old|]; [destruct (Z.leb_spec (ts old) (ts v))|]; eexists;
        (split; [done|]); lia.
  - rewrite lww_lookup_ne by done. intros [->|[= <- <-]]; [|done]. eexists. split; [done|lia].
Qed.

Lemma lww_foldl_newest l m k : newest m l k (foldl lww m l !! k).
Proof.
  revert m. induction l as [|a l IH]; intros m; cbn.
  { unfold newest, seen. destruct (m !! k) as [v|]; set_solver by lia. }
  specialize (IH (lww m a)). unfold newest, seen in *.
  assert (∀ v, m !! k = Some v ∨ (k, v) ∈ a :: l →
    ∃ v', (lww m a !! k = Some v' ∨ (k, v') ∈ l) ∧ (ts v <= ts v')%Z) as Hup.
  { intros v Hv. rewrite elem_of_cons in Hv.
    assert ((m !! k = Some v ∨ (k, v) = a) ∨ (k, v) ∈ l) as [Hm|Hl] by tauto.
    - destruct (lww_kept m a k v Hm) as (v' & ? & ?). eauto.
    - exists v. split; [by right|lia]. }
  destruct (foldl lww (lww m a) l !! k) as [v|].
  - destruct IH as [Hin Hmax]. split.
    + rewrite elem_of_cons. destruct Hin as [Hin%lww_seen|]; tauto.
    + intros v' (v2 & Hv2%Hmax & ?)%Hup. lia.
  - intros v (v2 & Hv2%IH & ?)%Hup. done.
Qed.
End lww.

Section converge.
Context `{UJ : UiEventJson, GH : GwHost}.

(** What a snapshot row says, whoever ingested it and when. *)
Record SnapshotContent := {
  sx_signer_agent_did : string;
  sx_public_key : string;
  sx_generated_at : Z;
  sx_payload : Value;
  sx_signature : string;
}.

Definition snapshot_content (row : SnapshotRow) : SnapshotContent := {|
  sx_signer_agent_did := sr_signer_agent_did row; sx_public_key := sr_public_key row;
  sx_generated_at := sr_generated_at row; sx_payload := sr_payload row;
  sx_signature := sr_signature row |}.

Definition snapshot_view (d : GwDb) : gmap string SnapshotContent :=
  snapshot_content <$> gd_snapshots d.

Definition record_content (record : UpsertSnapshotRecord) (generated_at : Z) :
    string * SnapshotContent :=
  (us_node_id record, {|
    sx_signer_agent_did := us_signer_agent_did record; sx_public_key := us_public_key record;
    sx_generated_at := generated_at; sx_payload := us_payload record;
    sx_signature := us_signature record |}).

(** The writes a list of records stands for. *)
Definition writes (records : list UpsertSnapshotRecord) : list (string * SnapshotContent) :=
  omap (fun record => match generated_at_column (us_generated_at record) with
                      | Ok generated_at => Some (record_content record generated_at)
                      | Err _ => None
                      end) records.

Lemma insert_outbox_snapshots now id record d :
  gd_snapshots (insert_outbox now id record d) = gd_snapshots d.
Proof. unfold insert_outbox. by case_match. Qed.

Lemma announced_snapshots now id record d : gd_snapshots (announced now id record d) = gd_snapshots d.
Proof. destruct record; [apply insert_outbox_snapshots|done]. Qed.

Lemma upsert_snapshot_row_view now record d applied d' :
  upsert_snapshot_row now record d = Ok (applied, d') →
  ∃ generated_at, generated_at_column (us_generated_at record) = Ok generated_at ∧
    snapshot_view d' = lww sx_generated_at (snapshot_view d) (record_content record generated_at).
Proof.
  unfold upsert_snapshot_row. intros H. inv_result. eexists. split; [done|].
  unfold lww, snapshot_view. cbn. rewrite lookup_fmap.
  destruct (gd_snapshots d !! us_node_id record) as [old|]; cbn.
  - case_match; simplify_eq; [|done]. cbn. by rewrite fmap_insert.
  - simplify_eq. cbn. by rewrite fmap_insert.
Qed.

(** Ingesting snapshots one after the other, each with its announcement or without. *)
Definition ingest_snapshots
    (records : list (UpsertSnapshotRecord * option SnapshotP2pAnnouncement)) : G () :=
  for_each records (fun '(record, announcement) =>
    _ ← upsert_snapshot_inner record announcement; mret ()).

Lemma ingest_snapshots_view records w w' :
  ingest_snapshots records w = (Ok (), w') →
  snapshot_view (g_db w') = foldl (lww sx_generated_at) (snapshot_view (g_db w)) (writes records.*1).
Proof.
  revert w. induction records as [|[record ann] records IH]; intros w H; cbn in H.
  { by injection H as <-. }
  apply M_bind_ok in H as ([] & w1 & H1 & H). apply IH in H as ->.
  apply M_bind_ok in H1 as (applied & w2 & H1 & H2). injection H2 as <-.
  apply upsert_snapshot_run in H1 as [(_ & e & [=])|(now & b & d & [= <-] & Hrow & [_ Hd _])].
  apply upsert_snapshot_row_view in Hrow as (g & Hg & Hv).
  cbn. rewrite Hg. cbn. f_equal. unfold snapshot_view in *.
  by rewrite Hd, announced_snapshots.
Qed.

(** C33: gateways that have seen the same snapshots agree.  Two gateways that start with
    the same snapshots and ingest the same ones in any two orders (whatever their
    clocks, and whether they announce them or not) end up with the same snapshot of
    every node, as long as no node signs two different snapshots for one instant: one of
    those the gateway started with or ingested, and none of these is newer. *)
Theorem snapshots_converge records records' w1 w2 w1' w2' :
  records.*1 ≡ₚ records'.*1 →
  (∀ a b, a ∈ writes records.*1 → b ∈ writes records.*1 → compatible sx_generated_at a b) →
  snapshot_view (g_db w1) = snapshot_view (g_db w2) →
  ingest_snapshots records w1 = (Ok (), w1') →
  ingest_snapshots records' w2 = (Ok (), w2') →
  snapshot_view (g_db w1') = snapshot_view (g_db w2') ∧
  ∀ node_id, newest sx_generated_at (snapshot_view (g_db w1)) (writes records.*1) node_id
    (snapshot_view (g_db w1') !! node_id).
Proof.
  intros Hp Hc Hv H1%ingest_snapshots_view H2%ingest_snapshots_view. rewrite H1, H2, <- Hv. split.
  - apply lww_foldl_permutation; [|done]. unfold writes. by rewrite Hp.
  - intros node_id. apply lww_foldl_newest.
Qed.
End converge.

(** ** The outbox *)

Section claims.
Context `{SV : SerdeValue}.
Implicit Types (m : gmap Z P2pOutboxRow).

(** Rows are stored under their ids. *)
Definition keyed m : Prop := ∀ k row, m !! k = Some row → ob_id row = k.

Lemma rows_by_id m row : keyed m → row ∈ (map_to_list m).*2 ↔ m !! ob_id row = Some row.
Proof.
  intros Hk. rewrite list_elem_of_fmap. split.
  - intros ([k r] & -> & Hr%elem_of_map_to_list). cbn. by rewrite (Hk _ _ Hr).
  - intros Hr. exists (ob_id row, row). by rewrite elem_of_map_to_list.
Qed.

Lemma keyed_nodup m : keyed m → NoDup (ob_id <$> (map_to_list m).*2).
Proof.
  intros Hk. replace (ob_id <$> (map_to_list m).*2) with (map_to_list m).*1;
    [apply NoDup_fst_map_to_list|].
  assert (∀ kr, kr ∈ map_to_list m → kr.1 = ob_id kr.2) as H
    by (intros [k r] Hr%elem_of_map_to_list; cbn; by rewrite (Hk _ _ Hr)).
  revert H. generalize (map_to_list m). intros l H. induction l as [|kr l IH]; [done|].
  cbn. rewrite IH by set_solver. f_equal. apply H. set_solver.
Qed.

(** The rows a claim hands out, before they are marked. *)
Definition candidates (now limit : Z) m : list P2pOutboxRow :=
  limit_rows (Z.max limit 1)
    (order_by ob_id (filter (fun row => claimable now row = true) (map_to_list m).*2)).

Lemma candidates_elem now limit m row :
  keyed m → row ∈ candidates now limit m → m !! ob_id row = Some row ∧ claimable now row = true.
Proof.
  intros Hk Hr. unfold candidates, limit_rows, order_by in Hr.
  apply elem_of_take in Hr as (i & Hi%list_elem_of_lookup_2 & _).
  rewrite merge_sort_Permutation, list_elem_of_filter in Hi. destruct Hi as [Hc Hi].
  split; [|done]. by apply rows_by_id in Hi.
Qed.

Lemma candidates_nodup now limit m : keyed m → NoDup (ob_id <$> candidates now limit m).
Proof.
  intros Hk. unfold candidates, limit_rows, order_by. rewrite fmap_take.
  eapply sublist_NoDup; [|apply sublist_take].
  rewrite merge_sort_Permutation.
  eapply sublist_NoDup; [|apply fmap_sublist, sublist_filter]. by apply keyed_nodup.
Qed.

(** A row is to be handed out: nobody holds a claim on it that still runs. *)
Definition due (now : Z) (row : P2pOutboxRow) : Prop :=
  match ob_claimed_until row with None => True | Some until => (until < now)%Z end.
Global Instance due_dec now row : Decision (due now row).
Proof. unfold due. destruct (ob_claimed_until row); apply _. Defined.

Lemma claimable_due now row : claimable now row = true ↔ due now row.
Proof. unfold claimable, due. destruct (ob_claimed_until row); [apply Z.ltb_lt|done]. Qed.

Lemma due_later now now' row : (now <= now')%Z → due now row → due now' row.
Proof. unfold due. destruct (ob_claimed_until row); [lia|done]. Qed.

#[local] Instance le_by_total {A} (key : A -> Z) : Total (le_by key).
Proof. intros a b. unfold le_by. lia. Qed.
#[local] Instance le_by_trans {A} (key : A -> Z) : Transitive (le_by key).
Proof. intros a b c. unfold le_by. lia. Qed.

(** A due row that a claim passes over stands behind a full batch of older ones. *)
Lemma candidates_older now limit m k row :
  keyed m → m !! k = Some row → due now row → k ∉ ob_id <$> candidates now limit m →
  length (candidates now limit m) = Z.to_nat (Z.max limit 1) ∧
  ∀ r, r ∈ candidates now limit m → (ob_id r < k)%Z.
Proof.
  intros Hk Hrow Hdue Hout. unfold candidates, limit_rows, order_by in *.
  set (rows := filter _ _) in *. set (n := Z.to_nat _) in *.
  assert (row ∈ merge_sort (le_by ob_id) rows) as Hin.
  { rewrite merge_sort_Permutation. apply list_elem_of_filter. split; [by apply claimable_due|].
    apply rows_by_id; [done|]. by rewrite (Hk _ _ Hrow). }
  pose proof (StronglySorted_merge_sort (le_by ob_id) rows) as Hs.
  set (l := merge_sort _ rows) in *. rewrite <- (take_drop n l) in Hs, Hin.
  apply elem_of_app in Hin as [Hin|Hin].
  { exfalso. apply Hout. rewrite <- (Hk _ _ Hrow). by apply list_elem_of_fmap_2. }
  split.
  - rewrite length_take. destruct (decide (n <= length l)) as [|Hgt]; [lia|].
    rewrite drop_ge in Hin by lia. by apply elem_of_nil in Hin.
  - intros r Hr. assert (le_by ob_id r row) as Hle by (by eapply (StronglySorted_app_1_elem_of _)).
    unfold le_by in Hle. rewrite (Hk _ _ Hrow) in Hle.
    assert (ob_id r ≠ k); [|lia]. intros <-. apply Hout. by apply list_elem_of_fmap_2.
Qed.

(** The rows older than [k] that are due by [limit_at]. *)
Definition due_before (limit_at k : Z) m : nat :=
  size (filter (fun kr => (kr.1 < k)%Z ∧ due limit_at kr.2) m).

(** The rows with a given id. *)
Definition with_id (k : Z) (rows : list P2pOutboxRow) : list P2pOutboxRow :=
  filter (fun row => ob_id row = k) rows.

Lemma with_id_none k rows : k ∉ ob_id <$> rows → with_id k rows = [].
Proof.
  unfold with_id. induction rows as [|row rows IH]; [done|]. rewrite fmap_cons. intros Hk.
  rewrite filter_cons_False by set_solver. apply IH. set_solver.
Qed.

Lemma with_id_one row rows :
  NoDup (ob_id <$> rows) → row ∈ rows → with_id (ob_id row) rows = [row].
Proof.
  induction rows as [|x rows IH]; [set_solver|]. rewrite fmap_cons.
  intros [Hx Hn]%NoDup_cons Hr.
  apply elem_of_cons in Hr as [->|Hr]; unfold with_id.
  - rewrite filter_cons_True by done. f_equal. by apply with_id_none.
  - rewrite filter_cons_False; [by apply IH|]. intros Heq. destruct Hx. rewrite Heq.
    by apply list_elem_of_fmap_2.
Qed.

(** Marking the claimed rows. *)
Lemma mark_lookup (rows : list P2pOutboxRow) m k :
  NoDup (ob_id <$> rows) →
  foldl (fun m row => <[ob_id row := row]> m) m rows !! k =
    match with_id k rows with row :: _ => Some row | [] => m !! k end.
Proof.
  revert m. induction rows as [|row rows IH]; intros m Hn; [done|].
  rewrite fmap_cons in Hn. apply NoDup_cons in Hn as [Hnot Hn]. cbn [foldl].
  rewrite IH by done. unfold with_id.
  destruct (decide (ob_id row = k)) as [<-|Hne].
  - rewrite filter_cons_True by done. fold (with_id (ob_id row) rows).
    rewrite (with_id_none _ _ Hnot). by rewrite lookup_insert_eq.
  - rewrite filter_cons_False by done. fold (with_id k rows).
    destruct (with_id k rows); [by rewrite lookup_insert_ne|done].
Qed.

Lemma marked_ids now (rows : list P2pOutboxRow) :
  ob_id <$> (claim_row now <$> rows) = ob_id <$> rows.
Proof. rewrite <- list_fmap_compose. by apply list_fmap_ext. Qed.

Lemma claim_rows_none now limit m k :
  keyed m → m !! k = None → (claim_rows now limit m).2 !! k = None.
Proof.
  intros Hk Hnone. unfold claim_rows. fold (candidates now limit m). cbn [fst snd].
  rewrite mark_lookup by (rewrite marked_ids; by apply candidates_nodup).
  rewrite with_id_none; [done|]. rewrite marked_ids. intros (r & -> & Hr)%list_elem_of_fmap.
  apply candidates_elem in Hr as [Hr _]; [congruence|done].
Qed.

(** A claim hands out claimable rows, each once and marked, and changes nothing else. *)
Lemma claim_rows_spec now limit m k row :
  keyed m → m !! k = Some row →
  (with_id k (claim_rows now limit m).1 = [] ∧ (claim_rows now limit m).2 !! k = Some row) ∨
  (with_id k (claim_rows now limit m).1 = [claim_row now row] ∧
   (claim_rows now limit m).2 !! k = Some (claim_row now row) ∧ claimable now row = true).
Proof.
  intros Hk Hrow. unfold claim_rows. fold (candidates now limit m). cbn [fst snd].
  pose proof (marked_ids now (candidates now limit m)) as Hids.
  pose proof (candidates_nodup now limit m Hk) as Hn. rewrite <- Hids in Hn.
  rewrite mark_lookup by done.
  destruct (decide (k ∈ ob_id <$> candidates now limit m)) as [Hin|Hout].
  - right. apply list_elem_of_fmap in Hin as (r & -> & Hr).
    destruct (candidates_elem _ _ _ _ Hk Hr) as [Hm Hc]. rewrite Hrow in Hm. injection Hm as ->.
    change (ob_id r) with (ob_id (claim_row now r)).
    rewrite with_id_one; [by split_and!|done|by apply list_elem_of_fmap_2].
  - left. rewrite <- Hids in Hout. by rewrite with_id_none.
Qed.

Lemma candidate_handed now limit m row :
  keyed m → row ∈ candidates now limit m →
  with_id (ob_id row) (claim_rows now limit m).1 = [claim_row now row].
Proof.
  intros Hk Hr. unfold claim_rows. fold (candidates now limit m). cbn [fst].
  apply (with_id_one (claim_row now row)); [|by apply list_elem_of_fmap_2].
  rewrite marked_ids. by apply candidates_nodup.
Qed.

(** A claim that passes a due row over uses up a batch of the rows before it. *)
Lemma claim_rows_before now limit m k row limit_at :
  keyed m → m !! k = Some row → due now row → (now <= limit_at <= now + seconds 30)%Z →
  with_id k (claim_rows now limit m).1 = [] →
  due_before limit_at k (claim_rows now limit m).2 + Z.to_nat (Z.max limit 1)
    ≤ due_before limit_at k m.
Proof.
  intros Hk Hrow Hdue Hat Hpass.
  assert (k ∉ ob_id <$> candidates now limit m) as Hout.
  { intros (r & -> & Hr)%list_elem_of_fmap. by rewrite candidate_handed in Hpass. }
  destruct (candidates_older now limit m k row) as [Hlen Hold]; [done..|].
  set (ids := list_to_set (ob_id <$> candidates now limit m) : gset Z).
  assert (size ids = Z.to_nat (Z.max limit 1)) as <-.
  { unfold ids. rewrite size_list_to_set by (by apply candidates_nodup). by rewrite length_fmap. }
  unfold due_before. rewrite <- !size_dom, <- size_union.
  - apply subseteq_size. intros j [Hj|Hj]%elem_of_union.
    + apply elem_of_dom in Hj as [r (Hr & Hlt & Hd)%map_lookup_filter_Some]. cbn in Hlt, Hd.
      destruct (m !! j) as [r0|] eqn:Hr0; [|by rewrite claim_rows_none in Hr].
      apply elem_of_dom. exists r0. apply map_lookup_filter_Some. split; [done|]. split; [done|].
      destruct (claim_rows_spec now limit m j r0 Hk Hr0) as [[_ Hl]|(_ & _ & Hc)].
      * cbn. congruence.
      * cbn. apply (due_later now); [lia|by apply claimable_due].
    + apply elem_of_list_to_set, list_elem_of_fmap in Hj as (r & -> & Hr).
      apply candidates_elem in Hr as Hc; [|done]. destruct Hc as [Hm Hc%claimable_due].
      apply elem_of_dom. exists r. apply map_lookup_filter_Some. split; [done|].
      split; [by apply Hold|]. by apply (due_later now); [lia|].
  - intros j [r (Hr & _ & Hd)%map_lookup_filter_Some]%elem_of_dom Hj.
    apply elem_of_list_to_set, list_elem_of_fmap in Hj as (r0 & -> & Hr0). cbn in Hd.
    apply candidates_elem in Hr0 as Hc; [|done]. destruct Hc as [Hm _].
    destruct (claim_rows_spec now limit m _ r0 Hk Hm) as [[Hw _]|(_ & Hl & _)].
    + by rewrite candidate_handed in Hw.
    + rewrite Hl in Hr. injection Hr as <-. unfold due in Hd. cbn in Hd. lia.
Qed.

Lemma claim_rows_keyed now limit m : keyed m → keyed (claim_rows now limit m).2.
Proof.
  intros Hk k row. unfold claim_rows. fold (candidates now limit m). cbn.
  generalize (claim_row now <$> candidates now limit m). intros rows. revert m Hk.
  induction rows as [|r rows IH]; intros m Hk; [apply Hk|]. cbn. apply IH.
  intros k' r'. destruct (decide (ob_id r = k')) as [<-|]; [by rewrite lookup_insert_eq; intros [= <-]|].
  rewrite lookup_insert_ne by done. apply Hk.
Qed.
End claims.

Section outbox_frames.
Context `{UJ : UiEventJson, GH : GwHost}.

Lemma upsert_snapshot_row_outbox now record d applied d' :
  upsert_snapshot_row now record d = Ok (applied, d') → gd_outbox d' = gd_outbox d.
Proof.
  unfold upsert_snapshot_row. intros H. inv_result. repeat case_match; by simplify_eq.
Qed.

Lemma insert_event_row_outbox row d o d' :
  insert_event_row row d = (o, d') → gd_outbox d' = gd_outbox d.
Proof. unfold insert_event_row. intros H. case_match; by simplify_eq. Qed.

(** The audit record changes the audit log only. *)
Lemma insert_audit_record_run record w r w' :
  insert_audit_record record w = (r, w') →
  only_db w w' ∧ ∃ f, g_db w' = on_audit f (g_db w).
Proof.
  intros H. apply gexecute_run in H as [[Hq (e & ->)]|[Ho (now & a & -> & H)]].
  - split; [by apply quiet_only_db|]. exists id. rewrite (qu_db _ _ Hq). by destruct (g_db w).
  - split; [done|]. inv_result. simplify_eq. eauto.
Qed.
End outbox_frames.

Section outbox_runs.
Context `{UJ : UiEventJson, GH : GwHost}.

(** The operations that touch the outbox. *)
Inductive OutboxOp :=
  | OClaim (limit : Z)
  | OAck (id : Z)
  | ORelease (id : Z)
  | OSnapshot (record : UpsertSnapshotRecord) (announcement : option SnapshotP2pAnnouncement)
  | OEvent (record : InsertUiEventRecord) (outbox : option InsertP2pOutboxRecord).

(** One operation, with the rows it hands out. *)
Definition outbox_op (op : OutboxOp) : G (list P2pOutboxRow) :=
  match op with
  | OClaim limit => claim_p2p_outbox limit
  | OAck id => _ ← ack_p2p_outbox id; mret []
  | ORelease id => _ ← release_p2p_outbox id; mret []
  | OSnapshot record announcement => _ ← upsert_snapshot_inner record announcement; mret []
  | OEvent record outbox => _ ← insert_ui_event_inner record outbox; mret []
  end.

(** A sequence of operations, some of which may fail, with what each handed out. *)
Fixpoint run_outbox (ops : list OutboxOp) : G (list (list P2pOutboxRow)) :=
  match ops with
  | [] => mret []
  | op :: ops =>
      r ← attempt (outbox_op op);
      rest ← run_outbox ops;
      mret (match r with Ok rows => rows | Err _ => [] end :: rest)
  end.

Record outbox_wf (w : GwWorld) : Prop := {
  ow_keyed : keyed (gd_outbox (g_db w));
  ow_fresh k : is_Some (gd_outbox (g_db w) !! k) → (k < g_outbox_seq w)%Z;
}.

(** How often a row has been handed out. *)
Definition handed (k : Z) (trace : list (list P2pOutboxRow)) : Z :=
  Z.of_nat (length (with_id k (concat trace))).

(** What may happen to a row when an operation hands out [rows]. *)
Inductive row_step (k : Z) (op : OutboxOp) (row : P2pOutboxRow) (rows : list P2pOutboxRow) :
    option P2pOutboxRow -> Prop :=
  | RowKept : with_id k rows = [] → row_step k op row rows (Some row)
  | RowHanded now : with_id k rows = [claim_row now row] → claimable now row = true →
      row_step k op row rows (Some (claim_row now row))
  | RowDeferred until : op = ORelease k → with_id k rows = [] →
      row_step k op row rows (Some (set_claim until (ob_attempts row) row))
  | RowDropped : op = ORelease k → with_id k rows = [] → exhausted row = true →
      row_step k op row rows None
  | RowAcked : op = OAck k → with_id k rows = [] → row_step k op row rows None.

Lemma insert_outbox_lookup now id record d k row :
  gd_outbox d !! id = None → gd_outbox d !! k = Some row →
  gd_outbox (insert_outbox now id record d) !! k = Some row.
Proof.
  intros Hid Hk. unfold insert_outbox. case_match; [done|]. cbn.
  rewrite lookup_insert_ne; [done|congruence].
Qed.

Lemma announced_wf w w' now record d :
  outbox_wf w → gd_outbox d = gd_outbox (g_db w) → committed w w' now record d →
  outbox_wf w' ∧ ∀ k row, gd_outbox (g_db w) !! k = Some row →
    gd_outbox (g_db w') !! k = Some row.
Proof.
  intros [Hk Hf] Hd [[_ _ _ _ _ Hs] Hdb Hlt]. destruct record as [record|]; cbn in Hdb.
  - assert (gd_outbox d !! g_outbox_seq w = None) as Hnew.
    { rewrite Hd. destruct (_ !! _) eqn:E; [|done]. specialize (Hf (g_outbox_seq w)).
      rewrite E in Hf. assert (g_outbox_seq w < g_outbox_seq w)%Z by (apply Hf; eauto). lia. }
    assert (g_outbox_seq w < g_outbox_seq w')%Z by by apply Hlt.
    split; [|intros k row Hrow; rewrite Hdb; apply insert_outbox_lookup; congruence].
    unfold insert_outbox in Hdb.
    destruct (outbox_has _ _); [rewrite <- Hd in *; split; rewrite Hdb; [done|]|].
    { intros k Hks. apply Hf in Hks. lia. }
    split; rewrite Hdb; cbn.
    + intros k row. destruct (decide (g_outbox_seq w = k)) as [<-|];
        [rewrite lookup_insert_eq; by intros [= <-]|].
      rewrite lookup_insert_ne, Hd by done. apply Hk.
    + intros k. destruct (decide (g_outbox_seq w = k)) as [<-|]; [done|].
      rewrite lookup_insert_ne, Hd by done. intros Hks%Hf. lia.
  - split; [|intros k row; by rewrite Hdb, Hd].
    split; rewrite Hdb, Hd; [done|]. intros k Hks%Hf. lia.
Qed.

Definition rows_of (r : result string (list P2pOutboxRow)) : list P2pOutboxRow :=
  match r with Ok rows => rows | Err _ => [] end.

Lemma discard_run {A} (m : G A) w r w' :
  (m ≫= fun _ => mret []) w = (r, w') → rows_of r = [] ∧ ∃ r1, m w = (r1, w').
Proof. unfold mbind, M_bind. destruct (m w) as [[a|e] w1]; intros [= <- <-]; eauto. Qed.

Lemma same_outbox_step w w' op r :
  outbox_wf w → rows_of r = [] → gd_outbox (g_db w') = gd_outbox (g_db w) →
  (g_outbox_seq w <= g_outbox_seq w')%Z →
  outbox_wf w' ∧ ∀ k row, gd_outbox (g_db w) !! k = Some row →
    row_step k op row (rows_of r) (gd_outbox (g_db w') !! k).
Proof.
  intros [Hk Hf] Hr Hd Hs. split.
  - split; rewrite Hd; [done|]. intros k Hks%Hf. lia.
  - intros k row Hrow. rewrite Hd, Hrow, Hr. by constructor.
Qed.

Lemma kept_outbox_step w w' op r :
  outbox_wf w' → rows_of r = [] →
  (∀ k row, gd_outbox (g_db w) !! k = Some row → gd_outbox (g_db w') !! k = Some row) →
  outbox_wf w' ∧ ∀ k row, gd_outbox (g_db w) !! k = Some row →
    row_step k op row (rows_of r) (gd_outbox (g_db w') !! k).
Proof.
  intros Hw Hr Hd. split; [done|]. intros k row Hrow. rewrite (Hd _ _ Hrow), Hr. by constructor.
Qed.

Lemma claim_step limit w r w' :
  outbox_wf w → outbox_op (OClaim limit) w = (r, w') →
  outbox_wf w' ∧ ∀ k row, gd_outbox (g_db w) !! k = Some row →
    row_step k (OClaim limit) row (rows_of r) (gd_outbox (g_db w') !! k).
Proof.
  intros Hw H. cbn in H. apply claim_run in H as [[Hq (e & ->)]|(Ho & Hs & now & -> & Hd)].
  { destruct Hq as [Hd _ _ _ _ _ Hs]. apply same_outbox_step; [done|done|by rewrite Hd|done]. }
  destruct Hw as [Hk Hf]. split.
  - split; rewrite Hd; cbn [gd_outbox on_outbox]; [by apply claim_rows_keyed|].
    intros k [row Hrow]. rewrite Hs. apply Hf.
    destruct (gd_outbox (g_db w) !! k) as [old|] eqn:E; [by eexists|].
    rewrite claim_rows_none in Hrow by done. discriminate.
  - intros k row Hrow. rewrite Hd. cbn [rows_of gd_outbox on_outbox].
    destruct (claim_rows_spec now limit _ k row Hk Hrow) as [[Hn ->]|(Hn & -> & Hc)].
    + by constructor.
    + by eapply RowHanded.
Qed.

Lemma release_step id w r w' :
  outbox_wf w → outbox_op (ORelease id) w = (r, w') →
  outbox_wf w' ∧ ∀ k row, gd_outbox (g_db w) !! k = Some row →
    row_step k (ORelease id) row (rows_of r) (gd_outbox (g_db w') !! k).
Proof.
  intros Hw H. cbn in H.
  apply discard_run in H as [Hr (r1 & H1)].
  apply release_run in H1 as (_ & Hs & Hd). destruct Hw as [Hk Hf].
  destruct Hd as [Hd|[(old & Hold & Hex & Hd)|(now & Hd)]].
  - apply same_outbox_step; [done|done|by rewrite Hd|lia].
  - split.
    + split; rewrite Hd; cbn; [|intros k; rewrite Hs].
      * intros k row [_ Hrow]%lookup_delete_Some. by apply Hk.
      * intros [row [_ Hrow]%lookup_delete_Some]. apply Hf. eauto.
    + intros k row Hrow. rewrite Hd, Hr. cbn. destruct (decide (id = k)) as [->|].
      * rewrite lookup_delete_eq. simplify_eq. by apply RowDropped.
      * rewrite lookup_delete_ne, Hrow by done. by constructor.
  - split.
    + split; rewrite Hd; cbn; [|intros k; rewrite Hs].
      * intros k row [(_ & old & Hold & ->)|(_ & Hrow)]%lookup_alter_Some; [|by apply Hk].
        by apply Hk in Hold.
      * intros Hks%lookup_alter_is_Some. by apply Hf.
    + intros k row Hrow. rewrite Hd, Hr. cbn. destruct (decide (id = k)) as [->|].
      * rewrite lookup_alter_eq, Hrow. by apply RowDeferred.
      * rewrite lookup_alter_ne, Hrow by done. by constructor.
Qed.

Lemma ack_step id w r w' :
  outbox_wf w → outbox_op (OAck id) w = (r, w') →
  outbox_wf w' ∧ ∀ k row, gd_outbox (g_db w) !! k = Some row →
    row_step k (OAck id) row (rows_of r) (gd_outbox (g_db w') !! k).
Proof.
  intros Hw H. cbn in H. apply discard_run in H as [Hr (r1 & H1)].
  apply gexecute_run in H1 as [[[Hd _ _ _ _ _ Hs] (e & ->)]|[[_ _ _ _ _ Hs] (now & a & -> & [= _ Hd])]].
  { apply same_outbox_step; [done|done|by rewrite Hd|done]. }
  destruct Hw as [Hk Hf]. split.
  - split; rewrite <- Hd; cbn.
    + intros k row [_ Hrow]%lookup_delete_Some. by apply Hk.
    + intros k [row [_ Hrow]%lookup_delete_Some].
      assert (k < g_outbox_seq w)%Z by (apply Hf; eauto). lia.
  - intros k row Hrow. rewrite <- Hd, Hr. cbn. destruct (decide (id = k)) as [->|].
    + rewrite lookup_delete_eq. by apply RowAcked.
    + rewrite lookup_delete_ne, Hrow by done. by constructor.
Qed.

Lemma insert_ui_event_outbox record outbox w r w' :
  outbox_wf w → insert_ui_event_inner record outbox w = (r, w') →
  outbox_wf w' ∧ ∀ k row, gd_outbox (g_db w) !! k = Some row →
    gd_outbox (g_db w') !! k = Some row.
Proof.
  intros Hw H. unfold insert_ui_event_inner, mbind, M_bind in H.
  destruct (insert_ui_event_tx record outbox w) as [r1 w1] eqn:H1.
  assert (outbox_wf w1 ∧ ∀ k row, gd_outbox (g_db w) !! k = Some row →
    gd_outbox (g_db w1) !! k = Some row) as [Hw1 Hkeep].
  { apply insert_ui_event_tx_run in H1
      as [[[Hd _ _ _ _ _ Hs] _]|(now & g & row & d & _ & _ & Hrow & _ & Hc)].
    - destruct Hw as [Hk Hf]. split; [split; rewrite Hd; [done|intros k Hks%Hf; lia]|].
      intros k row. by rewrite Hd.
    - eapply announced_wf; [done| |done]. by apply insert_event_row_outbox in Hrow. }
  destruct r1 as [row|e]; [|injection H as <- <-; by split].
  destruct (whenM _ _ w1) as [r2 w2] eqn:H2.
  assert (w' = w2) as -> by (cbv [mret M_ret] in H; destruct r2; congruence).
  assert ((∃ f, g_db w2 = on_audit f (g_db w1)) ∧ (g_outbox_seq w1 <= g_outbox_seq w2)%Z)
    as [(f & Hd) Hs].
  { unfold whenM in H2. destruct (bool_decide (is_Some row)).
    - apply insert_audit_record_run in H2 as [[_ _ _ _ _ Hs] (f & Hd)]. eauto.
    - injection H2 as _ <-. split; [|done]. exists id. by destruct (g_db w1). }
  destruct Hw1 as [Hk Hf]. split; [|intros k x; rewrite Hd; apply Hkeep].
  split; rewrite Hd; [done|]. intros k Hks%Hf. lia.
Qed.

(** Every operation keeps the outbox well formed and moves each row by a step. *)
Lemma outbox_op_step op w r w' :
  outbox_wf w → outbox_op op w = (r, w') →
  outbox_wf w' ∧ ∀ k row, gd_outbox (g_db w) !! k = Some row →
    row_step k op row (rows_of r) (gd_outbox (g_db w') !! k).
Proof.
  intros Hw H. destruct op as [limit|id|id|record ann|record outbox].
  - by eapply claim_step.
  - by eapply ack_step.
  - by eapply release_step.
  - cbn in H. apply discard_run in H as [Hr (r1 & H1)].
    apply upsert_snapshot_run in H1 as [[[Hd _ _ _ _ _ Hs] _]|(now & b & d & _ & Hrow & Hc)].
    + apply same_outbox_step; [done|done|by rewrite Hd|done].
    + apply upsert_snapshot_row_outbox in Hrow.
      destruct (announced_wf _ _ _ _ _ Hw Hrow Hc). by apply kept_outbox_step.
  - cbn in H. apply discard_run in H as [Hr (r1 & H1)].
    apply insert_ui_event_outbox in H1 as [Hw1 Hkeep]; [|done]. by apply kept_outbox_step.
Qed.

Lemma handed_cons k rows trace :
  handed k (rows :: trace) = (Z.of_nat (length (with_id k rows)) + handed k trace)%Z.
Proof. unfold handed, with_id. cbn [concat]. rewrite filter_app, length_app. lia. Qed.

Lemma handed_nonneg k trace : (0 <= handed k trace)%Z.
Proof. unfold handed. lia. Qed.

Lemma run_outbox_cons op ops w trace w' :
  run_outbox (op :: ops) w = (Ok trace, w') →
  ∃ r w1 rest, outbox_op op w = (r, w1) ∧ run_outbox ops w1 = (Ok rest, w') ∧
    trace = rows_of r :: rest.
Proof.
  cbn [run_outbox]. intros H. unfold attempt in H. cbv [mbind M_bind mret M_ret] in H.
  destruct (outbox_op op w) as [r w1] eqn:Hop.
  destruct (run_outbox ops w1) as [[rest|e] w2] eqn:Hrun; [|discriminate].
  injection H as <- <-. exists r, w1, rest. by rewrite Hrun.
Qed.

Lemma run_outbox_wf ops : ∀ w trace w',
  outbox_wf w → run_outbox ops w = (Ok trace, w') → outbox_wf w'.
Proof.
  induction ops as [|op ops IH]; intros w trace w' Hw H; [by injection H as _ <-|].
  apply run_outbox_cons in H as (r & w1 & rest & Hop & H & _).
  apply outbox_op_step in Hop as [Hw1 _]; [|done]. by eapply IH.
Qed.

Lemma outbox_kept ops w trace w' k row :
  outbox_wf w → gd_outbox (g_db w) !! k = Some row → OAck k ∉ ops →
  run_outbox ops w = (Ok trace, w') →
  (∃ row', gd_outbox (g_db w') !! k = Some row' ∧
     ob_dedupe_key row' = ob_dedupe_key row ∧ ob_command_kind row' = ob_command_kind row ∧
     ob_payload row' = ob_payload row ∧
     ob_attempts row' = (ob_attempts row + handed k trace)%Z) ∨
  (P2P_OUTBOX_MAX_ATTEMPTS <= ob_attempts row + handed k trace)%Z.
Proof.
  revert w trace row. induction ops as [|op ops IH]; intros w trace row Hw Hrow Hack H.
  { injection H as <- <-. left. exists row. split_and!; try done. unfold handed. cbn. lia. }
  apply run_outbox_cons in H as (r & w1 & rest & Hop & H & ->). rewrite handed_cons.
  apply outbox_op_step in Hop as [Hw1 Hstep]; [|done]. specialize (Hstep k row Hrow).
  assert (OAck k ∉ ops) as Hack' by set_solver.
  pose proof (handed_nonneg k rest).
  remember (gd_outbox (g_db w1) !! k) as next eqn:Hnext.
  destruct Hstep as [Hn|now Hn _|until _ Hn|_ Hn Hex|Heq Hn]; rewrite Hn; cbn [length].
  - destruct (IH w1 rest row Hw1 (eq_sym Hnext) Hack' H) as [(row' & ?)|]; [left; exists row'|right];
      naive_solver lia.
  - destruct (IH w1 rest _ Hw1 (eq_sym Hnext) Hack' H) as [(row' & ?)|]; cbn in *;
      [left; exists row'|right]; naive_solver lia.
  - destruct (IH w1 rest _ Hw1 (eq_sym Hnext) Hack' H) as [(row' & ?)|]; cbn in *;
      [left; exists row'|right]; naive_solver lia.
  - right. unfold exhausted in Hex. apply Z.leb_le in Hex. lia.
  - set_solver.
Qed.

Lemma outbox_spaced ops w trace w' k row until :
  outbox_wf w → gd_outbox (g_db w) !! k = Some row → ob_claimed_until row = Some until →
  OAck k ∉ ops → ORelease k ∉ ops → run_outbox ops w = (Ok trace, w') →
  ∀ c, c ∈ with_id k (concat trace) →
    ∃ until', ob_claimed_until c = Some until' ∧ (until + seconds 30 < until')%Z.
Proof.
  revert w trace row until.
  induction ops as [|op ops IH]; intros w trace row until Hw Hrow Hun Hack Hrel H c Hc.
  { injection H as <- <-. cbn in Hc. set_solver. }
  apply run_outbox_cons in H as (r & w1 & rest & Hop & H & ->).
  unfold with_id in Hc. cbn [concat] in Hc. rewrite filter_app in Hc. apply elem_of_app in Hc.
  apply outbox_op_step in Hop as [Hw1 Hstep]; [|done]. specialize (Hstep k row Hrow).
  remember (gd_outbox (g_db w1) !! k) as next eqn:Hnext.
  destruct Hstep as [Hn|now Hn Hcl|? Hop _|Hop _ _|Hop _]; try (subst op; set_solver);
    unfold with_id in Hn; rewrite Hn in Hc.
  - destruct Hc as [Hc|Hc]; [set_solver|].
    eapply (IH w1 rest row until); try done; set_solver.
  - assert (until < now)%Z as Hlt
      by (unfold claimable in Hcl; rewrite Hun in Hcl; by apply Z.ltb_lt).
    destruct Hc as [Hc|Hc].
    + apply list_elem_of_singleton in Hc as ->. exists (now + seconds 30)%Z. cbn. split; [done|lia].
    + edestruct (IH w1 rest (claim_row now row) (now + seconds 30)%Z) as (u & Hu & Hlt');
        [done|done|done|set_solver|set_solver|done|exact Hc|].
      exists u. unfold seconds in *. split; [done|lia].
Qed.

(** A claim takes three statements, and succeeds when none of them fails. *)
Lemma claim_succeeds limit w :
  (∀ i, (i < 3)%nat → gw_fault (g_tick w + i) = None) →
  ∃ w', outbox_op (OClaim limit) w =
      (Ok (claim_rows (gw_clock (g_tick w)) limit (gd_outbox (g_db w))).1, w') ∧
    g_tick w' = g_tick w + 3 ∧
    gd_outbox (g_db w') = (claim_rows (gw_clock (g_tick w)) limit (gd_outbox (g_db w))).2.
Proof.
  intros Hf. pose proof (Hf 0 ltac:(lia)) as H0. pose proof (Hf 1 ltac:(lia)) as H1.
  pose proof (Hf 2 ltac:(lia)) as H2. rewrite Nat.add_0_r in H0. rewrite !Nat.add_succ_r, Nat.add_0_r in *.
  cbn [outbox_op]. unfold claim_p2p_outbox, gbegin, gtx_execute, gcommit, gstatement, gtick, gets, modify, lift.
  cbv [mbind M_bind mret M_ret]. cbn. rewrite H0. cbn. rewrite H1. cbn.
  destruct (claim_rows (gw_clock (g_tick w)) limit (gd_outbox (g_db w))) as [rows outbox] eqn:Hc. cbn. rewrite H2. cbn.
  eexists. split; [done|]. cbn. split; [lia|done].
Qed.

Lemma run_outbox_total ops : ∀ w, ∃ trace w', run_outbox ops w = (Ok trace, w').
Proof.
  induction ops as [|op ops IH]; intros w; [by eexists _, _|].
  cbn [run_outbox]. cbv [attempt mbind M_bind mret M_ret].
  destruct (outbox_op op w) as [r w1]. destruct (IH w1) as (rest & w2 & ->). by eexists _, _.
Qed.

Lemma run_outbox_step op ops w r w1 trace w' :
  outbox_op op w = (r, w1) → run_outbox ops w1 = (Ok trace, w') →
  run_outbox (op :: ops) w = (Ok (rows_of r :: trace), w').
Proof.
  intros H1 H2. cbn [run_outbox]. cbv [attempt mbind M_bind mret M_ret]. rewrite H1.
  by rewrite H2.
Qed.

(** Claims that succeed within the time of one claim reach every due row. *)
Lemma claims_reach n limit limit_at k row : ∀ w,
  outbox_wf w → gd_outbox (g_db w) !! k = Some row →
  (∀ t, (g_tick w <= t < g_tick w + 3 * n)%nat → gw_fault t = None ∧ due (gw_clock t) row ∧
     (gw_clock t <= limit_at <= gw_clock t + seconds 30)%Z) →
  (due_before limit_at k (gd_outbox (g_db w)) < n * Z.to_nat (Z.max limit 1))%nat →
  ∃ trace w', run_outbox (replicate n (OClaim limit)) w = (Ok trace, w') ∧ (0 < handed k trace)%Z.
Proof.
  induction n as [|n IH]; intros w Hw Hrow Ht Hlt; [lia|].
  destruct (claim_succeeds limit w) as (w1 & H1 & Htick & Ho); [intros i Hi; apply Ht; lia|].
  destruct (claim_step _ _ _ _ Hw H1) as [Hw1 _].
  destruct (Ht (g_tick w)) as (_ & Hdue & Hat); [lia|].
  destruct (claim_rows_spec (gw_clock (g_tick w)) limit _ k row (ow_keyed _ Hw) Hrow)
    as [[Hpass Hl]|(Hgot & _ & _)].
  - pose proof (claim_rows_before _ limit _ _ _ limit_at (ow_keyed _ Hw) Hrow Hdue Hat Hpass) as Hb.
    destruct (IH w1) as (trace & w' & H2 & Hh); [done|by rewrite Ho| | |].
    + intros t Hr. apply Ht. lia.
    + rewrite Ho. lia.
    + eexists _, w'. split; [by eapply run_outbox_step|]. rewrite handed_cons. lia.
  - destruct (run_outbox_total (replicate n (OClaim limit)) w1) as (trace & w' & H2).
    eexists _, w'. split; [by eapply run_outbox_step|]. rewrite handed_cons. cbn [rows_of].
    rewrite Hgot. pose proof (handed_nonneg k trace). cbn. lia.
Qed.

(** C22: announcements are handed out until they are acknowledged.  Whatever claims,
    releases, acknowledgements of other rows, ingested events and snapshots follow, and
    whichever of them fail, a row of the outbox that is not acknowledged stays there
    unchanged, with one attempt counted for every time it was handed out, or has been
    handed out until its attempts reached ten; and while a claim on it runs and it is
    not released, it is handed to nobody else.  And it is handed out: when nobody holds
    it, claims that follow within the thirty seconds a claim lasts, and do not fail,
    hand it out as soon as their batches exceed the older rows that are due by then. *)
Theorem outbox_at_least_once ops w trace w' k row :
  outbox_wf w → gd_outbox (g_db w) !! k = Some row → OAck k ∉ ops →
  run_outbox ops w = (Ok trace, w') →
  ((∃ row', gd_outbox (g_db w') !! k = Some row' ∧
      ob_dedupe_key row' = ob_dedupe_key row ∧ ob_command_kind row' = ob_command_kind row ∧
      ob_payload row' = ob_payload row ∧
      ob_attempts row' = (ob_attempts row + handed k trace)%Z) ∨
   (P2P_OUTBOX_MAX_ATTEMPTS <= ob_attempts row + handed k trace)%Z) ∧
  (∀ until c, ob_claimed_until row = Some until → ORelease k ∉ ops →
     c ∈ with_id k (concat trace) →
     ∃ until', ob_claimed_until c = Some until' ∧ (until + seconds 30 < until')%Z) ∧
  (∀ row' n limit limit_at, gd_outbox (g_db w') !! k = Some row' →
     (∀ t, (g_tick w' <= t < g_tick w' + 3 * n)%nat → gw_fault t = None ∧ due (gw_clock t) row' ∧
        (gw_clock t <= limit_at <= gw_clock t + seconds 30)%Z) →
     (due_before limit_at k (gd_outbox (g_db w')) < n * Z.to_nat (Z.max limit 1))%nat →
     ∃ claimed w2, run_outbox (replicate n (OClaim limit)) w' = (Ok claimed, w2) ∧
       (0 < handed k claimed)%Z).
Proof.
  intros Hw Hrow Hack H. split_and!; [by eapply outbox_kept|..].
  - intros t c Hun Hrel Hc. by eapply outbox_spaced.
  - intros row' n limit limit_at Hrow' Ht Hlt. eapply claims_reach; [|done..].
    by eapply run_outbox_wf.
Qed.
End outbox_runs.

(** ** Concrete instances *)

Definition frozen_gw_host : GwHost := {|
  gw_clock t := seconds (Z.of_nat t);
  gw_fault t := None;
  gw_utc t := seconds (Z.of_nat t);
  gw_uuid t := "uuid-" +:+ pretty t;
  to_timestamp us := Ok us;
|}.

Definition ui_event_json_impl : UiEventJson (SV:=json_impl_value) := fun event =>
  Some (ue_event_id event).

Section samples.
Local Existing Instances json_impl_value ui_event_json_impl frozen_gw_host.

Definition empty_gw_db : GwDb := {|
  gd_sources := ∅; gd_snapshots := ∅; gd_projections := ∅; gd_ui_events := []; gd_outbox := ∅;
  gd_audit := []; gd_registry := ∅; gd_space_presence := ∅; gd_space_events := ∅;
  gd_node_presence := ∅ |}.

Definition gw_world (d : GwDb) : GwWorld := {|
  g_db := d; g_tx := d; g_cursor_seq := 1; g_outbox_seq := 1; g_hub := new_hub; g_bus := [];
  g_artifacts := []; g_wakeups := 0; g_tick := 0 |}.

Definition sample_snapshot_record (node : string) (generated_at : Z) : UpsertSnapshotRecord := {|
  us_source_id := None; us_node_id := node; us_signer_agent_did := "did:key:" +:+ node;
  us_public_key := node; us_generated_at := generated_at; us_payload := JNumber generated_at;
  us_signature := "signature" |}.

Definition sample_records : list (UpsertSnapshotRecord * option SnapshotP2pAnnouncement) :=
  [(sample_snapshot_record "a" 20, None); (sample_snapshot_record "a" 30, None);
   (sample_snapshot_record "b" 25, None)].

Definition sample_outbox_row : P2pOutboxRow := {|
  ob_id := 0; ob_dedupe_key := "event:e"; ob_command_kind := P2P_OUTBOX_COMMAND_EVENT;
  ob_payload := JNull; ob_attempts := 0; ob_claimed_until := None; ob_created_at := 0 |}.

Definition sample_outbox_world : GwWorld :=
  gw_world (on_outbox <[0%Z := sample_outbox_row]> empty_gw_db).

Definition sample_outbox_ops : list OutboxOp :=
  [OClaim 5; OSnapshot (sample_snapshot_record "a" 20) None; OClaim 5; ORelease 0; OAck 3].

Lemma snapshots_converge_witness :
  let w := gw_world empty_gw_db in
  snapshot_view (g_db (ingest_snapshots sample_records w).2) =
  snapshot_view (g_db (ingest_snapshots (reverse sample_records) w).2) ∧
  ∀ node_id, newest sx_generated_at (snapshot_view (g_db w)) (writes sample_records.*1) node_id
    (snapshot_view (g_db (ingest_snapshots sample_records w).2) !! node_id).
Proof.
  intros w. apply (snapshots_converge sample_records (reverse sample_records) w w).
  - by rewrite reverse_Permutation.
  - assert (writes sample_records.*1 =
      [record_content (sample_snapshot_record "a" 20) 20000000;
       record_content (sample_snapshot_record "a" 30) 30000000;
       record_content (sample_snapshot_record "b" 25) 25000000]) as -> by reflexivity.
    intros a b Ha Hb H1 H2. rewrite !elem_of_cons, elem_of_nil in Ha, Hb.
    by destruct Ha as [->|[->|[->|[]]]], Hb as [->|[->|[->|[]]]].
  - done.
  - apply M_run_ok. vm_compute. reflexivity.
  - apply M_run_ok. vm_compute. reflexivity.
Defined.

Lemma sample_outbox_wf : outbox_wf sample_outbox_world.
Proof.
  split.
  - intros k row Hk. change (({[0%Z := sample_outbox_row]} : gmap Z P2pOutboxRow) !! k = Some row) in Hk.
    by apply lookup_singleton_Some in Hk as [<- <-].
  - intros k [row Hk]. change (({[0%Z := sample_outbox_row]} : gmap Z P2pOutboxRow) !! k = Some row) in Hk.
    by apply lookup_singleton_Some in Hk as [<- _].
Qed.

Lemma outbox_at_least_once_witness :
  (∃ trace w', run_outbox sample_outbox_ops sample_outbox_world = (Ok trace, w') ∧
     handed 0 trace = 1%Z ∧
     ∃ row', gd_outbox (g_db w') !! 0%Z = Some row' ∧ ob_attempts row' = 1%Z) ∧
  ∃ claimed w2, run_outbox [OClaim 5] sample_outbox_world = (Ok claimed, w2) ∧
    (0 < handed 0 claimed)%Z.
Proof.
  split.
  - destruct (run_outbox sample_outbox_ops sample_outbox_world) as [[trace|e] w'] eqn:H;
      [|exfalso; apply (f_equal (fun p => is_ok p.1)) in H; vm_compute in H; discriminate].
    assert (handed 0 trace = 1%Z) as Hh.
    { transitivity (match (run_outbox sample_outbox_ops sample_outbox_world).1 with
                    | Ok t => handed 0 t | Err _ => 0%Z end);
        [by rewrite H|vm_compute; reflexivity]. }
    exists trace, w'. split; [reflexivity|]. split; [exact Hh|].
    destruct (outbox_at_least_once sample_outbox_ops sample_outbox_world trace w' 0 sample_outbox_row)
      as [[(row' & Hr & _ & _ & _ & Ha)|Hmax] _].
    + exact sample_outbox_wf.
    + reflexivity.
    + intros Hin. unfold sample_outbox_ops in Hin.
      repeat (apply elem_of_cons in Hin as [Hin|Hin]; [discriminate Hin|]).
      by apply elem_of_nil in Hin.
    + exact H.
    + exists row'. split; [exact Hr|]. rewrite Ha, Hh. reflexivity.
    + exfalso. rewrite Hh in Hmax. by apply Hmax.
  - destruct (outbox_at_least_once [] sample_outbox_world [] sample_outbox_world 0 sample_outbox_row
      sample_outbox_wf eq_refl ltac:(apply not_elem_of_nil) eq_refl) as (_ & _ & Hreach).
    apply (Hreach sample_outbox_row 1 5%Z (seconds 2) eq_refl).
    + intros t Ht. cbn in Ht. split; [reflexivity|]. split; [exact I|]. cbn. unfold seconds. lia.
    + vm_compute. repeat constructor.
Defined.
End samples.
