(* ===== verification/Normalize.v ===== *)
(** * Normalised event payloads

    Models the pure part of [crates/gateway/src/streaming.rs]: the read-model kind an
    event projects to, and the normalised payload under which it is stored, streamed
    and served. *)

From S2P Require Import Prelude Str GwValue Contracts.

(** [normalize_generated_at_millis] of [gateway_sync.rs]; the product of an [i64] is
    saturating. *)
Definition normalize_generated_at_millis (generated_at : Z) : Z :=
  if (100000000000 <=? Z.abs generated_at)%Z then generated_at
  else Z.max i64_min (Z.min i64_max (generated_at * 1000)).

Section normalize.
Context `{SV : SerdeValue}.

Abbreviation Object := (gmap string Value).

(** A string with something other than white space in it. *)
Definition non_blank (s : string) : option string := if is_blank s then None else Some s.

Definition object_string (object : Object) (key : string) : option string :=
  (object !! key ≫= as_str) ≫= non_blank.

Definition or_else {A} (a b : option A) : option A := match a with Some _ => a | None => b end.

Definition insert_string_if_missing (key : string) (value : option string) (object : Object) :
    Object :=
  match value ≫= non_blank with
  | Some value => or_insert key (VString value) object
  | None => object
  end.

(** The first of the keys whose value is an object. *)
Definition nested_object (payload : Value) (nested_keys : list string) : option Object :=
  head (omap (fun key => value_get payload key ≫= as_object) nested_keys).

Definition merged_payload_object (payload : Value) (nested_keys : list string) : option Object :=
  let nested := default ∅ (nested_object payload nested_keys) in
  let object := nested ∪
    filter (fun entry => entry.1 ∉ nested_keys) (default ∅ (as_object payload)) in
  if bool_decide (object = ∅) then None else Some object.

Definition status_from_mission_event_kind (event_kind : string) : string :=
  if bool_decide (event_kind = "mission.claimed") then "claimed"
  else if bool_decide (event_kind = "mission.completed") then "completed"
  else if bool_decide (event_kind = "mission.settled") then "settled"
  else "published".

Definition normalize_mission_event_status (status : Value) (event_kind : string) : Value :=
  match as_str status with
  | Some value =>
      if bool_decide (value = "open")
      then VString (status_from_mission_event_kind event_kind) else status
  | None => VString (status_from_mission_event_kind event_kind)
  end.

Definition mission_identity (payload : Value) : option string :=
  (or_else (or_else (value_get payload "mission_id") (value_get payload "task_id"))
    (value_get payload "id") ≫= as_str) ≫= non_blank.

Definition normalized_mission_lifecycle_payload (event : NodeEventPayload) : option Value :=
  let payload := ne_payload event in
  object ← as_object payload;
  let object := or_insert "task_type" (VString "wattetheria.mission") object in
  let object := or_insert "source_node_id" (VString (ne_node_id event)) object in
  let object := or_insert "publisher_wattswarm_node_id" (VString (ne_node_id event)) object in
  let object := or_insert "mission_scope_hint" (VString ("node:" +:+ ne_node_id event)) object in
  let object := or_insert "mission_feed_key" (VString "wattetheria.missions") object in
  let object := <["status" :=
      match object !! "status" with
      | Some status => normalize_mission_event_status status (ne_event_kind event)
      | None => VString (status_from_mission_event_kind (ne_event_kind event))
      end]> object in
  let object :=
    match mission_identity payload with
    | Some mission_id =>
        or_insert "id" (VString mission_id)
          (or_insert "task_id" (VString mission_id)
            (or_insert "mission_id" (VString mission_id) object))
    | None => object
    end in
  Some (VObject object).

Definition normalized_hive_metadata_payload (event : NodeEventPayload) : option Value :=
  object ← merged_payload_object (ne_payload event) ["hive"; "topic"];
  let topic_id :=
    or_else (or_else (or_else (object_string object "topic_id") (object_string object "hive_id"))
      (es_topic_id (ne_scope event))) (ne_identity_key event) in
  let object :=
    match topic_id with
    | Some topic_id =>
        or_insert "hive_id" (VString topic_id) (or_insert "topic_id" (VString topic_id) object)
    | None => object
    end in
  let object := insert_string_if_missing "organization_id"
    (es_organization_id (ne_scope event)) object in
  let object := insert_string_if_missing "mission_id" (es_task_id (ne_scope event)) object in
  let object := or_insert "source_node_id" (VString (ne_node_id event)) object in
  let object := or_insert "snapshot_generated_at" (VNumber (ne_timestamp event)) object in
  Some (VObject object).

Definition normalized_hive_activity_payload (event : NodeEventPayload) : option Value :=
  object ← merged_payload_object (ne_payload event) ["message"];
  let message_id := default (ne_event_id event)
    (or_else (object_string object "message_id") (ne_identity_key event)) in
  let object := or_insert "message_id" (VString message_id) object in
  let topic_id := or_else (object_string object "hive_id") (es_topic_id (ne_scope event)) in
  let object := insert_string_if_missing "topic_id" topic_id object in
  let hive_id := or_else (object_string object "topic_id") (es_topic_id (ne_scope event)) in
  let object := insert_string_if_missing "hive_id" hive_id object in
  let object := insert_string_if_missing "organization_id"
    (es_organization_id (ne_scope event)) object in
  let author_id :=
    or_else (or_else (or_else (object_string object "author_public_id")
      (object_string object "public_id")) (object_string object "controller_id"))
      (object_string object "author_node_id") in
  let object := insert_string_if_missing "author_id" author_id object in
  let object := or_insert "source_node_id" (VString (ne_node_id event)) object in
  let object := or_insert "created_at" (VNumber (ne_timestamp event)) object in
  let object := or_insert "snapshot_generated_at" (VNumber (ne_timestamp event)) object in
  Some (VObject object).

Definition normalized_board_activity_payload (event : NodeEventPayload) : option Value :=
  object ← merged_payload_object (ne_payload event) ["board_message"];
  let message_id := default (ne_event_id event)
    (or_else (object_string object "message_id") (ne_identity_key event)) in
  let object := or_insert "message_id" (VString message_id) object in
  let object := or_insert "source_node_id" (VString (ne_node_id event)) object in
  let object := or_insert "created_at"
    (VNumber (normalize_generated_at_millis (ne_timestamp event))) object in
  let object := or_insert "snapshot_generated_at" (VNumber (ne_timestamp event)) object in
  Some (VObject object).

Definition normalized_ranking_projection_payload (event : NodeEventPayload) : option Value :=
  object ← as_object (ne_payload event);
  identity ← or_else (or_else (or_else (object_string object "public_id")
    (object_string object "agent_did")) (object_string object "id")) (ne_identity_key event);
  let object := or_insert "public_id" (VString identity) object in
  let object := or_insert "agent_did" (VString identity) object in
  let object := or_insert "id" (VString identity) object in
  let object := or_insert "source_node_id" (VString (ne_node_id event)) object in
  let object := or_insert "snapshot_generated_at" (VNumber (ne_timestamp event)) object in
  Some (VObject object).

(** The read-model kind and normalised payload an event projects to. *)
Definition event_projection (event : NodeEventPayload) : option (DataKind * Value) :=
  match ne_data_kind event with
  | MissionLifecycle => pair TaskSummary <$> normalized_mission_lifecycle_payload event
  | HiveMetadata => pair HiveMetadata <$> normalized_hive_metadata_payload event
  | HiveActivity | HiveMessagePosted => pair HiveActivity <$> normalized_hive_activity_payload event
  | BoardActivity => pair BoardActivity <$> normalized_board_activity_payload event
  | RankingProjection => pair RankingProjection <$> normalized_ranking_projection_payload event
  | _ => None
  end.

(** A mission published by a player is not an organisation's. *)
Definition normalized_event_scope (event : NodeEventPayload) : EventScope :=
  let scope := ne_scope event in
  let publisher_kind := value_get (ne_payload event) "publisher_kind" ≫= as_str in
  if bool_decide (ne_data_kind event = MissionLifecycle) &&
     bool_decide (es_organization_id scope = value_get (ne_payload event) "publisher" ≫= as_str) &&
     from_option (fun kind => negb (bool_decide (kind = "organization"))) false publisher_kind
  then {| es_node_id := es_node_id scope; es_topic_id := es_topic_id scope;
          es_organization_id := None; es_task_id := es_task_id scope |}
  else scope.
End normalize.

(** ** What normalisation keeps *)

Section facts.
Context `{SVL : SerdeValueLaws}.

Lemma insert_if_missing_subset key value (object : gmap string Value) :
  object ⊆ insert_string_if_missing key value object.
Proof. unfold insert_string_if_missing. case_match; [apply or_insert_subset|done]. Qed.

(** The fields of the event that the projection is built from: those of the payload,
    with a wrapped record unpacked; the status of a mission is set by the event. *)
Definition projection_base (event : NodeEventPayload) : option (gmap string Value) :=
  match ne_data_kind event with
  | MissionLifecycle => delete "status" <$> as_object (ne_payload event)
  | HiveMetadata => merged_payload_object (ne_payload event) ["hive"; "topic"]
  | HiveActivity | HiveMessagePosted => merged_payload_object (ne_payload event) ["message"]
  | BoardActivity => merged_payload_object (ne_payload event) ["board_message"]
  | RankingProjection => as_object (ne_payload event)
  | _ => None
  end.

Lemma delete_status_subset (object object' : gmap string Value) v :
  object ⊆ object' → delete "status" object ⊆ <["status" := v]> object'.
Proof.
  intros Hs. apply map_subseteq_spec. intros k x [Hne Hk]%lookup_delete_Some.
  rewrite lookup_insert_ne by done. by eapply lookup_weaken.
Qed.

(** The values that a projection adds for fields the event does not have. *)
Lemma projection_base_kept event kind v :
  event_projection event = Some (kind, v) →
  ∃ base object, projection_base event = Some base ∧ v = VObject object ∧ base ⊆ object.
Proof.
  unfold event_projection, projection_base.
  destruct (ne_data_kind event); try discriminate; intros (v' & Hv & [= -> ->])%fmap_Some;
    apply bind_Some in Hv as (base & Hb & Hv).
  all: try (apply bind_Some in Hv as (identity & _ & Hv)).
  all: injection Hv as <-; rewrite Hb; do 2 eexists; (split; [reflexivity|split; [reflexivity|]]).
  all: repeat first
    [ reflexivity
    | apply delete_status_subset
    | etrans; [|apply or_insert_subset]
    | etrans; [|apply insert_if_missing_subset]
    | case_match ].
Qed.

Lemma insert_if_missing_ne key value (object : gmap string Value) k :
  key ≠ k → insert_string_if_missing key value object !! k = object !! k.
Proof. intros. unfold insert_string_if_missing. case_match; [by apply or_insert_ne|done]. Qed.

(** The field that names a record of a kind, the first of its identity fields. *)
Definition identity_field (kind : DataKind) : string :=
  default "" (head (dm_identity_fields (data_kind_metadata kind))).

(** The name an event gives its record when the field is missing. *)
Definition identity_fallback (event : NodeEventPayload) (base : gmap string Value) :
    option string :=
  match ne_data_kind event with
  | MissionLifecycle => mission_identity (ne_payload event)
  | HiveMetadata =>
      or_else (or_else (object_string base "hive_id") (es_topic_id (ne_scope event)))
        (ne_identity_key event)
  | HiveActivity | HiveMessagePosted | BoardActivity =>
      Some (default (ne_event_id event) (ne_identity_key event))
  | RankingProjection =>
      or_else (or_else (object_string base "public_id") (object_string base "id"))
        (ne_identity_key event)
  | _ => None
  end.

(** The name of the record of an event. *)
Definition record_identity (event : NodeEventPayload) (kind : DataKind)
    (base : gmap string Value) : option string :=
  match base !! identity_field kind with
  | Some _ => object_string base (identity_field kind)
  | None => identity_fallback event base ≫= non_blank
  end.

Lemma non_blank_Some s s' : non_blank s = Some s' → s' = s ∧ is_blank s = false.
Proof. unfold non_blank. case_match; naive_solver. Qed.

Lemma object_string_Some object key s :
  object_string object key = Some s → object !! key = Some (VString s) ∧ is_blank s = false.
Proof.
  unfold object_string. intros (s' & (v & Hv & Hs)%bind_Some & Hn)%bind_Some.
  apply non_blank_Some in Hn as [-> Hb]. apply as_str_spec in Hs as ->. done.
Qed.

Lemma VObject_inj m m' : VObject m = VObject m' → m = m'.
Proof.
  intros H. apply (f_equal as_object) in H.
  rewrite !(proj2 (as_object_spec _ _) eq_refl) in H. by injection H.
Qed.

Lemma value_get_object m k : value_get (VObject m) k = m !! k.
Proof. unfold value_get. by rewrite (proj2 (as_object_spec _ _) eq_refl). Qed.

Lemma object_string_None object key : object !! key = None → object_string object key = None.
Proof. unfold object_string. by intros ->. Qed.

Lemma identity_key_of_field kind object node s :
  identity_field kind ≠ "" → object !! identity_field kind = Some (VString s) →
  is_blank s = false → projection_identity_key kind (VObject object) node = s.
Proof.
  unfold identity_field, projection_identity_key.
  destruct (dm_identity_fields (data_kind_metadata kind)) as [|f fs]; [done|].
  cbn -[value_get].
  intros _ Hf Hb. rewrite value_get_object, Hf. cbn. rewrite (proj2 (as_str_spec _ _) eq_refl). by rewrite Hb.
Qed.
End facts.

(** [look_through] finds a field below the insertions of other fields. *)
Ltac look_through :=
  repeat first
    [ rewrite or_insert_ne by done
    | rewrite insert_if_missing_ne by done
    | rewrite lookup_insert_ne by done
    | rewrite or_insert_eq ].

Section identities.
Context `{SVL : SerdeValueLaws}.

Lemma projection_identity event kind v base object s :
  event_projection event = Some (kind, v) → projection_base event = Some base →
  v = VObject object → base ⊆ object → record_identity event kind base = Some s →
  projection_identity_key kind v (ne_node_id event) = s.
Proof.
  intros Hp Hb -> Hsub Hr. unfold record_identity in Hr.
  assert (identity_field kind ≠ "") as Hk.
  { unfold event_projection in Hp.
    destruct (ne_data_kind event); try discriminate;
      apply fmap_Some in Hp as (v' & _ & [= -> _]); done. }
  destruct (base !! identity_field kind) as [x|] eqn:Hx.
  { apply object_string_Some in Hr as [Hr Hbl]. apply identity_key_of_field; [done| |done].
    by eapply lookup_weaken. }
  apply bind_Some in Hr as (s' & Hs & Hn). apply non_blank_Some in Hn as [-> Hbl].
  apply identity_key_of_field; [done| |done].
  unfold event_projection, projection_base, identity_fallback in *.
  destruct (ne_data_kind event); try discriminate; apply fmap_Some in Hp as (v' & Hv & [= -> <-]);
    cbn in Hx |- *; apply bind_Some in Hv as (o & Ho & Hv);
    first [apply fmap_Some in Hb as (o' & Ho' & ->); rewrite Ho in Ho'; injection Ho' as <-
          |rewrite Ho in Hb; injection Hb as <-];
    try (apply bind_Some in Hv as (identity & Hi & Hv));
    injection Hv as Hv; apply VObject_inj in Hv as <-; clear Hsub.
  - rewrite lookup_delete_ne in Hx by done. rewrite Hs. look_through. by rewrite Hx.
  - rewrite (object_string_None _ _ Hx) in Hi. look_through. rewrite Hx. cbn.
    destruct (object_string o "public_id"); cbn in *; congruence.
  - rewrite (object_string_None _ _ Hx). cbn [or_else]. rewrite Hs. look_through. by rewrite Hx.
  - look_through. rewrite Hx, (object_string_None _ _ Hx). cbn. by injection Hs as ->.
  - look_through. rewrite Hx, (object_string_None _ _ Hx). cbn. by injection Hs as ->.
  - look_through. rewrite Hx, (object_string_None _ _ Hx). cbn. by injection Hs as ->.
Qed.

(** A projected record keeps what the node signed and is found under its own name.
    The normalised payload of an event contains every field the event carries (a
    wrapped record unpacked, the status of a mission set by the event), and its
    projection row is keyed by the field that names its kind of record or, when the
    event does not have that field, by the name the event falls back to. *)
Theorem projection_faithful event kind v :
  event_projection event = Some (kind, v) →
  ∃ base object, projection_base event = Some base ∧ v = VObject object ∧ base ⊆ object ∧
    ∀ s, record_identity event kind base = Some s →
      projection_identity_key kind v (ne_node_id event) = s.
Proof.
  intros H. destruct (projection_base_kept _ _ _ H) as (base & object & Hb & Hv & Hs).
  exists base, object. split_and!; [done..|]. intros s. by eapply projection_identity.
Qed.

(** Messages without a textual id overwrite each other.  A hive message whose
    [message_id] is not a string gets no id from its event, since the field is there;
    its projection is then keyed by the topic, so that every such message of a node in
    a topic is stored under the same key, each replacing the one before. *)
Theorem untyped_message_keyed_by_topic event object x topic :
  ne_data_kind event = HiveActivity → ne_payload event = VObject object →
  object !! "message" = None → object !! "message_id" = Some x → as_str x = None →
  object_string object "topic_id" = Some topic →
  ∃ v, event_projection event = Some (HiveActivity, v) ∧
    projection_identity_key HiveActivity v (ne_node_id event) = topic.
Proof.
  intros Hk Hp Hm Hid Hx Ht.
  assert (merged_payload_object (ne_payload event) ["message"] =
    Some (filter (fun entry => entry.1 ∉ ["message"]) object)) as Hmerged.
  { unfold merged_payload_object, nested_object, value_get.
    rewrite Hp, (proj2 (as_object_spec _ _) eq_refl). cbn. rewrite Hm. cbn.
    rewrite (left_id_L ∅ (∪)). rewrite bool_decide_false; [done|].
    intros Hempty. assert (filter (fun entry : string * Value => entry.1 ∉ ["message"]) object
      !! "message_id" = Some x) as H by (apply map_lookup_filter_Some; set_solver).
    by rewrite Hempty in H. }
  assert (∃ v, event_projection event = Some (HiveActivity, v)) as (v & Hv).
  { unfold event_projection, normalized_hive_activity_payload. rewrite Hk, Hmerged. by eexists. }
  exists v. split; [done|].
  destruct (projection_base_kept _ _ _ Hv) as (base & object' & Hb & -> & Hsub).
  unfold projection_base in Hb. rewrite Hk, Hmerged in Hb. injection Hb as <-.
  apply object_string_Some in Ht as [Ht Hbl].
  assert (∀ k y, k ∉ ["message"] → object !! k = Some y → object' !! k = Some y) as Hlook
    by (intros k y Hne Hy; eapply lookup_weaken; [|exact Hsub]; by apply map_lookup_filter_Some).
  unfold projection_identity_key. cbn -[value_get]. rewrite !value_get_object.
  rewrite (Hlook "message_id" _ ltac:(set_solver) Hid), (Hlook "topic_id" _ ltac:(set_solver) Ht).
  cbn. rewrite Hx, (proj2 (as_str_spec _ _) eq_refl). by rewrite Hbl.
Qed.
End identities.

(** ** Concrete events *)

Section samples.
Local Existing Instances json_impl_value json_impl_value_laws.

Definition sample_message (id : json) : NodeEventPayload := {|
  ne_event_id := "event-1"; ne_node_id := "node-1"; ne_public_key := "key";
  ne_signer_agent_did := "did:key:agent"; ne_seq := 1; ne_timestamp := 1700000000;
  ne_data_kind := HiveActivity; ne_event_kind := "topic.message.posted"; ne_visibility := Public;
  ne_provisional_policy := NeverBeforeConfirmation;
  ne_scope := {| es_node_id := None; es_topic_id := Some "topic-1"; es_organization_id := None;
                 es_task_id := None |};
  ne_identity_key := Some "identity-1";
  ne_payload := JObject {[ "message_id" := id; "topic_id" := JString "topic-1" ]} |}.

Lemma projection_faithful_witness :
  ∃ v, event_projection (sample_message (JString "m-1")) = Some (HiveActivity, v) ∧
    projection_identity_key HiveActivity v "node-1" = "m-1".
Proof.
  destruct (event_projection (sample_message (JString "m-1"))) as [[kind v]|] eqn:H;
    [|vm_compute in H; discriminate].
  assert (kind = HiveActivity) as ->
    by (apply (f_equal (fmap fst)) in H; vm_compute in H; by injection H).
  exists v. split; [reflexivity|].
  destruct (projection_faithful _ _ _ H) as (base & object & Hb & _ & _ & Hid).
  apply Hid.
  assert ((projection_base (sample_message (JString "m-1")) ≫=
    record_identity (sample_message (JString "m-1")) HiveActivity) = Some "m-1") as Hr
    by (vm_compute; reflexivity).
  rewrite Hb in Hr. exact Hr.
Defined.

Lemma untyped_message_keyed_by_topic_witness :
  ∃ v, event_projection (sample_message (JNumber 7)) = Some (HiveActivity, v) ∧
    projection_identity_key HiveActivity v "node-1" = "topic-1".
Proof.
  apply (untyped_message_keyed_by_topic (sample_message (JNumber 7))
    {[ "message_id" := JNumber 7; "topic_id" := JString "topic-1" ]} (JNumber 7) "topic-1");
    reflexivity.
Defined.
End samples.
