(* ===== verification/Space.v ===== *)
(** * Presence and world events of the spaces

    Models [crates/gateway/src/space.rs]: the validation of presences, heartbeats and
    Network Authority announcements, their storage with the newest sequence number
    winning, the trusted form of board messages, and the queries on who is present.
    The JSON decoding of these records, the activity rule of the contract crate, the
    process environment with the pinned authorities and PostgreSQL's text order are
    interfaces. *)

From stdpp Require Import sorting.
From S2P Require Import Prelude Str External GwValue Contracts GwModels Verify UiHub GwDb.

Class SpaceCodec `{SV : SerdeValue} := {
  node_presence_from_value : Value -> result string NodePresence;
  node_presence_to_value : NodePresence -> result string Value;
  space_presence_from_value : Value -> result string SignedSpacePresence;
  space_presence_to_value : SignedSpacePresence -> result string Value;
  world_event_from_value : Value -> result string WorldEventRecord;
  world_event_to_value : WorldEventRecord -> result string Value;
  announcement_from_value : Value -> result string EventAnnouncementPayload;
  signed_event_to_value : SignedNodeEvent -> result string Value;
  (** [EventAnnouncementPayload::unsigned_payload] *)
  UnsignedAnnouncement : Type;
  unsigned_payload : EventAnnouncementPayload -> UnsignedAnnouncement;
  (** [wattetheria_gateway_contract::space::validate_activity] *)
  validate_activity : string -> result string ();
}.

(** The environment of the process: variables, files, and the decoding of the file of
    pinned authorities. *)
Class SpaceEnv := {
  space_env_var : string -> option string;
  space_fs_read : string -> option string;
  authorities_from_slice : string -> option (gmap string string);
}.

(** The order of text columns. *)
Class PgCollation := { text_leb : string -> string -> bool }.

(** Signatures of the records the gateway verifies. *)
Class SignedRecords `{SC : SpaceCodec} := {
  jcs_event :: Jcs NodeEventPayload;
  jcs_snapshot :: Jcs PublicClientSnapshot;
  jcs_presence :: Jcs SpacePresenceRecord;
  jcs_announcement :: Jcs UnsignedAnnouncement;
}.

(** ** Validation *)

Section validation.
Context `{SC : SpaceCodec, SI : Signatures, SR : !SignedRecords, HX : Hex, SE : SpaceEnv}.

Definition is_path_step (a : Ascii.ascii) : bool :=
  Ascii.eqb a "U" || Ascii.eqb a "R" || Ascii.eqb a "D" || Ascii.eqb a "L".

Definition validate_presence (presence : SignedSpacePresence) : result string () :=
  _ ← verify_signed_space_presence presence;
  let record := ss_record presence in
  _ ← bail_if (pr_seq record =? 0)%Z "presence sequence must be positive";
  _ ← validate_activity (pr_activity record);
  _ ← bail_if (is_blank (pr_network_id record) || is_blank (pr_space_id record) ||
               is_blank (pr_space_version record) || is_blank (pr_destination_place_id record))
        "presence network, space, version and destination identifiers are required";
  bail_if (negb (all_bytes is_path_step (pr_path record)))
    "presence path must contain only U/R/D/L".

Definition validate_node_presence (presence : NodePresence) (node_id agent_did : string) :
    result string () :=
  _ ← bail_if (negb (bool_decide (np_node_id presence = node_id)) ||
               negb (bool_decide (np_agent_did presence = agent_did)))
        "node heartbeat identity does not match its authenticated source";
  bail_if (negb ((1 <=? np_heartbeat_interval_sec presence)%Z &&
                 (np_heartbeat_interval_sec presence <=? 300)%Z))
    "node heartbeat interval must be between 1 and 300 seconds".

Definition trusted_network_authorities : result string (gmap string string) :=
  path ← ok_or (space_env_var "WATTETHERIA_GATEWAY_TRUSTED_NETWORK_GENESIS_FILE")
    "WorldEvent requires configured trusted network authorities";
  bytes ← ok_or (space_fs_read path) "read trusted network authorities";
  ok_or (authorities_from_slice bytes) "parse trusted network authorities".

Definition validate_world_event_with_authorities (payload : Value)
    (authorities : gmap string string) : result string () :=
  announcement ← announcement_from_value payload;
  authority ← ok_or (authorities !! ea_network_id announcement) "unknown trusted network";
  _ ← bail_if (negb (bool_decide (ea_authority_node_id announcement = authority)))
        "announcement signer is not the trusted Network Authority";
  authority_bytes ← ok_or (hex_decode authority) "invalid hex";
  signature_bytes ← ok_or (hex_decode (ea_authority_signature announcement)) "invalid hex";
  _ ← verify_canonical_signature (unsigned_payload announcement) (b64_encode signature_bytes)
        (b64_encode authority_bytes) "Network Authority announcement signature";
  world ← world_event_from_value (ea_content announcement);
  _ ← bail_if (is_blank (wo_event_id world) ||
               negb (bool_decide (wo_event_id world = ea_announcement_id announcement)))
        "world event_id must match announcement_id";
  _ ← bail_if (is_blank (wo_space_id world) || is_blank (wo_place_id world))
        "world event space and place identifiers are required";
  _ ← bail_if (is_blank (wo_title world)) "world event title is required";
  bail_if (wo_ends_at world <=? wo_starts_at world)%Z "world event end must follow start".

Definition validate_world_event (payload : Value) : result string () :=
  authorities ← trusted_network_authorities;
  validate_world_event_with_authorities payload authorities.

Definition validate_event (event : SignedNodeEvent) : result string () :=
  let payload := sn_payload event in
  match ne_data_kind payload with
  | Presence =>
      if bool_decide (ne_event_kind payload = "node.presence.heartbeat") then
        _ ← bail_if (negb (bool_decide (ne_visibility payload = Public)) ||
                     negb (bool_decide (ne_provisional_policy payload = EphemeralOnly)))
              "node heartbeat must be public ephemeral data";
        presence ← node_presence_from_value (ne_payload payload);
        validate_node_presence presence (ne_node_id payload) (ne_signer_agent_did payload)
      else Ok ()
  | SpacePresence =>
      _ ← bail_if (negb (bool_decide (ne_visibility payload = Public)) ||
                   negb (bool_decide (ne_provisional_policy payload = NeverBeforeConfirmation)))
            "space presence must be confirmed public data";
      presence ← space_presence_from_value (ne_payload payload);
      validate_presence presence
  | WorldEvent =>
      _ ← bail_if (negb (bool_decide (ne_visibility payload = Public)) ||
                   negb (bool_decide (ne_provisional_policy payload = NeverBeforeConfirmation)))
            "world events must be confirmed public data";
      validate_world_event (ne_payload payload)
  | _ => Ok ()
  end.

Definition is_space_event (event : SignedNodeEvent) : bool :=
  match ne_data_kind (sn_payload event) with
  | SpacePresence | WorldEvent => true
  | _ => false
  end.

(** ** Board messages *)

(** For a row claiming to be an EventAnnouncement, the signed payload it must carry
    ([Null] when missing). *)
Definition board_announcement (value : Value) : option Value :=
  let content := value_get value "content" in
  let typed := bool_decide ((content ≫= fun content => value_get content "type") ≫= as_str
                            = Some "EventAnnouncement") in
  let kind := bool_decide (value_get value "global_kind" ≫= as_str = Some "EventAnnouncement") in
  if typed || kind
  then Some (default VNull (content ≫= fun content => value_get content "payload"))
  else None.

Definition trusted_board_message_with_authorities (value : Value)
    (authorities : gmap string string) : result string Value :=
  match as_object value with
  | None => Ok value
  | Some object =>
      match board_announcement value with
      | None => Ok (VObject (delete "world_event" object))
      | Some announcement =>
          _ ← validate_world_event_with_authorities announcement authorities;
          world ← world_event_from_value (value_index announcement "content");
          world ← world_event_to_value world;
          Ok (VObject (<["world_event" := world]> object))
      end
  end.

Definition trusted_board_message (value : Value) : result string Value :=
  match board_announcement value with
  | None => trusted_board_message_with_authorities value ∅
  | Some _ =>
      authorities ← trusted_network_authorities;
      trusted_board_message_with_authorities value authorities
  end.

Definition trusted_board_messages (values : list Value) : list Value :=
  omap (fun value => match trusted_board_message value with
                     | Ok value => Some value
                     | Err _ => None
                     end) values.
End validation.

(** ** Storage *)

Section storage.
Context `{UJ : UiEventJson, GH : GwHost, SC : !SpaceCodec, SI : Signatures, SR : !SignedRecords,
          HX : Hex, SE : SpaceEnv, CC : ContractCodec, PC : PgCollation}.

(** [insert into gateway_space_presence .. on conflict do update .. where
    gateway_space_presence.seq < excluded.seq], and whether a row was written. *)
Definition upsert_presence (presence : SignedSpacePresence) (node_id : string)
    (source_id : option string) (d : GwDb) : bool * GwDb :=
  let record := ss_record presence in
  let key := (pr_network_id record, pr_space_id record, pr_agent_did record) in
  let row := {| sw_seq := pr_seq record; sw_source_node_id := node_id;
                sw_source_id := source_id; sw_payload := presence |} in
  match gd_space_presence d !! key with
  | Some old =>
      if (sw_seq old <? pr_seq record)%Z
      then (true, on_space_presence <[key := row]> d) else (false, d)
  | None => (true, on_space_presence <[key := row]> d)
  end.

Definition upsert_node_presence (presence : NodePresence) (source_id : option string) (d : GwDb) :
    bool * GwDb :=
  let key := (np_node_id presence, np_agent_did presence) in
  let row := {| nr_last_heartbeat_ms := np_last_heartbeat_ms presence;
                nr_source_id := source_id; nr_payload := presence |} in
  match gd_node_presence d !! key with
  | Some old =>
      if (nr_last_heartbeat_ms old <? np_last_heartbeat_ms presence)%Z
      then (true, on_node_presence <[key := row]> d) else (false, d)
  | None => (true, on_node_presence <[key := row]> d)
  end.

(** [insert into gateway_space_events .. on conflict do nothing]; the columns of the key
    are not null. *)
Definition upsert_world_event (payload : Value) (node_id : string) (source_id : option string)
    (d : GwDb) : result string (bool * GwDb) :=
  world ← world_event_from_value (value_index payload "content");
  network_id ← ok_or (as_str (value_index payload "network_id")) "null value violates constraint";
  announcement_id ← ok_or (as_str (value_index payload "announcement_id"))
    "null value violates constraint";
  let row := {| sv_space_id := wo_space_id world; sv_place_id := wo_place_id world;
                sv_source_node_id := node_id; sv_source_id := source_id; sv_payload := payload |} in
  match gd_space_events d !! (network_id, announcement_id) with
  | Some _ => Ok (false, d)
  | None => Ok (true, on_space_events <[(network_id, announcement_id) := row]> d)
  end.

(** [insert into gateway_ui_events .. 'public', false, .. to_timestamp($10::double
    precision) .. on conflict(event_id) do nothing returning *] *)
Definition insert_ui_record (now : Z) (record : InsertUiEventRecord) : G (option UiEventRow) :=
  tx_insert_event (fun cursor generated_at =>
    let row := row_of_record now cursor generated_at record in {|
      er_cursor := er_cursor row; er_event_id := er_event_id row; er_source_id := er_source_id row;
      er_node_id := er_node_id row; er_signer_agent_did := er_signer_agent_did row;
      er_data_kind := er_data_kind row; er_event_kind := er_event_kind row;
      er_visibility := "public"; er_provisional := false; er_topic_id := er_topic_id row;
      er_organization_id := er_organization_id row; er_task_id := er_task_id row;
      er_generated_at := er_generated_at row; er_ingested_at := er_ingested_at row;
      er_payload := er_payload row; er_ingest_path := er_ingest_path row;
      er_source_cursor_or_seq := er_source_cursor_or_seq row |})
    (to_timestamp (seconds (iu_generated_at record))).

Definition tx_pure {A} (f : GwDb -> A * GwDb) : G A := gtx_execute (fun d => Ok (f d)).

Definition event_outbox_record (event : SignedNodeEvent) : result string InsertP2pOutboxRecord :=
  payload ← signed_event_to_value event;
  Ok {| io_dedupe_key := "event:" +:+ ne_event_id (sn_payload event);
        io_command_kind := P2P_OUTBOX_COMMAND_EVENT; io_payload := payload |}.

(** The write of the space record of an event. *)
Definition upsert_space_record (event : SignedNodeEvent) (source_id : option string) : G bool :=
  let payload := sn_payload event in
  match ne_data_kind payload with
  | SpacePresence =>
      presence ← lift (space_presence_from_value (ne_payload payload));
      tx_pure (upsert_presence presence (ne_node_id payload) source_id)
  | WorldEvent =>
      gtx_execute (upsert_world_event (ne_payload payload) (ne_node_id payload) source_id)
  | _ => throw "internal error: entered unreachable code"
  end.

Definition persist_event (event : SignedNodeEvent) (source_id : option string)
    (announce_p2p : bool) : G (option UiEventRow) :=
  let payload := sn_payload event in
  now ← gbegin;
  accepted ← upsert_space_record event source_id;
  if negb accepted then _ ← grollback; mret None
  else
    data_kind ← lift (data_kind_name (ne_data_kind payload));
    row ← insert_ui_record now {|
      iu_event_id := ne_event_id payload; iu_source_id := source_id;
      iu_node_id := ne_node_id payload; iu_signer_agent_did := ne_signer_agent_did payload;
      iu_data_kind := data_kind; iu_event_kind := ne_event_kind payload;
      iu_visibility := "public"; iu_provisional := false;
      iu_topic_id := es_topic_id (ne_scope payload);
      iu_organization_id := es_organization_id (ne_scope payload);
      iu_task_id := es_task_id (ne_scope payload); iu_generated_at := ne_timestamp payload;
      iu_payload := ne_payload payload; iu_ingest_path := "event_push";
      iu_source_cursor_or_seq := i64_try_from (ne_seq payload) |};
    match row with
    | None => _ ← grollback; mret None
    | Some row =>
        _ ← whenM announce_p2p (
              outbox ← lift (event_outbox_record event);
              tx_insert_outbox now outbox);
        _ ← gcommit;
        mret (Some row)
    end.

Definition persist_node_presence (presence : NodePresence) (source_id : option string) : G bool :=
  _ ← gbegin;
  accepted ← tx_pure (upsert_node_presence presence source_id);
  _ ← gcommit;
  mret accepted.

(** *** Space records of a snapshot *)

Record SnapshotSource := {
  st_source_id : option string;
  st_node_id : string;
  st_signer_agent_did : string;
}.

Definition insert_snapshot_ui_record (now : Z) (source : SnapshotSource)
    (event_id data_kind event_kind : string) (generated_at : Z) (payload : Value) :
    G (option UiEventRow) :=
  insert_ui_record now {|
    iu_event_id := event_id; iu_source_id := st_source_id source; iu_node_id := st_node_id source;
    iu_signer_agent_did := st_signer_agent_did source; iu_data_kind := data_kind;
    iu_event_kind := event_kind; iu_visibility := "public"; iu_provisional := false;
    iu_topic_id := None; iu_organization_id := None; iu_task_id := None;
    iu_generated_at := generated_at; iu_payload := payload; iu_ingest_path := "snapshot_push";
    iu_source_cursor_or_seq := None |}.

Definition push_opt {A} (rows : list A) (row : option A) : list A :=
  match row with Some row => rows ++ [row] | None => rows end.

Definition snapshot_presence (now : Z) (source : SnapshotSource) (presence : SignedSpacePresence) :
    G (option UiEventRow) :=
  match validate_presence presence with
  | Err _ => mret None
  | Ok _ =>
      let record := ss_record presence in
      accepted ← tx_pure (upsert_presence presence (st_node_id source) (st_source_id source));
      if (accepted : bool) then
        payload ← lift (space_presence_to_value presence);
        insert_snapshot_ui_record now source
          ("space-presence:" +:+ pr_network_id record +:+ ":" +:+ pr_space_id record +:+ ":" +:+
           pr_agent_did record +:+ ":" +:+ show_u64 (pr_seq record))
          "space_presence" "space.presence.changed" (pr_updated_at record `quot` 1000) payload
      else mret None
  end.

Definition snapshot_node_presence (now : Z) (source : SnapshotSource) (presence : NodePresence) :
    G (option UiEventRow) :=
  match validate_node_presence presence (st_node_id source) (st_signer_agent_did source) with
  | Err _ => mret None
  | Ok _ =>
      accepted ← tx_pure (upsert_node_presence presence (st_source_id source));
      if (accepted : bool) then
        payload ← lift (node_presence_to_value presence);
        insert_snapshot_ui_record now source
          ("node-presence:" +:+ np_node_id presence +:+ ":" +:+ np_agent_did presence +:+ ":" +:+
           show_i64 (np_last_heartbeat_ms presence))
          "presence" "node.presence.heartbeat" (np_last_heartbeat_ms presence `quot` 1000) payload
      else mret None
  end.

Definition snapshot_world_event (now : Z) (source : SnapshotSource) (payload : Value) :
    G (option UiEventRow) :=
  match validate_world_event payload with
  | Err _ => mret None
  | Ok _ =>
      accepted ← gtx_execute (upsert_world_event payload (st_node_id source) (st_source_id source));
      if (accepted : bool) then
        announcement ← lift (announcement_from_value payload);
        generated_at ← lift (ok_or (i64_try_from (ea_issued_at announcement `div` 1000))
          "out of range integral type conversion attempted");
        insert_snapshot_ui_record now source
          ("world-event:" +:+ ea_network_id announcement +:+ ":" +:+ ea_announcement_id announcement)
          "world_event" "space.world_event.published" generated_at payload
      else mret None
  end.

(** A loop that collects the rows it inserts. *)
Fixpoint collect_rows {A} (items : list A) (step : A -> G (option UiEventRow))
    (rows : list UiEventRow) : G (list UiEventRow) :=
  match items with
  | [] => mret rows
  | item :: items => row ← step item; collect_rows items step (push_opt rows row)
  end.

Definition persist_snapshot_space (source_id : option string) (snapshot : PublicClientSnapshot)
    (signer_agent_did : string) : G (list UiEventRow) :=
  now ← gbegin;
  let source := {| st_source_id := source_id; st_node_id := cs_node_id snapshot;
                   st_signer_agent_did := signer_agent_did |} in
  rows ← collect_rows (cs_space_presences snapshot) (snapshot_presence now source) [];
  rows ← collect_rows (option_list (cs_node_presence snapshot)) (snapshot_node_presence now source)
           rows;
  rows ← collect_rows (cs_world_events snapshot) (snapshot_world_event now source) rows;
  _ ← gcommit;
  mret rows.

(** ** Queries *)

(** [i64::saturating_add] *)
Definition sat_add_i64 (a b : Z) : Z := Z.max i64_min (Z.min i64_max (a + b)).

Definition heartbeat_is_current (heartbeat : NodePresence) (now : Z) : bool :=
  (now <=? sat_add_i64 (np_last_heartbeat_ms heartbeat)
             (3 * np_heartbeat_interval_sec heartbeat * 1000))%Z.

(** [order by a, b] on text columns. *)
Definition text_le2 {A} (key : A -> string * string) (a b : A) : Prop :=
  if bool_decide ((key a).1 = (key b).1) then text_leb (key a).2 (key b).2 = true
  else text_leb (key a).1 (key b).1 = true.
Global Instance text_le2_dec {A} (key : A -> string * string) : RelDecision (text_le2 key).
Proof. intros a b. unfold text_le2. case_bool_decide; apply _. Defined.

(** [left join node_sources .. where source_id is null or source_status = 'active'] *)
Definition node_presences : G (list NodePresence) :=
  gquery (fun _ d => (fun entry => nr_payload entry.2) <$>
    merge_sort (text_le2 fst)
      (filter (fun entry => visible d (nr_source_id entry.2) = true)
        (map_to_list (gd_node_presence d)))).

(** The order of [distinct on (network_id, agent_did) .. order by seq desc, space_id]. *)
Definition presence_before (a b : string * string * string * SpacePresenceRow) : Prop :=
  (sw_seq b.2 < sw_seq a.2)%Z ∨ (sw_seq a.2 = sw_seq b.2 ∧ text_leb a.1.1.2 b.1.1.2 = true).
Global Instance presence_before_dec : RelDecision presence_before.
Proof. intros a b. unfold presence_before. apply _. Defined.

(** The presences of an agent in a network, the newest first. *)
Definition agent_rows (d : GwDb) (network_id agent_did : string) :
    list (string * string * string * SpacePresenceRow) :=
  merge_sort presence_before
    (filter (fun '((n, s, a), row) => n = network_id ∧ a = agent_did)
      (map_to_list (gd_space_presence d))).

(** The row that stands for its agent. *)
Definition newest_of_agent (d : GwDb) (entry : string * string * string * SpacePresenceRow) : bool :=
  match head (agent_rows d entry.1.1.1 entry.1.2) with
  | Some newest => bool_decide (newest.1 = entry.1)
  | None => false
  end.

Definition presence_values (network_id space_id : option string) :
    G (list (SignedSpacePresence * string)) :=
  gquery (fun _ d =>
    (fun entry => (sw_payload entry.2, sw_source_node_id entry.2)) <$>
    merge_sort (text_le2 (fun entry => (entry.1.1.1, entry.1.2)))
      (filter (fun entry => newest_of_agent d entry && unset_or network_id entry.1.1.1 &&
          negb (bool_decide (entry.1.1.1 = "")) && unset_or space_id entry.1.1.2 &&
          visible d (sw_source_id entry.2) = true)
        (map_to_list (gd_space_presence d)))).

Record SpaceObservationQuery := {
  oq_network_id : option string;
  oq_space_id : option string;
  oq_place_id : option string;
}.

Definition validate_observation_query (query : SpaceObservationQuery) : result string () :=
  _ ← bail_if (from_option is_blank false (oq_network_id query)) "network_id must not be empty";
  bail_if (from_option is_blank false (oq_space_id query)) "space_id must not be empty".

(** The presences that the handler [presences] reports: agents that have entered, with a
    current heartbeat of their node. *)
Definition present (heartbeats : list NodePresence) (now : Z)
    (entry : SignedSpacePresence * string) : bool :=
  pr_entered (ss_record entry.1) &&
  existsb (fun heartbeat => bool_decide (np_node_id heartbeat = entry.2) &&
    bool_decide (np_agent_did heartbeat = pr_agent_did (ss_record entry.1)) &&
    heartbeat_is_current heartbeat now) heartbeats.

End storage.
