(* ===== verification/ReadModels.v ===== *)
(** * Read models of snapshots

    Models [crates/gateway/src/read_models.rs]: the projection rows a snapshot stands
    for, and their storage together with the space records of the snapshot. *)

From stdpp Require Import sorting.
From S2P Require Import Prelude Str External GwValue Contracts GwModels Verify UiHub GwDb Space.

Section seeds.
Context `{SC : SpaceCodec, SI : Signatures, SR : !SignedRecords, HX : Hex, SE : SpaceEnv}.

Record ProjectionSeed := {
  sd_data_kind : DataKind;
  sd_identity_key : string;
  sd_source_node_id : string;
  sd_source_id : option string;
  sd_generated_at : Z;
  sd_visibility : Visibility;
  sd_payload : Value;
  sd_provenance : Value;
}.

Definition default_provenance (source_node_id : string) (generated_at : Z) (ingest_path : string) :
    Value :=
  json_object [
    ("source_node_id", VString source_node_id);
    ("source_cursor_or_seq", VNumber generated_at);
    ("ingest_path", VString ingest_path);
    ("last_confirmed_at", VNumber generated_at);
    ("last_provisional_at", VNull)].

Definition attach_generated_at (value : Value) (generated_at : Z) : Value :=
  match as_object value with
  | Some object => VObject (or_insert "snapshot_generated_at" (VNumber generated_at) object)
  | None => value
  end.

Definition singleton_seed (source_id : option string) (source_node_id : string)
    (generated_at : Z) (data_kind : DataKind) (value : Value) : ProjectionSeed := {|
  sd_data_kind := data_kind;
  sd_identity_key := projection_identity_key data_kind value source_node_id;
  sd_source_node_id := source_node_id; sd_source_id := source_id;
  sd_generated_at := generated_at; sd_visibility := visibility_for_kind data_kind;
  sd_payload := value;
  sd_provenance := default_provenance source_node_id generated_at "snapshot_push" |}.

Definition fanout_array (source_id : option string) (source_node_id : string)
    (generated_at : Z) (data_kind : DataKind) (values : list Value) : list ProjectionSeed :=
  (fun value => {|
    sd_data_kind := data_kind;
    sd_identity_key := projection_identity_key data_kind value source_node_id;
    sd_source_node_id := source_node_id; sd_source_id := source_id;
    sd_generated_at := generated_at; sd_visibility := visibility_for_kind data_kind;
    sd_payload := attach_generated_at value generated_at;
    sd_provenance := default_provenance source_node_id generated_at "snapshot_push" |}) <$> values.

Definition snapshot_projection_seeds (source_id : option string) (snapshot : PublicClientSnapshot) :
    list ProjectionSeed :=
  let source_node_id := cs_node_id snapshot in
  let generated_at := cs_generated_at snapshot in
  let fanout := fanout_array source_id source_node_id generated_at in
  [singleton_seed source_id source_node_id generated_at NetworkProjection (json_object [
     ("node_id", VString (cs_node_id snapshot));
     ("network_name", json_opt VString (cs_network_name snapshot));
     ("network_org_name", json_opt VString (cs_network_org_name snapshot));
     ("network_status", cs_network_status snapshot);
     ("peers", VArray (cs_peers snapshot))]);
   singleton_seed source_id source_node_id generated_at OperatorProfile
     (attach_generated_at (cs_operator snapshot) generated_at)] ++
  fanout PublicBlock (cs_public_blocks snapshot) ++
  fanout HiveMetadata (cs_public_topics snapshot) ++
  fanout HiveActivity (cs_public_topic_messages snapshot) ++
  fanout BoardActivity (trusted_board_messages (cs_public_board_messages snapshot)) ++
  fanout TaskSummary (cs_tasks snapshot) ++
  fanout OrganizationSummary (cs_organizations snapshot) ++
  fanout RankingProjection (cs_leaderboard snapshot).
End seeds.

Section read_models.
Context `{UJ : UiEventJson, GH : GwHost, SC : !SpaceCodec, SI : Signatures, SR : !SignedRecords,
          HX : Hex, SE : SpaceEnv, CC : ContractCodec}.

Definition persist_seed (seed : ProjectionSeed) : G () :=
  data_kind ← lift (data_kind_name (sd_data_kind seed));
  visibility ← lift (visibility_name (sd_visibility seed));
  upsert_projection_row {|
    up_data_kind := data_kind; up_identity_key := sd_identity_key seed;
    up_source_node_id := sd_source_node_id seed; up_source_id := sd_source_id seed;
    up_generated_at := sd_generated_at seed; up_visibility := visibility;
    up_payload := sd_payload seed; up_provenance := sd_provenance seed |}.

Definition persist_snapshot_read_models (source_id : option string)
    (snapshot : PublicClientSnapshot) (signer_agent_did : string) : G (list UiEventRow) :=
  space_rows ← persist_snapshot_space source_id snapshot signer_agent_did;
  _ ← for_each (snapshot_projection_seeds source_id snapshot) persist_seed;
  mret space_rows.

(** [select .. from gateway_projection_rows where data_kind = $1 and (..) order by
    generated_at desc, source_node_id asc] *)
Definition projection_before `{PgCollation} (a b : ProjectionRow) : Prop :=
  (pj_generated_at b < pj_generated_at a)%Z ∨
  (pj_generated_at a = pj_generated_at b ∧
   text_leb (pj_source_node_id a) (pj_source_node_id b) = true).
Global Instance projection_before_dec `{PgCollation} : RelDecision projection_before.
Proof. intros a b. unfold projection_before. apply _. Defined.

Definition list_projection_rows `{PgCollation} (data_kind : string) : G (list ProjectionRow) :=
  gquery (fun _ d => merge_sort projection_before
    (filter (fun row => bool_decide (pj_data_kind row = data_kind) &&
                        visible d (pj_source_id row) = true)
      (map_to_list (gd_projections d)).*2)).

Definition list_projection_payloads `{PgCollation} (data_kind : DataKind) : G (list Value) :=
  name ← lift (data_kind_name data_kind);
  rows ← list_projection_rows name;
  mret (pj_payload <$> rows).
End read_models.
