(* ===== verification/Ingest.v ===== *)
(** * Ingestion of snapshots and events

    Models the ingestion of signed snapshots ([crates/gateway/src/http.rs],
    [ingest_signed_snapshot] and its callers) and of signed events
    ([crates/gateway/src/streaming.rs], [persist_signed_node_event] with its gap
    refresh), with the publication on the event hub, on the message bus and in the
    outbox of announcements.  The artifact store, the message bus and the HTTP client of
    the nodes are interfaces. *)

From S2P Require Import Prelude Str External GwValue Contracts GwModels Verify UiHub GwDb Normalize Space ReadModels.

(** The parts of [AppState] that decide what ingestion does. *)
Record AppState := {
  ap_nats : bool;
  ap_registry_admin_token : option string;
  ap_bootstrap_registry_urls : list string;
  ap_gateway_network : bool;
  ap_gateway_sync_tx : bool;
}.

Class GwNet `{SV : SerdeValue} := {
  (** The outcome of a publication on the message bus. *)
  bus_fault : nat -> option string;
  (** The outcome of [persist_snapshot_artifact]. *)
  artifact_fault : nat -> option string;
  (** [NodeClient::fetch_signed_snapshot] *)
  fetch_signed_snapshot : nat -> string -> result string SignedPublicClientSnapshot;
  (** [serde_json::to_value] of a snapshot. *)
  snapshot_to_value : PublicClientSnapshot -> result string Value;
  (** [Utc::now().to_rfc3339()] *)
  to_rfc3339 : Z -> string;
}.

Section ingest.
Context `{UJ : UiEventJson, GH : GwHost, SC : !SpaceCodec, SI : Signatures, SR : !SignedRecords,
          HX : Hex, SE : SpaceEnv, CC : ContractCodec, GN : !GwNet}.

(** [AppState::publish_event] *)
Definition publish_event (state : AppState) (subject : string) (payload : Value) : G () :=
  whenM (ap_nats state) (
    t ← gtick;
    match bus_fault t with
    | Some error => throw error
    | None => modify (fun w => set_bus (g_bus w ++ [(subject, payload)]) w)
    end).

(** [let _ = state.publish_event(..).await]: the outcome is ignored. *)
Definition announce_on_bus (state : AppState) (subject : string) (payload : Value) : G () :=
  _ ← attempt (publish_event state subject payload); mret ().

(** [AppState::publish_ui_event] *)
Definition publish_ui_event (event : GatewayUiEvent) : G () :=
  modify (fun w => set_hub (hub_publish event (g_hub w)) w).

(** [let _ = tx.try_send(GatewayP2pSyncCommand)] *)
Definition wake_sync : G () := modify (fun w => set_wakeups (S (g_wakeups w)) w).

Definition persist_snapshot_artifact (snapshot : SignedPublicClientSnapshot) : G () :=
  t ← gtick;
  match artifact_fault t with
  | Some error => throw error
  | None => modify (fun w => set_artifacts (g_artifacts w ++ [snapshot]) w)
  end.

Definition now_rfc3339 : G string := now ← gutc; mret (to_rfc3339 now).

(** ** Snapshots *)

Definition snapshot_record (snapshot : SignedPublicClientSnapshot) (source_id : option string)
    (payload_json : Value) : UpsertSnapshotRecord := {|
  us_source_id := source_id; us_node_id := cs_node_id (sc_payload snapshot);
  us_signer_agent_did := sc_signer_agent_did snapshot;
  us_public_key := cs_public_key (sc_payload snapshot);
  us_generated_at := cs_generated_at (sc_payload snapshot); us_payload := payload_json;
  us_signature := sc_signature snapshot |}.

Definition snapshot_announcement (snapshot : SignedPublicClientSnapshot) :
    SnapshotP2pAnnouncement := {|
  sp_node_id := cs_node_id (sc_payload snapshot);
  sp_signer_agent_did := sc_signer_agent_did snapshot;
  sp_generated_at := cs_generated_at (sc_payload snapshot) |}.

(** The read models of a snapshot that was applied. *)
Definition apply_snapshot (state : AppState) (snapshot : SignedPublicClientSnapshot)
    (source_id : option string) (announce_p2p : bool) : G () :=
  let payload := sc_payload snapshot in
  space_rows ← persist_snapshot_read_models source_id payload (sc_signer_agent_did snapshot);
  _ ← for_each space_rows (fun row =>
        event ← lift (ui_event_of_row row);
        publish_ui_event event);
  timestamp ← now_rfc3339;
  _ ← announce_on_bus state "gateway.snapshot.ingested" (json_object [
        ("event", VString "gateway.snapshot.ingested");
        ("source_id", json_opt VString source_id);
        ("node_id", VString (cs_node_id payload));
        ("signer_agent_did", VString (sc_signer_agent_did snapshot));
        ("generated_at", VNumber (cs_generated_at payload));
        ("timestamp", VString timestamp)]);
  whenM announce_p2p wake_sync.

Definition ingest_signed_snapshot_with_options (state : AppState)
    (snapshot : SignedPublicClientSnapshot) (source_id expected_signer_agent_did : option string)
    (announce_p2p : bool) : G bool :=
  let announce_p2p := announce_p2p && ap_gateway_sync_tx state in
  _ ← lift (verify_signed_snapshot snapshot expected_signer_agent_did);
  payload_json ← lift (snapshot_to_value (sc_payload snapshot));
  _ ← whenM (ap_gateway_network state) (persist_snapshot_artifact snapshot);
  let record := snapshot_record snapshot source_id payload_json in
  applied ← if announce_p2p
            then upsert_snapshot_with_p2p_outbox record (snapshot_announcement snapshot)
            else upsert_snapshot record;
  _ ← whenM applied (apply_snapshot state snapshot source_id announce_p2p);
  mret applied.

Definition ingest_signed_snapshot (state : AppState) (snapshot : SignedPublicClientSnapshot)
    (source_id expected_signer_agent_did : option string) : G bool :=
  ingest_signed_snapshot_with_options state snapshot source_id expected_signer_agent_did true.

Definition ingest_signed_snapshot_without_p2p_announce (state : AppState)
    (snapshot : SignedPublicClientSnapshot) (source_id expected_signer_agent_did : option string) :
    G bool :=
  ingest_signed_snapshot_with_options state snapshot source_id expected_signer_agent_did false.

Definition inactive (source : option NodeSourceRow) : bool :=
  from_option (fun source => negb (bool_decide (so_source_status source = "active"))) false source.

(** The handler of [/api/ingest/snapshot]. *)
Definition ingest_snapshot (state : AppState) (snapshot : SignedPublicClientSnapshot) : G bool :=
  resolved_source ← find_node_source_for_identity (cs_node_id (sc_payload snapshot))
    (sc_signer_agent_did snapshot);
  _ ← lift (bail_if (inactive resolved_source) "source is not active for push ingest");
  ingest_signed_snapshot state snapshot (so_id <$> resolved_source)
    (resolved_source ≫= so_expected_signer_agent_did).

(** ** Gap refresh *)

Definition refresh_subject (outcome : result string bool) : string :=
  match outcome with
  | Ok true => "gateway.event.gap_snapshot_refresh_applied"
  | Ok false => "gateway.event.gap_snapshot_refresh_skipped"
  | Err _ => "gateway.event.gap_snapshot_refresh_failed"
  end.

Definition refresh_status (outcome : result string bool) : string :=
  match outcome with
  | Ok true => "gap_snapshot_refresh"
  | Ok false => "gap_snapshot_refresh_skipped"
  | Err _ => "gap_snapshot_refresh_error"
  end.

Definition refresh_error (outcome : result string bool) : option string :=
  match outcome with Ok _ => None | Err error => Some error end.

Definition try_backfill_gap (state : AppState) (source : option NodeSourceRow) (node_id : string)
    (expected_signer_agent_did : option string) (missing_from_seq missing_to_seq : Z) : G () :=
  match source with
  | None => mret ()
  | Some source =>
      let snapshot_url := default (so_export_url source) (so_wattetheria_snapshot_export_url source) in
      outcome ← attempt (
        t ← gtick;
        snapshot ← lift (fetch_signed_snapshot t snapshot_url);
        ingest_signed_snapshot state snapshot (Some (so_id source)) expected_signer_agent_did);
      let subject := refresh_subject outcome in
      timestamp ← now_rfc3339;
      let payload := json_object [
        ("event", VString subject); ("source_id", VString (so_id source));
        ("node_id", VString node_id); ("missing_from_seq", VNumber missing_from_seq);
        ("missing_to_seq", VNumber missing_to_seq); ("snapshot_url", VString snapshot_url);
        ("timestamp", VString timestamp); ("error", json_opt VString (refresh_error outcome))] in
      let audit_payload := json_object [
        ("node_id", VString node_id); ("missing_from_seq", VNumber missing_from_seq);
        ("missing_to_seq", VNumber missing_to_seq); ("snapshot_url", VString snapshot_url)] in
      _ ← attempt (insert_audit_record {|
        ir_record_kind := subject; ir_data_kind := None; ir_identity_key := Some node_id;
        ir_source_id := Some (so_id source); ir_source_node_id := Some node_id;
        ir_generated_at := None; ir_ingest_path := "gap_snapshot_refresh";
        ir_payload := audit_payload; ir_provenance := payload |});
      _ ← announce_on_bus state subject payload;
      _ ← attempt (update_source_sync_status (so_id source) (refresh_status outcome)
            (as_str (value_index payload "error")));
      mret ()
  end.
End ingest.

(** ** Events *)

(** [i64] addition of a release build. *)
Definition wrapping_i64 (z : Z) : Z := ((z + 2 ^ 63) mod 2 ^ 64 - 2 ^ 63)%Z.

Section events.
Context `{UJ : UiEventJson, GH : GwHost, SC : !SpaceCodec, SI : Signatures, SR : !SignedRecords,
          HX : Hex, SE : SpaceEnv, CC : ContractCodec, GN : !GwNet}.

Definition materialize_projection_row (event : SignedNodeEvent) (source_id : option string)
    (provisional : bool) (data_kind : DataKind) (payload : Value) : G () :=
  let signed := sn_payload event in
  data_kind_string ← lift (data_kind_name data_kind);
  visibility ← lift (visibility_name (visibility_for_kind data_kind));
  let timestamp := VNumber (ne_timestamp signed) in
  upsert_projection_row {|
    up_data_kind := data_kind_string;
    up_identity_key := projection_identity_key data_kind payload (ne_node_id signed);
    up_source_node_id := ne_node_id signed; up_source_id := source_id;
    up_generated_at := ne_timestamp signed; up_visibility := visibility; up_payload := payload;
    up_provenance := json_object [
      ("source_node_id", VString (ne_node_id signed));
      ("source_cursor_or_seq", VNumber (ne_seq signed));
      ("ingest_path", VString "event_push");
      ("last_confirmed_at", if provisional then VNull else timestamp);
      ("last_provisional_at", if provisional then timestamp else VNull)] |}.

Definition materialize_event_projection (event : SignedNodeEvent) (source_id : option string)
    (provisional : bool) (projection : option (DataKind * Value)) : G () :=
  match projection with
  | None => mret ()
  | Some (data_kind, payload) =>
      materialize_projection_row event source_id provisional data_kind payload
  end.

(** The refresh before an event that does not follow the last one stored. *)
Definition refresh_before (state : AppState) (event : SignedNodeEvent)
    (source_id expected : option string) (resolved_source : option NodeSourceRow) : G () :=
  let payload := sn_payload event in
  last ← max_ui_event_source_seq (ne_node_id payload) source_id;
  match last, i64_try_from (ne_seq payload) with
  | Some last_seq, Some current_seq =>
      whenM (wrapping_i64 (last_seq + 1) <? current_seq)%Z
        (try_backfill_gap state resolved_source (ne_node_id payload) expected
           (wrapping_i64 (last_seq + 1)) (Z.max (ne_seq payload - 1) 0))
  | _, _ => mret ()
  end.

(** Ephemeral events are streamed and not stored, except for the heartbeat they may
    carry. *)
Definition stream_ephemeral (event : SignedNodeEvent) (source_id : option string)
    (provisional : bool) (scope : EventScope) : G () :=
  let payload := sn_payload event in
  current ← if bool_decide (ne_data_kind payload = Presence) &&
               bool_decide (ne_event_kind payload = "node.presence.heartbeat")
            then presence ← lift (node_presence_from_value (ne_payload payload));
                 persist_node_presence presence source_id
            else mret true;
  whenM current (publish_ui_event {|
    ue_cursor := 0; ue_event_id := ne_event_id payload; ue_node_id := ne_node_id payload;
    ue_data_kind := ne_data_kind payload; ue_event_kind := ne_event_kind payload;
    ue_visibility := ne_visibility payload; ue_provisional := provisional; ue_scope := scope;
    ue_generated_at := ne_timestamp payload; ue_payload := ne_payload payload |}).

(** The projection with its board message in trusted form. *)
Definition trusted_projection (event : NodeEventPayload) :
    result string (option (DataKind * Value)) :=
  match event_projection event with
  | Some (BoardActivity, payload) =>
      payload ← trusted_board_message payload; Ok (Some (BoardActivity, payload))
  | projection => Ok projection
  end.

(** The payload that subscribers receive: the projection, if it is of the event's own
    kind, and the signed payload otherwise. *)
Definition stream_payload (event : NodeEventPayload) (projection : option (DataKind * Value)) :
    Value :=
  match projection with
  | Some (kind, payload) =>
      if bool_decide (kind = ne_data_kind event) then payload else ne_payload event
  | None => ne_payload event
  end.

Definition event_record (event : NodeEventPayload) (source_id : option string)
    (data_kind visibility : string) (provisional : bool) (scope : EventScope) (ui_payload : Value) :
    InsertUiEventRecord := {|
  iu_event_id := ne_event_id event; iu_source_id := source_id; iu_node_id := ne_node_id event;
  iu_signer_agent_did := ne_signer_agent_did event; iu_data_kind := data_kind;
  iu_event_kind := ne_event_kind event; iu_visibility := visibility; iu_provisional := provisional;
  iu_topic_id := es_topic_id scope; iu_organization_id := es_organization_id scope;
  iu_task_id := es_task_id scope; iu_generated_at := ne_timestamp event; iu_payload := ui_payload;
  iu_ingest_path := "event_push"; iu_source_cursor_or_seq := i64_try_from (ne_seq event) |}.

(** What happens to an event that was already stored. *)
Definition duplicate_event (event : SignedNodeEvent) (source_id : option string)
    (provisional : bool) (projection : option (DataKind * Value)) : G () :=
  if is_space_event event then mret ()
  else
    _ ← materialize_event_projection event source_id provisional projection;
    existing ← get_ui_event_by_id (ne_event_id (sn_payload event));
    match existing with
    | Some row => event ← lift (ui_event_of_row row); publish_ui_event event
    | None => mret ()
    end.

(** The insertion of the event, by its kind. *)
Definition insert_event (event : SignedNodeEvent) (source_id : option string)
    (announce_p2p : bool) (record : InsertUiEventRecord) : G (option UiEventRow) :=
  if is_space_event event then persist_event event source_id announce_p2p
  else if announce_p2p then
    outbox ← lift (event_outbox_record event);
    insert_ui_event_with_p2p_outbox record outbox
  else insert_ui_event record.

Definition publish_stored (state : AppState) (event : SignedNodeEvent) (row : UiEventRow)
    (announce_p2p : bool) : G () :=
  ui_event ← lift (ui_event_of_row row);
  _ ← publish_ui_event ui_event;
  timestamp ← now_rfc3339;
  _ ← announce_on_bus state "gateway.event.ingested" (json_object [
        ("event", VString "gateway.event.ingested"); ("cursor", VNumber (er_cursor row));
        ("event_id", VString (er_event_id row)); ("node_id", VString (er_node_id row));
        ("data_kind", VString (er_data_kind row)); ("timestamp", VString timestamp)]);
  whenM announce_p2p wake_sync.

(** The part of [persist_signed_node_event_with_options] after the event has been
    verified and the gap before it refreshed. *)
Definition store_event (state : AppState) (event : SignedNodeEvent) (source_id : option string)
    (announce_p2p : bool) : G (option Z) :=
  let payload := sn_payload event in
  data_kind ← lift (data_kind_name (ne_data_kind payload));
  visibility ← lift (visibility_name (ne_visibility payload));
  let provisional := negb (bool_decide (ne_provisional_policy payload = NeverBeforeConfirmation)) in
  let scope := normalized_event_scope payload in
  if bool_decide (ne_provisional_policy payload = EphemeralOnly) then
    _ ← stream_ephemeral event source_id provisional scope; mret None
  else
    projection ← lift (trusted_projection payload);
    let record := event_record payload source_id data_kind visibility provisional scope
      (stream_payload payload projection) in
    inserted ← insert_event event source_id announce_p2p record;
    match inserted with
    | None => _ ← duplicate_event event source_id provisional projection; mret None
    | Some row =>
        _ ← materialize_event_projection event source_id provisional projection;
        _ ← publish_stored state event row announce_p2p;
        mret (Some (er_cursor row))
    end.

Definition persist_signed_node_event_with_options (state : AppState) (event : SignedNodeEvent)
    (source_id expected_signer_agent_did : option string) (announce_p2p : bool) : G (option Z) :=
  let payload := sn_payload event in
  let announce_p2p := announce_p2p && ap_gateway_sync_tx state in
  resolved_source ←
    if bool_decide (source_id = None) && bool_decide (expected_signer_agent_did = None)
    then find_node_source_for_identity (ne_node_id payload) (ne_signer_agent_did payload)
    else mret None;
  _ ← lift (bail_if (inactive resolved_source) "source is not active for event push ingest");
  let source_id := or_else source_id (so_id <$> resolved_source) in
  let expected := or_else expected_signer_agent_did
    (resolved_source ≫= so_expected_signer_agent_did) in
  _ ← lift (verify_signed_node_event event expected);
  _ ← lift (validate_event event);
  _ ← refresh_before state event source_id expected resolved_source;
  store_event state event source_id announce_p2p.

Definition persist_signed_node_event (state : AppState) (event : SignedNodeEvent)
    (source_id expected_signer_agent_did : option string) : G (option Z) :=
  persist_signed_node_event_with_options state event source_id expected_signer_agent_did true.

Definition persist_signed_node_event_without_p2p_announce (state : AppState)
    (event : SignedNodeEvent) (source_id expected_signer_agent_did : option string) : G (option Z) :=
  persist_signed_node_event_with_options state event source_id expected_signer_agent_did false.

(** The handler of [/api/ingest/event]. *)
Definition ingest_node_event (state : AppState) (event : SignedNodeEvent) : G (option Z) :=
  persist_signed_node_event state event None None.
End events.
