(* ===== verification/GwSamples.v ===== *)
(** * Executable instances for the gateway

    Concrete functions for the interfaces of the gateway, with which the theorems about
    it are run on examples: the toy signature scheme of [Identity], JSON decoders for
    announcements, one pinned authority, and a network without failures.  Nothing else of the development depends on them. *)

From S2P Require Import Prelude Str External GwValue Contracts GwModels Verify Identity UiHub GwDb GwStore Normalize Space ReadModels Ingest.

Section samples.
Local Existing Instances json_impl_value ui_event_json_impl frozen_gw_host codec_impl hex_impl
  signatures_impl.

Definition str_field (v : json) (key : string) : result string string :=
  ok_or (value_get v key ≫= as_str) "missing field".

Definition num_field (v : json) (key : string) : result string Z :=
  ok_or (value_get v key ≫= fun v => match v with JNumber n => Some n | _ => None end)
    "missing field".

Definition decode_world_event (v : json) : result string WorldEventRecord :=
  event_id ← str_field v "event_id";
  space_id ← str_field v "space_id";
  place_id ← str_field v "place_id";
  title ← str_field v "title";
  description ← str_field v "description";
  starts_at ← num_field v "starts_at";
  ends_at ← num_field v "ends_at";
  Ok {| wo_event_id := event_id; wo_space_id := space_id; wo_place_id := place_id;
        wo_title := title; wo_description := description; wo_starts_at := starts_at;
        wo_ends_at := ends_at |}.

Definition encode_world_event (world : WorldEventRecord) : result string json :=
  Ok (json_object [
    ("event_id", JString (wo_event_id world)); ("space_id", JString (wo_space_id world));
    ("place_id", JString (wo_place_id world)); ("title", JString (wo_title world));
    ("description", JString (wo_description world)); ("starts_at", JNumber (wo_starts_at world));
    ("ends_at", JNumber (wo_ends_at world))]).

Definition decode_announcement (v : json) : result string EventAnnouncementPayload :=
  announcement_id ← str_field v "announcement_id";
  network_id ← str_field v "network_id";
  authority_node_id ← str_field v "authority_node_id";
  issued_at ← num_field v "issued_at";
  signature ← str_field v "authority_signature";
  Ok {| ea_announcement_id := announcement_id; ea_network_id := network_id;
        ea_authority_node_id := authority_node_id; ea_issued_at := issued_at;
        ea_content := value_index v "content"; ea_authority_signature := signature |}.

Definition decode_node_presence (v : json) : result string NodePresence :=
  node_id ← str_field v "node_id";
  agent_did ← str_field v "agent_did";
  last_heartbeat_ms ← num_field v "last_heartbeat_ms";
  heartbeat_interval_sec ← num_field v "heartbeat_interval_sec";
  Ok {| np_node_id := node_id; np_agent_did := agent_did;
        np_last_heartbeat_ms := last_heartbeat_ms;
        np_heartbeat_interval_sec := heartbeat_interval_sec |}.

Definition space_codec_impl : SpaceCodec := {|
  node_presence_from_value := decode_node_presence;
  node_presence_to_value presence := Ok (JString (np_node_id presence));
  space_presence_from_value v := Err "unknown record";
  space_presence_to_value presence := Ok (JString (pr_agent_did (ss_record presence)));
  world_event_from_value := decode_world_event;
  world_event_to_value := encode_world_event;
  announcement_from_value := decode_announcement;
  signed_event_to_value event := Ok (JString (ne_event_id (sn_payload event)));
  UnsignedAnnouncement := string;
  unsigned_payload announcement := ea_announcement_id announcement;
  validate_activity activity := Ok () |}.

Definition announcement_text : Jcs (@UnsignedAnnouncement _ space_codec_impl) :=
  fun text : string => Some text.

Definition signed_records_impl : SignedRecords (SC:=space_codec_impl) := {|
  jcs_event payload := Some (ne_event_id payload);
  jcs_snapshot snapshot := Some (cs_node_id snapshot);
  jcs_presence record := Some (pr_agent_did record);
  jcs_announcement := announcement_text |}.

Definition node_key : string := fit 32 "node key".
Definition authority_key : string := fit 32 "authority key".

Definition space_env_impl : SpaceEnv := {|
  space_env_var name := Some "authorities.json";
  space_fs_read path := Some "";
  authorities_from_slice bytes := Some {["net" := hex_encode authority_key]} |}.

Definition gw_net_impl : GwNet := {|
  bus_fault t := None; artifact_fault t := None;
  fetch_signed_snapshot t url := Err "connection refused";
  snapshot_to_value snapshot := Ok (JString (cs_node_id snapshot));
  to_rfc3339 us := pretty us |}.

Definition sample_app_state : AppState := {|
  ap_nats := true; ap_registry_admin_token := Some "admin"; ap_bootstrap_registry_urls := [];
  ap_gateway_network := true; ap_gateway_sync_tx := true |}.

(** An announcement of the pinned authority, on a board message. *)
Definition sample_announcement : json := json_object [
  ("announcement_id", JString "fair"); ("network_id", JString "net");
  ("authority_node_id", JString (hex_encode authority_key)); ("issued_at", JNumber 5000);
  ("authority_signature", JString (hex_encode (toy_sign authority_key "fair")));
  ("content", json_object [
    ("event_id", JString "fair"); ("space_id", JString "plaza"); ("place_id", JString "stage");
    ("title", JString "Fair"); ("description", JString ""); ("starts_at", JNumber 10);
    ("ends_at", JNumber 20)])].

Definition sample_event (event_id : string) (kind : DataKind) (seq : Z) (payload : json) :
    SignedNodeEvent := {|
  sn_payload := {|
    ne_event_id := event_id; ne_node_id := "node"; ne_public_key := dotted node_key;
    ne_signer_agent_did := "did:key:" +:+ node_key; ne_seq := seq; ne_timestamp := 100;
    ne_data_kind := kind; ne_event_kind := "board.posted"; ne_visibility := Public;
    ne_provisional_policy := NeverBeforeConfirmation;
    ne_scope := {| es_node_id := None; es_topic_id := None; es_organization_id := None; es_task_id := None |};
    ne_identity_key := None; ne_payload := payload |};
  sn_signature := dotted (toy_sign node_key event_id) |}.

Definition sample_board_event : SignedNodeEvent :=
  sample_event "e1" BoardActivity 1 (json_object [
    ("content", json_object [("type", JString "EventAnnouncement");
                             ("payload", sample_announcement)])]).

Definition sample_world_event : SignedNodeEvent := sample_event "e2" WorldEvent 2 sample_announcement.
End samples.
