(* ===== verification/Progress.v ===== *)
(** * What ingestion leaves in place

    The invariant of the gateway's database (every event has its own id and a cursor
    above those before it, outbox rows carry numbers that were drawn) and the order in
    which ingestion moves it: the event log and the audit log only grow, the newest
    snapshot, projection, presence and heartbeat win, announcements stay queued and the
    registry is not touched.  Both are proved of every path through the ingestion of
    [Ingest], whatever statements fail. *)

From stdpp Require Import sorting.
From S2P Require Import Prelude Str External GwValue Contracts GwModels Verify Identity UiHub GwDb GwStore Normalize Space ReadModels Ingest.

(** ** Order on databases *)

Section grows.
Context `{SV : SerdeValue}.

(** Every row of [m] is in [m'], with a key at least as high. *)
Definition advances {K V} `{Countable K} (key : V -> Z) (m m' : gmap K V) : Prop :=
  ∀ k v, m !! k = Some v → ∃ v', m' !! k = Some v' ∧ (key v <= key v')%Z.

Global Instance advances_preorder {K V} `{Countable K} (key : V -> Z) :
  PreOrder (advances (K:=K) key).
Proof.
  split; [intros m k v ?; eauto with lia|].
  intros m1 m2 m3 H1 H2 k v (v' & (v'' & ? & ?)%H2 & ?)%H1. eauto with lia.
Qed.

(** A row that is written only when it is newer than the one it replaces. *)
Lemma advances_insert {K V} `{Countable K} (key : V -> Z) (m : gmap K V) k v :
  (∀ old, m !! k = Some old → (key old <= key v)%Z) → advances key m (<[k := v]> m).
Proof.
  intros Hold k' v' Hk'. destruct (decide (k = k')) as [<-|].
  - exists v. rewrite lookup_insert_eq. auto.
  - exists v'. by rewrite lookup_insert_ne.
Qed.

(** A source without the columns that record its last synchronisation. *)
Definition source_core (row : NodeSourceRow) : NodeSourceRow := set_sync_status 0 "" None row.

Record grows (d d' : GwDb) : Prop := {
  gr_log : gd_ui_events d `prefix_of` gd_ui_events d';
  gr_snapshots : advances sr_generated_at (gd_snapshots d) (gd_snapshots d');
  gr_projections : advances pj_generated_at (gd_projections d) (gd_projections d');
  gr_presence : advances sw_seq (gd_space_presence d) (gd_space_presence d');
  gr_heartbeats : advances nr_last_heartbeat_ms (gd_node_presence d) (gd_node_presence d');
  gr_world : gd_space_events d ⊆ gd_space_events d';
  gr_outbox : gd_outbox d ⊆ gd_outbox d';
  gr_audit : gd_audit d `prefix_of` gd_audit d';
  gr_registry : gd_registry d' = gd_registry d;
  gr_sources : source_core <$> gd_sources d' = source_core <$> gd_sources d;
}.

Global Instance grows_preorder : PreOrder grows.
Proof.
  split; [by split|]. intros a b c [] []. split; first [by etrans|congruence].
Qed.

(** The numbers below [cursor_seq] and [outbox_seq] have been drawn. *)
Record db_ok (cursor_seq outbox_seq : Z) (d : GwDb) : Prop := {
  dk_ids : NoDup (er_event_id <$> gd_ui_events d);
  dk_cursors : StronglySorted Z.lt (er_cursor <$> gd_ui_events d);
  dk_drawn : Forall (fun row => (er_cursor row < cursor_seq)%Z) (gd_ui_events d);
  dk_outbox : map_Forall (fun id _ => (id < outbox_seq)%Z) (gd_outbox d);
}.

Lemma db_ok_mono c o c' o' d : db_ok c o d → (c <= c')%Z → (o <= o')%Z → db_ok c' o' d.
Proof.
  intros [] ??. split; [done|done| |].
  - eapply Forall_impl; [done|]. cbn. lia.
  - eapply map_Forall_impl; [done|]. cbn. lia.
Qed.

(** Neither the log nor the outbox has moved. *)
Definition beside_log (d d' : GwDb) : Prop :=
  grows d d' ∧ gd_ui_events d' = gd_ui_events d ∧ gd_outbox d' = gd_outbox d.

Global Instance beside_log_refl : Reflexive beside_log.
Proof. intros d. by split_and!. Qed.

Lemma beside_log_ok d d' c o : beside_log d d' → db_ok c o d → db_ok c o d'.
Proof. intros (_ & Hl & Ho) []. by split; rewrite ?Hl, ?Ho. Qed.

(** The transaction view builds on the committed database. *)
Record gw_ok (w : GwWorld) : Prop := {
  gk_db : db_ok (g_cursor_seq w) (g_outbox_seq w) (g_db w);
  gk_tx : db_ok (g_cursor_seq w) (g_outbox_seq w) (g_tx w);
  gk_view : grows (g_db w) (g_tx w);
}.

Record progress (w w' : GwWorld) : Prop := {
  ps_cursor : (g_cursor_seq w <= g_cursor_seq w')%Z;
  ps_outbox : (g_outbox_seq w <= g_outbox_seq w')%Z;
  ps_ok : gw_ok w → gw_ok w' ∧ grows (g_db w) (g_db w');
}.

Global Instance progress_preorder : PreOrder progress.
Proof.
  split; [by split; [done|done|]|]. intros a b c [] []. split; [lia|lia|].
  intros Hok. destruct ps_ok0 as [? ?]; [done|]. destruct ps_ok1 as [? ?]; [done|].
  split; [done|]. by etrans.
Qed.

(** Steps that do not touch the database. *)
Lemma progress_beside w w' :
  g_db w' = g_db w → g_tx w' = g_tx w →
  (g_cursor_seq w <= g_cursor_seq w')%Z → (g_outbox_seq w <= g_outbox_seq w')%Z → progress w w'.
Proof.
  intros Hd Ht Hc Ho. split; [done|done|]. intros []. rewrite Hd. split; [|done].
  split; rewrite ?Hd, ?Ht; [by eapply db_ok_mono..|done].
Qed.
End grows.

(** ** Single statements *)

Section statements.
Context `{UJ : UiEventJson, GH : GwHost}.

Lemma gtick_progress : always progress gtick.
Proof. intros w. by apply progress_beside. Qed.

Lemma next_cursor_progress : always progress next_cursor.
Proof. intros w. apply progress_beside; cbn; first [done|lia]. Qed.

Lemma next_outbox_id_progress : always progress next_outbox_id.
Proof. intros w. apply progress_beside; cbn; first [done|lia]. Qed.
#[local] Hint Resolve gtick_progress next_cursor_progress next_outbox_id_progress : gw_always.

Lemma gstatement_progress : always progress gstatement.
Proof. unfold gstatement. solve_always. Qed.
#[local] Hint Resolve gstatement_progress : gw_always.

Lemma gutc_progress : always progress gutc.
Proof. unfold gutc. solve_always. Qed.

Lemma gquery_progress {A} (f : Z -> GwDb -> A) : always progress (gquery f).
Proof. unfold gquery. solve_always. Qed.

Lemma gbegin_progress : always progress gbegin.
Proof.
  unfold gbegin. apply always_bind; [apply _|solve_always|]. intros now w. cbn.
  split; [done|done|]. intros []. split; [|done]. by split.
Qed.

Lemma gcommit_progress : always progress gcommit.
Proof.
  unfold gcommit. apply always_bind; [apply _|solve_always|]. intros now w. cbn.
  split; [done|done|]. intros []. split; [|done]. by split.
Qed.

Lemma grollback_progress : always progress grollback.
Proof. unfold grollback. solve_always. Qed.

Lemma gexecute_progress {A} (f : Z -> GwDb -> result string (A * GwDb)) :
  (∀ now d a d', f now d = Ok (a, d') → beside_log d d') → always progress (gexecute f).
Proof.
  intros Hf. unfold gexecute. apply always_bind; [apply _|solve_always|]. intros now w.
  unfold mbind, M_bind, gets, lift. destruct (f now (g_db w)) as [[a d']|e] eqn:H; [|cbn; by apply progress_beside].
  apply Hf in H. split; [done|done|]. intros []. cbn. split; [|apply H].
  split; cbn; [by eapply beside_log_ok..|done].
Qed.

(** A statement of the open transaction in [w], after numbers have been drawn since [w0]. *)
Lemma gtx_execute_run {A} (f : GwDb -> result string (A * GwDb)) w0 w :
  g_db w = g_db w0 → g_tx w = g_tx w0 →
  (g_cursor_seq w0 <= g_cursor_seq w)%Z → (g_outbox_seq w0 <= g_outbox_seq w)%Z →
  (∀ a d', f (g_tx w0) = Ok (a, d') → gw_ok w0 →
     grows (g_tx w0) d' ∧ db_ok (g_cursor_seq w) (g_outbox_seq w) d') →
  progress w0 (gtx_execute f w).2.
Proof.
  intros Hdb Htx Hc Ho Hf.
  unfold gtx_execute, gstatement, gtick, mbind, M_bind, gets, lift, modify.
  cbn. destruct (gw_fault (g_tick w)); cbn; [by apply progress_beside|]. rewrite Htx.
  destruct (f (g_tx w0)) as [[a d']|e] eqn:H; cbn; [|by apply progress_beside].
  split; [done|done|]. intros Hok. destruct (Hf a d' eq_refl Hok) as [Hg Hd], Hok.
  cbn. rewrite Hdb. split; [|done]. split; cbn; rewrite ?Hdb; [|done|by etrans].
  by eapply db_ok_mono.
Qed.

Lemma gtx_execute_progress {A} (f : GwDb -> result string (A * GwDb)) :
  (∀ d a d', f d = Ok (a, d') → beside_log d d') → always progress (gtx_execute f).
Proof.
  intros Hf w. apply gtx_execute_run; try done. intros a d' H%Hf []. split; [apply H|].
  by eapply beside_log_ok.
Qed.

(** *** Log and outbox *)

Lemma event_by_id_none id rows : event_by_id id rows = None → id ∉ er_event_id <$> rows.
Proof.
  unfold event_by_id. intros H%fmap_None Hin. rewrite list_find_None, Forall_forall in H.
  apply list_elem_of_fmap in Hin as (row & -> & Hrow). by apply (H row).
Qed.

Lemma insert_event_row_ok c o row d row' d' :
  insert_event_row row d = (row', d') → er_cursor row = c → db_ok c o d →
  grows d d' ∧ db_ok (c + 1) o d'.
Proof.
  unfold insert_event_row. intros H Hc Hok. destruct (event_by_id _ _) eqn:He; simplify_eq.
  { split; [done|]. eapply db_ok_mono; [done|lia|lia]. }
  apply event_by_id_none in He. destruct Hok as [Hid Hs Hd Ho]. split.
  { split; cbn; try done. by eexists. }
  split; cbn; rewrite ?fmap_app; cbn.
  - apply NoDup_app. split_and!; [done|set_solver|apply NoDup_singleton].
  - apply StronglySorted_app_2; [|done|by repeat constructor].
    intros x y Hx Hy. apply list_elem_of_fmap in Hx as (r & -> & Hr).
    apply list_elem_of_singleton in Hy as ->. by rewrite Forall_forall in Hd; apply Hd.
  - apply Forall_app. split; [|by repeat constructor; lia].
    eapply Forall_impl; [done|]. cbn. lia.
  - done.
Qed.

Lemma tx_insert_event_progress row timestamp :
  (∀ cursor at_, er_cursor (row cursor at_) = cursor) → always progress (tx_insert_event row timestamp).
Proof.
  intros Hrow w. apply gtx_execute_run; cbn; try done; [lia|].
  intros a d' H []. inv_result. eapply insert_event_row_ok; [done|apply Hrow|done].
Qed.

Lemma insert_outbox_ok c o now record d :
  db_ok c o d → grows d (insert_outbox now o record d) ∧
    db_ok c (o + 1) (insert_outbox now o record d).
Proof.
  intros Hok. unfold insert_outbox. case_match.
  { split; [done|]. eapply db_ok_mono; [done|lia|lia]. }
  destruct Hok as [Hid Hs Hd Ho]. split; split; cbn; try done.
  - apply insert_subseteq. destruct (gd_outbox d !! o) eqn:Hrow; [|done].
    apply Ho in Hrow. lia.
  - apply map_Forall_insert_2; [lia|]. eapply map_Forall_impl; [done|]. cbn. lia.
Qed.

Lemma tx_insert_outbox_progress now record : always progress (tx_insert_outbox now record).
Proof.
  intros w. apply gtx_execute_run; cbn; try done; [lia|].
  intros a d' H []. simplify_eq. by apply insert_outbox_ok.
Qed.
End statements.

#[export] Hint Resolve gtick_progress gstatement_progress gutc_progress gquery_progress gbegin_progress
  gcommit_progress grollback_progress tx_insert_outbox_progress : gw_always.

(** ** Writes of ingestion *)

(** [solve_beside] closes the goals about the tables that a write leaves alone. *)
Ltac solve_beside := split_and!; [split; cbn; try done|cbn; done|cbn; done].

Section writes.
Context `{UJ : UiEventJson, GH : GwHost, SC : !SpaceCodec, SI : Signatures, SR : !SignedRecords,
          HX : Hex, SE : SpaceEnv, CC : ContractCodec}.

Lemma upsert_snapshot_row_beside now record d applied d' :
  upsert_snapshot_row now record d = Ok (applied, d') → beside_log d d'.
Proof.
  unfold upsert_snapshot_row. intros H. inv_result.
  repeat case_match; simplify_eq; try done; solve_beside; apply advances_insert; cbn;
    intros; simplify_eq; lia.
Qed.

Lemma upsert_projection_beside now record d u d' :
  upsert_projection now record d = Ok (u, d') → beside_log d d'.
Proof.
  unfold upsert_projection. intros H. inv_result.
  repeat case_match; simplify_eq; try done; solve_beside; apply advances_insert; cbn;
    intros; simplify_eq; lia.
Qed.

Lemma upsert_presence_beside presence node source d b d' :
  upsert_presence presence node source d = (b, d') → beside_log d d'.
Proof.
  unfold upsert_presence. intros H.
  repeat case_match; simplify_eq; try done; solve_beside; apply advances_insert; cbn;
    intros; simplify_eq; lia.
Qed.

Lemma upsert_node_presence_beside presence source d b d' :
  upsert_node_presence presence source d = (b, d') → beside_log d d'.
Proof.
  unfold upsert_node_presence. intros H.
  repeat case_match; simplify_eq; try done; solve_beside; apply advances_insert; cbn;
    intros; simplify_eq; lia.
Qed.

Lemma upsert_world_event_beside payload node source d b d' :
  upsert_world_event payload node source d = Ok (b, d') → beside_log d d'.
Proof.
  unfold upsert_world_event. intros H. inv_result.
  repeat case_match; simplify_eq; try done; solve_beside. by apply insert_subseteq.
Qed.

Lemma sync_status_beside now status error id d :
  beside_log d (on_sources (alter (set_sync_status now status error) id) d).
Proof.
  solve_beside. apply map_eq. intros k. rewrite !lookup_fmap. destruct (decide (id = k)) as [<-|].
  - rewrite lookup_alter_eq. by destruct (gd_sources d !! id).
  - by rewrite lookup_alter_ne.
Qed.

Lemma insert_audit_record_progress record : always progress (insert_audit_record record).
Proof.
  apply gexecute_progress. intros now d a d' H. inv_result. solve_beside. by eexists.
Qed.

Lemma upsert_projection_row_progress record : always progress (upsert_projection_row record).
Proof. apply gexecute_progress. intros now d a d'. apply upsert_projection_beside. Qed.

Lemma update_source_sync_status_progress id status error :
  always progress (update_source_sync_status id status error).
Proof. apply gexecute_progress. intros now d a d' H. simplify_eq. apply sync_status_beside. Qed.

Lemma tx_pure_progress {A} (f : GwDb -> A * GwDb) :
  (∀ d a d', f d = (a, d') → beside_log d d') → always progress (tx_pure f).
Proof. intros Hf. apply gtx_execute_progress. intros d a d' H. simplify_eq. eauto. Qed.

Lemma insert_ui_record_progress now record : always progress (insert_ui_record now record).
Proof. by apply tx_insert_event_progress. Qed.
#[local] Hint Resolve insert_audit_record_progress insert_ui_record_progress : gw_always.

Lemma upsert_snapshot_inner_progress record announcement :
  always progress (upsert_snapshot_inner record announcement).
Proof.
  unfold upsert_snapshot_inner. apply always_bind; [apply _|solve_always|]. intros now.
  apply always_bind; [apply _| |intros ?; solve_always].
  apply gtx_execute_progress. intros d a d'. apply upsert_snapshot_row_beside.
Qed.

Lemma insert_ui_event_tx_progress record outbox :
  always progress (insert_ui_event_tx record outbox).
Proof.
  unfold insert_ui_event_tx. apply always_bind; [apply _|solve_always|]. intros now.
  apply always_bind; [apply _|by apply tx_insert_event_progress|intros ?; solve_always].
Qed.
#[local] Hint Resolve insert_ui_event_tx_progress : gw_always.

Lemma insert_ui_event_inner_progress record outbox :
  always progress (insert_ui_event_inner record outbox).
Proof. unfold insert_ui_event_inner. solve_always. Qed.

Lemma tx_upsert_presence_progress presence node source :
  always progress (tx_pure (upsert_presence presence node source)).
Proof. apply tx_pure_progress. intros d a d'. apply upsert_presence_beside. Qed.

Lemma tx_upsert_node_presence_progress presence source :
  always progress (tx_pure (upsert_node_presence presence source)).
Proof. apply tx_pure_progress. intros d a d'. apply upsert_node_presence_beside. Qed.

Lemma tx_upsert_world_event_progress payload node source :
  always progress (gtx_execute (upsert_world_event payload node source)).
Proof. apply gtx_execute_progress. intros d a d'. apply upsert_world_event_beside. Qed.
#[local] Hint Resolve tx_upsert_presence_progress tx_upsert_node_presence_progress
  tx_upsert_world_event_progress : gw_always.

Lemma persist_event_progress event source announce :
  always progress (persist_event event source announce).
Proof. unfold persist_event, upsert_space_record. solve_always. Qed.

Lemma persist_node_presence_progress presence source :
  always progress (persist_node_presence presence source).
Proof. unfold persist_node_presence. solve_always. Qed.

Lemma collect_rows_progress {A} (items : list A) step rows :
  (∀ item, always progress (step item)) → always progress (collect_rows items step rows).
Proof.
  intros Hs. revert rows. induction items as [|item items IH]; intros rows; cbn; [solve_always|].
  apply always_bind; [apply _|apply Hs|]. intros row. apply IH.
Qed.

Lemma persist_snapshot_space_progress source snapshot signer :
  always progress (persist_snapshot_space source snapshot signer).
Proof.
  unfold persist_snapshot_space.
  repeat first [solve [eauto with gw_always nocore]|apply always_bind; [apply _| |intros ?]|apply collect_rows_progress; intros ?];
    unfold snapshot_presence, snapshot_node_presence, snapshot_world_event,
      insert_snapshot_ui_record; solve_always.
Qed.
End writes.

#[export] Hint Resolve insert_audit_record_progress upsert_projection_row_progress
  update_source_sync_status_progress upsert_snapshot_inner_progress insert_ui_event_inner_progress
  persist_event_progress persist_node_presence_progress persist_snapshot_space_progress : gw_always.

(** ** Ingestion *)

Section ingestion.
Context `{UJ : UiEventJson, GH : GwHost, SC : !SpaceCodec, SI : Signatures, SR : !SignedRecords,
          HX : Hex, SE : SpaceEnv, CC : ContractCodec, GN : !GwNet}.

Lemma publish_ui_event_progress event : always progress (publish_ui_event event).
Proof. intros w. by apply progress_beside. Qed.

Lemma wake_sync_progress : always progress wake_sync.
Proof. intros w. by apply progress_beside. Qed.

Lemma announce_on_bus_progress state subject payload :
  always progress (announce_on_bus state subject payload).
Proof.
  unfold announce_on_bus, publish_event. solve_always.
  apply always_modify. intros w. by apply progress_beside.
Qed.

Lemma persist_snapshot_artifact_progress snapshot :
  always progress (persist_snapshot_artifact snapshot).
Proof.
  unfold persist_snapshot_artifact. solve_always.
  apply always_modify. intros w. by apply progress_beside.
Qed.

Lemma now_rfc3339_progress : always progress now_rfc3339.
Proof. unfold now_rfc3339. solve_always. Qed.
#[local] Hint Resolve publish_ui_event_progress wake_sync_progress announce_on_bus_progress
  persist_snapshot_artifact_progress now_rfc3339_progress : gw_always.

Lemma ingest_signed_snapshot_progress state snapshot source expected announce :
  always progress (ingest_signed_snapshot_with_options state snapshot source expected announce).
Proof.
  unfold ingest_signed_snapshot_with_options, apply_snapshot, persist_snapshot_read_models,
    persist_seed, upsert_snapshot, upsert_snapshot_with_p2p_outbox.
  solve_always.
Qed.
#[local] Hint Resolve ingest_signed_snapshot_progress : gw_always.

Lemma ingest_snapshot_progress state snapshot : always progress (ingest_snapshot state snapshot).
Proof.
  unfold ingest_snapshot, ingest_signed_snapshot, find_node_source_for_identity. solve_always.
Qed.

Lemma materialize_event_projection_progress event source provisional projection :
  always progress (materialize_event_projection event source provisional projection).
Proof. unfold materialize_event_projection, materialize_projection_row. solve_always. Qed.
#[local] Hint Resolve materialize_event_projection_progress : gw_always.

Lemma try_backfill_gap_progress state source node expected from_ to_ :
  always progress (try_backfill_gap state source node expected from_ to_).
Proof. unfold try_backfill_gap, ingest_signed_snapshot. solve_always. Qed.
#[local] Hint Resolve try_backfill_gap_progress : gw_always.

Lemma refresh_before_progress state event source expected resolved :
  always progress (refresh_before state event source expected resolved).
Proof. unfold refresh_before, max_ui_event_source_seq. solve_always. Qed.

Lemma insert_event_progress event source announce record :
  always progress (insert_event event source announce record).
Proof. unfold insert_event, insert_ui_event, insert_ui_event_with_p2p_outbox. solve_always. Qed.

Lemma duplicate_event_progress event source provisional projection :
  always progress (duplicate_event event source provisional projection).
Proof. unfold duplicate_event, get_ui_event_by_id. solve_always. Qed.

Lemma stream_ephemeral_progress event source provisional scope :
  always progress (stream_ephemeral event source provisional scope).
Proof. unfold stream_ephemeral. solve_always. Qed.

Lemma publish_stored_progress state event row announce :
  always progress (publish_stored state event row announce).
Proof. unfold publish_stored. solve_always. Qed.
#[local] Hint Resolve refresh_before_progress insert_event_progress duplicate_event_progress
  stream_ephemeral_progress publish_stored_progress : gw_always.

Lemma store_event_progress state event source announce :
  always progress (store_event state event source announce).
Proof. unfold store_event. solve_always. Qed.
#[local] Hint Resolve store_event_progress : gw_always.

Lemma persist_signed_node_event_progress state event source expected announce :
  always progress (persist_signed_node_event_with_options state event source expected announce).
Proof.
  unfold persist_signed_node_event_with_options, find_node_source_for_identity. solve_always.
Qed.
End ingestion.
