(* ===== verification/Ingestion.v ===== *)
(** * Properties of ingestion

    What a node can rely on when it pushes events and snapshots to a gateway: nothing
    that was accepted is lost or overwritten by older data, an accepted event is stored,
    published and announced exactly once, and whatever the gateway stores, publishes or
    announces comes from a payload that its signer signed. *)

From S2P Require Import Prelude Str External GwValue Contracts GwModels Verify Identity UiHub GwDb GwStore Normalize Space ReadModels Ingest GwSamples Progress.

(** ** Histories *)

Section histories.
Context `{UJ : UiEventJson, GH : GwHost, SC : !SpaceCodec, SI : Signatures, SR : !SignedRecords,
          HX : Hex, SE : SpaceEnv, CC : ContractCodec, GN : !GwNet}.

(** What arrives at a gateway: payloads that nodes push, and payloads that the gateway
    pulls or receives from its peers. *)
Inductive Arrival :=
| PushedSnapshot (snapshot : SignedPublicClientSnapshot)
| PushedEvent (event : SignedNodeEvent)
| PulledSnapshot (snapshot : SignedPublicClientSnapshot) (source expected : option string)
    (announce_p2p : bool)
| PulledEvent (event : SignedNodeEvent) (source expected : option string) (announce_p2p : bool).

Definition arrive (state : AppState) (arrival : Arrival) : G () :=
  match arrival with
  | PushedSnapshot snapshot => _ ← ingest_snapshot state snapshot; mret ()
  | PushedEvent event => _ ← ingest_node_event state event; mret ()
  | PulledSnapshot snapshot source expected announce =>
      _ ← ingest_signed_snapshot_with_options state snapshot source expected announce; mret ()
  | PulledEvent event source expected announce =>
      _ ← persist_signed_node_event_with_options state event source expected announce; mret ()
  end.

(** A history: each arrival is accepted or refused, and the next one comes. *)
Definition history (state : AppState) (arrivals : list Arrival) : G () :=
  for_each arrivals (fun arrival => _ ← attempt (arrive state arrival); mret ()).

Lemma arrive_progress state arrival : always progress (arrive state arrival).
Proof.
  destruct arrival; unfold arrive; apply always_bind; try apply _; try (intros; apply always_ret; apply _).
  - apply ingest_snapshot_progress.
  - apply persist_signed_node_event_progress.
  - apply ingest_signed_snapshot_progress.
  - apply persist_signed_node_event_progress.
Qed.

Lemma history_progress state arrivals : always progress (history state arrivals).
Proof.
  apply always_for_each; [apply _|]. intros arrival _.
  apply always_bind; [apply _|apply always_attempt, arrive_progress|].
  intros ?. apply always_ret. apply _.
Qed.

(** C5: no history of arrivals loses data.  Whatever nodes push and the gateway pulls, in
    whatever order, with failures of any statement, of the bus, of the artifact store
    and of the fetches: the log of events keeps its rows in their order, with unique ids
    and increasing cursors; the snapshot, the projections, the presences and the
    heartbeats of a node are only replaced by rows at least as new; published world
    events, queued announcements and audit records stay; the registry is not touched and
    of a source only the outcome of its last synchronisation changes. *)
Theorem ingest_never_loses state arrivals w w' :
  gw_ok w → history state arrivals w = (Ok (), w') → gw_ok w' ∧ grows (g_db w) (g_db w').
Proof.
  intros Hok H. apply (always_run progress) in H; [|apply history_progress]. by apply H.
Qed.

(** ** The transaction that stores an event *)

Lemma gbegin_ok now w w' :
  gbegin w = (Ok now, w') →
  g_tx w' = g_db w ∧ g_db w' = g_db w ∧ g_cursor_seq w' = g_cursor_seq w.
Proof. intros H. by sym_exec H. Qed.

Lemma gcommit_ok w w' u : gcommit w = (Ok u, w') → g_db w' = g_tx w.
Proof. intros H. by sym_exec H. Qed.

Lemma tx_insert_event_ok mk timestamp row w w' :
  tx_insert_event mk timestamp w = (Ok (Some row), w') →
  ∃ generated_at, row = mk (g_cursor_seq w) generated_at ∧
    event_by_id (er_event_id row) (gd_ui_events (g_tx w)) = None ∧
    gd_ui_events (g_tx w') = gd_ui_events (g_tx w) ++ [row].
Proof.
  intros H. sym_exec H. destruct timestamp as [at_|]; cbn in *; [|done].
  unfold insert_event_row in *. case_match; simplify_eq. by exists at_.
Qed.

Lemma insert_outbox_has now id record d :
  gd_ui_events (insert_outbox now id record d) = gd_ui_events d ∧
  ∃ k row, gd_outbox (insert_outbox now id record d) !! k = Some row ∧
    ob_dedupe_key row = io_dedupe_key record.
Proof.
  unfold insert_outbox, outbox_has. case_match eqn:He; (split; [done|]).
  - apply existsb_exists in He as (row & Hin & Hk%bool_decide_eq_true).
    apply list_elem_of_In, list_elem_of_fmap in Hin as ([k row'] & -> & Hin%elem_of_map_to_list).
    by exists k, row'.
  - eexists id, _. unfold on_outbox. cbn [gd_outbox]. by rewrite lookup_insert_eq.
Qed.

(** The announcement with the given key is queued. *)
Definition queued (key : string) (d : GwDb) : Prop :=
  ∃ k row, gd_outbox d !! k = Some row ∧ ob_dedupe_key row = key.

Lemma queued_grows key d d' : queued key d → grows d d' → queued key d'.
Proof.
  intros (k & row & Hk & Hkey) [].
  exists k, row. split; [by eapply lookup_weaken|done].
Qed.

Lemma tx_insert_outbox_ok now record w w' u :
  tx_insert_outbox now record w = (Ok u, w') →
  gd_ui_events (g_tx w') = gd_ui_events (g_tx w) ∧ queued (io_dedupe_key record) (g_tx w').
Proof. intros H. sym_exec H. apply insert_outbox_has. Qed.

(** A new row in the log, announced if that was asked for. *)
Record stored (w w' : GwWorld) (row : UiEventRow) (event_id : string) (announce_p2p : bool) :
    Prop := {
  st_id : er_event_id row = event_id;
  st_row : row ∈ gd_ui_events (g_db w');
  st_fresh : event_id ∉ er_event_id <$> gd_ui_events (g_db w);
  st_cursor : (g_cursor_seq w <= er_cursor row)%Z;
  st_queued : announce_p2p = true → queued ("event:" +:+ event_id) (g_db w');
}.

Definition tx_announce (now : Z) (outbox : option InsertP2pOutboxRecord) : G () :=
  match outbox with Some outbox => tx_insert_outbox now outbox | None => mret () end.

(** The end of both transactions that store an event: [wb] is the state in which the
    insertion runs. *)
Lemma insert_and_commit mk timestamp now outbox row wb w1 w2 w3 :
  tx_insert_event mk timestamp wb = (Ok (Some row), w1) →
  tx_announce now outbox w1 = (Ok (), w2) → gcommit w2 = (Ok (), w3) →
  (∃ generated_at, row = mk (g_cursor_seq wb) generated_at) ∧
  (er_event_id row ∉ er_event_id <$> gd_ui_events (g_tx wb)) ∧
  row ∈ gd_ui_events (g_db w3) ∧
  (∀ o, outbox = Some o → queued (io_dedupe_key o) (g_db w3)).
Proof.
  intros (at_ & Hrow & Hnew & Hlog)%tx_insert_event_ok Ha ->%gcommit_ok.
  apply event_by_id_none in Hnew.
  assert (gd_ui_events (g_tx w2) = gd_ui_events (g_tx w1) ∧
          ∀ o, outbox = Some o → queued (io_dedupe_key o) (g_tx w2)) as [Hl Hq].
  { destruct outbox as [o|]; [|by injection Ha as <-].
    apply tx_insert_outbox_ok in Ha as [Hl Hq]. split; [done|]. by intros ? [= <-]. }
  split_and!; eauto. rewrite Hl, Hlog. set_solver.
Qed.

Lemma insert_ui_event_inner_stored record outbox w row w' :
  insert_ui_event_inner record outbox w = (Ok (Some row), w') →
  (∀ o, outbox = Some o → io_dedupe_key o = "event:" +:+ iu_event_id record) →
  gw_ok w → stored w w' row (iu_event_id record) (bool_decide (is_Some outbox)).
Proof.
  unfold insert_ui_event_inner. intros H Hkey Hok.
  apply M_bind_ok in H as (row' & w4 & Htx & H). apply M_bind_ok in H as ([] & w5 & Ha & H).
  cbv [mret M_ret] in H. simplify_eq.
  pose proof Hok as Hok4. apply (always_run progress) in Htx as Hp; [|apply insert_ui_event_tx_progress].
  apply Hp in Hok4 as [Hok4 _].
  apply (always_run progress) in Ha; [|solve_always]. apply Ha in Hok4 as [_ Hg].
  unfold insert_ui_event_tx in Htx. apply M_bind_ok in Htx as (now & wb & Hb & Htx).
  apply gbegin_ok in Hb as (Hb & _ & Hc).
  apply M_bind_ok in Htx as (row' & w1 & H1 & Htx). apply M_bind_ok in Htx as ([] & w2 & H2 & Htx).
  apply M_bind_ok in Htx as ([] & w3 & H3 & Htx). cbv [mret M_ret] in Htx. simplify_eq.
  destruct (insert_and_commit _ _ now outbox _ _ _ _ _ H1 H2 H3) as ((at_ & ->) & Hn & Hin & Hq).
  rewrite Hb in Hn. split; [done| |done|cbn; lia|].
  - destruct Hg as [[l ->] _ _ _ _ _ _ _ _ _]. set_solver.
  - intros [o Ho]%bool_decide_eq_true. rewrite <- (Hkey o Ho).
    eapply queued_grows; [by apply Hq|done].
Qed.
(** Statements that leave the log of the transaction alone. *)
Definition log_kept (w w' : GwWorld) : Prop :=
  gd_ui_events (g_tx w') = gd_ui_events (g_tx w) ∧ g_cursor_seq w' = g_cursor_seq w.

Lemma gtx_execute_log_kept {A} (f : GwDb -> result string (A * GwDb)) w r w' :
  (∀ d a d', f d = Ok (a, d') → beside_log d d') → gtx_execute f w = (r, w') → log_kept w w'.
Proof.
  intros Hf H. unfold log_kept. sym_exec H; try done. split; [|done]. by eapply Hf.
Qed.

Lemma upsert_space_record_log_kept event source w r w' :
  upsert_space_record event source w = (r, w') → log_kept w w'.
Proof.
  unfold upsert_space_record, tx_pure. destruct (ne_data_kind (sn_payload event)); intros H;
    try (by inv H).
  - apply M_bind_inv in H as [(e & He & ->)|(p & w1 & Hl & H)].
    + by inv He.
    + inv Hl. eapply gtx_execute_log_kept; [|exact H]. intros d a d' [= Hu].
      by eapply upsert_presence_beside.
  - eapply gtx_execute_log_kept; [|exact H]. intros d a d'. apply upsert_world_event_beside.
Qed.

Lemma event_outbox_key event o :
  event_outbox_record event = Ok o → io_dedupe_key o = "event:" +:+ ne_event_id (sn_payload event).
Proof. unfold event_outbox_record. intros H. by inv_result. Qed.

Lemma persist_event_stored event source announce w row w' :
  persist_event event source announce w = (Ok (Some row), w') →
  stored w w' row (ne_event_id (sn_payload event)) announce.
Proof.
  unfold persist_event. intros H. apply M_bind_ok in H as (now & wa & Hb & H).
  apply gbegin_ok in Hb as (Hb & _ & Hc). apply M_bind_ok in H as (accepted & wb & Hu & H).
  apply upsert_space_record_log_kept in Hu as [Hl Hc']. destruct accepted; cbn [negb] in H.
  2:{ apply M_bind_ok in H as ([] & w1 & _ & H). by inv H. }
  apply M_bind_ok in H as (kind & w0 & [_ ->]%lift_ok & H).
  apply M_bind_ok in H as ([row'|] & w1 & H1 & H).
  2:{ apply M_bind_ok in H as ([] & w2 & _ & H). by inv H. }
  apply M_bind_ok in H as ([] & w2 & H2 & H). apply M_bind_ok in H as ([] & w3 & H3 & H).
  cbv [mret M_ret] in H. simplify_eq.
  assert (∃ outbox, tx_announce now outbox w1 = (Ok (), w2) ∧ (announce = true →
    ∃ o, outbox = Some o ∧ io_dedupe_key o = "event:" +:+ ne_event_id (sn_payload event)))
    as (outbox & H2' & Ho).
  { destruct announce; [|by exists None].
    apply M_bind_ok in H2 as (o & w1' & [Hk ->]%lift_ok & H2).
    exists (Some o). split; [done|]. intros _. exists o. split; [done|by apply event_outbox_key]. }
  destruct (insert_and_commit _ _ _ _ _ _ _ _ _ H1 H2' H3) as ((at_ & ->) & Hn & Hin & Hq).
  rewrite Hl, Hb in Hn. split; [done|done|done|cbn; lia|].
  intros (o & -> & <-)%Ho. by apply Hq.
Qed.

Lemma insert_event_stored event source announce record w row w' :
  insert_event event source announce record w = (Ok (Some row), w') →
  iu_event_id record = ne_event_id (sn_payload event) → gw_ok w →
  stored w w' row (ne_event_id (sn_payload event)) announce.
Proof.
  unfold insert_event. intros H Hid Hok.
  destruct (is_space_event event); [by eapply persist_event_stored|].
  destruct announce.
  - apply M_bind_ok in H as (o & w1 & [Ho%event_outbox_key ->]%lift_ok & H).
    apply insert_ui_event_inner_stored in H; [|intros ? [= <-]; by rewrite Hid|done].
    by rewrite Hid in H.
  - apply insert_ui_event_inner_stored in H; [|done|done]. by rewrite Hid in H.
Qed.

Lemma stored_later w w1 w' row event_id announce :
  stored w w1 row event_id announce → grows (g_db w1) (g_db w') →
  stored w w' row event_id announce.
Proof.
  intros [] Hg. split; try done.
  - destruct (gr_log _ _ Hg) as [l ->]. set_solver.
  - intros Ha. by eapply queued_grows; [apply st_queued0|].
Qed.

Lemma stored_earlier w w1 w' row event_id announce :
  stored w1 w' row event_id announce → progress w w1 → gw_ok w →
  stored w w' row event_id announce.
Proof.
  intros [] Hp Hok. split; try done.
  - apply Hp in Hok as [_ Hg]. destruct (gr_log _ _ Hg) as [l Hl].
    rewrite Hl, fmap_app in st_fresh0. set_solver.
  - destruct Hp. lia.
Qed.

(** The end of an ingestion that stored a row: the row has been handed to the hub. *)
Lemma publish_stored_hub state event row announce w u w' :
  publish_stored state event row announce w = (Ok u, w') →
  ∃ ui_event, ui_event_of_row row = Ok ui_event ∧ g_hub w' = hub_publish ui_event (g_hub w).
Proof.
  unfold publish_stored. intros H. apply M_bind_ok in H as (ui_event & w1 & [Hu ->]%lift_ok & H).
  exists ui_event. split; [done|]. apply M_bind_ok in H as ([] & w2 & Hp & H). inv Hp.
  apply (always_run (fun w w' => g_hub w' = g_hub w)) in H; [done|].
  assert (PreOrder (fun w w' : GwWorld => g_hub w' = g_hub w))
    by (split; [done|intros ??? Ha Hb; by rewrite Hb, Ha]).
  unfold now_rfc3339, gutc, announce_on_bus, publish_event, wake_sync.
  solve_always; try by intros ?.
Qed.

Lemma store_event_stored state event source announce w cursor w' :
  store_event state event source announce w = (Ok (Some cursor), w') → gw_ok w →
  ∃ row ui_event hub, er_cursor row = cursor ∧ ui_event_of_row row = Ok ui_event ∧
    g_hub w' = hub_publish ui_event hub ∧
    stored w w' row (ne_event_id (sn_payload event)) announce.
Proof.
  unfold store_event. intros H Hok.
  apply M_bind_ok in H as (kind & w0 & [_ ->]%lift_ok & H).
  apply M_bind_ok in H as (visibility & w0 & [_ ->]%lift_ok & H).
  case_bool_decide. { apply M_bind_ok in H as (u & w1 & _ & H). by inv H. }
  apply M_bind_ok in H as (projection & w0 & [_ ->]%lift_ok & H).
  apply M_bind_ok in H as ([row|] & w1 & Hi & H).
  2:{ apply M_bind_ok in H as (u & w2 & _ & H). by inv H. }
  apply M_bind_ok in H as ([] & w2 & Hm & H). apply M_bind_ok in H as ([] & w3 & Hp & H).
  cbv [mret M_ret] in H. simplify_eq.
  apply (always_run progress) in Hi as Hpi; [|apply insert_event_progress].
  apply (always_run progress) in Hm; [|apply materialize_event_projection_progress].
  apply (always_run progress) in Hp as Hpp; [|apply publish_stored_progress].
  apply insert_event_stored in Hi as [Hid Hin Hn Hc Hq]; [|done|done].
  apply Hpi in Hok as [Hok _]. apply publish_stored_hub in Hp as (ui_event & Hu & Hh).
  exists row, ui_event, (g_hub w2). split_and!; [done..|].
  eapply stored_later; [done|]. by apply (transitivity (R:=progress) Hm Hpp).
Qed.

Lemma ingest_node_event_stored state event w cursor w' :
  ingest_node_event state event w = (Ok (Some cursor), w') → gw_ok w →
  ∃ row ui_event hub, er_cursor row = cursor ∧ ui_event_of_row row = Ok ui_event ∧
    g_hub w' = hub_publish ui_event hub ∧
    stored w w' row (ne_event_id (sn_payload event)) (ap_gateway_sync_tx state).
Proof.
  unfold ingest_node_event, persist_signed_node_event, persist_signed_node_event_with_options.
  intros H Hok. rewrite !bool_decide_true in H by done. cbn [andb] in H.
  apply M_bind_ok in H as (resolved & w1 & Hf & H).
  apply (always_run progress) in Hf; [|apply gquery_progress].
  apply M_bind_ok in H as (u & w1' & [_ ->]%lift_ok & H).
  apply M_bind_ok in H as (u' & w1' & [_ ->]%lift_ok & H).
  apply M_bind_ok in H as (u'' & w1' & [_ ->]%lift_ok & H).
  apply M_bind_ok in H as ([] & w2 & Hr & H).
  apply (always_run progress) in Hr; [|apply refresh_before_progress].
  assert (progress w w2) as Hp by (by etrans).
  apply store_event_stored in H as (row & ui_event & hub & Hc & Hu & Hh & Hs); [|by apply Hp].
  exists row, ui_event, hub. split_and!; [done..|]. by eapply stored_earlier.
Qed.

End histories.

(** ** Concrete runs *)

Section samples.
Local Existing Instances json_impl_value ui_event_json_impl frozen_gw_host codec_impl hex_impl
  signatures_impl space_codec_impl signed_records_impl space_env_impl gw_net_impl.

Lemma empty_world_ok : gw_ok (gw_world empty_gw_db).
Proof. by split; [split; [constructor|constructor|constructor|apply map_Forall_empty]..|]. Qed.

Definition sample_arrivals : list Arrival :=
  [PushedEvent sample_board_event; PushedEvent sample_world_event; PushedEvent sample_board_event].

Lemma ingest_never_loses_witness :
  let w' := (history sample_app_state sample_arrivals (gw_world empty_gw_db)).2 in
  gw_ok w' ∧ (er_event_id <$> gd_ui_events (g_db w')) = ["e1"; "e2"].
Proof.
  intros w'. split; [|vm_compute; reflexivity].
  destruct (ingest_never_loses sample_app_state sample_arrivals (gw_world empty_gw_db) w')
    as [H _]; [exact empty_world_ok| |exact H].
  refine (M_run_ok (history sample_app_state sample_arrivals) _ _ _). vm_compute. reflexivity.
Defined.

End samples.
