(* ===== verification/Trust.v ===== *)
(** * What the gateway serves is signed

    Two theorems about the trust the gateway places in what arrives.  Nothing is stored,
    published or announced unless the payload that arrived carries a valid signature of
    the signer it names, who for a pushed payload is the signer its source is registered
    with.  And whatever arrives, the presences, the world events and the board messages in
    the database are the signed ones: presences by their agents, world events, also those
    shown on board messages, by the Network Authority that the operator pinned. *)

From S2P Require Import Prelude Str External GwValue Contracts GwModels Verify Identity UiHub GwDb GwStore Normalize Space ReadModels Ingest GwSamples Progress Ingestion.

(** ** Nothing happens before the signature is checked *)

Section guards.
Context `{UJ : UiEventJson, GH : GwHost, SC : !SpaceCodec, SI : Signatures, SR : !SignedRecords,
          HX : Hex, SE : SpaceEnv, CC : ContractCodec, GN : !GwNet}.

(** The signer that an event must have, and whether its source may push. *)
Definition event_admitted (event : SignedNodeEvent) (source : option NodeSourceRow)
    (expected : option string) : Prop :=
  inactive source = false ∧
  event_authentic event (or_else expected (source ≫= so_expected_signer_agent_did)) ∧
  validate_event event = Ok ().

Definition registered_source (d : GwDb) (event : SignedNodeEvent) : option NodeSourceRow :=
  source_for_identity d (ne_node_id (sn_payload event)) (ne_signer_agent_did (sn_payload event)).

(** What must hold of an arrival, in a gateway with the given database, for it to have
    any effect: the checks of the code, which looks the source up only for what is pushed
    and for an event that comes with neither a source nor an expected signer. *)
Definition admitted (d : GwDb) (arrival : Arrival) : Prop :=
  match arrival with
  | PushedSnapshot snapshot =>
      let source := source_for_identity d (cs_node_id (sc_payload snapshot))
        (sc_signer_agent_did snapshot) in
      inactive source = false ∧
      snapshot_authentic snapshot (source ≫= so_expected_signer_agent_did)
  | PushedEvent event => event_admitted event (registered_source d event) None
  | PulledSnapshot snapshot _ expected _ => snapshot_authentic snapshot expected
  | PulledEvent event None None _ => event_admitted event (registered_source d event) None
  | PulledEvent event _ expected _ => event_admitted event None expected
  end.

Lemma gquery_quiet {A} (f : Z -> GwDb -> A) : always quiet (gquery f).
Proof.
  intros w. destruct (gquery f w) as [r w'] eqn:H. by apply gquery_run in H as [H _].
Qed.

(** A check before the rest of a computation. *)
Lemma lift_first {A B} (m : result string A) (f : A -> G B) w r w' :
  (lift m ≫= f) w = (r, w') → (w' = w ∧ ∃ e, r = Err e) ∨ ∃ a, m = Ok a ∧ f a w = (r, w').
Proof.
  unfold lift, mbind, M_bind. destruct m as [a|e]; intros H; [eauto|]. left. inv H. eauto.
Qed.

Lemma snapshot_guarded state snapshot source expected announce w r w' :
  ingest_signed_snapshot_with_options state snapshot source expected announce w = (r, w') →
  quiet w w' ∨ snapshot_authentic snapshot expected.
Proof.
  intros [[-> _]|(u & Hv & _)]%lift_first; [by left|]. destruct u.
  right. by apply verify_signed_snapshot_ok.
Qed.

Lemma event_guarded state event source_id expected announce w r w' source :
  (if bool_decide (source_id = None) && bool_decide (expected = None)
   then registered_source (g_db w) event else None) = source →
  persist_signed_node_event_with_options state event source_id expected announce w = (r, w') →
  quiet w w' ∨ event_admitted event source expected.
Proof.
  unfold persist_signed_node_event_with_options. intros Hs H.
  apply (always_step quiet w) in H as [[? _]|(found & w1 & Hq & Hf & H)]; [by left| |done|].
  2:{ apply always_if; [apply gquery_quiet|apply always_ret; apply _]. }
  assert (found = source) as ->.
  { subst source. destruct (_ && _); [|by inv Hf]. apply gquery_run in Hf as [_ [[? [=]]|[now [= ->]]]].
    done. }
  apply lift_first in H as [[-> _]|(u & Hi & H)]; [by left|].
  apply lift_first in H as [[-> _]|([] & Hv & H)]; [by left|].
  apply lift_first in H as [[-> _]|([] & Hl & H)]; [by left|].
  right. apply bail_if_ok in Hi. apply verify_signed_node_event_ok in Hv. by split_and!.
Qed.

(** C4: nothing happens for a payload that is not authentic.  Whatever arrives and
    whatever fails on the way: if the database, the hub, the bus, the artifact store or
    the sync task has seen anything of the arrival, then its signature verifies under the
    key of the signer it names, and an event has passed the validation of its kind.  The
    signer of a payload that is pushed to the gateway, or of an event that comes with
    neither a source nor an expected signer, is the one its source is registered with, if
    it is registered with one, and that source is not disabled.  The signer of a payload
    that was pulled is the one the caller expects, if it expects one: the code looks
    neither at the status nor at the registered signer of the source of such a payload. *)
Theorem ingest_authentic state arrival w r w' :
  arrive state arrival w = (r, w') → quiet w w' ∨ admitted (g_db w) arrival.
Proof.
  intros H. destruct arrival as [snapshot|event|snapshot source expected announce
    |event source expected announce]; unfold arrive in H.
  all: apply M_bind_inv in H as [(e & H & _)|(x & w1 & H & H1)];
    [|cbv [mret M_ret] in H1; simplify_eq].
  1, 2: unfold ingest_snapshot in H;
    apply (always_step quiet w) in H as [[? _]|(found & w2 & Hq & Hf & H)];
    [by left| |done|apply gquery_quiet];
    apply gquery_run in Hf as [_ [[? [=]]|[now [= ->]]]];
    apply lift_first in H as [[-> _]|(u & Hi%bail_if_ok & H)]; [by left|];
    apply snapshot_guarded in H as [H|H]; [left; by etrans|by right].
  1, 2: by apply event_guarded with (source := registered_source (g_db w) event) in H.
  1, 2: by apply snapshot_guarded in H.
  1, 2: destruct source, expected; by eapply event_guarded in H.
Qed.
End guards.

(** ** Invariants of the database *)

Section upholds.
Context `{UJ : UiEventJson, GH : GwHost} (I : GwDb -> Prop).

(** The committed database and the view of the transaction satisfy [I]. *)
Definition upheld (w : GwWorld) : Prop := I (g_db w) ∧ I (g_tx w).
Definition upholds (w w' : GwWorld) : Prop := upheld w → upheld w'.

Global Instance upholds_preorder : PreOrder upholds.
Proof. split; unfold upholds; [by intros ?|intros ???; auto]. Qed.

Lemma upholds_beside f : (∀ w, g_db (f w) = g_db w ∧ g_tx (f w) = g_tx w) →
  always upholds (modify f : G ()).
Proof. intros Hf w [??]. destruct (Hf w) as [H1 H2]. split; cbn; by rewrite ?H1, ?H2. Qed.

Lemma gtick_upholds : always upholds gtick.
Proof. intros w [??]. by split. Qed.
#[local] Hint Resolve gtick_upholds : gw_always.

Lemma gstatement_upholds : always upholds gstatement.
Proof. unfold gstatement. solve_always. Qed.
#[local] Hint Resolve gstatement_upholds : gw_always.

Lemma gutc_upholds : always upholds gutc.
Proof. unfold gutc. solve_always. Qed.

Lemma gquery_upholds {A} (f : Z -> GwDb -> A) : always upholds (gquery f).
Proof. unfold gquery. solve_always. Qed.

Lemma gbegin_upholds : always upholds gbegin.
Proof.
  unfold gbegin. apply always_bind; [apply _|solve_always|]. by intros now w [? ?].
Qed.

Lemma gcommit_upholds : always upholds gcommit.
Proof.
  unfold gcommit. apply always_bind; [apply _|solve_always|]. by intros now w [? ?].
Qed.

Lemma grollback_upholds : always upholds grollback.
Proof. unfold grollback. solve_always. Qed.

Lemma gexecute_upholds {A} (f : Z -> GwDb -> result string (A * GwDb)) :
  (∀ now d a d', f now d = Ok (a, d') → I d → I d') → always upholds (gexecute f).
Proof.
  intros Hf. unfold gexecute. apply always_bind; [apply _|solve_always|]. intros now w [Hd Ht].
  unfold mbind, M_bind, gets, lift. destruct (f now (g_db w)) as [[a d']|e] eqn:H; [|done].
  split; cbn; eauto.
Qed.

Lemma gtx_execute_upholds {A} (f : GwDb -> result string (A * GwDb)) :
  (∀ d a d', f d = Ok (a, d') → I d → I d') → always upholds (gtx_execute f).
Proof.
  intros Hf. unfold gtx_execute. apply always_bind; [apply _|solve_always|]. intros now w [Hd Ht].
  unfold mbind, M_bind, gets, lift. destruct (f (g_tx w)) as [[a d']|e] eqn:H; [|done].
  split; cbn; eauto.
Qed.
End upholds.

#[export] Hint Resolve gtick_upholds gstatement_upholds gutc_upholds gquery_upholds gbegin_upholds
  gcommit_upholds grollback_upholds : gw_always.

(** ** Signed presences and world events *)

Section trusted.
Context `{UJ : UiEventJson, SVL : !SerdeValueLaws, GH : GwHost, SC : !SpaceCodec, SI : Signatures,
          SR : !SignedRecords, HX : Hex, SE : SpaceEnv, CC : ContractCodec, CCL : !ContractCodecLaws,
          GN : !GwNet}.

(** The payload is an announcement that the authority pinned for its network signed. *)
Definition authority_signed (payload : Value) : Prop :=
  ∃ announcement authorities authority authority_bytes signature_bytes,
    announcement_from_value payload = Ok announcement ∧
    trusted_network_authorities = Ok authorities ∧
    authorities !! ea_network_id announcement = Some authority ∧
    hex_decode authority = Some authority_bytes ∧
    hex_decode (ea_authority_signature announcement) = Some signature_bytes ∧
    signed_by (unsigned_payload announcement) (b64_encode signature_bytes)
      (b64_encode authority_bytes).

(** The presence is signed with the key of the agent it is about. *)
Definition agent_signed (presence : SignedSpacePresence) : Prop :=
  public_key_b64_from_did_key (pr_agent_did (ss_record presence)) = Ok (ss_public_key presence) ∧
  signed_by (ss_record presence) (ss_signature presence) (ss_public_key presence).

(** The world event that a board message shows, if it shows one, is the content of the
    announcement it carries. *)
Definition board_trusted (message : Value) : Prop :=
  ∀ shown, value_get message "world_event" = Some shown →
  ∃ announcement world,
    board_announcement message = Some announcement ∧ authority_signed announcement ∧
    world_event_from_value (value_index announcement "content") = Ok world ∧
    world_event_to_value world = Ok shown.

(** The tables that other agents see. *)
Record trusted (d : GwDb) : Prop := {
  tr_presence : map_Forall (fun key row =>
    key = (pr_network_id (ss_record (sw_payload row)), pr_space_id (ss_record (sw_payload row)),
           pr_agent_did (ss_record (sw_payload row))) ∧
    sw_seq row = pr_seq (ss_record (sw_payload row)) ∧
    agent_signed (sw_payload row)) (gd_space_presence d);
  tr_world : map_Forall (fun key row => authority_signed (sv_payload row)) (gd_space_events d);
  tr_heartbeat : map_Forall (fun key row =>
    key = (np_node_id (nr_payload row), np_agent_did (nr_payload row)) ∧
    (1 <= np_heartbeat_interval_sec (nr_payload row) <= 300)%Z) (gd_node_presence d);
  tr_board : map_Forall (fun key row =>
    data_kind_name BoardActivity = Ok (pj_data_kind row) → board_trusted (pj_payload row))
    (gd_projections d);
}.

Lemma validate_presence_signed presence : validate_presence presence = Ok () → agent_signed presence.
Proof.
  unfold validate_presence, verify_signed_space_presence, agent_signed. intros H. inv_result.
  match goal with H : negb (bool_decide _) = false |- _ =>
    apply negb_false_iff, bool_decide_eq_true in H; subst end.
  split; [done|]. by eapply verify_canonical_signature_ok.
Qed.

Lemma validate_world_event_signed payload authorities :
  trusted_network_authorities = Ok authorities →
  validate_world_event_with_authorities payload authorities = Ok () → authority_signed payload.
Proof.
  unfold validate_world_event_with_authorities, authority_signed. intros Ha H. inv_result.
  do 5 eexists. split_and!; try done. by eapply verify_canonical_signature_ok.
Qed.

Lemma validate_world_event_ok payload : validate_world_event payload = Ok () → authority_signed payload.
Proof.
  unfold validate_world_event. intros (authorities & Ha & H)%result_bind_ok.
  by eapply validate_world_event_signed.
Qed.

Lemma validate_node_presence_interval presence node agent :
  validate_node_presence presence node agent = Ok () →
  (1 <= np_heartbeat_interval_sec presence <= 300)%Z.
Proof. unfold validate_node_presence. intros H. inv_result. lia. Qed.

(** *** Board messages *)

(** Keys other than the ones of the announcement do not matter to it. *)
Lemma board_announcement_ext v m :
  as_object v = Some m → ∀ m', m' !! "content" = m !! "content" →
  m' !! "global_kind" = m !! "global_kind" → board_announcement (VObject m') = board_announcement v.
Proof.
  intros ->%as_object_spec m' Hc Hk. unfold board_announcement. by rewrite !value_get_object, Hc, Hk.
Qed.

Lemma trusted_board_message_ok value message :
  trusted_board_message value = Ok message → board_trusted message.
Proof.
  unfold trusted_board_message, trusted_board_message_with_authorities. intros H shown Hs.
  destruct (board_announcement value) as [announcement|] eqn:Hb; inv_result.
  all: destruct (as_object value) as [m|] eqn:Hm; inv_result;
    [|by unfold value_get in Hs; rewrite Hm in Hs].
  - rewrite value_get_object, lookup_insert_eq in Hs. simplify_eq.
    eexists announcement, _. split_and!; [|by eapply validate_world_event_signed|done|done].
    by rewrite (board_announcement_ext value m), Hb by (done || by rewrite lookup_insert_ne).
  - by rewrite value_get_object, lookup_delete_eq in Hs.
Qed.

Lemma attach_generated_at_trusted value generated_at :
  board_trusted value → board_trusted (attach_generated_at value generated_at).
Proof.
  unfold attach_generated_at, board_trusted. intros H shown.
  destruct (as_object value) as [m|] eqn:Hm; [|apply H].
  rewrite value_get_object, or_insert_ne by done. intros Hs.
  rewrite (board_announcement_ext value m) by (done || by rewrite or_insert_ne).
  apply H. unfold value_get. by rewrite Hm.
Qed.

Lemma trusted_projection_board event payload :
  trusted_projection event = Ok (Some (BoardActivity, payload)) → board_trusted payload.
Proof.
  unfold trusted_projection. destruct (event_projection event) as [[[] p]|]; intros H; inv_result;
    try discriminate. by eapply trusted_board_message_ok.
Qed.

Lemma data_kind_name_inj a b name :
  data_kind_name a = Ok name → data_kind_name b = Ok name → a = b.
Proof.
  intros Ha Hb. destruct (data_kind_roundtrip a) as (n & Hn & Hr), (data_kind_roundtrip b) as (n' & Hn' & Hr').
  congruence.
Qed.

(** *** Writes *)

(** Writes to other tables. *)
Lemma trusted_other d d' :
  gd_space_presence d' = gd_space_presence d → gd_space_events d' = gd_space_events d →
  gd_node_presence d' = gd_node_presence d → gd_projections d' = gd_projections d →
  trusted d → trusted d'.
Proof. intros H1 H2 H3 H4 []. by split; rewrite ?H1, ?H2, ?H3, ?H4. Qed.

Lemma upsert_snapshot_row_trusted now record d applied d' :
  upsert_snapshot_row now record d = Ok (applied, d') → trusted d → trusted d'.
Proof.
  unfold upsert_snapshot_row. intros H. inv_result.
  repeat case_match; simplify_eq; try done; by apply trusted_other.
Qed.

Lemma insert_outbox_trusted now id record d : trusted d → trusted (insert_outbox now id record d).
Proof. unfold insert_outbox. case_match; [done|by apply trusted_other]. Qed.

Lemma insert_event_row_trusted row d row' d' :
  insert_event_row row d = (row', d') → trusted d → trusted d'.
Proof. unfold insert_event_row. intros. case_match; simplify_eq; [done|by apply (trusted_other d)]. Qed.

Lemma upsert_projection_trusted now record d u d' :
  (data_kind_name BoardActivity = Ok (up_data_kind record) → board_trusted (up_payload record)) →
  upsert_projection now record d = Ok (u, d') → trusted d → trusted d'.
Proof.
  unfold upsert_projection. intros Hb H []. inv_result.
  repeat case_match; simplify_eq; try done; split; cbn; try done; by apply map_Forall_insert_2.
Qed.

Lemma upsert_presence_trusted presence node source d b d' :
  agent_signed presence → upsert_presence presence node source d = (b, d') → trusted d → trusted d'.
Proof.
  unfold upsert_presence. intros Hs H [].
  repeat case_match; simplify_eq; try done; split; cbn; try done; by apply map_Forall_insert_2.
Qed.

Lemma upsert_node_presence_trusted presence source d b d' :
  (1 <= np_heartbeat_interval_sec presence <= 300)%Z →
  upsert_node_presence presence source d = (b, d') → trusted d → trusted d'.
Proof.
  unfold upsert_node_presence. intros Hs H [].
  repeat case_match; simplify_eq; try done; split; cbn; try done; by apply map_Forall_insert_2.
Qed.

Lemma upsert_world_event_trusted payload node source d b d' :
  authority_signed payload → upsert_world_event payload node source d = Ok (b, d') →
  trusted d → trusted d'.
Proof.
  unfold upsert_world_event. intros Hs H []. inv_result.
  repeat case_match; simplify_eq; try done; split; cbn; try done; by apply map_Forall_insert_2.
Qed.

(** *** Statements *)

Lemma insert_audit_record_upholds record : always (upholds trusted) (insert_audit_record record).
Proof.
  apply gexecute_upholds. intros now d a d' H. inv_result. by apply trusted_other.
Qed.

Lemma update_source_sync_status_upholds id status error :
  always (upholds trusted) (update_source_sync_status id status error).
Proof. apply gexecute_upholds. intros now d a d' H. simplify_eq. by apply trusted_other. Qed.

Lemma upsert_projection_row_upholds record :
  (data_kind_name BoardActivity = Ok (up_data_kind record) → board_trusted (up_payload record)) →
  always (upholds trusted) (upsert_projection_row record).
Proof. intros Hb. apply gexecute_upholds. intros now d a d'. by apply upsert_projection_trusted. Qed.

Lemma tx_insert_event_upholds row timestamp : always (upholds trusted) (tx_insert_event row timestamp).
Proof.
  unfold tx_insert_event. apply always_bind; [apply _|by intros w [? ?]|]. intros c.
  apply gtx_execute_upholds. intros d a d' H. inv_result. by eapply insert_event_row_trusted.
Qed.

Lemma tx_insert_outbox_upholds now record : always (upholds trusted) (tx_insert_outbox now record).
Proof.
  unfold tx_insert_outbox. apply always_bind; [apply _|by intros w [? ?]|]. intros c.
  apply gtx_execute_upholds. intros d a d' H. simplify_eq. apply insert_outbox_trusted.
Qed.
#[local] Hint Resolve insert_audit_record_upholds update_source_sync_status_upholds
  upsert_projection_row_upholds tx_insert_event_upholds tx_insert_outbox_upholds : gw_always.

Lemma tx_pure_upholds {A} (f : GwDb -> A * GwDb) :
  (∀ d a d', f d = (a, d') → trusted d → trusted d') → always (upholds trusted) (tx_pure f).
Proof. intros Hf. apply gtx_execute_upholds. intros d a d' H. simplify_eq. eauto. Qed.

Lemma upsert_snapshot_inner_upholds record announcement :
  always (upholds trusted) (upsert_snapshot_inner record announcement).
Proof.
  unfold upsert_snapshot_inner. apply always_bind; [apply _|solve_always|]. intros now.
  apply always_bind; [apply _| |intros ?; solve_always].
  apply gtx_execute_upholds. intros d a d'. apply upsert_snapshot_row_trusted.
Qed.

Lemma insert_ui_event_inner_upholds record outbox :
  always (upholds trusted) (insert_ui_event_inner record outbox).
Proof. unfold insert_ui_event_inner, insert_ui_event_tx. solve_always. Qed.
#[local] Hint Resolve upsert_snapshot_inner_upholds insert_ui_event_inner_upholds : gw_always.

(** The space records of a snapshot are written only after they have been validated. *)
Lemma snapshot_presence_upholds now source presence :
  always (upholds trusted) (snapshot_presence now source presence).
Proof.
  unfold snapshot_presence, insert_snapshot_ui_record, insert_ui_record.
  destruct (validate_presence presence) as [[]|] eqn:Hv; [|solve_always].
  apply always_bind; [apply _| |intros ?; solve_always].
  apply tx_pure_upholds. intros d a d'. by apply upsert_presence_trusted, validate_presence_signed.
Qed.

Lemma snapshot_node_presence_upholds now source presence :
  always (upholds trusted) (snapshot_node_presence now source presence).
Proof.
  unfold snapshot_node_presence, insert_snapshot_ui_record, insert_ui_record.
  destruct (validate_node_presence _ _ _) as [[]|] eqn:Hv; [|solve_always].
  apply always_bind; [apply _| |intros ?; solve_always].
  apply tx_pure_upholds. intros d a d'.
  by eapply upsert_node_presence_trusted, validate_node_presence_interval.
Qed.

Lemma snapshot_world_event_upholds now source payload :
  always (upholds trusted) (snapshot_world_event now source payload).
Proof.
  unfold snapshot_world_event, insert_snapshot_ui_record, insert_ui_record.
  destruct (validate_world_event payload) as [[]|] eqn:Hv; [|solve_always].
  apply always_bind; [apply _| |intros ?; solve_always].
  apply gtx_execute_upholds. intros d a d'. by apply upsert_world_event_trusted, validate_world_event_ok.
Qed.

Lemma collect_rows_upholds {A} (items : list A) step rows :
  (∀ item, always (upholds trusted) (step item)) →
  always (upholds trusted) (collect_rows items step rows).
Proof.
  intros Hs. revert rows. induction items as [|item items IH]; intros rows; cbn; [solve_always|].
  apply always_bind; [apply _|apply Hs|]. intros row. apply IH.
Qed.
#[local] Hint Resolve snapshot_presence_upholds snapshot_node_presence_upholds
  snapshot_world_event_upholds collect_rows_upholds : gw_always.

Lemma persist_snapshot_space_upholds source snapshot signer :
  always (upholds trusted) (persist_snapshot_space source snapshot signer).
Proof. unfold persist_snapshot_space. solve_always. Qed.

Lemma fanout_trusted source node generated_at kind values seed :
  (kind = BoardActivity → ∀ value, value ∈ values → board_trusted value) →
  seed ∈ fanout_array source node generated_at kind values →
  sd_data_kind seed = BoardActivity → board_trusted (sd_payload seed).
Proof.
  intros Hv (value & -> & Hin)%list_elem_of_fmap Hk. cbn in *.
  apply attach_generated_at_trusted. by apply Hv.
Qed.

Lemma snapshot_seeds_trusted source snapshot seed :
  seed ∈ snapshot_projection_seeds source snapshot → sd_data_kind seed = BoardActivity →
  board_trusted (sd_payload seed).
Proof.
  unfold snapshot_projection_seeds. rewrite !elem_of_app. intros H Hk.
  repeat match type of H with _ ∨ _ => destruct H as [H|H] end.
  1: rewrite !elem_of_cons, elem_of_nil in H; by destruct H as [->|[->|[]]].
  all: eapply fanout_trusted; [|exact H|exact Hk]; try discriminate.
  intros _ value (v & Hv & Hm)%list_elem_of_omap. destruct (trusted_board_message v) eqn:Ht; [|done].
  simplify_eq. by eapply trusted_board_message_ok.
Qed.

Lemma persist_seed_upholds seed :
  (sd_data_kind seed = BoardActivity → board_trusted (sd_payload seed)) →
  always (upholds trusted) (persist_seed seed).
Proof.
  intros Hs. unfold persist_seed.
  apply (always_bind_post _ (fun name => data_kind_name (sd_data_kind seed) = Ok name));
    [solve_always|intros s a s' H; by apply lift_ok in H as [? _]|].
  intros name Hn. apply always_bind; [apply _|solve_always|]. intros visibility.
  apply upsert_projection_row_upholds. intros Hb. apply Hs. by eapply data_kind_name_inj.
Qed.

Lemma persist_snapshot_read_models_upholds source snapshot signer :
  always (upholds trusted) (persist_snapshot_read_models source snapshot signer).
Proof.
  unfold persist_snapshot_read_models.
  apply always_bind; [apply _|apply persist_snapshot_space_upholds|]. intros rows.
  apply always_bind; [apply _| |intros ?; solve_always].
  apply always_for_each; [apply _|]. intros seed Hin. apply persist_seed_upholds.
  by eapply snapshot_seeds_trusted.
Qed.
#[local] Hint Resolve persist_snapshot_read_models_upholds : gw_always.

Lemma publish_ui_event_upholds event : always (upholds trusted) (publish_ui_event event).
Proof. by apply upholds_beside. Qed.

Lemma announce_on_bus_upholds state subject payload :
  always (upholds trusted) (announce_on_bus state subject payload).
Proof. unfold announce_on_bus, publish_event. solve_always. Qed.

Lemma persist_snapshot_artifact_upholds snapshot :
  always (upholds trusted) (persist_snapshot_artifact snapshot).
Proof. unfold persist_snapshot_artifact. solve_always. Qed.

Lemma wake_sync_upholds : always (upholds trusted) wake_sync.
Proof. by apply upholds_beside. Qed.

Lemma now_rfc3339_upholds : always (upholds trusted) now_rfc3339.
Proof. unfold now_rfc3339. solve_always. Qed.
#[local] Hint Resolve publish_ui_event_upholds announce_on_bus_upholds wake_sync_upholds
  persist_snapshot_artifact_upholds now_rfc3339_upholds : gw_always.

Lemma ingest_signed_snapshot_upholds state snapshot source expected announce :
  always (upholds trusted)
    (ingest_signed_snapshot_with_options state snapshot source expected announce).
Proof.
  unfold ingest_signed_snapshot_with_options, apply_snapshot, upsert_snapshot,
    upsert_snapshot_with_p2p_outbox. solve_always.
Qed.
#[local] Hint Resolve ingest_signed_snapshot_upholds : gw_always.

(** *** Events *)

Lemma materialize_event_projection_upholds event source provisional projection payload :
  trusted_projection payload = Ok projection →
  always (upholds trusted) (materialize_event_projection event source provisional projection).
Proof.
  intros Hp. unfold materialize_event_projection, materialize_projection_row.
  destruct projection as [[kind value]|]; [|solve_always].
  apply (always_bind_post _ (fun name => data_kind_name kind = Ok name));
    [solve_always|intros s a s' H; by apply lift_ok in H as [? _]|].
  intros name Hn. apply always_bind; [apply _|solve_always|]. intros visibility.
  apply upsert_projection_row_upholds. cbn [up_data_kind up_payload]. intros Hb.
  assert (kind = BoardActivity) as -> by (by eapply data_kind_name_inj).
  by eapply trusted_projection_board.
Qed.

Lemma refresh_before_upholds state event source expected resolved :
  always (upholds trusted) (refresh_before state event source expected resolved).
Proof.
  unfold refresh_before, max_ui_event_source_seq, try_backfill_gap, ingest_signed_snapshot.
  solve_always.
Qed.

Lemma publish_stored_upholds state event row announce :
  always (upholds trusted) (publish_stored state event row announce).
Proof. unfold publish_stored. solve_always. Qed.
#[local] Hint Resolve materialize_event_projection_upholds refresh_before_upholds
  publish_stored_upholds : gw_always.

(** An event of a space that has passed its validation. *)
Lemma persist_event_upholds event source announce :
  validate_event event = Ok () → always (upholds trusted) (persist_event event source announce).
Proof.
  intros Hv. unfold persist_event, insert_ui_record.
  apply always_bind; [apply _|solve_always|]. intros now.
  apply always_bind; [apply _| |intros ?; solve_always].
  unfold upsert_space_record, validate_event in *.
  destruct (ne_data_kind (sn_payload event)); try solve [solve_always].
  - apply (always_bind_post _ (fun presence => space_presence_from_value (ne_payload (sn_payload event))
      = Ok presence)); [solve_always|intros s a s' H; by apply lift_ok in H as [? _]|].
    intros presence Hp. rewrite Hp in Hv. inv_result. apply tx_pure_upholds. intros d a d'.
    by apply upsert_presence_trusted, validate_presence_signed.
  - inv_result. apply gtx_execute_upholds. intros d a d'.
    by apply upsert_world_event_trusted, validate_world_event_ok.
Qed.

Lemma stream_ephemeral_upholds event source provisional scope :
  validate_event event = Ok () →
  always (upholds trusted) (stream_ephemeral event source provisional scope).
Proof.
  intros Hv. unfold stream_ephemeral. apply always_bind; [apply _| |intros ?; solve_always].
  case_bool_decide as Hk; [|solve_always]. case_bool_decide as He; [|solve_always]. cbn [andb].
  unfold validate_event in Hv. rewrite Hk, bool_decide_true in Hv by done.
  eapply (always_bind_post _ (fun presence =>
    node_presence_from_value (ne_payload (sn_payload event)) = Ok presence));
    [solve_always|intros s a s' H'; by apply lift_ok in H' as [? _]|].
  intros presence Hp. rewrite Hp in Hv. inv_result. unfold persist_node_presence.
  apply always_bind; [apply _|solve_always|]. intros now.
  apply always_bind; [apply _| |intros ?; solve_always]. apply tx_pure_upholds. intros d a d'.
  by eapply upsert_node_presence_trusted, validate_node_presence_interval.
Qed.
#[local] Hint Resolve persist_event_upholds stream_ephemeral_upholds : gw_always.

Lemma store_event_upholds state event source announce :
  validate_event event = Ok () → always (upholds trusted) (store_event state event source announce).
Proof.
  intros Hv. unfold store_event. do 2 (apply always_bind; [apply _|solve_always|]; intros ?).
  apply always_if; [solve_always|].
  apply (always_bind_post _ (fun projection => trusted_projection (sn_payload event) = Ok projection));
    [solve_always|intros ??? H; by apply lift_ok in H as [? _]|].
  intros projection Hp. unfold insert_event, duplicate_event, get_ui_event_by_id, insert_ui_event,
    insert_ui_event_with_p2p_outbox. solve_always.
Qed.

Lemma persist_signed_node_event_upholds state event source expected announce :
  always (upholds trusted)
    (persist_signed_node_event_with_options state event source expected announce).
Proof.
  unfold persist_signed_node_event_with_options, find_node_source_for_identity.
  do 3 (apply always_bind; [apply _|solve_always|]; intros ?).
  apply (always_bind_post _ (fun u => validate_event event = Ok u));
    [solve_always|intros s u s' H; by apply lift_ok in H as [? _]|].
  intros [] Hv. apply always_bind; [apply _|solve_always|]. intros ?.
  by apply store_event_upholds.
Qed.

Lemma history_upholds state arrivals : always (upholds trusted) (history state arrivals).
Proof.
  apply always_for_each; [apply _|]. intros arrival _.
  apply always_bind; [apply _|apply always_attempt|intros ?; solve_always].
  destruct arrival; unfold arrive, ingest_snapshot, find_node_source_for_identity,
    ingest_signed_snapshot, ingest_node_event, persist_signed_node_event;
    (apply always_bind; [apply _| |intros ?; solve_always]).
  - solve_always.
  - apply persist_signed_node_event_upholds.
  - apply ingest_signed_snapshot_upholds.
  - apply persist_signed_node_event_upholds.
Qed.

(** C26: whatever arrives, other agents are only shown what the right key has signed.  In
    every state that a gateway reaches from a trusted one, for instance the empty one,
    each presence is signed with the key of the agent whose row it is, each stored world
    event is an announcement signed by the authority that is pinned for its network, a
    board message that shows a world event shows the content of such an announcement,
    and each heartbeat is kept under its own node and agent with an interval between 1
    and 300 seconds. *)
Theorem served_records_signed state arrivals w w' :
  trusted (g_db w) → trusted (g_tx w) → history state arrivals w = (Ok (), w') → trusted (g_db w').
Proof.
  intros Hd Ht H. apply (always_run (upholds trusted)) in H; [|apply history_upholds].
  by apply H.
Qed.
End trusted.

(** ** Concrete runs *)

Section samples.
Local Existing Instances json_impl_value ui_event_json_impl frozen_gw_host codec_impl hex_impl
  signatures_impl space_codec_impl signed_records_impl space_env_impl gw_net_impl
  json_impl_value_laws codec_impl_laws.

Lemma empty_db_trusted : trusted empty_gw_db.
Proof. split; apply map_Forall_empty. Qed.

Lemma ingest_authentic_witness :
  admitted empty_gw_db (PushedEvent sample_board_event).
Proof.
  destruct (ingest_authentic sample_app_state (PushedEvent sample_board_event)
    (gw_world empty_gw_db) _ _ (surjective_pairing _)) as [Hq|H]; [|exact H].
  exfalso. apply qu_wakeups in Hq. vm_compute in Hq. discriminate Hq.
Defined.

Lemma served_records_signed_witness :
  let w' := (history sample_app_state sample_arrivals (gw_world empty_gw_db)).2 in
  trusted (g_db w') ∧ size (gd_space_events (g_db w')) = 1 ∧ size (gd_projections (g_db w')) = 1.
Proof.
  intros w'. split; [|split; vm_compute; reflexivity].
  refine (served_records_signed sample_app_state sample_arrivals (gw_world empty_gw_db) w' _ _ _).
  - exact empty_db_trusted.
  - exact empty_db_trusted.
  - refine (M_run_ok (history sample_app_state sample_arrivals) _ _ _). vm_compute. reflexivity.
Defined.
End samples.
