(* ===== verification/WsStream.v ===== *)
(** * The event stream of the gateway

    Models the WebSocket stream of [crates/gateway/src/streaming.rs]: the check of the
    request, the greeting, the refusal to resume at a cursor that has aged out, the replay
    of stored events and the live events after it.  The input of a connection is what its
    receiver yields; its output is the list of frames that were sent, and each attempt to
    send can fail. *)

From stdpp Require Import sorting.
From S2P Require Import Prelude Str External GwValue Contracts GwModels Verify Identity UiHub GwDb GwStore Normalize Space ReadModels Ingest GwSamples Progress.

(** What [receiver.recv()] returns. *)
Inductive Recv `{SV : SerdeValue} :=
| Received (event : UiStreamEvent)
| Lagged
| Closed.

(** A text frame: the greeting, the refusal to go on, or an event with its text. *)
Inductive WsFrame `{SV : SerdeValue} :=
| HelloFrame (body : Value)
| RejectedFrame (body : Value)
| EventFrame (event : GatewayUiEvent) (text : string).

(** Whether sending the [n]-th frame fails. *)
Class WebSocket := ws_fault : nat -> bool.

Section stream.
Context `{UJ : UiEventJson, GH : GwHost, CC : ContractCodec, WS : WebSocket}.

Definition is_some_and {A} (o : option A) (p : A -> bool) : bool := from_option p false o.

Definition event_matches_query (event : GatewayUiEvent) (query : UiStreamQuery)
    (allow_protected : bool) : bool :=
  if negb allow_protected && negb (allows_public_stream (ue_data_kind event)) then false
  else if is_some_and (uq_data_kind query) (fun kind => negb (bool_decide (kind = ue_data_kind event)))
  then false
  else if is_some_and (uq_node_id query) (fun expected => negb (bool_decide (ue_node_id event = expected)))
  then false
  else if is_some_and (uq_topic_id query)
    (fun expected => negb (bool_decide (es_topic_id (ue_scope event) = Some expected))) then false
  else if is_some_and (uq_organization_id query)
    (fun expected => negb (bool_decide (es_organization_id (ue_scope event) = Some expected))) then false
  else if is_some_and (uq_task_id query)
    (fun expected => negb (bool_decide (es_task_id (ue_scope event) = Some expected))) then false
  else true.

Definition advance_last_sent_cursor (last_sent_cursor cursor : Z) (sent : bool) : Z :=
  if sent && (0 <? cursor)%Z then Z.max last_sent_cursor cursor else last_sent_cursor.

Definition resume_rejection_reason (requested_cursor earliest_available_cursor : option Z) :
    option string :=
  match requested_cursor, earliest_available_cursor with
  | Some requested, Some earliest =>
      if (0 <? requested)%Z && (requested <? earliest)%Z then Some "cursor_aged_out" else None
  | _, _ => None
  end.

(** [socket.send]: the frames sent so far with the new one, or nothing if it failed. *)
Definition send (sent : list WsFrame) (frame : WsFrame) : option (list WsFrame) :=
  if ws_fault (length sent) then None else Some (sent ++ [frame]).

(** [let _ = socket.send(..)] *)
Definition send_last (sent : list WsFrame) (frame : WsFrame) : list WsFrame :=
  default sent (send sent frame).

Definition hello (query : UiStreamQuery) (earliest : option Z) (allow_protected : bool)
    (timestamp server_time_ms : Z) : Value :=
  json_object [
    ("kind", VString "hello"); ("timestamp", VNumber timestamp);
    ("server_time_ms", VNumber server_time_ms);
    ("cursor", VNumber (default 0%Z (uq_cursor query)));
    ("earliest_available_cursor", json_opt VNumber earliest);
    ("replay_supported", VBool true); ("requires_client_cursor", VBool true);
    ("resume_cursor_owner", VString "client");
    ("replay_persisted_across_restart", VBool true);
    ("bootstrap_contract", VString "rest_snapshot_then_ws_then_cursor_resume");
    ("retry_backoff_ms", json_object [("min", VNumber 500); ("max", VNumber 10000)]);
    ("rebootstrap_required_when", VString "cursor_missing_or_server_rejects_resume");
    ("auth_mode", VString (if allow_protected then "authorized" else "public_only"))].

Definition resume_rejected (reason : string) (requested earliest : option Z) : Value :=
  json_object [
    ("kind", VString "resume_rejected"); ("reason", VString reason);
    ("requested_cursor", json_opt VNumber requested);
    ("earliest_available_cursor", json_opt VNumber earliest);
    ("rebootstrap_required", VBool true)].

(** The query for the stored events after the cursor of the client. *)
Definition replay_query (query : UiStreamQuery) : ListUiEventsQuery := {|
  lq_cursor := default 0%Z (uq_cursor query);
  lq_data_kind :=
    kind ← uq_data_kind query;
    let name := match data_kind_to_string kind with Ok s => trim_quotes s | Err _ => "" end in
    if is_empty name then None else Some name;
  lq_node_id := uq_node_id query; lq_topic_id := uq_topic_id query;
  lq_organization_id := uq_organization_id query; lq_task_id := uq_task_id query;
  lq_limit := as_i64 (default 200%Z (uq_limit query)) |}.

(** The loop over the stored events: whether the connection is still up, the last cursor
    sent and the frames. *)
Fixpoint replay (query : UiStreamQuery) (allow_protected : bool) (rows : list UiEventRow)
    (last_sent_cursor : Z) (sent : list WsFrame) : bool * Z * list WsFrame :=
  match rows with
  | [] => (true, last_sent_cursor, sent)
  | row :: rows =>
      match ui_event_of_row row with
      | Err _ => replay query allow_protected rows last_sent_cursor sent
      | Ok event =>
          if event_matches_query event query allow_protected then
            match send sent (EventFrame event (default "" (ui_event_to_string event))) with
            | None => (false, last_sent_cursor, sent)
            | Some sent =>
                replay query allow_protected rows
                  (advance_last_sent_cursor last_sent_cursor (ue_cursor event) true) sent
            end
          else
            replay query allow_protected rows
              (advance_last_sent_cursor last_sent_cursor (ue_cursor event) false) sent
      end
  end.

(** The loop over the live events. *)
Fixpoint live (query : UiStreamQuery) (allow_protected : bool) (earliest : option Z)
    (inbox : list Recv) (last_sent_cursor : Z) (sent : list WsFrame) : list WsFrame :=
  match inbox with
  | [] => sent
  | Received stream_event :: inbox =>
      let event := se_event stream_event in
      if (0 <? ue_cursor event)%Z && (ue_cursor event <=? last_sent_cursor)%Z
      then live query allow_protected earliest inbox last_sent_cursor sent
      else if negb (event_matches_query event query allow_protected)
      then live query allow_protected earliest inbox last_sent_cursor sent
      else
        match send sent (EventFrame event (se_payload stream_event)) with
        | None => sent
        | Some sent =>
            live query allow_protected earliest inbox
              (advance_last_sent_cursor last_sent_cursor (ue_cursor event) true) sent
        end
  | Lagged :: _ =>
      send_last sent (RejectedFrame (resume_rejected "stream_lagged" (Some last_sent_cursor) earliest))
  | Closed :: _ => sent
  end.

(** The connection after the greeting. *)
Definition after_hello (query : UiStreamQuery) (allow_protected : bool) (earliest : option Z)
    (inbox : list Recv) (sent : list WsFrame) : G (list WsFrame) :=
  match resume_rejection_reason (uq_cursor query) earliest with
  | Some reason =>
      mret (send_last sent (RejectedFrame (resume_rejected reason (uq_cursor query) earliest)))
  | None =>
      rows ← attempt (list_ui_events_after (replay_query query));
      let last_sent_cursor := default 0%Z (uq_cursor query) in
      let '(connected, last_sent_cursor, sent) :=
        match rows with
        | Ok rows => replay query allow_protected rows last_sent_cursor sent
        | Err _ => (true, last_sent_cursor, sent)
        end in
      mret (if connected then live query allow_protected earliest inbox last_sent_cursor sent
            else sent)
  end.

Definition handle_ws (query : UiStreamQuery) (allow_protected : bool) (inbox : list Recv) :
    G (list WsFrame) :=
  _ ← modify (fun w => set_hub (subscribe (uq_data_kind query) (g_hub w)).2 w);
  earliest ← attempt earliest_ui_event_cursor;
  let earliest := match earliest with Ok earliest => earliest | Err _ => None end in
  timestamp ← gutc;
  server_time ← gutc;
  match send [] (HelloFrame (hello query earliest allow_protected
                  (timestamp `div` 1000000) (server_time `div` 1000))) with
  | None => mret []
  | Some sent => after_hello query allow_protected earliest inbox sent
  end.

(** Whether the token of the request is the one of the administrator. *)
Definition stream_authorized (state : AppState) (query : UiStreamQuery) : bool :=
  match uq_token query, ap_registry_admin_token state with
  | Some token, Some expected => bool_decide (token = expected)
  | _, _ => false
  end.

(** The handler: an error is the 401 answer. *)
Definition stream (state : AppState) (query : UiStreamQuery) (inbox : list Recv) :
    G (list WsFrame) :=
  let allow_protected := stream_authorized state query in
  if is_some_and (uq_data_kind query)
       (fun kind => negb (allows_public_stream kind) && negb allow_protected)
  then throw "protected stream kinds require an authorized token"
  else handle_ws query allow_protected inbox.
End stream.

(** ** Events of a connection *)

Section frames.
Context `{SV : SerdeValue}.

Definition frame_event (frame : WsFrame) : option GatewayUiEvent :=
  match frame with EventFrame event _ => Some event | _ => None end.

(** The stored events among those sent: events that are not stored have cursor 0. *)
Definition persisted (events : list GatewayUiEvent) : list GatewayUiEvent :=
  filter (fun event => (0 < ue_cursor event)%Z) events.

Definition sent_events (frames : list WsFrame) : list GatewayUiEvent := omap frame_event frames.

Lemma sent_events_snoc frames event text :
  sent_events (frames ++ [EventFrame event text]) = sent_events frames ++ [event].
Proof. unfold sent_events. by rewrite omap_app. Qed.

Lemma persisted_app l k : persisted (l ++ k) = persisted l ++ persisted k.
Proof. apply filter_app. Qed.
End frames.

Section properties.
Context `{UJ : UiEventJson, GH : GwHost, CC : ContractCodec, WS : WebSocket}.

Lemma send_some sent frame sent' : send sent frame = Some sent' → sent' = sent ++ [frame].
Proof. unfold send. case_match; [done|]. by intros [= <-]. Qed.

Lemma send_last_events sent frame :
  frame_event frame = None → sent_events (send_last sent frame) = sent_events sent.
Proof.
  intros Hf. unfold send_last. destruct (send sent frame) eqn:Hs; [|done].
  apply send_some in Hs as ->. unfold sent_events. cbn. rewrite omap_app. cbn. rewrite Hf.
  by rewrite app_nil_r.
Qed.

(** *** Confinement *)

(** An event passes the filters of the request. *)
Record passes (query : UiStreamQuery) (event : GatewayUiEvent) : Prop := {
  pa_kind : ∀ kind, uq_data_kind query = Some kind → ue_data_kind event = kind;
  pa_node : ∀ node, uq_node_id query = Some node → ue_node_id event = node;
  pa_topic : ∀ topic, uq_topic_id query = Some topic → es_topic_id (ue_scope event) = Some topic;
  pa_organization : ∀ org, uq_organization_id query = Some org →
    es_organization_id (ue_scope event) = Some org;
  pa_task : ∀ task, uq_task_id query = Some task → es_task_id (ue_scope event) = Some task;
}.

Lemma is_some_and_false {A} (o : option A) p :
  is_some_and o p = false ↔ ∀ a, o = Some a → p a = false.
Proof. destruct o; cbn; naive_solver. Qed.

Lemma event_matches_query_spec event query allow_protected :
  event_matches_query event query allow_protected = true ↔
    (allow_protected = true ∨ allows_public_stream (ue_data_kind event) = true) ∧ passes query event.
Proof.
  unfold event_matches_query. split.
  - intros H. repeat (case_match; [done|]).
    split; [destruct allow_protected, (allows_public_stream (ue_data_kind event)); naive_solver|].
    split; intros x Hx; match goal with
      | H : is_some_and ?o _ = false, Ho : ?o = Some _ |- _ =>
          apply (proj1 (is_some_and_false _ _) H) in Ho;
          apply negb_false_iff, bool_decide_eq_true in Ho
      end; congruence.
  - intros [Ha []].
    replace (_ && _) with false
      by (destruct allow_protected, (allows_public_stream (ue_data_kind event)); naive_solver).
    repeat match goal with |- context [is_some_and ?o ?p] =>
      let H := fresh in assert (is_some_and o p = false) as H
        by (apply is_some_and_false; intros x Hx; rewrite bool_decide_true; [done|];
            first [symmetry; by eauto|by eauto]); rewrite H; clear H
    end. done.
Qed.

(** Every event frame carries an event that matches. *)
Definition frames_match (query : UiStreamQuery) (allow_protected : bool) (frames : list WsFrame) :
    Prop :=
  Forall (fun event => event_matches_query event query allow_protected = true) (sent_events frames).

Lemma replay_matches query allow_protected rows last sent :
  frames_match query allow_protected sent →
  frames_match query allow_protected (replay query allow_protected rows last sent).2.
Proof.
  revert last sent. induction rows as [|row rows IH]; intros last sent Hs; cbn; [done|].
  case_match; [|by apply IH]. case_match eqn:Hm; [|by apply IH].
  destruct (send _ _) eqn:Hsend; [|done]. apply send_some in Hsend as ->. apply IH.
  unfold frames_match. rewrite sent_events_snoc. by apply Forall_app; split; [|constructor].
Qed.

Lemma live_matches query allow_protected earliest inbox last sent :
  frames_match query allow_protected sent →
  frames_match query allow_protected (live query allow_protected earliest inbox last sent).
Proof.
  revert last sent. induction inbox as [|[se| |] inbox IH]; intros last sent Hs; cbn; try done.
  - case_match; [by apply IH|]. case_match eqn:Hm; [by apply IH|].
    destruct (send _ _) eqn:Hsend; [|done]. apply send_some in Hsend as ->. apply IH.
    unfold frames_match. rewrite sent_events_snoc. apply negb_false_iff in Hm.
    by apply Forall_app; split; [|constructor].
  - unfold frames_match. by rewrite send_last_events.
Qed.

Lemma after_hello_matches query allow_protected earliest inbox sent w :
  frames_match query allow_protected sent →
  ∃ frames w', after_hello query allow_protected earliest inbox sent w = (Ok frames, w') ∧
    frames_match query allow_protected frames ∧ g_db w' = g_db w.
Proof.
  intros Hs. unfold after_hello. case_match.
  { eexists _, w. split_and!; [done| |done]. unfold frames_match. by rewrite send_last_events. }
  unfold mbind, M_bind, attempt. destruct (list_ui_events_after _ w) as [rows w'] eqn:Hl.
  apply gquery_run in Hl as [Hq _]. destruct Hq.
  assert (∃ connected last sent', (match rows with
      | Ok rows => replay query allow_protected rows (default 0%Z (uq_cursor query)) sent
      | Err _ => (true, default 0%Z (uq_cursor query), sent) end) = (connected, last, sent') ∧
    frames_match query allow_protected sent') as (connected & last & sent' & -> & Hs').
  { destruct rows as [rows|]; [|by do 3 eexists].
    pose proof (replay_matches query allow_protected rows (default 0%Z (uq_cursor query)) sent Hs).
    destruct (replay _ _ _ _ _) as [[c l] s]. by do 3 eexists. }
  eexists _, w'. split_and!; [done| |done].
  destruct connected; [by apply live_matches|done].
Qed.

(** A subscriber only receives what it may see and what it asked for.  Whatever the
    receiver yields and whatever fails, each event sent on a connection is of a kind that
    is open to the public, unless the request carries the token of the administrator, and
    passes all filters of the request.  A request for a protected kind without the token
    is refused before anything is sent. *)
Theorem stream_confined state query inbox w :
  match (stream state query inbox w).1 with
  | Err _ => ∃ kind, uq_data_kind query = Some kind ∧ allows_public_stream kind = false ∧
      stream_authorized state query = false
  | Ok frames => Forall (fun event =>
      (allows_public_stream (ue_data_kind event) = true ∨
       ∃ token, uq_token query = Some token ∧ ap_registry_admin_token state = Some token) ∧
      passes query event) (sent_events frames)
  end.
Proof.
  unfold stream. destruct (is_some_and _ _) eqn:Hk.
  { destruct (uq_data_kind query) as [kind|]; cbn in *; [|done]. exists kind.
    destruct (allows_public_stream kind), (stream_authorized state query); naive_solver. }
  assert (∃ frames, (handle_ws query (stream_authorized state query) inbox w).1 = Ok frames ∧
    frames_match query (stream_authorized state query) frames) as (frames & -> & Hm).
  { unfold handle_ws, gutc, gtick. unfold mbind, M_bind, attempt, modify, mret, M_ret.
    destruct (earliest_ui_event_cursor _) as [earliest w1].
    destruct (send _ _) eqn:Hs; [|exists []; split; [done|constructor]].
    apply send_some in Hs as ->.
    edestruct after_hello_matches as (frames & w2 & -> & Hf & _); [|by exists frames].
    by constructor. }
  eapply Forall_impl; [exact Hm|]. cbn. intros event [Ha Hp]%event_matches_query_spec.
  split; [|done]. destruct Ha as [Ha|Ha]; [right|by left]. unfold stream_authorized in Ha.
  repeat case_match; try done. apply bool_decide_eq_true in Ha as ->. eauto.
Qed.

(** *** Order *)

Definition cursor_lt (a b : UiEventRow) : Prop := (er_cursor a < er_cursor b)%Z.

Lemma sorted_fmap {A} (key : A -> Z) l :
  StronglySorted Z.lt (key <$> l) ↔ StronglySorted (fun a b => (key a < key b)%Z) l.
Proof.
  induction l as [|a l IH]; [split; constructor|]. rewrite fmap_cons. split; intros H.
  - apply StronglySorted_inv in H as [H1 H2]. constructor; [by apply IH|].
    exact (proj1 (Forall_fmap _ _ _) H2).
  - apply StronglySorted_inv in H as [H1 H2]. constructor; [by apply IH|].
    exact (proj2 (Forall_fmap _ _ _) H2).
Qed.

Lemma sorted_filter {A} (R : relation A) (P : A -> Prop) `{!∀ a, Decision (P a)} l :
  StronglySorted R l → StronglySorted R (filter P l).
Proof.
  induction 1 as [|a l Hs IH Hf]; [constructor|]. destruct (decide (P a)).
  - rewrite filter_cons_True by done. constructor; [done|]. rewrite Forall_forall in *.
    intros x [_ Hx]%list_elem_of_filter. auto.
  - by rewrite filter_cons_False.
Qed.

Lemma sorted_take {A} (R : relation A) n l : StronglySorted R l → StronglySorted R (take n l).
Proof. intros H. rewrite <- (take_drop n l) in H. by apply StronglySorted_app in H as (_ & ? & _). Qed.

(** Rows that are in the order of their cursors are not reordered. *)
Lemma order_by_sorted (rows : list UiEventRow) :
  StronglySorted cursor_lt rows → order_by er_cursor rows = rows.
Proof.
  intros Hs. unfold order_by. set (R := le_by er_cursor).
  assert (Transitive R) by (intros ???; unfold R, le_by; lia).
  assert (Total R) by (intros ??; unfold R, le_by; lia).
  assert (StronglySorted R rows) as Hr.
  { induction Hs; constructor; [done|]. eapply Forall_impl; [done|]. cbn. unfold cursor_lt, R, le_by. lia. }
  assert (∀ a b, a ∈ rows → b ∈ rows → er_cursor a = er_cursor b → a = b) as Hinj.
  { clear Hr. induction Hs as [|x l Hs IH Hf]; [set_solver|]. rewrite Forall_forall in Hf.
    intros a b [->|Ha]%elem_of_cons [->|Hb]%elem_of_cons Heq; try done; [..|by apply IH].
    - specialize (Hf _ Hb). unfold cursor_lt in Hf. lia.
    - specialize (Hf _ Ha). unfold cursor_lt in Hf. lia. }
  apply (StronglySorted_unique_strong R); [|by apply StronglySorted_merge_sort|done|
    apply merge_sort_Permutation].
  intros a b Ha Hb Hab Hba. apply Hinj; [by rewrite (merge_sort_Permutation R) in Ha|done|].
  unfold R, le_by in *. lia.
Qed.

Lemma log_sorted w : gw_ok w → StronglySorted cursor_lt (gd_ui_events (g_db w)).
Proof. intros [[_ Hs _ _] _ _]. exact (proj1 (sorted_fmap _ _) Hs). Qed.

(** The rows that are replayed. *)
Lemma replayed_rows query w r w' :
  gw_ok w → list_ui_events_after query w = (r, w') →
  (∃ e, r = Err e) ∨ r = Ok (limit_rows (Z.max (lq_limit query) 1)
    (filter (fun row => selected (g_db w) query row = true) (gd_ui_events (g_db w)))).
Proof.
  intros Hok [_ [He|[now ->]]]%gquery_run; [by left|right].
  by rewrite order_by_sorted by by apply sorted_filter, log_sorted.
Qed.

(** The stored events sent so far are in order, above [start] and up to [last]. *)
Record in_order (start last : Z) (sent : list WsFrame) : Prop := {
  io_sorted : StronglySorted Z.lt (ue_cursor <$> persisted (sent_events sent));
  io_range : Forall (fun event => (start < ue_cursor event <= last)%Z) (persisted (sent_events sent));
  io_start : (start <= last)%Z;
}.

Lemma in_order_send start last sent event text :
  in_order start last sent → (ue_cursor event <= 0 \/ last < ue_cursor event)%Z →
  in_order start (advance_last_sent_cursor last (ue_cursor event) true)
    (sent ++ [EventFrame event text]).
Proof.
  intros [Hs Hr Hl] He. unfold advance_last_sent_cursor. cbn [andb].
  destruct (Z.ltb_spec 0 (ue_cursor event)).
  - split; [| |lia]; rewrite sent_events_snoc, persisted_app;
      (assert (persisted [event] = [event]) as -> by (by unfold persisted; rewrite filter_cons_True)).
    + rewrite fmap_app. apply StronglySorted_app_2; [|done|by repeat constructor].
      intros x y (e & -> & He')%list_elem_of_fmap ->%list_elem_of_singleton.
      rewrite Forall_forall in Hr. specialize (Hr _ He'). lia.
    + apply Forall_app. split; [|by repeat constructor; lia].
      eapply Forall_impl; [done|]. cbn. lia.
  - split; [| |lia]; rewrite sent_events_snoc, persisted_app;
      (assert (persisted [event] = []) as -> by (unfold persisted; rewrite filter_cons_False; [done|lia]));
      by rewrite app_nil_r.
Qed.

Lemma replay_in_order query allow_protected start rows last sent :
  Forall (fun row => (last < er_cursor row)%Z) rows → StronglySorted cursor_lt rows →
  in_order start last sent →
  in_order start (replay query allow_protected rows last sent).1.2
    (replay query allow_protected rows last sent).2.
Proof.
  intros Hl Hs. revert last sent Hl. induction Hs as [|row rows Hs IH Hf]; intros last sent Hl Hio;
    cbn; [done|]. apply Forall_cons in Hl as [Hrow Hl].
  destruct (ui_event_of_row row) as [event|] eqn:He; [|by apply IH].
  assert (ue_cursor event = er_cursor row) as Hc.
  { unfold ui_event_of_row in He. by inv_result. }
  case_match; [|by apply IH]. destruct (send _ _) eqn:Hsend; [|done].
  apply send_some in Hsend as ->. apply IH; [|apply in_order_send; [done|lia]].
  unfold advance_last_sent_cursor. rewrite Forall_forall in *. intros x Hx.
  specialize (Hf x Hx). specialize (Hl x Hx). unfold cursor_lt in Hf. case_match; lia.
Qed.

Lemma live_in_order query allow_protected earliest start inbox last sent :
  in_order start last sent →
  ∃ last', in_order start last' (live query allow_protected earliest inbox last sent).
Proof.
  revert last sent. induction inbox as [|[se| |] inbox IH]; intros last sent Hio; cbn; [by eexists| | |by eexists].
  - case_match eqn:Hc; [by apply IH|]. case_match; [by apply IH|].
    destruct (send _ _) eqn:Hsend; [|by eexists]. apply send_some in Hsend as ->.
    apply (IH (advance_last_sent_cursor last (ue_cursor (se_event se)) true)).
    apply in_order_send; [done|]. lia.
  - exists last. destruct Hio. by split; rewrite ?send_last_events.
Qed.

Lemma after_hello_in_order query allow_protected earliest inbox w body frames w' :
  gw_ok w →
  after_hello query allow_protected earliest inbox [HelloFrame body] w = (Ok frames, w') →
  ∃ last, in_order (default 0%Z (uq_cursor query)) last frames.
Proof.
  intros Hok H. set (start := default 0%Z (uq_cursor query)) in *.
  assert (in_order start start [HelloFrame body]) as H0 by (by repeat constructor).
  unfold after_hello in H. case_match.
  { injection H as <- <-. exists start. destruct H0. by split; rewrite ?send_last_events. }
  unfold mbind, M_bind, attempt in H. fold start in H.
  destruct (list_ui_events_after _ w) as [rows w1] eqn:Hl.
  apply replayed_rows in Hl as [[e ->]| ->]; [| |done].
  { injection H as <- <-. by apply live_in_order. }
  set (rows := limit_rows _ _) in H.
  assert (Forall (fun row => (start < er_cursor row)%Z) rows ∧ StronglySorted cursor_lt rows) as [Hf Hs].
  { split; [|by apply sorted_take, sorted_filter, log_sorted].
    apply Forall_take, Forall_forall. intros row [Hsel _]%list_elem_of_filter.
    unfold selected in Hsel. repeat apply andb_true_iff in Hsel as [Hsel _].
    apply Z.ltb_lt in Hsel. exact Hsel. }
  pose proof (replay_in_order query allow_protected start rows start [HelloFrame body] Hf Hs H0) as Hr.
  destruct (replay _ _ _ _ _) as [[connected last] sent]. cbn in Hr.
  injection H as <- <-. destruct connected; [by apply live_in_order|eauto].
Qed.

(** The first stored event that clients may resume from. *)
Definition first_cursor (d : GwDb) : option Z :=
  er_cursor <$> head (order_by er_cursor
    (filter (fun row => visible d (er_source_id row) = true) (gd_ui_events d))).

(** The connection up to the greeting. *)
Lemma handle_ws_run query allow_protected inbox w :
  ∃ earliest w1 body, g_db w1 = g_db w ∧ (gw_ok w → gw_ok w1) ∧
    ((∀ t, gw_fault t = None) → earliest = first_cursor (g_db w)) ∧
    handle_ws query allow_protected inbox w =
      match send [] (HelloFrame body) with
      | None => mret []
      | Some sent => after_hello query allow_protected earliest inbox sent
      end w1.
Proof.
  unfold handle_ws, gutc, gtick. unfold mbind, M_bind, attempt, modify, mret, M_ret.
  set (w0 := set_hub _ w). destruct (earliest_ui_event_cursor w0) as [earliest w1] eqn:He.
  assert (progress w w1) as Hp.
  { transitivity w0; [by apply progress_beside|].
    eapply always_run; [|exact He]. apply gquery_progress. }
  pose proof He as Hq. apply gquery_run in Hq as [[Hdb _ _ _ _ _ _] Hr].
  eexists _, _, _. split_and!; [| | |reflexivity].
  - exact Hdb.
  - intros Hok. apply Hp in Hok as [[] _]. by split.
  - intros Hf. destruct Hr as [[e ->]|[now ->]]; [|done].
    unfold earliest_ui_event_cursor, gquery, gstatement, gtick, mbind, M_bind in He.
    cbn in He. by rewrite Hf in He.
Qed.

(** C34: a connection delivers stored events in the order of the log and never twice.
    Whatever the receiver yields, in whatever order, and whatever fails: the cursors of
    the stored events sent on a connection are above the cursor the client resumes from
    and strictly increase, across the boundary between replayed and live events. *)
Theorem stream_in_order state query inbox w :
  gw_ok w →
  match (stream state query inbox w).1 with
  | Err _ => True
  | Ok frames => StronglySorted Z.lt
      (default 0%Z (uq_cursor query) :: (ue_cursor <$> persisted (sent_events frames)))
  end.
Proof.
  intros Hok. unfold stream. destruct (is_some_and _ _); [done|].
  destruct (handle_ws_run query (stream_authorized state query) inbox w)
    as (earliest & w1 & body & _ & Hok1 & _ & ->).
  destruct (send [] _) as [sent|] eqn:Hs; [|by repeat constructor].
  apply send_some in Hs as ->. destruct (after_hello _ _ _ _ _ _) as [[frames|] w2] eqn:Ha; [|done].
  apply after_hello_in_order in Ha as [last [Hsort Hr _]]; [|by apply Hok1]. cbn.
  constructor; [done|]. rewrite Forall_fmap. eapply Forall_impl; [exact Hr|]. cbn. lia.
Qed.
End properties.

(** ** The stream is a view of the log *)

Section refinement.
Context `{UJ : UiEventJson, GH : GwHost, CC : ContractCodec, CCL : !ContractCodecLaws,
          WS : WebSocket} (query : UiStreamQuery) (allow_protected : bool).

(** The events of stored rows. *)
Definition row_events (rows : list UiEventRow) : list GatewayUiEvent :=
  omap (fun row => match ui_event_of_row row with Ok event => Some event | Err _ => None end) rows.

Definition matching (events : list GatewayUiEvent) : list GatewayUiEvent :=
  filter (fun event => event_matches_query event query allow_protected = true) events.

Definition above (cursor : Z) (events : list GatewayUiEvent) : list GatewayUiEvent :=
  filter (fun event => (cursor < ue_cursor event)%Z) events.

Lemma row_events_app l k : row_events (l ++ k) = row_events l ++ row_events k.
Proof. apply omap_app. Qed.

Lemma row_events_elem event rows :
  event ∈ row_events rows ↔ ∃ row, row ∈ rows ∧ ui_event_of_row row = Ok event.
Proof.
  unfold row_events. rewrite list_elem_of_omap. split.
  - intros (row & Hin & He). exists row. case_match; by simplify_eq.
  - intros (row & Hin & He). exists row. by rewrite He.
Qed.

Lemma row_cursor row event : ui_event_of_row row = Ok event → ue_cursor event = er_cursor row.
Proof. unfold ui_event_of_row. intros H. by inv_result. Qed.

Lemma row_events_sorted rows :
  StronglySorted cursor_lt rows →
  StronglySorted (fun a b => (ue_cursor a < ue_cursor b)%Z) (row_events rows).
Proof.
  induction 1 as [|row rows Hs IH Hf]; [constructor|]. cbn.
  destruct (ui_event_of_row row) as [event|] eqn:He; [|done]. constructor; [done|].
  apply Forall_forall. intros e (row' & Hin & He')%row_events_elem.
  rewrite Forall_forall in Hf. rewrite (row_cursor _ _ He), (row_cursor _ _ He'). by apply Hf.
Qed.

(** A row whose event matches is selected by the replay query. *)
Lemma matching_selected d row event :
  ui_event_of_row row = Ok event → event_matches_query event query allow_protected = true →
  visible d (er_source_id row) = true → (default 0 (uq_cursor query) < er_cursor row)%Z →
  selected d (replay_query query) row = true.
Proof.
  intros He [_ [Hk Hn Ht Ho Ha]]%event_matches_query_spec Hv Hc. unfold selected. cbn.
  unfold ui_event_of_row in He. inv_result. cbn in *.
  repeat (apply andb_true_iff; split); try done.
  - by apply Z.ltb_lt.
  - destruct (uq_data_kind query) as [kind|]; cbn; [|done].
    specialize (Hk _ eq_refl) as ->. destruct (data_kind_roundtrip kind) as (name & Hname & Hback).
    unfold data_kind_name in Hname. inv_result.
    match goal with H : data_kind_to_string kind = Ok _ |- _ => rewrite H end.
    destruct (is_empty _); [done|]. cbn. apply bool_decide_eq_true.
    eapply data_kind_from_inj; [eassumption|]. congruence.
  - destruct (uq_node_id query); cbn; [|done]. apply bool_decide_eq_true. by apply Hn.
  - destruct (uq_topic_id query); cbn; [|done]. apply bool_decide_eq_true. by apply Ht.
  - destruct (uq_organization_id query); cbn; [|done]. apply bool_decide_eq_true. by apply Ho.
  - destruct (uq_task_id query); cbn; [|done]. apply bool_decide_eq_true. by apply Ha.
Qed.

(** The selected rows hold exactly the wanted events. *)
Lemma selected_matching d rows :
  Forall (fun row => visible d (er_source_id row) = true) rows →
  matching (row_events (filter (fun row => selected d (replay_query query) row = true) rows)) =
  matching (above (default 0%Z (uq_cursor query)) (row_events rows)).
Proof.
  induction 1 as [|row rows Hv Hf IH]; [done|].
  destruct (ui_event_of_row row) as [event|] eqn:He.
  2:{ cbn [row_events omap list_omap]. rewrite He. fold (row_events rows).
      destruct (decide (selected d (replay_query query) row = true)).
      - rewrite filter_cons_True by done. cbn. by rewrite He.
      - by rewrite filter_cons_False. }
  assert (row_events (row :: rows) = event :: row_events rows) as -> by (cbn; by rewrite He).
  pose proof (row_cursor _ _ He) as Hc.
  destruct (decide (selected d (replay_query query) row = true)) as [Hs|Hs].
  - rewrite filter_cons_True by done.
    assert (row_events (row :: filter (fun row => selected d (replay_query query) row = true) rows)
      = event :: row_events (filter (fun row => selected d (replay_query query) row = true) rows))
      as -> by (cbn; by rewrite He).
    unfold above. rewrite filter_cons_True.
    2:{ unfold selected in Hs. repeat apply andb_true_iff in Hs as [Hs _]. cbn in Hs.
        apply Z.ltb_lt in Hs. lia. }
    unfold matching in *. rewrite !filter_cons. by rewrite IH.
  - rewrite filter_cons_False by done. rewrite IH. unfold above.
    destruct (decide (default 0 (uq_cursor query) < ue_cursor event)%Z).
    + rewrite (filter_cons_True (fun event => (_ < ue_cursor event)%Z)) by done.
      unfold matching. rewrite (filter_cons_False _ event); [done|].
      intros Hm. apply Hs. eapply matching_selected; [done|done|done|lia].
    + by rewrite (filter_cons_False (fun event => (_ < ue_cursor event)%Z)).
Qed.

Context (connected : ∀ n, ws_fault n = false).

Lemma send_up sent frame : send sent frame = Some (sent ++ [frame]).
Proof. unfold send. by rewrite connected. Qed.

(** The replay sends every matching event and ends at the last of them. *)
Lemma replay_exact rows last sent :
  Forall (fun row => (0 < er_cursor row)%Z) rows →
  ∃ last' sent', replay query allow_protected rows last sent = (true, last', sent') ∧
    sent_events sent' = sent_events sent ++ matching (row_events rows) ∧ (last <= last')%Z ∧
    (∀ event, event ∈ matching (row_events rows) → (ue_cursor event <= last')%Z) ∧
    (last' = last ∨ ∃ event, event ∈ row_events rows ∧ ue_cursor event = last').
Proof.
  intros Hpos. revert last sent. induction Hpos as [|row rows Hp Hf IH]; intros last sent; cbn.
  { exists last, sent. rewrite app_nil_r. split_and!; [done|done|lia|set_solver|by left]. }
  destruct (ui_event_of_row row) as [event|] eqn:He; [|apply IH].
  fold (row_events rows). pose proof (row_cursor _ _ He) as Hc. unfold matching in *.
  rewrite filter_cons. destruct (event_matches_query event query allow_protected) eqn:Hm.
  - rewrite send_up, decide_True by done.
    edestruct IH as (last' & sent' & -> & Hs & Hl & Hle & Hlast). exists last', sent'.
    rewrite Hs, sent_events_snoc, <- app_assoc. unfold advance_last_sent_cursor in *. cbn [andb] in *.
    rewrite (proj2 (Z.ltb_lt 0 (ue_cursor event))) in * by lia.
    split_and!; [done|done|lia| |].
    + intros e [->|Hin]%elem_of_cons; [lia|auto].
    + destruct Hlast as [Hlast|(e & Hin & Hlast)]; [|right; exists e; set_solver].
      destruct (Z.max_spec last (ue_cursor event)) as [[_ Hmax]|[_ Hmax]]; [right|left; congruence].
      exists event. split; [set_solver|congruence].
  - rewrite decide_False by congruence. unfold advance_last_sent_cursor. cbn [andb].
    edestruct IH as (last' & sent' & -> & Hs & Hl & Hle & Hlast). exists last', sent'.
    split_and!; [done..|]. destruct Hlast as [?|(e & ? & ?)]; [by left|right; set_solver].
Qed.

Lemma persisted_cons event l :
  persisted (event :: l) = if decide (0 < ue_cursor event)%Z then event :: persisted l else persisted l.
Proof. unfold persisted. rewrite filter_cons. by repeat case_decide. Qed.

Lemma matching_cons event l :
  matching (event :: l) =
    if event_matches_query event query allow_protected then event :: matching l else matching l.
Proof.
  unfold matching. rewrite filter_cons. by destruct (event_matches_query event query allow_protected).
Qed.

(** Below a cursor that all of [l] is above, the filter changes nothing. *)
Lemma above_all cursor l :
  Forall (fun event => (cursor < ue_cursor event)%Z) l → above cursor l = l.
Proof. intros Hl. apply filter_all. by rewrite Forall_forall in Hl. Qed.

(** Live events above the last one sent are sent, whatever events that are not stored
    come in between. *)
Lemma live_exact earliest events last sent :
  StronglySorted (fun a b => (ue_cursor a < ue_cursor b)%Z)
    (matching (persisted (se_event <$> events))) →
  persisted (sent_events (live query allow_protected earliest (Received <$> events) last sent)) =
  persisted (sent_events sent) ++ above last (matching (persisted (se_event <$> events))).
Proof.
  revert last sent. induction events as [|se events IH]; intros last sent; cbn [fmap list_fmap live].
  { intros _. by rewrite app_nil_r. }
  fold (se_event <$> events). fold (Received <$> events). set (event := se_event se).
  rewrite persisted_cons. destruct (event_matches_query event query allow_protected) eqn:Hm; cbn [negb].
  2:{ assert (∀ P : bool, (if P then live query allow_protected earliest (Received <$> events) last sent
         else live query allow_protected earliest (Received <$> events) last sent)
        = live query allow_protected earliest (Received <$> events) last sent) as -> by (by intros []).
      destruct (decide _); [rewrite matching_cons, Hm|]; apply IH. }
  destruct (decide (0 < ue_cursor event)%Z) as [Hp|Hp].
  - rewrite matching_cons, Hm. intros [Hs Hf]%StronglySorted_inv.
    destruct (Z.leb_spec (ue_cursor event) last) as [Hle|Hgt].
    + rewrite (proj2 (Z.ltb_lt 0 _) Hp). cbn [andb]. unfold above at 1.
      rewrite filter_cons_False by lia. by apply IH.
    + rewrite andb_false_r, send_up, IH by done.
      rewrite sent_events_snoc, persisted_app, persisted_cons, decide_True, <- app_assoc by done.
      unfold above at 2. rewrite filter_cons_True by done. cbn. do 2 f_equal.
      unfold advance_last_sent_cursor. cbn [andb]. rewrite (proj2 (Z.ltb_lt 0 _) Hp), Z.max_r by lia.
      rewrite above_all by done. symmetry. apply above_all.
      eapply Forall_impl; [exact Hf|]. cbn. lia.
  - intros Hs. rewrite (proj2 (Z.ltb_ge 0 _)) by lia. cbn [andb]. rewrite send_up, IH by done.
    rewrite sent_events_snoc, persisted_app, persisted_cons, decide_False, app_nil_r by done.
    unfold advance_last_sent_cursor. by rewrite (proj2 (Z.ltb_ge 0 _)) by lia.
Qed.

Lemma matching_app l k : matching (l ++ k) = matching l ++ matching k.
Proof. apply filter_app. Qed.

Lemma above_app cursor l k : above cursor (l ++ k) = above cursor l ++ above cursor k.
Proof. apply filter_app. Qed.

Lemma above_none cursor l :
  (∀ event, event ∈ l → (ue_cursor event <= cursor)%Z) → above cursor l = [].
Proof.
  intros H. apply filter_none. intros event Hin Hlt. specialize (H _ Hin). lia.
Qed.

Lemma above_matching cursor l : above cursor (matching l) = matching (above cursor l).
Proof.
  unfold above, matching. rewrite !list_filter_filter. apply list_filter_iff. tauto.
Qed.

(** What is left to send live is what the log gained since. *)
Lemma live_rest start last before later n :
  StronglySorted cursor_lt (before ++ later) →
  (start <= last)%Z →
  (∀ event, event ∈ matching (above start (row_events before)) → (ue_cursor event <= last)%Z) →
  (last = start ∨ ∃ event, event ∈ row_events before ∧ ue_cursor event = last) →
  above last (matching (row_events (drop n before ++ later))) =
  matching (above start (row_events later)).
Proof.
  intros Hs Hle Hall Hlast. rewrite row_events_app, matching_app, above_app.
  rewrite above_none; cbn.
  - rewrite above_matching. f_equal. apply filter_ext_elem.
    intros event (row & Hin & He)%row_events_elem. split; [lia|]. intros Hst.
    destruct Hlast as [->|(e & (row' & Hin' & He')%row_events_elem & <-)]; [done|].
    rewrite (row_cursor _ _ He), (row_cursor _ _ He').
    apply StronglySorted_app in Hs as [Hs _]. by apply Hs.
  - intros event [Hm Hin]%list_elem_of_filter.
    destruct (Z.le_gt_cases (ue_cursor event) start); [lia|]. apply Hall.
    apply list_elem_of_filter. split; [done|]. apply list_elem_of_filter. split; [lia|].
    rewrite row_events_elem in Hin |- *. destruct Hin as (row & Hin & He). exists row.
    split; [|done]. by eapply subseteq_drop.
Qed.

(** A connection with nothing in its way: no statement fails, the replay fits into the
    limit, the client does not resume from a cursor that has aged out, and the receiver
    yields the stored events from some point of the log on (any number of them stored
    before the replay), as the hub does, with events that are not stored in between. *)
Record undisturbed (w : GwWorld) (later : list UiEventRow) (events : list UiStreamEvent) : Prop := {
  un_ok : gw_ok w;
  un_db : ∀ t, gw_fault t = None;
  un_log : StronglySorted cursor_lt (gd_ui_events (g_db w) ++ later);
  un_stored : Forall (fun row => (0 < er_cursor row)%Z) (gd_ui_events (g_db w));
  un_visible : Forall (fun row => visible (g_db w) (er_source_id row) = true)
    (gd_ui_events (g_db w));
  un_limit : (Z.of_nat (length (filter (fun row => selected (g_db w) (replay_query query) row = true)
    (gd_ui_events (g_db w)))) <= Z.max (lq_limit (replay_query query)) 1)%Z;
  un_resume : resume_rejection_reason (uq_cursor query)
    (er_cursor <$> head (gd_ui_events (g_db w))) = None;
  un_inbox : ∃ n, matching (persisted (se_event <$> events)) =
    matching (row_events (drop n (gd_ui_events (g_db w)) ++ later));
}.

Lemma undisturbed_first w later events :
  undisturbed w later events → first_cursor (g_db w) = er_cursor <$> head (gd_ui_events (g_db w)).
Proof.
  intros []. unfold first_cursor. f_equal.
  assert (filter (fun row => visible (g_db w) (er_source_id row) = true) (gd_ui_events (g_db w))
    = gd_ui_events (g_db w)) as ->.
  { apply filter_all. by rewrite Forall_forall in un_visible0. }
  by rewrite order_by_sorted by by apply log_sorted.
Qed.

Lemma undisturbed_rows w w1 later events :
  undisturbed w later events → g_db w1 = g_db w → gw_ok w1 →
  ∃ w2, list_ui_events_after (replay_query query) w1 = (Ok (filter
    (fun row => selected (g_db w) (replay_query query) row = true) (gd_ui_events (g_db w))), w2).
Proof.
  intros [] Hdb Hok. destruct (list_ui_events_after _ w1) as [r w2] eqn:Hl. exists w2.
  destruct (replayed_rows _ _ _ _ Hok Hl) as [[e ->]| ->].
  { unfold list_ui_events_after, gquery, gstatement, gtick, mbind, M_bind in Hl. cbn in Hl.
    by rewrite un_db0 in Hl. }
  rewrite Hdb. unfold limit_rows. rewrite take_ge; [done|lia].
Qed.

(** C7: a connection is a view of the log.  With nothing in its way, the stored events a
    client receives are exactly the events of the log that are above the cursor it
    resumes from and match its request, each once and in the order of the log: those
    stored before the replay, those stored while the replay runs, which the receiver
    yields as well, and those stored later. *)
Theorem stream_refines_log w later events :
  undisturbed w later events →
  ∃ frames w', handle_ws query allow_protected (Received <$> events) w = (Ok frames, w') ∧
    persisted (sent_events frames) =
    matching (above (default 0%Z (uq_cursor query)) (row_events (gd_ui_events (g_db w) ++ later))).
Proof.
  intros Hu. pose proof (undisturbed_first _ _ _ Hu) as Hfirst.
  destruct (handle_ws_run query allow_protected (Received <$> events) w)
    as (earliest & w1 & body & Hdb & Hok & He & Hrun). rewrite send_up in Hrun.
  destruct (undisturbed_rows w w1 _ _ Hu Hdb) as [w2 Hrows]; [apply Hok, Hu|].
  destruct Hu as [Hok0 Hf Hlog Hpos Hvis _ Hres [n Hin]]. specialize (He Hf) as ->.
  unfold after_hello in Hrun. rewrite Hfirst, Hres in Hrun.
  unfold mbind at 1, M_bind at 1, attempt at 1 in Hrun. rewrite Hrows in Hrun.
  set (start := default 0%Z (uq_cursor query)) in *. set (log := gd_ui_events (g_db w)) in *.
  set (rows := filter _ log) in Hrun.
  assert (matching (row_events rows) = matching (above start (row_events log))) as Hsel
    by (by apply selected_matching).
  edestruct (replay_exact rows start) as (last & sent & Hr & Hs & Hle & Hall & Hlast).
  { apply Forall_forall. intros row [_ Hrow]%list_elem_of_filter. rewrite Forall_forall in Hpos. auto. }
  rewrite Hr in Hrun. eexists _, _. split; [exact Hrun|]. rewrite live_exact.
  2:{ rewrite Hin. apply sorted_filter, row_events_sorted.
      rewrite <- (take_drop n log), <- app_assoc in Hlog. by apply StronglySorted_app in Hlog as (_ & _ & ?). }
  rewrite Hs, Hin, (live_rest start last log later n); [|done|done|by rewrite <- Hsel|].
  2:{ destruct Hlast as [?|(e & He & ?)]; [by left|right]. exists e. split; [|done].
      rewrite row_events_elem in He |- *. destruct He as (row & [_ ?]%list_elem_of_filter & ?). eauto. }
  rewrite Hsel, row_events_app, above_app, matching_app. cbn. f_equal.
  apply filter_all. intros event [_ [_ Hin']%list_elem_of_filter]%list_elem_of_filter.
  apply row_events_elem in Hin' as (row & Hrow & He). rewrite (row_cursor _ _ He).
  rewrite Forall_forall in Hpos. auto.
Qed.
End refinement.

(** ** Concrete connections *)

Section samples.
Local Existing Instances json_impl_value ui_event_json_impl frozen_gw_host codec_impl
  codec_impl_laws.

Definition steady_socket : WebSocket := fun _ => false.
Local Existing Instance steady_socket.

Definition sample_row (cursor : Z) (event_id : string) : UiEventRow := {|
  er_cursor := cursor; er_event_id := event_id; er_source_id := None; er_node_id := "node";
  er_signer_agent_did := "did"; er_data_kind := "board_activity"; er_event_kind := "board.posted";
  er_visibility := "public"; er_provisional := false; er_topic_id := None;
  er_organization_id := None; er_task_id := None; er_generated_at := 0; er_ingested_at := 0;
  er_payload := JNull; er_ingest_path := "event_push"; er_source_cursor_or_seq := None |}.

Definition sample_ui_event (cursor : Z) (event_id : string) : GatewayUiEvent := {|
  ue_cursor := cursor; ue_event_id := event_id; ue_node_id := "node";
  ue_data_kind := BoardActivity; ue_event_kind := "board.posted"; ue_visibility := Public;
  ue_provisional := false;
  ue_scope := {| es_node_id := None; es_topic_id := None; es_organization_id := None;
                 es_task_id := None |};
  ue_generated_at := 0; ue_payload := JNull |}.

Definition sample_stream_event (cursor : Z) (event_id : string) : UiStreamEvent :=
  {| se_event := sample_ui_event cursor event_id; se_payload := event_id |}.

Definition sample_query : UiStreamQuery := {|
  uq_token := None; uq_cursor := Some 1%Z; uq_limit := None; uq_data_kind := None;
  uq_node_id := Some "node"; uq_topic_id := None; uq_organization_id := None; uq_task_id := None |}.

Definition sample_log : list UiEventRow := [sample_row 1 "a"; sample_row 2 "b"].

Definition sample_stream_world : GwWorld :=
  set_cursor_seq 3 (gw_world (on_ui_events (fun _ => sample_log) empty_gw_db)).

Lemma sample_stream_world_ok : gw_ok sample_stream_world.
Proof.
  assert (db_ok 3 1 (g_db sample_stream_world)).
  { split; cbn.
    - apply (bool_decide_unpack _). vm_compute. exact I.
    - repeat constructor.
    - repeat constructor.
    - apply map_Forall_empty. }
  by split.
Qed.

Lemma stream_in_order_witness :
  match (stream sample_app_state sample_query
    [Received (sample_stream_event 3 "c"); Received (sample_stream_event 2 "b")]
    sample_stream_world).1 with
  | Err _ => True
  | Ok frames => StronglySorted Z.lt (1%Z :: (ue_cursor <$> persisted (sent_events frames)))
  end.
Proof.
  apply (stream_in_order sample_app_state sample_query
    [Received (sample_stream_event 3 "c"); Received (sample_stream_event 2 "b")]
    sample_stream_world sample_stream_world_ok).
Defined.

Lemma stream_refines_log_witness :
  ∃ frames w', handle_ws sample_query false
    (Received <$> [sample_stream_event 0 "e"; sample_stream_event 2 "b"; sample_stream_event 3 "c"])
    sample_stream_world = (Ok frames, w') ∧
  persisted (sent_events frames) = [sample_ui_event 2 "b"; sample_ui_event 3 "c"].
Proof.
  destruct (stream_refines_log sample_query false (fun _ => eq_refl) sample_stream_world
    [sample_row 3 "c"]
    [sample_stream_event 0 "e"; sample_stream_event 2 "b"; sample_stream_event 3 "c"])
    as (frames & w' & Hrun & Hs).
  2:{ exists frames, w'. split; [exact Hrun|]. rewrite Hs. vm_compute. reflexivity. }
  split.
  - exact sample_stream_world_ok.
  - reflexivity.
  - repeat constructor.
  - repeat constructor.
  - repeat constructor.
  - vm_compute. discriminate.
  - reflexivity.
  - exists 1. reflexivity.
Defined.

Definition cursors_sent (query : UiStreamQuery) (inbox : list Recv) : list Z :=
  match (handle_ws query false inbox sample_stream_world).1 with
  | Ok frames => ue_cursor <$> sent_events frames
  | Err _ => []
  end.

(** A replay that is cut off at its limit is followed by live events all the same: the
    stored events in between are skipped, and a client that resumes from the last cursor
    it received does not get them either. *)
Lemma replay_limit_skips :
  cursors_sent {| uq_token := None; uq_cursor := Some 0%Z; uq_limit := Some 1%Z;
    uq_data_kind := None; uq_node_id := None; uq_topic_id := None; uq_organization_id := None;
    uq_task_id := None |} [Received (sample_stream_event 3 "c")] = [1%Z; 3%Z].
Proof. vm_compute. reflexivity. Qed.

(** Of two live events that are published in another order than they were stored, the
    second is dropped. *)
Lemma live_reorder_drops :
  cursors_sent sample_query
    [Received (sample_stream_event 4 "d"); Received (sample_stream_event 3 "c")] = [2%Z; 4%Z].
Proof. vm_compute. reflexivity. Qed.
End samples.
