(* ===== verification/Registry.v ===== *)
(** * The registry handlers of the gateway

    Models the handlers of [crates/gateway/src/http.rs] on the
    registry of gateways: registration of gateways, the review of registered
    gateways by the administrator, the public lists and the discovery over bootstrap
    registries.  A handler answers with a status and a body or refuses with a status and
    a message.  The HTTP client is an interface. *)

From stdpp Require Import sorting.
From S2P Require Import Prelude Str External GwValue Contracts GwModels Verify Identity UiHub GwDb GwStore Normalize Space ReadModels Ingest GwSamples Progress.

Inductive Reply (A : Type) :=
| Answered (status : Z) (body : A)
| Refused (status : Z) (error : string)
  (** A refusal whose body also names what it is about. *)
| RefusedFor (status : Z) (error : string) (subject : string * string).
Arguments Answered {A} status body.
Arguments Refused {A} status error.
Arguments RefusedFor {A} status error subject.

(** [headers.get("authorization")] and its [to_str()]. *)
Definition AuthorizationHeader : Type := option (option string).

(** [RegisterGatewayResponse] *)
Record RegisterGatewayResponse := {
  gr_gateway_id : string;
  gr_status : string;
  gr_discovery_tier : string;
}.

Record SelfRegisterGatewayResponse := {
  sr_registry_url : string;
  sr_gateway_id : string;
  sr_status : string;
  sr_discovery_tier : string;
}.

Class RegistryNet := {
  (** [GET] of a list of gateways and [POST] of a manifest, by the address. *)
  http_get_gateways : nat -> string -> result string (list GatewayRegistryEntry);
  http_post_manifest : nat -> string -> SignedGatewayManifest -> result string RegisterGatewayResponse;
}.

Section registry.
Context `{UJ : UiEventJson, GH : GwHost, SC : !SpaceCodec, SI : Signatures, SG : !Signing,
          JM : !Jcs GatewayManifest, GN : !GwNet, RN : RegistryNet}.

(** ** Authorisation and normalisation *)

Definition authorize_registry_admin (state : AppState) (header : AuthorizationHeader) :
    option (Z * string) :=
  match ap_registry_admin_token state with
  | None => Some (403%Z, "registry admin token is not configured")
  | Some expected_token =>
      match header with
      | None => Some (401%Z, "missing authorization header")
      | Some None => Some (401%Z, "invalid authorization header")
      | Some (Some value) =>
          match or_else (strip_prefix "Bearer " value) (strip_prefix "bearer " value) with
          | Some token =>
              if bool_decide (token = expected_token) then None
              else Some (403%Z, "invalid registry admin token")
          | None => Some (403%Z, "invalid registry admin token")
          end
      end
  end.

Definition normalized_gateway_registry_status (status : string) : result string string :=
  match status with
  | "pending" => Ok "pending"
  | "approved" => Ok "approved"
  | "rejected" => Ok "rejected"
  | "suspended" => Ok "suspended"
  | _ => Err "unsupported status; expected pending, approved, rejected, or suspended"
  end.

Definition normalized_gateway_discovery_tier (discovery_tier : option string) :
    result string string :=
  match default "community" discovery_tier with
  | "official" => Ok "official"
  | "verified" => Ok "verified"
  | "community" => Ok "community"
  | "manual" => Ok "manual"
  | _ => Err "unsupported discovery_tier; expected official, verified, community, or manual"
  end.

(** ** Registered gateways *)

Definition register_gateway (state : AppState) (manifest : SignedGatewayManifest) :
    G (Reply RegisterGatewayResponse) :=
  match verify_signed_gateway_manifest manifest with
  | Err error => mret (Refused 400 error)
  | Ok _ =>
      outcome ← attempt (upsert_gateway_manifest manifest);
      match outcome with
      | Err error => mret (Refused 400 error)
      | Ok entry =>
          timestamp ← now_rfc3339;
          _ ← announce_on_bus state "gateway.registry.registered" (json_object [
                ("event", VString "gateway.registry.registered");
                ("gateway_id", VString (ge_gateway_id entry));
                ("base_url", VString (ge_base_url entry));
                ("status", VString (ge_status entry));
                ("discovery_tier", VString (ge_discovery_tier entry));
                ("timestamp", VString timestamp)]);
          mret (Answered 201 {| gr_gateway_id := ge_gateway_id entry; gr_status := ge_status entry;
                                gr_discovery_tier := ge_discovery_tier entry |})
      end
  end.

Definition review_gateway (state : AppState) (header : AuthorizationHeader) (gateway_id : string)
    (body : ReviewGatewayRequest) : G (Reply GatewayRegistryEntry) :=
  match authorize_registry_admin state header with
  | Some (status, error) => mret (Refused status error)
  | None =>
      match normalized_gateway_registry_status (rr_status body),
            normalized_gateway_discovery_tier (rr_discovery_tier body) with
      | Err error, _ => mret (Refused 400 error)
      | _, Err error => mret (Refused 400 error)
      | Ok status, Ok discovery_tier =>
          outcome ← attempt (review_gateway_manifest gateway_id status discovery_tier
                               (rr_reason body) (rr_reviewed_by body));
          match outcome with
          | Err error => mret (Refused 500 error)
          | Ok None => mret (Refused 404 "gateway not found")
          | Ok (Some entry) =>
              timestamp ← now_rfc3339;
              _ ← announce_on_bus state "gateway.registry.reviewed" (json_object [
                    ("event", VString "gateway.registry.reviewed");
                    ("gateway_id", VString (ge_gateway_id entry));
                    ("status", VString (ge_status entry));
                    ("discovery_tier", VString (ge_discovery_tier entry));
                    ("reviewed_by", json_opt VString (ge_reviewed_by entry));
                    ("timestamp", VString timestamp)]);
              mret (Answered 200 entry)
          end
      end
  end.

(** The answer to a query of the registry. *)
Definition answer_entries {A} (outcome : result string A) : Reply A :=
  match outcome with Ok entries => Answered 200 entries | Err error => Refused 500 error end.

Definition list_public_gateways (query : GatewayRegistryQuery) :
    G (Reply (list GatewayRegistryEntry)) :=
  outcome ← attempt (list_gateway_registry_entries (Some "approved") (rq_tier query)
                       (rq_region query) (rq_role query));
  mret (answer_entries outcome).

Definition list_admin_gateways (state : AppState) (header : AuthorizationHeader)
    (query : GatewayRegistryQuery) : G (Reply (list GatewayRegistryEntry)) :=
  match authorize_registry_admin state header with
  | Some (status, error) => mret (Refused status error)
  | None =>
      outcome ← attempt (list_gateway_registry_entries None (rq_tier query) (rq_region query)
                           (rq_role query));
      mret (answer_entries outcome)
  end.

Definition get_public_gateway (gateway_id : string) : G (Reply GatewayRegistryEntry) :=
  outcome ← attempt (get_gateway_registry_entry gateway_id);
  mret (match outcome with
        | Ok (Some entry) =>
            if bool_decide (ge_status entry = "approved") then Answered 200 entry
            else Refused 404 "gateway not found"
        | Ok None => Refused 404 "gateway not found"
        | Err error => Refused 500 error
        end).

(** ** Discovery *)

Definition gateway_matches_filters (gateway : GatewayRegistryEntry) (query : GatewayRegistryQuery) :
    bool :=
  match rq_region query with
  | Some region => bool_decide (ge_region gateway = Some region)
  | None => true
  end &&
  match rq_tier query with
  | Some tier => bool_decide (ge_discovery_tier gateway = tier)
  | None => true
  end &&
  match rq_role query with
  | Some role => bool_decide (role ∈ ge_roles gateway)
  | None => true
  end.

Record DiscoveredGatewayEntry := {
  de_source_registry_url : string;
  de_gateway : GatewayRegistryEntry;
}.

(** [RegistryClient::fetch_public_gateways] and [RegistryClient::register_manifest] *)
Definition fetch_public_gateways (registry_url : string) : G (list GatewayRegistryEntry) :=
  t ← gtick; lift (http_get_gateways t (normalized_registry_list_url registry_url)).

Definition register_manifest (registry_url : string) (manifest : SignedGatewayManifest) :
    G RegisterGatewayResponse :=
  t ← gtick; lift (http_post_manifest t (normalized_registry_register_url registry_url) manifest).

Definition same_gateway (a b : GatewayRegistryEntry) : bool :=
  bool_decide (ge_gateway_id a = ge_gateway_id b) || bool_decide (ge_base_url a = ge_base_url b).

(** The entries of one registry, added to those discovered before. *)
Fixpoint add_discovered (query : GatewayRegistryQuery) (registry_url : string)
    (entries : list GatewayRegistryEntry) (discovered : list DiscoveredGatewayEntry) :
    list DiscoveredGatewayEntry :=
  match entries with
  | [] => discovered
  | gateway :: entries =>
      if gateway_matches_filters gateway query &&
         negb (existsb (fun entry => same_gateway (de_gateway entry) gateway) discovered)
      then add_discovered query registry_url entries
             (discovered ++ [{| de_source_registry_url := normalized_registry_list_url registry_url;
                                de_gateway := gateway |}])
      else add_discovered query registry_url entries discovered
  end.

Fixpoint discover (state : AppState) (query : GatewayRegistryQuery) (registry_urls : list string)
    (discovered : list DiscoveredGatewayEntry) : G (list DiscoveredGatewayEntry) :=
  match registry_urls with
  | [] => mret discovered
  | registry_url :: registry_urls =>
      outcome ← attempt (fetch_public_gateways registry_url);
      match outcome with
      | Ok entries =>
          discover state query registry_urls (add_discovered query registry_url entries discovered)
      | Err error =>
          timestamp ← now_rfc3339;
          _ ← announce_on_bus state "gateway.registry.discovery_fetch_failed" (json_object [
                ("event", VString "gateway.registry.discovery_fetch_failed");
                ("registry_url", VString registry_url); ("error", VString error);
                ("timestamp", VString timestamp)]);
          discover state query registry_urls discovered
      end
  end.

Definition local_entry (gateway : GatewayRegistryEntry) : DiscoveredGatewayEntry :=
  {| de_source_registry_url := "local"; de_gateway := gateway |}.

Definition discovery_gateways (state : AppState) (query : GatewayRegistryQuery) :
    G (Reply (list DiscoveredGatewayEntry)) :=
  outcome ← attempt (list_gateway_registry_entries (Some "approved") (rq_tier query)
                       (rq_region query) (rq_role query));
  match outcome with
  | Err error => mret (Refused 500 error)
  | Ok entries =>
      discovered ← discover state query (ap_bootstrap_registry_urls state) (local_entry <$> entries);
      mret (Answered 200 discovered)
  end.

Definition list_bootstrap_registries (state : AppState) : Reply (list string) :=
  Answered 200 (ap_bootstrap_registry_urls state).

Definition healthz : G (Reply GatewayHealthCounts) :=
  outcome ← attempt gateway_counts; mret (answer_entries outcome).

(** ** The gateway's own manifest *)

(** [identity.signed_manifest()]: signed at the time of the call. *)
Definition current_manifest (identity : GatewayIdentity) : G (result string SignedGatewayManifest) :=
  now ← gutc; mret (signed_manifest identity (timestamp_secs now)).

Definition self_manifest (gateway_identity : option GatewayIdentity) :
    G (Reply SignedGatewayManifest) :=
  match gateway_identity with
  | None => mret (Refused 404 "gateway identity is not configured")
  | Some identity => outcome ← current_manifest identity; mret (answer_entries outcome)
  end.

Definition registration_targets (state : AppState) (registry_url : option string) : list string :=
  match registry_url with
  | Some registry_url => if is_blank registry_url then [] else [registry_url]
  | None => ap_bootstrap_registry_urls state
  end.

(** The loop of [self_register_gateway]: the first registry that refuses ends it. *)
Fixpoint self_register (state : AppState) (manifest : SignedGatewayManifest)
    (registry_urls : list string) (results : list SelfRegisterGatewayResponse) :
    G (Reply (list SelfRegisterGatewayResponse)) :=
  match registry_urls with
  | [] => mret (Answered 200 results)
  | registry_url :: registry_urls =>
      let register_url := normalized_registry_register_url registry_url in
      outcome ← attempt (register_manifest registry_url manifest);
      match outcome with
      | Err error => mret (RefusedFor 502 error ("registry_url", register_url))
      | Ok payload =>
          timestamp ← now_rfc3339;
          _ ← announce_on_bus state "gateway.registry.self_registered" (json_object [
                ("event", VString "gateway.registry.self_registered");
                ("gateway_id", VString (gr_gateway_id payload));
                ("registry_url", VString register_url);
                ("status", VString (gr_status payload));
                ("discovery_tier", VString (gr_discovery_tier payload));
                ("timestamp", VString timestamp)]);
          self_register state manifest registry_urls (results ++ [{|
            sr_registry_url := register_url; sr_gateway_id := gr_gateway_id payload;
            sr_status := gr_status payload; sr_discovery_tier := gr_discovery_tier payload |}])
      end
  end.

Definition self_register_gateway (state : AppState) (gateway_identity : option GatewayIdentity)
    (registry_url : option string) : G (Reply (list SelfRegisterGatewayResponse)) :=
  match gateway_identity with
  | None => mret (Refused 404 "gateway identity is not configured")
  | Some identity =>
      let registry_urls := registration_targets state registry_url in
      if bool_decide (registry_urls = [])
      then mret (Refused 400 "registry_url is required or bootstrap registries must be configured")
      else
        manifest ← current_manifest identity;
        match manifest with
        | Err error => mret (Refused 500 error)
        | Ok manifest => self_register state manifest registry_urls []
        end
  end.
End registry.

(** ** What the registry promises *)

Section decisions.
Context `{UJ : UiEventJson, GH : GwHost, SC : !SpaceCodec, SI : Signatures, SG : !Signing,
          JM : !Jcs GatewayManifest, GN : !GwNet, RN : RegistryNet}.
Context (state : AppState).

Inductive RegistryRequest :=
| RRegister (manifest : SignedGatewayManifest)
| RReview (header : AuthorizationHeader) (gateway_id : string) (body : ReviewGatewayRequest)
| RDiscover (query : GatewayRegistryQuery)
| RList (query : GatewayRegistryQuery).

(** The decision on a gateway: its status and its tier. *)
Definition decision (entry : GatewayRegistryEntry) : string * string :=
  (ge_status entry, ge_discovery_tier entry).

Definition decisions (d : GwDb) : gmap string (string * string) := decision <$> gd_registry d.

(** One request, and the decision that its answer reports. *)
Definition registry_request (request : RegistryRequest) :
    G (option (string * (string * string))) :=
  match request with
  | RRegister manifest =>
      reply ← register_gateway state manifest;
      mret (match reply with
            | Answered _ r => Some (gr_gateway_id r, (gr_status r, gr_discovery_tier r))
            | _ => None end)
  | RReview header gateway_id body =>
      reply ← review_gateway state header gateway_id body;
      mret (match reply with
            | Answered _ entry => Some (ge_gateway_id entry, decision entry)
            | _ => None end)
  | RDiscover query => _ ← discovery_gateways state query; mret None
  | RList query => _ ← list_public_gateways query; mret None
  end.

(** The registry as the administrator sees it: a gateway that registers waits for a
    decision, and only an authorised review decides. *)
Inductive decision_step : RegistryRequest -> gmap string (string * string) ->
    gmap string (string * string) -> Prop :=
| step_keep request m : decision_step request m m
| step_register manifest m :
    verify_signed_gateway_manifest manifest = Ok () →
    m !! gm_gateway_id (sg_payload manifest) = None →
    decision_step (RRegister manifest) m
      (<[gm_gateway_id (sg_payload manifest) := ("pending", "community")]> m)
| step_review header gateway_id body m status tier :
    authorize_registry_admin state header = None →
    normalized_gateway_registry_status (rr_status body) = Ok status →
    normalized_gateway_discovery_tier (rr_discovery_tier body) = Ok tier →
    is_Some (m !! gateway_id) →
    decision_step (RReview header gateway_id body) m (<[gateway_id := (status, tier)]> m).

(** *** Frames *)

Definition same_db (w w' : GwWorld) : Prop := g_db w' = g_db w.

Global Instance same_db_preorder : PreOrder same_db.
Proof. unfold same_db. split; [done|]. intros a b c Hab Hbc. by rewrite Hbc. Qed.

Lemma gtick_same : always same_db gtick.
Proof. by intros w. Qed.
#[local] Hint Resolve gtick_same : gw_always.

Lemma announce_same subject payload : always same_db (announce_on_bus state subject payload).
Proof. unfold announce_on_bus, publish_event. solve_always. Qed.

Lemma now_rfc3339_same : always same_db now_rfc3339.
Proof. unfold now_rfc3339, gutc. solve_always. Qed.

Lemma gquery_same {A} (f : Z -> GwDb -> A) : always same_db (gquery f).
Proof. unfold gquery, gstatement. solve_always. Qed.
#[local] Hint Resolve announce_same now_rfc3339_same gquery_same : gw_always.

Lemma discover_same query registry_urls discovered :
  always same_db (discover state query registry_urls discovered).
Proof.
  revert discovered. induction registry_urls as [|registry_url urls IH]; intros discovered; cbn.
  - solve_always.
  - unfold fetch_public_gateways. solve_always.
Qed.

Lemma discovery_gateways_same query : always same_db (discovery_gateways state query).
Proof.
  unfold discovery_gateways, list_gateway_registry_entries. pose proof discover_same. solve_always.
Qed.

Lemma list_public_gateways_same query : always same_db (list_public_gateways query).
Proof. unfold list_public_gateways, list_gateway_registry_entries. solve_always. Qed.
#[local] Hint Resolve discovery_gateways_same list_public_gateways_same : gw_always.

(** *** The two statements that write *)

Lemma upsert_gateway_manifest_run manifest w r w' :
  upsert_gateway_manifest manifest w = (r, w') →
  let id := gm_gateway_id (sg_payload manifest) in
  (same_db w w' ∧ ∃ e, r = Err e) ∨
  ∃ now, let row := registry_row now manifest (gd_registry (g_db w) !! id) in
    (∀ other, other ∈ (map_to_list (gd_registry (g_db w))).*2 →
       ge_base_url other = gm_base_url (sg_payload manifest) → ge_gateway_id other = id) ∧
    g_db w' = on_registry <[id := row]> (g_db w) ∧ (r = Ok row ∨ ∃ e, r = Err e).
Proof.
  unfold upsert_gateway_manifest. cbn zeta.
  intros [(e & H & ->)|([] & w1 & H & Hr)]%M_bind_inv.
  { apply gexecute_run in H as [[Hq _]|(_ & ? & ? & ? & _)]; [|done].
    left. split; [apply (qu_db _ _ Hq)|eauto]. }
  apply gexecute_run in H as [[_ (? & ?)]|(_ & now & [] & _ & H)]; [done|].
  case_match eqn:Hx; [done|]. injection H as Hd. right. exists now.
  assert (g_db w' = g_db w1) as Hw'.
  { enough (same_db w1 w') by done. revert Hr. apply always_run.
    unfold get_gateway_registry_entry. solve_always. }
  split_and!.
  - intros other Hin Hurl. destruct (decide (ge_gateway_id other = gm_gateway_id (sg_payload manifest)))
      as [|Hne]; [done|].
    apply not_true_iff_false in Hx. destruct Hx. apply existsb_exists. exists other.
    rewrite bool_decide_eq_true. split; [by apply list_elem_of_In|done].
  - by rewrite Hw', <- Hd.
  - apply M_bind_inv in Hr as [(e & _ & ->)|(entry & w2 & Hq & Hl)]; [eauto|].
    apply gquery_run in Hq as [_ [(? & ?)|(? & [= ->])]]; [done|].
    rewrite <- Hd in Hl. cbn in Hl. rewrite lookup_insert_eq in Hl. injection Hl as <- _. by left.
Qed.

Lemma review_gateway_manifest_run gateway_id status tier reason by_whom w r w' :
  review_gateway_manifest gateway_id status tier reason by_whom w = (r, w') →
  (same_db w w' ∧ ∃ e, r = Err e) ∨
  ∃ now, let review := set_review now status tier reason by_whom in
    g_db w' = on_registry (alter review gateway_id) (g_db w) ∧
    (r = Ok (review <$> gd_registry (g_db w) !! gateway_id) ∨ ∃ e, r = Err e).
Proof.
  unfold review_gateway_manifest.
  intros [(e & H & ->)|([] & w1 & H & Hr)]%M_bind_inv.
  { apply gexecute_run in H as [[Hq _]|(_ & ? & ? & ? & _)]; [|done].
    left. split; [apply (qu_db _ _ Hq)|eauto]. }
  apply gexecute_run in H as [[_ (? & ?)]|(_ & now & [] & _ & [= Hd])]; [done|].
  right. exists now. cbn zeta. apply gquery_run in Hr as [Hq Hr].
  rewrite (qu_db _ _ Hq), <- Hd. split; [done|].
  destruct Hr as [?|(? & ->)]; [by right|left]. rewrite <- Hd. cbn. by rewrite lookup_alter_eq.
Qed.

(** *** The registry as a table *)

(** What a request may do to the table, and the decision it may then report. *)
Inductive registry_write : RegistryRequest -> gmap string GatewayRegistryEntry ->
    gmap string GatewayRegistryEntry -> option (string * (string * string)) -> Prop :=
| write_none request m : registry_write request m m None
| write_register manifest now m report :
    let id := gm_gateway_id (sg_payload manifest) in
    let row := registry_row now manifest (m !! id) in
    verify_signed_gateway_manifest manifest = Ok () →
    (∀ other, other ∈ (map_to_list m).*2 →
       ge_base_url other = gm_base_url (sg_payload manifest) → ge_gateway_id other = id) →
    (report = None ∨ report = Some (id, decision row)) →
    registry_write (RRegister manifest) m (<[id := row]> m) report
| write_review header gateway_id body status tier now m report :
    let review := set_review now status tier (rr_reason body) (rr_reviewed_by body) in
    authorize_registry_admin state header = None →
    normalized_gateway_registry_status (rr_status body) = Ok status →
    normalized_gateway_discovery_tier (rr_discovery_tier body) = Ok tier →
    (report = None ∨ ∃ old, m !! gateway_id = Some old ∧
       report = Some (ge_gateway_id old, (status, tier))) →
    registry_write (RReview header gateway_id body) m (alter review gateway_id m) report.

Lemma announce_then {A} subject payload (a : A) w r w' :
  (timestamp ← now_rfc3339; _ ← announce_on_bus state subject (payload timestamp); mret a) w
    = (r, w') → r = Ok a ∧ same_db w w'.
Proof.
  intros H. split; [|revert H; apply always_run; solve_always].
  unfold now_rfc3339, announce_on_bus, attempt in H. sym_exec H; done.
Qed.

Lemma register_gateway_run manifest w r w' :
  registry_request (RRegister manifest) w = (r, w') →
  ∃ report, r = Ok report ∧
    registry_write (RRegister manifest) (gd_registry (g_db w)) (gd_registry (g_db w')) report.
Proof.
  cbn. unfold register_gateway.
  destruct (verify_signed_gateway_manifest manifest) as [[]|e] eqn:Hv;
    [|intros [= <- <-]; eexists; split; [done|constructor]].
  intros [(e & H & ->)|(reply & w1 & H & [= <- <-])]%M_bind_inv.
  { apply M_bind_inv in H as [(? & H & _)|(outcome & w2 & _ & H)].
    - unfold attempt in H. by case_match.
    - destruct outcome; [|done]. by apply announce_then in H as [? _]. }
  eexists. split; [done|].
  apply M_bind_ok in H as (outcome & w2 & Hup & Hrest). unfold attempt in Hup.
  destruct (upsert_gateway_manifest manifest w) as [r2 w2'] eqn:Hrun. injection Hup as <- <-.
  assert (same_db w2' w1 ∧ (∀ e, r2 = Err e → reply = Refused 400 e) ∧
    ∀ row, r2 = Ok row → reply = Answered 201 {| gr_gateway_id := ge_gateway_id row;
      gr_status := ge_status row; gr_discovery_tier := ge_discovery_tier row |}) as (Hs & He & Ho).
  { destruct r2; [apply announce_then in Hrest as [[= ->] ?]|injection Hrest as <- <-];
      split_and!; naive_solver. }
  rewrite Hs. apply upsert_gateway_manifest_run in Hrun
    as [[Hd (e & ->)]|(now & Hurl & Hd & Hr)]; rewrite Hd.
  - rewrite (He _ eq_refl). constructor.
  - econstructor; [done|done|]. destruct Hr as [->|(e & ->)].
    + rewrite (Ho _ eq_refl). by right.
    + rewrite (He _ eq_refl). by left.
Qed.

Lemma review_gateway_run header gateway_id body w r w' :
  registry_request (RReview header gateway_id body) w = (r, w') →
  ∃ report, r = Ok report ∧
    registry_write (RReview header gateway_id body) (gd_registry (g_db w))
      (gd_registry (g_db w')) report.
Proof.
  cbn. unfold review_gateway.
  destruct (authorize_registry_admin state header) as [[code e]|] eqn:Hauth;
    [intros [= <- <-]; eexists; split; [done|constructor]|].
  destruct (normalized_gateway_registry_status (rr_status body)) as [status|e] eqn:Hstatus;
    [|intros [= <- <-]; eexists; split; [done|constructor]].
  destruct (normalized_gateway_discovery_tier (rr_discovery_tier body)) as [tier|e] eqn:Htier;
    [|intros [= <- <-]; eexists; split; [done|constructor]].
  intros [(e & H & ->)|(reply & w1 & H & [= <- <-])]%M_bind_inv.
  { apply M_bind_inv in H as [(? & H & _)|(outcome & w2 & _ & H)].
    - unfold attempt in H. by case_match.
    - destruct outcome as [[?|]|]; [|done|done]. by apply announce_then in H as [? _]. }
  eexists. split; [done|].
  apply M_bind_ok in H as (outcome & w2 & Hup & Hrest). unfold attempt in Hup.
  destruct (review_gateway_manifest _ _ _ _ _ w) as [r2 w2'] eqn:Hrun. injection Hup as <- <-.
  assert (same_db w2' w1 ∧ (∀ e, r2 = Err e → reply = Refused 500 e) ∧
    ∀ row, r2 = Ok row → reply = from_option (Answered 200) (Refused 404 "gateway not found") row)
    as (Hs & He & Ho).
  { destruct r2 as [[?|]|];
      [apply announce_then in Hrest as [[= ->] ?]|injection Hrest as <- <-..];
      split_and!; naive_solver. }
  rewrite Hs. apply review_gateway_manifest_run in Hrun
    as [[Hd (e & ->)]|(now & Hd & Hr)]; rewrite Hd.
  - rewrite (He _ eq_refl). constructor.
  - econstructor; [done..|]. destruct Hr as [->|(e & ->)].
    + rewrite (Ho _ eq_refl). destruct (gd_registry (g_db w) !! gateway_id) as [old|]; [|by left].
      right. by exists old.
    + rewrite (He _ eq_refl). by left.
Qed.

(** The decision that an outcome reports. *)
Definition reported (r : result string (option (string * (string * string)))) :
    option (string * (string * string)) :=
  match r with Ok report => report | Err _ => None end.

Lemma registry_request_run request w r w' :
  registry_request request w = (r, w') →
  registry_write request (gd_registry (g_db w)) (gd_registry (g_db w')) (reported r).
Proof.
  destruct request; intros H.
  - by apply register_gateway_run in H as (report & -> & H).
  - by apply review_gateway_run in H as (report & -> & H).
  - run_always same_db H. replace (g_db w') with (g_db w) by done.
    apply M_bind_inv in H as [(? & _ & ->)|(? & ? & _ & [= <- _])]; constructor.
  - run_always same_db H. replace (g_db w') with (g_db w) by done.
    apply M_bind_inv in H as [(? & _ & ->)|(? & ? & _ & [= <- _])]; constructor.
Qed.

(** *** Invariant *)

Definition registry_statuses : list string := ["pending"; "approved"; "rejected"; "suspended"].
Definition registry_tiers : list string := ["official"; "verified"; "community"; "manual"].

(** An entry restates a manifest that its own key has signed. *)
Record entry_ok (gateway_id : string) (entry : GatewayRegistryEntry) : Prop := {
  eo_id : ge_gateway_id entry = gateway_id;
  eo_manifest_id : gm_gateway_id (ge_manifest entry) = gateway_id;
  eo_url : ge_base_url entry = gm_base_url (ge_manifest entry);
  eo_key : ge_public_key entry = gm_public_key (ge_manifest entry);
  eo_roles : ge_roles entry = gm_roles (ge_manifest entry);
  eo_signed : verify_signed_gateway_manifest
    {| sg_payload := ge_manifest entry; sg_signature := ge_manifest_signature entry |} = Ok ();
  eo_status : ge_status entry ∈ registry_statuses;
  eo_tier : ge_discovery_tier entry ∈ registry_tiers;
}.

Record registry_ok (m : gmap string GatewayRegistryEntry) : Prop := {
  rk_entries : map_Forall entry_ok m;
  rk_urls : ∀ i j a b, m !! i = Some a → m !! j = Some b → ge_base_url a = ge_base_url b → i = j;
}.

Lemma normalized_status_in status s :
  normalized_gateway_registry_status status = Ok s → s = status ∧ s ∈ registry_statuses.
Proof.
  unfold normalized_gateway_registry_status.
  repeat case_match; intros [= <-]; (split; [done|unfold registry_statuses; set_solver]).
Qed.

Lemma normalized_tier_in tier s :
  normalized_gateway_discovery_tier tier = Ok s →
  s = default "community" tier ∧ s ∈ registry_tiers.
Proof.
  unfold normalized_gateway_discovery_tier. destruct (default "community" tier).
  all: repeat case_match; intros [= <-]; (split; [done|unfold registry_tiers; set_solver]).
Qed.

Lemma registry_write_ok request m m' report :
  registry_write request m m' report → registry_ok m → registry_ok m'.
Proof.
  intros [|manifest now m0 rep id row Hv Hurl _|header gid body status tier now m0 rep review _ Hs Ht _]
    [He Hu]; [done| |].
  - assert (∀ k, k ≠ id → ∀ e, m0 !! k = Some e → ge_base_url e ≠ ge_base_url row) as Hother.
    { intros k Hk e Hm Heq. apply Hk. rewrite <- (eo_id _ _ (He _ _ Hm)). apply Hurl; [|done].
      apply list_elem_of_fmap. exists (k, e). split; [done|]. by apply elem_of_map_to_list. }
    split.
    + apply map_Forall_insert_2; [|done]. split; cbn; try done.
      * destruct (m0 !! id) as [old|] eqn:Hold; cbn; [apply (eo_status _ _ (He _ _ Hold))|].
        unfold registry_statuses. set_solver.
      * destruct (m0 !! id) as [old|] eqn:Hold; cbn; [apply (eo_tier _ _ (He _ _ Hold))|].
        unfold registry_tiers. set_solver.
    + intros i j a b. rewrite !lookup_insert. repeat case_decide; naive_solver.
  - assert (∀ k e, alter review gid m0 !! k = Some e → ∃ e0, m0 !! k = Some e0 ∧
      (e = e0 ∨ e = review e0)) as Halter.
    { intros k e. destruct (decide (gid = k)) as [<-|].
      - rewrite lookup_alter_eq. intros (e0 & ? & ->)%fmap_Some. eauto.
      - rewrite lookup_alter_ne by done. eauto. }
    split.
    + intros k e (e0 & Hm & [->| ->])%Halter; [by apply He|]. destruct (He _ _ Hm).
      split; cbn; try done.
      * by apply normalized_status_in in Hs as [_ ?].
      * by apply normalized_tier_in in Ht as [_ ?].
    + intros i j a b (a0 & Ha & Ea)%Halter (b0 & Hb & Eb)%Halter Heq. apply (Hu i j a0 b0); [done..|].
      destruct Ea as [->| ->], Eb as [->| ->]; done.
Qed.

(** *** Refinement and histories *)

Lemma registry_write_decides request m m' report :
  registry_write request m m' report → decision_step request (decision <$> m) (decision <$> m').
Proof.
  intros [|manifest now m0 rep id row Hv _ _|header gid body status tier now m0 rep review Ha Hs Ht _].
  - constructor.
  - rewrite fmap_insert.
    assert (decision row = from_option decision ("pending", "community") (m0 !! id)) as ->
      by (unfold row; fold id; by destruct (m0 !! id)).
    destruct (m0 !! id) as [old|] eqn:Hold; cbn.
    + rewrite insert_id; [constructor|]. by rewrite lookup_fmap, Hold.
    + constructor; [done|]. rewrite lookup_fmap. fold id. by rewrite Hold.
  - destruct (m0 !! gid) as [old|] eqn:Hold.
    + replace (decision <$> alter review gid m0)
        with (<[gid := (status, tier)]> (decision <$> m0)).
      { econstructor; [done..|]. rewrite lookup_fmap, Hold. by eexists. }
      apply map_eq. intros k. rewrite lookup_insert, !lookup_fmap. case_decide as Hk.
      * subst k. by rewrite lookup_alter_eq, Hold.
      * by rewrite lookup_alter_ne.
    + replace (alter review gid m0) with m0; [constructor|].
      apply map_eq. intros k. destruct (decide (gid = k)) as [<-|].
      * by rewrite lookup_alter_eq, Hold.
      * by rewrite lookup_alter_ne.
Qed.

Lemma registry_write_reports request m m' id dec :
  registry_ok m → registry_write request m m' (Some (id, dec)) → decision <$> m' !! id = Some dec.
Proof.
  intros [He _] Hw. inversion Hw as [|manifest now m0 rep gid row _ _ Hr|
    header gid body status tier now m0 rep review _ _ _ Hr]; subst.
  - destruct Hr as [?|[= -> ->]]; [done|]. by rewrite lookup_insert_eq.
  - destruct Hr as [?|(old & Hm & [= -> ->])]; [done|].
    rewrite (eo_id _ _ (He _ _ Hm)), lookup_alter_eq, Hm. done.
Qed.

(** C12: The registry implements the administrator's view of it.  Whatever one registration,
    review or query does, succeed or fail, on the status and the tier of the gateways it is a
    step of [decision_step]: nothing, a new gateway that waits as pending in the community
    tier, or the decision of a review with the administrator's token.  What the answer
    reports is the decision then in force. *)
Theorem registry_refines_decisions request w r w' :
  registry_ok (gd_registry (g_db w)) → registry_request request w = (r, w') →
  decision_step request (decisions (g_db w)) (decisions (g_db w')) ∧
  (∀ id dec, r = Ok (Some (id, dec)) → decisions (g_db w') !! id = Some dec) ∧
  registry_ok (gd_registry (g_db w')).
Proof.
  intros Hok H%registry_request_run. split_and!.
  - by eapply registry_write_decides.
  - intros id dec ->. unfold decisions. rewrite lookup_fmap. by eapply registry_write_reports.
  - by eapply registry_write_ok.
Qed.

(** The state after a sequence of requests. *)
Definition after_requests (requests : list RegistryRequest) (w : GwWorld) : GwWorld :=
  foldl (fun w request => (registry_request request w).2) w requests.

Definition approves (gateway_id : string) (request : RegistryRequest) : Prop :=
  match request with
  | RReview header id body =>
      id = gateway_id ∧ authorize_registry_admin state header = None ∧ rr_status body = "approved"
  | _ => False
  end.

Lemma decision_step_approved request m m' id tier :
  decision_step request m m' → m' !! id = Some ("approved", tier) →
  (∃ tier', m !! id = Some ("approved", tier')) ∨ approves id request.
Proof.
  intros [|manifest m0 _ _|header gid body m0 status t Ha Hs _ _]; [eauto| |].
  - rewrite lookup_insert. case_decide; [done|eauto].
  - rewrite lookup_insert. case_decide as Hid; [|eauto]. intros [= -> ->]. right.
    apply normalized_status_in in Hs as [Hs _]. by split_and!.
Qed.

Lemma after_requests_ok requests w :
  registry_ok (gd_registry (g_db w)) →
  registry_ok (gd_registry (g_db (after_requests requests w))).
Proof.
  revert w. induction requests as [|request requests IH]; intros w Hok; [done|]. cbn. apply IH.
  eapply registry_write_ok, Hok. eapply registry_request_run, surjective_pairing.
Qed.

Lemma approved_by_review requests w id entry :
  gd_registry (g_db (after_requests requests w)) !! id = Some entry →
  ge_status entry = "approved" →
  (∃ old, gd_registry (g_db w) !! id = Some old ∧ ge_status old = "approved") ∨
  Exists (approves id) requests.
Proof.
  revert w. induction requests as [|request requests IH]; intros w Hm Hs; cbn in *; [eauto|].
  destruct (IH _ Hm Hs) as [(old & Hold & Ho)|Hex]; [|right; by apply Exists_cons_tl].
  assert (decision_step request (decision <$> gd_registry (g_db w))
    (decision <$> gd_registry (g_db (registry_request request w).2))) as Hstep.
  { eapply registry_write_decides, registry_request_run, surjective_pairing. }
  destruct (decision_step_approved _ _ _ id (ge_discovery_tier old) Hstep) as [(tier & Ht)|Ha].
  - rewrite lookup_fmap, Hold. cbn. unfold decision. by rewrite Ho.
  - rewrite lookup_fmap in Ht. apply fmap_Some in Ht as (e0 & ? & [= ]). left. eauto.
  - right. by apply Exists_cons_hd.
Qed.

(** The rows of a query on the registry. *)
Definition registry_rows (status tier region role : option string)
    (m : gmap string GatewayRegistryEntry) : list GatewayRegistryEntry :=
  merge_sort registry_le
    (filter (fun row => registry_selected status tier region role row = true) (map_to_list m).*2).

Lemma registry_rows_elem m status tier region role entry :
  registry_ok m → entry ∈ registry_rows status tier region role m ↔
    m !! ge_gateway_id entry = Some entry ∧ registry_selected status tier region role entry = true.
Proof.
  intros [He _]. unfold registry_rows. rewrite merge_sort_Permutation, list_elem_of_filter.
  rewrite list_elem_of_fmap. split.
  - intros (? & [k e] & -> & Hm%elem_of_map_to_list). cbn in *. by rewrite (eo_id _ _ (He _ _ Hm)).
  - intros [Hm ?]. split; [done|]. exists (ge_gateway_id entry, entry).
    split; [done|]. by apply elem_of_map_to_list.
Qed.

Lemma registry_rows_nodup m status tier region role :
  registry_ok m →
  let rows := registry_rows status tier region role m in
  NoDup (ge_gateway_id <$> rows) ∧ NoDup (ge_base_url <$> rows).
Proof.
  intros Hok rows. assert (NoDup rows) as Hnd.
  { unfold rows, registry_rows. rewrite merge_sort_Permutation. apply NoDup_filter.
    apply NoDup_fmap_2_strong; [|apply NoDup_map_to_list].
    intros [i a] [j b] Hi%elem_of_map_to_list Hj%elem_of_map_to_list [= <-].
    destruct Hok as [He _]. cbn in *.
    by rewrite <- (eo_id _ _ (He _ _ Hi)), <- (eo_id _ _ (He _ _ Hj)). }
  split; (apply NoDup_fmap_2_strong; [|done]); intros a b [Ha _]%registry_rows_elem
    [Hb _]%registry_rows_elem Heq; try done.
  - rewrite Heq in Ha. congruence.
  - pose proof (rk_urls _ Hok _ _ _ _ Ha Hb Heq) as Hid. rewrite Hid in Ha. congruence.
Qed.

Lemma list_gateway_registry_entries_ok status tier region role w entries w' :
  list_gateway_registry_entries status tier region role w = (Ok entries, w') →
  entries = registry_rows status tier region role (gd_registry (g_db w)) ∧ same_db w w'.
Proof.
  intros [Hq [(? & ?)|(now & [= ->])]]%gquery_run; [done|]. split; [done|apply (qu_db _ _ Hq)].
Qed.

(** Every gateway that the public list shows after any sequence of registrations,
    reviews and queries was approved before it or by a review in it that carried the
    administrator's token.  Its entry restates a manifest signed with the key the entry
    names, and no other entry has its base URL. *)
Theorem listed_gateways_approved requests query w entries w' :
  registry_ok (gd_registry (g_db w)) →
  list_public_gateways query (after_requests requests w) = (Ok (Answered 200 entries), w') →
  Forall (fun entry =>
    entry_ok (ge_gateway_id entry) entry ∧
    ((∃ old, gd_registry (g_db w) !! ge_gateway_id entry = Some old ∧ ge_status old = "approved") ∨
     Exists (approves (ge_gateway_id entry)) requests)) entries ∧
  NoDup (ge_gateway_id <$> entries) ∧ NoDup (ge_base_url <$> entries).
Proof.
  intros Hok%(after_requests_ok requests) (outcome & w1 & Hq & [= Ha _])%M_bind_ok.
  unfold attempt in Hq. destruct (list_gateway_registry_entries _ _ _ _ _) as [r w2] eqn:Hr.
  injection Hq as <- <-. destruct r as [rows|]; [|done]. injection Ha as <-.
  apply list_gateway_registry_entries_ok in Hr as [-> _].
  split; [|by apply registry_rows_nodup]. apply Forall_forall.
  intros entry [Hm Hs]%registry_rows_elem; [|done]. split; [exact (rk_entries _ Hok _ _ Hm)|].
  eapply approved_by_review; [done|]. unfold registry_selected in Hs. cbn in Hs.
  apply andb_prop in Hs as [[[Hs _]%andb_prop _]%andb_prop _]. by apply bool_decide_eq_true in Hs.
Qed.

(** *** Discovery *)

(** The registry at [registry_url], asked at some time, returned [entries]. *)
Definition returned (registry_url : string) (entries : list GatewayRegistryEntry) : Prop :=
  ∃ t, http_get_gateways t (normalized_registry_list_url registry_url) = Ok entries.

(** Where a discovered gateway comes from. *)
Definition discovered_at (entry : DiscoveredGatewayEntry) : Prop :=
  ∃ registry_url entries, registry_url ∈ ap_bootstrap_registry_urls state ∧
    returned registry_url entries ∧ de_gateway entry ∈ entries ∧
    de_source_registry_url entry = normalized_registry_list_url registry_url.

Definition distinct_gateways (found : list DiscoveredGatewayEntry) : Prop :=
  NoDup ((ge_gateway_id ∘ de_gateway) <$> found) ∧ NoDup ((ge_base_url ∘ de_gateway) <$> found).

Definition represented (found : list DiscoveredGatewayEntry) (gateway : GatewayRegistryEntry) : Prop :=
  ∃ entry, entry ∈ found ∧ same_gateway (de_gateway entry) gateway = true.

Lemma represented_dec found gateway :
  existsb (fun entry => same_gateway (de_gateway entry) gateway) found = true ↔
  represented found gateway.
Proof.
  rewrite existsb_exists. unfold represented. by setoid_rewrite <- list_elem_of_In.
Qed.

Lemma distinct_snoc found entry :
  distinct_gateways found → ¬ represented found (de_gateway entry) →
  distinct_gateways (found ++ [entry]).
Proof.
  intros [Hi Hu] Hn. unfold distinct_gateways. rewrite !fmap_app.
  split; (apply NoDup_app; split_and!; [done| |by apply NoDup_singleton]).
  all: intros x (e & -> & He)%list_elem_of_fmap Hx; apply list_elem_of_singleton in Hx; apply Hn.
  all: exists e; split; [done|]; unfold same_gateway; apply orb_true_iff; cbn in Hx.
  - left. by apply bool_decide_eq_true.
  - right. by apply bool_decide_eq_true.
Qed.

Lemma represented_app found new gateway :
  represented found gateway → represented (found ++ new) gateway.
Proof. intros (e & ? & ?). exists e. rewrite elem_of_app. auto. Qed.

(** One registry's entries: those that are new and pass the filters are appended. *)
Lemma add_discovered_spec query registry_url entries found :
  distinct_gateways found →
  ∃ new, add_discovered query registry_url entries found = found ++ new ∧
    distinct_gateways (found ++ new) ∧
    Forall (fun entry => de_gateway entry ∈ entries ∧
      gateway_matches_filters (de_gateway entry) query = true ∧
      de_source_registry_url entry = normalized_registry_list_url registry_url) new ∧
    ∀ gateway, gateway ∈ entries → gateway_matches_filters gateway query = true →
      represented (found ++ new) gateway.
Proof.
  revert found. induction entries as [|gateway entries IH]; intros found Hd; cbn.
  { exists []. rewrite app_nil_r. split_and!; [done|done|constructor|]. by intros ? ?%elem_of_nil. }
  set (entry := {| de_source_registry_url := normalized_registry_list_url registry_url;
                   de_gateway := gateway |}).
  destruct (gateway_matches_filters gateway query) eqn:Hf; cbn.
  2:{ destruct (IH found Hd) as (new & -> & ? & Hnew & Hrep). exists new. split_and!; [done|done| |].
      - eapply Forall_impl; [exact Hnew|]. cbn. intros e (? & ? & ?). by rewrite elem_of_cons; auto.
      - intros g [->|Hg]%elem_of_cons ?; [congruence|auto]. }
  destruct (existsb _ found) eqn:Hx; cbn.
  - apply represented_dec in Hx.
    destruct (IH found Hd) as (new & -> & ? & Hnew & Hrep). exists new. split_and!; [done|done| |].
    + eapply Forall_impl; [exact Hnew|]. cbn. intros e (? & ? & ?). by rewrite elem_of_cons; auto.
    + intros g [->|Hg]%elem_of_cons ?; [by apply represented_app|auto].
  - apply not_true_iff_false in Hx. rewrite represented_dec in Hx.
    destruct (IH (found ++ [entry])) as (new & -> & ? & Hnew & Hrep); [by apply distinct_snoc|].
    exists (entry :: new). rewrite <- app_assoc in *. split_and!; [done|done| |].
    + constructor; [split_and!; [by left|done|done]|].
      eapply Forall_impl; [exact Hnew|]. cbn. intros e (? & ? & ?). by rewrite elem_of_cons; auto.
    + intros g [->|Hg]%elem_of_cons ?; [|auto]. exists entry. split; [set_solver|].
      unfold same_gateway. by rewrite bool_decide_true.
Qed.

(** The registry is represented in [found]: asked at some time, it failed or each gateway
    of its answer that passes the filters is there. *)
Definition consulted (query : GatewayRegistryQuery) (found : list DiscoveredGatewayEntry)
    (registry_url : string) : Prop :=
  ∃ t, ∀ entries gateway,
    http_get_gateways t (normalized_registry_list_url registry_url) = Ok entries →
    gateway ∈ entries → gateway_matches_filters gateway query = true → represented found gateway.

Lemma consulted_app query found new registry_url :
  consulted query found registry_url → consulted query (found ++ new) registry_url.
Proof. intros [t Ht]. exists t. intros. eapply represented_app, Ht; done. Qed.

Lemma announce_after subject payload (k : G (list DiscoveredGatewayEntry)) w r w' :
  (timestamp ← now_rfc3339; _ ← announce_on_bus state subject (payload timestamp); k) w = (r, w') →
  ∃ w1, k w1 = (r, w').
Proof.
  intros H. unfold now_rfc3339, announce_on_bus, attempt in H.
  cbv [gutc gtick mbind M_bind mret M_ret] in H. cbn in H.
  destruct (publish_event state subject _ _) as [? w1]. by exists w1.
Qed.

Lemma discover_spec query registry_urls found w r w' :
  registry_urls ⊆ ap_bootstrap_registry_urls state → distinct_gateways found →
  discover state query registry_urls found w = (r, w') →
  ∃ new, r = Ok (found ++ new) ∧ distinct_gateways (found ++ new) ∧
    Forall (fun entry => gateway_matches_filters (de_gateway entry) query = true ∧
                         discovered_at entry) new ∧
    Forall (consulted query (found ++ new)) registry_urls.
Proof.
  revert found w. induction registry_urls as [|registry_url urls IH]; intros found w Hsub Hd; cbn.
  { intros [= <- <-]. exists []. by rewrite app_nil_r. }
  intros H. apply M_bind_inv in H as [(? & H & _)|(outcome & w1 & Ha & H)].
  { unfold attempt in H. by case_match. }
  assert (outcome = http_get_gateways (g_tick w) (normalized_registry_list_url registry_url)) as ->.
  { revert Ha. unfold attempt, fetch_public_gateways. cbv [gtick mbind M_bind lift].
    by destruct (http_get_gateways _ _); intros [= <- <-]. }
  destruct (http_get_gateways _ _) as [entries|error] eqn:Hget.
  - destruct (add_discovered_spec query registry_url entries found Hd)
      as (new & Hadd & Hd' & Hnew & Hrep).
    rewrite Hadd in H. apply IH in H as (new' & -> & Hd2 & Hnew' & Hc); [|set_solver|done].
    exists (new ++ new'). rewrite !app_assoc. split_and!; [done|done| |constructor; [|done]].
    + apply Forall_app. split; [|done]. eapply Forall_impl; [exact Hnew|].
      cbn. intros e (? & ? & ?). split; [done|].
      exists registry_url, entries. split_and!; [set_solver|by eexists|done|done].
    + exists (g_tick w). rewrite Hget. intros ? gateway [= <-] ??. by apply represented_app, Hrep.
  - apply announce_after in H as (w2 & H).
    apply IH in H as (new & -> & Hd2 & Hnew & Hc); [|set_solver|done].
    exists new. split_and!; [done|done|done|constructor; [|done]].
    exists (g_tick w). rewrite Hget. by intros.
Qed.

(** The filters of a query on the table are those on a fetched entry. *)
Lemma registry_selected_filters query entry :
  registry_selected (Some "approved") (rq_tier query) (rq_region query) (rq_role query) entry = true →
  ge_status entry = "approved" ∧ gateway_matches_filters entry query = true.
Proof.
  unfold registry_selected, gateway_matches_filters, unset_or, unset_or_opt.
  destruct (rq_tier query), (rq_region query), (rq_role query); cbn;
    rewrite ?andb_true_iff, ?bool_decide_eq_true; naive_solver.
Qed.

(** Discovery answers whatever the bootstrap registries do, unless its own database
    fails.  The local approved gateways come first, each later one was returned by a
    bootstrap registry under whose address it is shown, all of them pass the filters of the
    query and no two share an id or a base URL.  Nothing is lost: every gateway that passes
    the filters and that a consulted registry returned is shown itself or is shadowed by one
    with its id or its URL. *)
Theorem discovery_complete query w r w' :
  registry_ok (gd_registry (g_db w)) → discovery_gateways state query w = (r, w') →
  (∃ error, r = Ok (Refused 500 error)) ∨
  ∃ new, let locals := registry_rows (Some "approved") (rq_tier query) (rq_region query)
                         (rq_role query) (gd_registry (g_db w)) in
    let found := (local_entry <$> locals) ++ new in
    r = Ok (Answered 200 found) ∧
    Forall (fun entry => gateway_matches_filters (de_gateway entry) query = true) found ∧
    Forall (fun entry => ge_status entry = "approved") locals ∧
    Forall discovered_at new ∧ distinct_gateways found ∧
    Forall (consulted query found) (ap_bootstrap_registry_urls state).
Proof.
  intros Hok H. apply M_bind_inv in H as [(? & H & _)|(outcome & w1 & Ha & H)].
  { unfold attempt in H. by case_match. }
  unfold attempt in Ha. destruct (list_gateway_registry_entries _ _ _ _ w) as [rows w2] eqn:Hr.
  injection Ha as <- <-. destruct rows as [rows|error].
  2:{ injection H as <- <-. eauto. }
  right. apply list_gateway_registry_entries_ok in Hr as [-> _].
  set (locals := registry_rows _ _ _ _ _) in *. cbn zeta.
  assert (Forall (fun entry => ge_status entry = "approved" ∧
    gateway_matches_filters entry query = true) locals) as Hl.
  { apply Forall_forall. intros entry [_ Hs]%registry_rows_elem; [|done].
    by apply registry_selected_filters. }
  assert (distinct_gateways (local_entry <$> locals)) as Hd.
  { unfold distinct_gateways. rewrite <- !list_fmap_compose. by apply registry_rows_nodup. }
  apply M_bind_inv in H as [(e & H & ->)|(found & w3 & H & [= <- <-])].
  - by apply discover_spec in H as (? & ? & _).
  - apply discover_spec in H as (new & [= ->] & Hd2 & Hnew & Hc); [|done|done].
    exists new. split_and!; [done| | | |done|done].
    + apply Forall_app. split; [|by eapply Forall_impl; [exact Hnew|]; intros ? []].
      apply Forall_fmap. eapply Forall_impl; [exact Hl|]. by intros ? [].
    + eapply Forall_impl; [exact Hl|]. by intros ? [].
    + eapply Forall_impl; [exact Hnew|]. by intros ? [].
Qed.
(** A registration under the id of a gateway that is already listed replaces its key,
    its base URL and its manifest, although nothing relates the new key to the old one, and
    keeps the status and the tier that were decided for the old ones. *)
Theorem reregistration_keeps_approval manifest w report w' old :
  gd_registry (g_db w) !! gm_gateway_id (sg_payload manifest) = Some old →
  registry_request (RRegister manifest) w = (Ok (Some report), w') →
  ∃ entry, gd_registry (g_db w') !! gm_gateway_id (sg_payload manifest) = Some entry ∧
    ge_public_key entry = gm_public_key (sg_payload manifest) ∧
    ge_base_url entry = gm_base_url (sg_payload manifest) ∧
    ge_status entry = ge_status old ∧ ge_discovery_tier entry = ge_discovery_tier old ∧
    ge_reviewed_by entry = ge_reviewed_by old.
Proof.
  intros Hold (? & [= <-] & H)%register_gateway_run. inversion H as [|? now m0 rep id row _ _ _|]; subst.
  subst row id. rewrite lookup_insert_eq. eexists. split; [done|]. cbn. by rewrite Hold.
Qed.
End decisions.

(** ** Concrete runs *)

Section samples.
Local Existing Instances json_impl_value ui_event_json_impl frozen_gw_host codec_impl hex_impl
  signatures_impl signing_impl manifest_text space_codec_impl gw_net_impl.

Definition gateway_manifest (gateway_id base_url key : string) : SignedGatewayManifest := {|
  sg_payload := {|
    gm_generated_at := 5; gm_gateway_id := gateway_id; gm_display_name := "Gateway";
    gm_base_url := base_url; gm_public_key := dotted (fit 32 key); gm_region := None;
    gm_operator_did := None; gm_roles := ["query"]; gm_supported_endpoints := [];
    gm_federation_peers := []; gm_allows_public_ingest := true |};
  sg_signature := dotted (toy_sign (fit 32 key) base_url) |}.

Definition remote_entry (gateway_id base_url : string) : GatewayRegistryEntry :=
  registry_row 3 (gateway_manifest gateway_id base_url "remote") None.

(** One registry answers, with a gateway that is known locally by its URL. *)
Definition registry_net_impl : RegistryNet := {|
  http_get_gateways t url :=
    if bool_decide (url = "https://reg/api/registry/gateways")
    then Ok [remote_entry "gw-9" "https://a"; remote_entry "gw-2" "https://b"]
    else Err "connection refused";
  http_post_manifest t url manifest := Err "connection refused" |}.
Local Existing Instance registry_net_impl.

Definition discovery_state : AppState := {|
  ap_nats := true; ap_registry_admin_token := Some "admin";
  ap_bootstrap_registry_urls := ["https://down"; "https://reg/"];
  ap_gateway_network := false; ap_gateway_sync_tx := false |}.

Definition every_gateway : GatewayRegistryQuery :=
  {| rq_region := None; rq_tier := None; rq_role := Some "query" |}.

Definition approval : ReviewGatewayRequest := {|
  rr_status := "approved"; rr_discovery_tier := Some "verified"; rr_reason := None;
  rr_reviewed_by := Some "operator" |}.

Definition sample_requests : list RegistryRequest :=
  [RRegister (gateway_manifest "gw-1" "https://a" "one");
   RRegister (gateway_manifest "gw-3" "https://c" "three");
   RReview (Some (Some "Bearer admin")) "gw-1" approval;
   RReview (Some (Some "Bearer guess")) "gw-3" approval].

Definition registry_world : GwWorld := gw_world empty_gw_db.
Definition reviewed_world : GwWorld := after_requests discovery_state sample_requests registry_world.

Lemma answered_inj {A} {status : Z} {a b : A} :
  Ok (E:=string) (Answered status a) = Ok (Answered status b) → a = b.
Proof. by intros [= ->]. Qed.

Lemma empty_registry_ok : registry_ok (gd_registry (g_db registry_world)).
Proof. split; [apply map_Forall_empty|done]. Qed.

Lemma registry_refines_decisions_witness :
  let request := RRegister (gateway_manifest "gw-1" "https://a" "one") in
  decisions (g_db (registry_request discovery_state request registry_world).2) !! "gw-1"
    = Some ("pending", "community").
Proof.
  intros request.
  destruct (registry_refines_decisions discovery_state request registry_world
    (registry_request discovery_state request registry_world).1
    (registry_request discovery_state request registry_world).2) as (_ & H & _).
  - exact empty_registry_ok.
  - apply surjective_pairing.
  - apply H. vm_compute. reflexivity.
Defined.

Lemma listed_gateways_approved_witness :
  let w := after_requests discovery_state sample_requests registry_world in
  ∃ entries, (list_public_gateways every_gateway w).1 = Ok (Answered 200 entries) ∧
    ge_gateway_id <$> entries = ["gw-1"] ∧ NoDup (ge_base_url <$> entries).
Proof.
  intros w. assert (∃ entries, (list_public_gateways every_gateway w).1 = Ok (Answered 200 entries) ∧
    ge_gateway_id <$> entries = ["gw-1"]) as (entries & H & Hids).
  { eexists. split; vm_compute; reflexivity. }
  exists entries. split; [exact H|]. split; [exact Hids|].
  pose proof (M_run_ok (list_public_gateways every_gateway) _ _ H) as Hrun.
  destruct (listed_gateways_approved discovery_state sample_requests every_gateway registry_world
    entries _ empty_registry_ok Hrun) as (_ & _ & Hu). exact Hu.
Defined.

Lemma discovery_complete_witness :
  registry_ok (gd_registry (g_db reviewed_world)) ∧
  ∃ found, (discovery_gateways discovery_state every_gateway reviewed_world).1
      = Ok (Answered 200 found) ∧
    (ge_gateway_id ∘ de_gateway) <$> found = ["gw-1"; "gw-2"] ∧ distinct_gateways found.
Proof.
  assert (registry_ok (gd_registry (g_db reviewed_world))) as Hok
    by (apply after_requests_ok, empty_registry_ok).
  split; [exact Hok|].
  assert (∃ found, (discovery_gateways discovery_state every_gateway reviewed_world).1
    = Ok (Answered 200 found) ∧ (ge_gateway_id ∘ de_gateway) <$> found = ["gw-1"; "gw-2"])
    as (found & H & Hids) by (eexists; split; vm_compute; reflexivity).
  exists found. split; [exact H|]. split; [exact Hids|].
  pose proof (M_run_ok (discovery_gateways discovery_state every_gateway) _ _ H) as Hrun.
  destruct (discovery_complete discovery_state every_gateway reviewed_world _ _ Hok Hrun)
    as [(e & He)|(new & Hr & _ & _ & _ & Hd & _)].
  - discriminate He.
  - rewrite (answered_inj Hr). exact Hd.
Defined.

Lemma reregistration_keeps_approval_witness :
  let request := RRegister (gateway_manifest "gw-1" "https://evil" "two") in
  let w' := (registry_request discovery_state request reviewed_world).2 in
  ∃ entry, gd_registry (g_db w') !! "gw-1" = Some entry ∧
    ge_base_url entry = "https://evil" ∧ ge_status entry = "approved".
Proof.
  intros request w'.
  assert (∃ old, gd_registry (g_db reviewed_world) !! "gw-1" = Some old ∧
    ge_status old = "approved") as (old & Hold & Ho) by (eexists; split; vm_compute; reflexivity).
  assert (∃ report, (registry_request discovery_state request reviewed_world).1 = Ok (Some report))
    as (report & H) by (eexists; vm_compute; reflexivity).
  destruct (reregistration_keeps_approval discovery_state
    (gateway_manifest "gw-1" "https://evil" "two") reviewed_world report w' old Hold
    (M_run_ok (registry_request discovery_state request) _ _ H))
    as (entry & He & _ & Hu & Hs & _).
  exists entry. split; [exact He|]. split; [exact Hu|]. rewrite Hs. exact Ho.
Defined.
End samples.
