(* ===== verification/Limiter.v ===== *)
(** * The limiter of snapshot fetches

    Models [GossipWorkLimiter] of [crates/gateway/src/gateway_sync.rs]: at most four
    snapshot fetches at a time, one for each peer, with a bounded number of announcements
    waiting for each peer.  The tasks that wait are state machines over the semaphores and
    the [tokio] notifications they share, one step for each operation on the shared state,
    so that every interleaving is a sequence of steps.  Semaphores are on a heap, since a
    task keeps the one it was admitted with when the table of peers has a new one. *)

From S2P Require Import Prelude Str External.

Definition SNAPSHOT_WORKER_COUNT : nat := 4.
Definition GOSSIP_WORK_QUEUE_CAPACITY : nat := 128.
Definition MAX_PENDING_SNAPSHOT_FETCHES_PER_PEER : nat :=
  Nat.div GOSSIP_WORK_QUEUE_CAPACITY SNAPSHOT_WORKER_COUNT.

(** ** [tokio::sync::Notify] *)

(** A notification that finds no waiter is stored, once; the waiters are in order. *)
Record Notify := { stored : bool; waiters : list nat }.

Definition new_notify : Notify := {| stored := false; waiters := [] |}.

(** [notify_one], and the waiter it wakes. *)
Definition notify_one (n : Notify) : Notify * option nat :=
  match waiters n with
  | [] => ({| stored := true; waiters := [] |}, None)
  | i :: rest => ({| stored := stored n; waiters := rest |}, Some i)
  end.

(** The first poll of [notified().await]: it consumes the stored notification or queues. *)
Definition await_notify (n : Notify) (i : nat) : Notify * bool :=
  if stored n then ({| stored := false; waiters := waiters n |}, true)
  else ({| stored := false; waiters := waiters n ++ [i] |}, false).

(** ** State *)

(** The semaphore of a peer with its notification, behind their [Arc]s. *)
Record PeerArc := { permits : nat; peer_notify : Notify }.

(** [SnapshotPeerLimit]: the address of the semaphore, and the announcements admitted. *)
Record SnapshotPeerLimit := { semaphore : nat; pending : nat }.

Record GossipWorkLimiter := {
  snapshot_global : nat;
  snapshot_peers : gmap string SnapshotPeerLimit;
  snapshot_global_notify : Notify;
}.

(** Where a task is in [SnapshotFetchAdmission::acquire], in its work, or in the drops at
    its end; the flag is [woke_from_global]. *)
Inductive Phase :=
| Start (woke : bool)
| PassOn
| AskPeer
| WaitPeer
| HasPeer (woke : bool)
| NoGlobal
| PeerDropped
| AskGlobal
| WaitGlobal
| Working
| DropPeer
| DropGlobal
| NotifyGlobal
| DropAdmission
| Finished.

(** [SnapshotFetchAdmission], and how far its task is. *)
Record Task := { task_peer : string; task_arc : nat; phase : Phase }.

Record Fetches := {
  limiter : GossipWorkLimiter;
  arcs : list PeerArc;
  tasks : list Task;
}.

Definition new_limiter : GossipWorkLimiter := {|
  snapshot_global := SNAPSHOT_WORKER_COUNT; snapshot_peers := ∅;
  snapshot_global_notify := new_notify |}.

Definition no_fetches : Fetches := {| limiter := new_limiter; arcs := []; tasks := [] |}.

Definition on_tasks (f : list Task -> list Task) (s : Fetches) : Fetches :=
  {| limiter := limiter s; arcs := arcs s; tasks := f (tasks s) |}.

Definition on_arc (a : nat) (f : PeerArc -> PeerArc) (s : Fetches) : Fetches :=
  {| limiter := limiter s; arcs := alter f a (arcs s); tasks := tasks s |}.

Definition on_limiter (f : GossipWorkLimiter -> GossipWorkLimiter) (s : Fetches) : Fetches :=
  {| limiter := f (limiter s); arcs := arcs s; tasks := tasks s |}.

Definition set_phase (p : Phase) (t : Task) : Task :=
  {| task_peer := task_peer t; task_arc := task_arc t; phase := p |}.

Definition go (i : nat) (p : Phase) : Fetches -> Fetches := on_tasks (alter (set_phase p) i).

Definition set_permits (n : nat) (a : PeerArc) : PeerArc :=
  {| permits := n; peer_notify := peer_notify a |}.
Definition set_peer_notify (n : Notify) (a : PeerArc) : PeerArc :=
  {| permits := permits a; peer_notify := n |}.
Definition set_global (n : nat) (l : GossipWorkLimiter) : GossipWorkLimiter :=
  {| snapshot_global := n; snapshot_peers := snapshot_peers l;
     snapshot_global_notify := snapshot_global_notify l |}.
Definition set_peers (m : gmap string SnapshotPeerLimit) (l : GossipWorkLimiter) :
    GossipWorkLimiter :=
  {| snapshot_global := snapshot_global l; snapshot_peers := m;
     snapshot_global_notify := snapshot_global_notify l |}.
Definition set_global_notify (n : Notify) (l : GossipWorkLimiter) : GossipWorkLimiter :=
  {| snapshot_global := snapshot_global l; snapshot_peers := snapshot_peers l;
     snapshot_global_notify := n |}.

(** ** Operations *)

(** A waiter that was notified goes back to the top of the loop. *)
Definition wake (i : option nat) (woke : bool) (s : Fetches) : Fetches :=
  match i with Some i => go i (Start woke) s | None => s end.

Definition notify_peer (a : nat) (arc : PeerArc) (s : Fetches) : Fetches :=
  let '(n, i) := notify_one (peer_notify arc) in
  wake i false (on_arc a (set_peer_notify n) s).

Definition notify_global (s : Fetches) : Fetches :=
  let '(n, i) := notify_one (snapshot_global_notify (limiter s)) in
  wake i true (on_limiter (set_global_notify n) s).

(** [try_admit_snapshot]: a task starts when the peer has not too many. *)
Definition try_admit_snapshot (peer_id : string) (s : Fetches) : Fetches * bool :=
  let '(entry, arcs') :=
    match snapshot_peers (limiter s) !! peer_id with
    | Some entry => (entry, arcs s)
    | None => ({| semaphore := length (arcs s); pending := 0 |},
               arcs s ++ [{| permits := 1; peer_notify := new_notify |}])
    end in
  if MAX_PENDING_SNAPSHOT_FETCHES_PER_PEER <=? pending entry
  then ({| limiter := set_peers (<[peer_id := entry]> (snapshot_peers (limiter s))) (limiter s);
           arcs := arcs'; tasks := tasks s |}, false)
  else
    let entry' := {| semaphore := semaphore entry; pending := S (pending entry) |} in
    ({| limiter := set_peers (<[peer_id := entry']> (snapshot_peers (limiter s))) (limiter s);
        arcs := arcs';
        tasks := tasks s ++ [{| task_peer := peer_id; task_arc := semaphore entry;
                                phase := Start false |}] |}, true).

(** [Drop for SnapshotFetchAdmission] *)
Definition drop_admission (peer_id : string) (l : GossipWorkLimiter) : GossipWorkLimiter :=
  match snapshot_peers l !! peer_id with
  | Some entry =>
      let pending' := pending entry - 1 in
      if bool_decide (pending' = 0) then set_peers (delete peer_id (snapshot_peers l)) l
      else set_peers (<[peer_id := {| semaphore := semaphore entry; pending := pending' |}]>
                        (snapshot_peers l)) l
  | None => l
  end.

(** One step of a task; a task that is queued at a notification has none. *)
Definition run_task (s : Fetches) (i : nat) : option Fetches :=
  t ← tasks s !! i;
  let a := task_arc t in
  arc ← arcs s !! a;
  let global := snapshot_global (limiter s) in
  match phase t with
  | Start woke =>
      match permits arc with
      | S n => Some (go i (HasPeer woke) (on_arc a (set_permits n) s))
      | 0 => Some (go i (if woke then PassOn else AskPeer) s)
      end
  | PassOn => Some (go i AskPeer (notify_global s))
  | AskPeer =>
      let '(n, now) := await_notify (peer_notify arc) i in
      Some (go i (if now then Start false else WaitPeer) (on_arc a (set_peer_notify n) s))
  | HasPeer woke =>
      match global with
      | S n => Some (go i Working (on_limiter (set_global n) s))
      | 0 => Some (go i NoGlobal s)
      end
  | NoGlobal => Some (go i PeerDropped (on_arc a (set_permits (S (permits arc))) s))
  | PeerDropped => Some (go i AskGlobal (notify_peer a arc s))
  | AskGlobal =>
      let '(n, now) := await_notify (snapshot_global_notify (limiter s)) i in
      Some (go i (if now then Start true else WaitGlobal) (on_limiter (set_global_notify n) s))
  | Working => Some (go i DropPeer (on_arc a (set_permits (S (permits arc))) s))
  | DropPeer => Some (go i DropGlobal (notify_peer a arc s))
  | DropGlobal => Some (go i NotifyGlobal (on_limiter (set_global (S global)) s))
  | NotifyGlobal => Some (go i DropAdmission (notify_global s))
  | DropAdmission => Some (go i Finished (on_limiter (drop_admission (task_peer t)) s))
  | WaitPeer | WaitGlobal | Finished => None
  end.

Inductive fetch_step : Fetches -> Fetches -> Prop :=
| step_admit peer_id s : fetch_step s (try_admit_snapshot peer_id s).1
| step_run i s s' : run_task s i = Some s' → fetch_step s s'.

Definition reachable (s : Fetches) : Prop := rtc fetch_step no_fetches s.

(** ** Counting tasks *)

Fixpoint count (P : Task -> bool) (ts : list Task) : nat :=
  match ts with [] => 0 | t :: ts => Nat.b2n (P t) + count P ts end.

Lemma count_app P ts ts' : count P (ts ++ ts') = count P ts + count P ts'.
Proof. induction ts as [|t ts IH]; cbn; lia. Qed.

Lemma count_alter P f ts i t :
  ts !! i = Some t → count P (alter f i ts) + Nat.b2n (P t) = count P ts + Nat.b2n (P (f t)).
Proof.
  revert i. induction ts as [|u ts IH]; intros [|i]; cbn; [done|done| |].
  - intros [= ->]. lia.
  - intros H. specialize (IH _ H). fold (alter (M:=list Task) f i ts). lia.
Qed.

Lemma count_pos P ts : 0 < count P ts ↔ ∃ i t, ts !! i = Some t ∧ P t = true.
Proof.
  split.
  - induction ts as [|u ts IH]; cbn; [lia|]. destruct (P u) eqn:Hu; cbn.
    + intros _. by exists 0, u.
    + intros (i & t & ? & ?)%IH. by exists (S i), t.
  - intros (i & t & Ht & HP). revert i Ht. induction ts as [|u ts IH]; intros [|i]; cbn;
      [done|done| |].
    + intros [= ->]. rewrite HP. cbn. lia.
    + intros Ht. specialize (IH _ Ht). lia.
Qed.

Lemma count_le P Q ts :
  (∀ t, t ∈ ts → P t = true → Q t = true) → count P ts <= count Q ts.
Proof.
  induction ts as [|t ts IH]; intros H; cbn; [lia|].
  assert (count P ts <= count Q ts) by (apply IH; intros u Hu; apply H; by right).
  specialize (H t). destruct (P t); cbn; [|lia]. rewrite H; [|by left|done]. cbn. lia.
Qed.

(** ** Phases *)

Definition holds_peer (p : Phase) : bool :=
  match p with HasPeer _ | NoGlobal | Working => true | _ => false end.
Definition holds_global (p : Phase) : bool :=
  match p with Working | DropPeer | DropGlobal => true | _ => false end.
Definition live (p : Phase) : bool := match p with Finished => false | _ => true end.

(** It found the peer busy and has not been notified since. *)
Definition peer_waits (p : Phase) : bool :=
  match p with PassOn | AskPeer | WaitPeer => true | _ => false end.
(** It will look at the peer's semaphore again, or notify the peer. *)
Definition peer_calls (p : Phase) : bool :=
  match p with Start _ | PeerDropped | DropPeer => true | _ => false end.
(** It found all workers busy and has not been notified since. *)
Definition global_waits (p : Phase) : bool :=
  match p with NoGlobal | PeerDropped | AskGlobal | WaitGlobal => true | _ => false end.
(** It carries a global notification, or will give one. *)
Definition global_calls (p : Phase) : bool :=
  match p with
  | Start woke | HasPeer woke => woke
  | Working | DropPeer | DropGlobal | NotifyGlobal | PassOn => true
  | _ => false
  end.

(** The tasks of a semaphore, and of a peer, in a class of phases. *)
Definition at_arc (f : Phase -> bool) (a : nat) (t : Task) : bool :=
  bool_decide (task_arc t = a) && f (phase t).
Definition at_peer (f : Phase -> bool) (p : string) (t : Task) : bool :=
  bool_decide (task_peer t = p) && f (phase t).
Definition in_phase (f : Phase -> bool) (t : Task) : bool := f (phase t).

(** The task [i] is queued at the semaphore [a], or for a worker. *)
Definition queued_peer (ts : list Task) (a i : nat) : Prop :=
  ∃ t, ts !! i = Some t ∧ phase t = WaitPeer ∧ task_arc t = a.
Definition queued_global (ts : list Task) (i : nat) : Prop :=
  ∃ t, ts !! i = Some t ∧ phase t = WaitGlobal.

(** ** Invariant *)

(** The waiters are the tasks that are queued, each once, and none waits when a
    notification is stored. *)
Record notify_ok (n : Notify) (queued : nat -> Prop) : Prop := {
  no_stored : stored n = true → waiters n = [];
  no_nodup : NoDup (waiters n);
  no_waiters : ∀ i, i ∈ waiters n ↔ queued i;
}.

Record arc_ok (ts : list Task) (a : nat) (arc : PeerArc) : Prop := {
  ao_permits : permits arc + count (at_arc holds_peer a) ts = 1;
  ao_notify : notify_ok (peer_notify arc) (queued_peer ts a);
  ao_called : 0 < permits arc → 0 < count (at_arc peer_waits a) ts →
    stored (peer_notify arc) = true ∨ 0 < count (at_arc peer_calls a) ts;
}.

Record global_ok (ts : list Task) (l : GossipWorkLimiter) : Prop := {
  go_permits : snapshot_global l + count (in_phase holds_global) ts = SNAPSHOT_WORKER_COUNT;
  go_notify : notify_ok (snapshot_global_notify l) (queued_global ts);
  go_called : 0 < count (in_phase global_waits) ts →
    stored (snapshot_global_notify l) = true ∨ 0 < count (in_phase global_calls) ts;
}.

Record peers_ok (ts : list Task) (peers : gmap string SnapshotPeerLimit) (n : nat) : Prop := {
  po_task : ∀ i t, ts !! i = Some t → live (phase t) = true →
    ∃ entry, peers !! task_peer t = Some entry ∧ semaphore entry = task_arc t;
  po_arc : ∀ i t, ts !! i = Some t → task_arc t < n;
  po_entry : ∀ p entry, peers !! p = Some entry → semaphore entry < n ∧
    pending entry = count (at_peer live p) ts ∧
    0 < pending entry <= MAX_PENDING_SNAPSHOT_FETCHES_PER_PEER;
  po_inj : ∀ p q entry entry', peers !! p = Some entry → peers !! q = Some entry' →
    semaphore entry = semaphore entry' → p = q;
}.

Record fetches_ok (s : Fetches) : Prop := {
  fo_arcs : ∀ a arc, arcs s !! a = Some arc → arc_ok (tasks s) a arc;
  fo_global : global_ok (tasks s) (limiter s);
  fo_peers : peers_ok (tasks s) (snapshot_peers (limiter s)) (length (arcs s));
}.

Lemma no_fetches_ok : fetches_ok no_fetches.
Proof.
  split; [done| |].
  - split; [done| |cbn; lia]. split; [done|constructor|]. intros i. split; [by intros ?%elem_of_nil|].
    by intros (? & ? & _).
  - by split.
Qed.

(** ** A task changes its phase *)

Section move.
Context (ts : list Task) (i : nat) (t : Task) (p : Phase) (Ht : ts !! i = Some t).
Abbreviation moved := (alter (set_phase p) i ts).

Lemma moved_lookup j u :
  moved !! j = Some u → ∃ u0, ts !! j = Some u0 ∧ task_peer u = task_peer u0 ∧
    task_arc u = task_arc u0 ∧ (j ≠ i → u = u0) ∧ (j = i → u0 = t ∧ phase u = p).
Proof.
  destruct (decide (i = j)) as [<-|Hne].
  - rewrite list_lookup_alter_eq, Ht. intros [= <-]. exists t. by split_and!.
  - rewrite list_lookup_alter_ne by done. intros Hu. exists u. by split_and!.
Qed.

Lemma count_move_arc f a :
  task_arc t = a →
  count (at_arc f a) moved + Nat.b2n (f (phase t)) = count (at_arc f a) ts + Nat.b2n (f p).
Proof.
  intros Ha. pose proof (count_alter (at_arc f a) (set_phase p) ts i t Ht) as H.
  unfold at_arc in H at 2 4. cbn in H. by rewrite (bool_decide_true _ Ha) in H.
Qed.

Lemma count_move_other f a : task_arc t ≠ a → count (at_arc f a) moved = count (at_arc f a) ts.
Proof.
  intros Ha. pose proof (count_alter (at_arc f a) (set_phase p) ts i t Ht) as H.
  unfold at_arc in H at 2 4. cbn in H. rewrite (bool_decide_false _ Ha) in H. cbn in H. lia.
Qed.

Lemma count_move_in f :
  count (in_phase f) moved + Nat.b2n (f (phase t)) = count (in_phase f) ts + Nat.b2n (f p).
Proof. exact (count_alter (in_phase f) (set_phase p) ts i t Ht). Qed.

Lemma count_move_peer f q :
  f p = f (phase t) → count (at_peer f q) moved = count (at_peer f q) ts.
Proof.
  intros Hf. pose proof (count_alter (at_peer f q) (set_phase p) ts i t Ht) as H.
  unfold at_peer in H at 2 4. cbn in H. rewrite Hf in H. lia.
Qed.

Lemma queued_peer_same a j :
  phase t ≠ WaitPeer → p ≠ WaitPeer → queued_peer moved a j ↔ queued_peer ts a j.
Proof.
  intros H1 H2. unfold queued_peer. destruct (decide (i = j)) as [<-|Hne].
  - rewrite list_lookup_alter_eq, Ht. naive_solver.
  - by rewrite list_lookup_alter_ne.
Qed.

Lemma queued_peer_other a j :
  task_arc t ≠ a → queued_peer moved a j ↔ queued_peer ts a j.
Proof.
  intros H1. unfold queued_peer. destruct (decide (i = j)) as [<-|Hne].
  - rewrite list_lookup_alter_eq, Ht. naive_solver.
  - by rewrite list_lookup_alter_ne.
Qed.

Lemma queued_global_same j :
  phase t ≠ WaitGlobal → p ≠ WaitGlobal → queued_global moved j ↔ queued_global ts j.
Proof.
  intros H1 H2. unfold queued_global. destruct (decide (i = j)) as [<-|Hne].
  - rewrite list_lookup_alter_eq, Ht. naive_solver.
  - by rewrite list_lookup_alter_ne.
Qed.

Lemma notify_ok_same n Q Q' : (∀ j, Q' j ↔ Q j) → notify_ok n Q → notify_ok n Q'.
Proof. intros HQ [Hs Hn Hw]. split; [done|done|]. intros j. by rewrite HQ. Qed.

Lemma arc_ok_other a arc : task_arc t ≠ a → arc_ok ts a arc → arc_ok moved a arc.
Proof.
  intros Ha [Hp Hn Hc]. split.
  - by rewrite count_move_other.
  - eapply notify_ok_same; [|done]. intros j. by apply queued_peer_other.
  - by rewrite !count_move_other.
Qed.

Lemma peers_ok_move peers n :
  live p = live (phase t) → peers_ok ts peers n → peers_ok moved peers n.
Proof.
  intros Hl [Htask Harc He Hinj]. split; [| |intros q e ?; by rewrite count_move_peer; auto|done].
  - intros j u (u0 & Hu0 & -> & -> & Hj & Hi)%moved_lookup Hu. apply (Htask j u0 Hu0).
    destruct (decide (j = i)) as [Heq|Hne]; [|by rewrite <- (Hj Hne)].
    destruct (Hi Heq) as [-> Hp]. by rewrite <- Hl, <- Hp.
  - intros j u (u0 & Hu0 & _ & -> & _)%moved_lookup. eauto.
Qed.
End move.

(** A step that moves one task, and changes at most its semaphore and the limiter's
    permits and notification. *)
Lemma move_ok s i t p arc' l' :
  fetches_ok s → tasks s !! i = Some t → live p = live (phase t) →
  snapshot_peers l' = snapshot_peers (limiter s) →
  arc_ok (alter (set_phase p) i (tasks s)) (task_arc t) arc' →
  global_ok (alter (set_phase p) i (tasks s)) l' →
  fetches_ok {| limiter := l'; arcs := <[task_arc t := arc']> (arcs s);
                tasks := alter (set_phase p) i (tasks s) |}.
Proof.
  intros [Ha _ Hp] Ht Hl Hpeers Harc Hg. split; cbn; [|done|].
  - intros a arc Hlook. destruct (decide (task_arc t = a)) as [<-|Hne].
    + apply list_lookup_insert_Some in Hlook as [(_ & <- & _)|[? _]]; done.
    + rewrite list_lookup_insert_ne in Hlook by done. eapply arc_ok_other; eauto.
  - rewrite Hpeers, length_insert. eapply peers_ok_move; eauto.
Qed.

(** The same without a move. *)
Lemma notified_ok s a arc' l' :
  fetches_ok s → snapshot_peers l' = snapshot_peers (limiter s) →
  (∀ arc, arcs s !! a = Some arc → arc_ok (tasks s) a arc') → global_ok (tasks s) l' →
  fetches_ok {| limiter := l'; arcs := <[a := arc']> (arcs s); tasks := tasks s |}.
Proof.
  intros [Ha _ Hp] Hpeers Harc Hg. split; cbn; [|done|].
  - intros b arc Hlook. destruct (decide (a = b)) as [<-|Hne].
    + apply list_lookup_insert_Some in Hlook as [(_ & <- & [arc Hs]%lookup_lt_is_Some)|[? _]];
        [by eapply Harc|done].
    + rewrite list_lookup_insert_ne in Hlook by done. eauto.
  - by rewrite Hpeers, length_insert.
Qed.

(** ** Notifications *)

Section notify.
Context (n : Notify) (Q Q' : nat -> Prop) (Hn : notify_ok n Q).

Lemma pop_ok i rest :
  waiters n = i :: rest → (∀ j, Q' j ↔ Q j ∧ j ≠ i) →
  notify_ok {| stored := stored n; waiters := rest |} Q'.
Proof.
  destruct Hn as [Hs Hd Hw]. intros Hi HQ. rewrite Hi in *. apply NoDup_cons in Hd as [Hni Hd].
  split; cbn; [by intros ?%Hs|done|]. intros j. rewrite HQ, <- Hw, elem_of_cons. naive_solver.
Qed.

Lemma store_ok : waiters n = [] → notify_ok {| stored := true; waiters := [] |} Q.
Proof. destruct Hn as [Hs Hd Hw]. intros Hi. rewrite Hi in *. split; cbn; [done|constructor|done]. Qed.

Lemma consume_ok : notify_ok {| stored := false; waiters := waiters n |} Q.
Proof. destruct Hn as [Hs Hd Hw]. split; cbn; done. Qed.

Lemma enqueue_ok i :
  ¬ Q i → (∀ j, Q' j ↔ Q j ∨ j = i) →
  notify_ok {| stored := false; waiters := waiters n ++ [i] |} Q'.
Proof.
  destruct Hn as [Hs Hd Hw]. intros Hi HQ. split; cbn; [done| |].
  - apply NoDup_app. split_and!; [done| |apply NoDup_singleton].
    intros j Hj ->%list_elem_of_singleton. by apply Hi, Hw.
  - intros j. rewrite elem_of_app, list_elem_of_singleton, Hw, HQ. done.
Qed.
End notify.

Lemma queued_peer_leave ts i t p a j :
  ts !! i = Some t → p ≠ WaitPeer →
  queued_peer (alter (set_phase p) i ts) a j ↔ queued_peer ts a j ∧ j ≠ i.
Proof.
  intros Ht Hp. unfold queued_peer. destruct (decide (i = j)) as [<-|Hne].
  - rewrite list_lookup_alter_eq, Ht. naive_solver.
  - rewrite list_lookup_alter_ne by done. naive_solver.
Qed.

Lemma queued_peer_enter ts i t a j :
  ts !! i = Some t → task_arc t = a →
  queued_peer (alter (set_phase WaitPeer) i ts) a j ↔ queued_peer ts a j ∨ j = i.
Proof.
  intros Ht Ha. unfold queued_peer. destruct (decide (i = j)) as [<-|Hne].
  - rewrite list_lookup_alter_eq, Ht. cbn. naive_solver.
  - rewrite list_lookup_alter_ne by done. naive_solver.
Qed.

Lemma queued_global_leave ts i t p j :
  ts !! i = Some t → p ≠ WaitGlobal →
  queued_global (alter (set_phase p) i ts) j ↔ queued_global ts j ∧ j ≠ i.
Proof.
  intros Ht Hp. unfold queued_global. destruct (decide (i = j)) as [<-|Hne].
  - rewrite list_lookup_alter_eq, Ht. naive_solver.
  - rewrite list_lookup_alter_ne by done. naive_solver.
Qed.

Lemma queued_global_enter ts i t j :
  ts !! i = Some t →
  queued_global (alter (set_phase WaitGlobal) i ts) j ↔ queued_global ts j ∨ j = i.
Proof.
  intros Ht. unfold queued_global. destruct (decide (i = j)) as [<-|Hne].
  - rewrite list_lookup_alter_eq, Ht. cbn. naive_solver.
  - rewrite list_lookup_alter_ne by done. naive_solver.
Qed.

Lemma on_arc_insert a f arc s :
  arcs s !! a = Some arc →
  on_arc a f s = {| limiter := limiter s; arcs := <[a := f arc]> (arcs s); tasks := tasks s |}.
Proof.
  intros Ha. unfold on_arc. f_equal. apply list_eq. intros b. destruct (decide (a = b)) as [<-|].
  - rewrite list_lookup_alter_eq, Ha, list_lookup_insert_eq; [done|by eapply lookup_lt_Some].
  - by rewrite list_lookup_alter_ne, list_lookup_insert_ne.
Qed.

Lemma insert_same (s : Fetches) a arc :
  arcs s !! a = Some arc → <[a := arc]> (arcs s) = arcs s.
Proof. apply list_insert_id. Qed.

(** [counts i t p] adds the counts after the task [i], which is [t], has moved to [p]. *)
Ltac counts Ht Hphase p :=
  pose proof (count_move_arc _ _ _ p Ht holds_peer _ eq_refl);
  pose proof (count_move_arc _ _ _ p Ht peer_waits _ eq_refl);
  pose proof (count_move_arc _ _ _ p Ht peer_calls _ eq_refl);
  pose proof (count_move_in _ _ _ p Ht holds_global);
  pose proof (count_move_in _ _ _ p Ht global_waits);
  pose proof (count_move_in _ _ _ p Ht global_calls);
  rewrite Hphase in *; cbn [holds_peer peer_waits peer_calls holds_global global_waits
    global_calls Nat.b2n] in *.

(** [called H] restores a clause that waiting tasks are called from the clause [H] before. *)
Ltac called H :=
  intros; first
    [ exfalso; lia | right; lia | by left
    | let X := fresh in pose proof H as X; repeat specialize (X ltac:(lia));
      destruct X; [first [by left|congruence]|right; lia] ].

Definition is_start (p : Phase) : bool := match p with Start _ => true | _ => false end.
Definition is_woken (p : Phase) : bool := match p with Start woke => woke | _ => false end.

(** What a notification of the semaphore [a] leaves. *)
Record peer_notified (a : nat) (arc : PeerArc) (s s' : Fetches) : Prop := {
  pn_ok : fetches_ok s';
  pn_limiter : limiter s' = limiter s;
  pn_arc : ∃ arc', arcs s' !! a = Some arc' ∧ permits arc' = permits arc ∧
    (stored (peer_notify arc') = true ∨ 0 < count (at_arc is_start a) (tasks s'));
  pn_tasks : ∀ i t, tasks s !! i = Some t → phase t ≠ WaitPeer → tasks s' !! i = Some t;
}.

Lemma notify_peer_ok s a arc :
  fetches_ok s → arcs s !! a = Some arc → peer_notified a arc s (notify_peer a arc s).
Proof.
  intros Hok Ha. destruct (fo_arcs _ Hok _ _ Ha) as [Hp Hn Hc]. unfold notify_peer, notify_one.
  destruct (waiters (peer_notify arc)) as [|j rest] eqn:Hw; cbn [wake].
  - rewrite (on_arc_insert _ _ _ _ Ha). split; cbn; [|done| |done].
    + apply notified_ok; [done|done| |apply Hok]. intros _ _. split; cbn; [done|by eapply store_ok|].
      by left.
    + eexists. rewrite list_lookup_insert_eq by (by eapply lookup_lt_Some). eauto.
  - assert (queued_peer (tasks s) a j) as (t & Ht & Hphase & Hta).
    { apply (no_waiters _ _ Hn). rewrite Hw. by left. }
    rewrite (on_arc_insert _ _ _ _ Ha). unfold go, on_tasks. cbn. subst a. split; cbn; [|done| |].
    + apply move_ok; [done|done|by rewrite Hphase|done| |].
      * counts Ht Hphase (Start false). split; cbn; [lia| |called Hc].
        eapply pop_ok; [done|done|]. intros k. by eapply queued_peer_leave.
      * destruct (fo_global _ Hok) as [Hgp Hgn Hgc].
        counts Ht Hphase (Start false). split; [lia| |called Hgc].
        eapply notify_ok_same; [|done]. intros k. by eapply queued_global_same; [|rewrite Hphase|].
    + eexists. rewrite list_lookup_insert_eq by (by eapply lookup_lt_Some). split; [done|].
      split; [done|]. right.
      pose proof (count_move_arc _ _ _ (Start false) Ht is_start _ eq_refl) as H.
      rewrite Hphase in H. cbn in H. lia.
    + intros k u Hu Hne. destruct (decide (j = k)) as [<-|]; [congruence|].
      by rewrite list_lookup_alter_ne.
Qed.

(** What a notification of the waiters for a worker leaves. *)
Record global_notified (s s' : Fetches) : Prop := {
  gn_ok : fetches_ok s';
  gn_arcs : arcs s' = arcs s;
  gn_peers : snapshot_peers (limiter s') = snapshot_peers (limiter s);
  gn_global : snapshot_global (limiter s') = snapshot_global (limiter s);
  gn_called : stored (snapshot_global_notify (limiter s')) = true ∨
    0 < count (in_phase is_woken) (tasks s');
  gn_tasks : ∀ i t, tasks s !! i = Some t → phase t ≠ WaitGlobal → tasks s' !! i = Some t;
}.

Lemma notify_global_ok s : fetches_ok s → global_notified s (notify_global s).
Proof.
  intros Hok. destruct (fo_global _ Hok) as [Hp Hn Hc]. unfold notify_global, notify_one.
  destruct (waiters (snapshot_global_notify (limiter s))) as [|j rest] eqn:Hw; cbn [wake].
  - split; cbn; [|done|done|done|by left|done]. destruct Hok as [Hoa _ Hop].
    split; cbn; [done| |done]. split; cbn; [done|by eapply store_ok|by left].
  - assert (queued_global (tasks s) j) as (t & Ht & Hphase).
    { apply (no_waiters _ _ Hn). rewrite Hw. by left. }
    assert (∃ arc, arcs s !! task_arc t = Some arc) as [arc Ha].
    { apply lookup_lt_is_Some. eapply po_arc; [apply Hok|done]. }
    unfold go, on_tasks, on_limiter. cbn. split; cbn; [|done|done|done| |].
    + rewrite <- (insert_same s _ _ Ha). apply move_ok; [done|done|by rewrite Hphase|done| |].
      * destruct (fo_arcs _ Hok _ _ Ha) as [Hap Han Hac].
        counts Ht Hphase (Start true). split; cbn; [lia| |called Hac].
        eapply notify_ok_same; [|done]. intros k. by eapply queued_peer_same; [|rewrite Hphase|].
      * counts Ht Hphase (Start true). split; cbn; [lia| |called Hc].
        eapply pop_ok; [done|done|]. intros k. by eapply queued_global_leave.
    + right. pose proof (count_move_in _ _ _ (Start true) Ht is_woken) as H.
      rewrite Hphase in H. cbn in H. lia.
    + intros k u Hu Hne. destruct (decide (j = k)) as [<-|]; [congruence|].
      by rewrite list_lookup_alter_ne.
Qed.

(** ** Steps of a task *)

Lemma holders_call ts : count (in_phase holds_global) ts <= count (in_phase global_calls) ts.
Proof. apply count_le. intros t _. unfold in_phase. by destruct (phase t). Qed.

(** [move_case] proves the invariant after a step that moves one task: what is left are
    the notifications, where they change. *)
Ltac move_case Hok Ht Ha Hphase p :=
  apply move_ok; [done|done|by rewrite Hphase|done| |];
  [ destruct (fo_arcs _ Hok _ _ Ha) as [Hp Hn Hc]; counts Ht Hphase p;
    split; cbn [permits peer_notify set_permits set_peer_notify stored];
    [ lia
    | try (eapply notify_ok_same; [|exact Hn]; intros k; by eapply queued_peer_same; [|rewrite Hphase|])
    | try called Hc ]
  | destruct (fo_global _ Hok) as [Hgp Hgn Hgc]; counts Ht Hphase p;
    match type of Ht with ?ts !! ?i = _ =>
      pose proof (holders_call (alter (set_phase p) i ts)) end;
    split; unfold SNAPSHOT_WORKER_COUNT in *;
    cbn [limiter on_limiter snapshot_global snapshot_global_notify set_global set_global_notify stored];
    [ lia
    | try (eapply notify_ok_same; [|exact Hgn]; intros k; by eapply queued_global_same; [|rewrite Hphase|])
    | try called Hgc ] ].

Section steps.
Context (s : Fetches) (i : nat) (t : Task) (arc : PeerArc).
Hypothesis Hok : fetches_ok s.
Hypothesis Ht : tasks s !! i = Some t.
Hypothesis Ha : arcs s !! task_arc t = Some arc.

(** A step on the semaphore. *)
Lemma arc_step_ok p f :
  fetches_ok {| limiter := limiter s; arcs := <[task_arc t := f arc]> (arcs s);
                tasks := alter (set_phase p) i (tasks s) |} →
  fetches_ok (go i p (on_arc (task_arc t) f s)).
Proof. by rewrite (on_arc_insert _ _ _ _ Ha). Qed.

(** A step that leaves the semaphore alone. *)
Lemma limiter_step_ok p l' :
  fetches_ok {| limiter := l'; arcs := <[task_arc t := arc]> (arcs s);
                tasks := alter (set_phase p) i (tasks s) |} →
  fetches_ok {| limiter := l'; arcs := arcs s; tasks := alter (set_phase p) i (tasks s) |}.
Proof. by rewrite (insert_same _ _ _ Ha). Qed.

Lemma start_ok woke s' :
  phase t = Start woke → run_task s i = Some s' → fetches_ok s'.
Proof.
  unfold run_task. rewrite Ht. cbn. rewrite Ha. cbn. intros Hphase. rewrite Hphase.
  destruct (permits arc) as [|n] eqn:Hn0; intros [= <-].
  - apply limiter_step_ok. destruct woke; [move_case Hok Ht Ha Hphase PassOn|].
    move_case Hok Ht Ha Hphase AskPeer.
  - apply arc_step_ok. move_case Hok Ht Ha Hphase (HasPeer woke).
Qed.

Lemma has_peer_ok woke s' :
  phase t = HasPeer woke → run_task s i = Some s' → fetches_ok s'.
Proof.
  unfold run_task. rewrite Ht. cbn. rewrite Ha. cbn. intros Hphase. rewrite Hphase.
  destruct (snapshot_global (limiter s)) as [|n] eqn:Hn0; intros [= <-]; apply limiter_step_ok.
  - move_case Hok Ht Ha Hphase NoGlobal.
  - move_case Hok Ht Ha Hphase Working.
Qed.

Lemma drop_peer_ok s' :
  phase t = NoGlobal ∨ phase t = Working → run_task s i = Some s' → fetches_ok s'.
Proof.
  unfold run_task. rewrite Ht. cbn. rewrite Ha. cbn.
  intros [Hphase|Hphase]; rewrite Hphase; intros [= <-]; apply arc_step_ok.
  - move_case Hok Ht Ha Hphase PeerDropped.
  - move_case Hok Ht Ha Hphase DropPeer.
Qed.

Lemma drop_global_ok s' : phase t = DropGlobal → run_task s i = Some s' → fetches_ok s'.
Proof.
  unfold run_task. rewrite Ht. cbn. rewrite Ha. cbn. intros Hphase. rewrite Hphase.
  intros [= <-]. apply limiter_step_ok. move_case Hok Ht Ha Hphase NotifyGlobal.
Qed.

Lemma ask_peer_ok s' : phase t = AskPeer → run_task s i = Some s' → fetches_ok s'.
Proof.
  unfold run_task. rewrite Ht. cbn. rewrite Ha. cbn. intros Hphase. rewrite Hphase.
  unfold await_notify. destruct (stored (peer_notify arc)) eqn:Hs; intros [= <-]; apply arc_step_ok.
  - move_case Hok Ht Ha Hphase (Start false). apply consume_ok.
    eapply notify_ok_same; [|exact Hn]; intros k. by eapply queued_peer_same; [|rewrite Hphase|].
  - move_case Hok Ht Ha Hphase WaitPeer. eapply enqueue_ok; [done| |].
    + intros (u & Hu & Hw & _). rewrite Ht in Hu. congruence.
    + intros k. by eapply queued_peer_enter.
Qed.

Lemma ask_global_ok s' : phase t = AskGlobal → run_task s i = Some s' → fetches_ok s'.
Proof.
  unfold run_task. rewrite Ht. cbn. rewrite Ha. cbn. intros Hphase. rewrite Hphase.
  unfold await_notify. destruct (stored (snapshot_global_notify (limiter s))) eqn:Hs;
    intros [= <-]; apply limiter_step_ok.
  - move_case Hok Ht Ha Hphase (Start true). apply consume_ok.
    eapply notify_ok_same; [|exact Hgn]; intros k. by eapply queued_global_same; [|rewrite Hphase|].
  - move_case Hok Ht Ha Hphase WaitGlobal. eapply enqueue_ok; [done| |].
    + intros (u & Hu & Hw). rewrite Ht in Hu. congruence.
    + intros k. by eapply queued_global_enter.
Qed.
End steps.

Lemma starts_call ts a : count (at_arc is_start a) ts <= count (at_arc peer_calls a) ts.
Proof.
  apply count_le. intros t _. unfold at_arc. destruct (bool_decide _); [|done]. by destruct (phase t).
Qed.

Lemma woken_call ts : count (in_phase is_woken) ts <= count (in_phase global_calls) ts.
Proof. apply count_le. intros t _. unfold in_phase. by destruct (phase t). Qed.

(** A step that notifies the peer first. *)
Lemma notify_peer_step_ok s i t arc s' :
  fetches_ok s → tasks s !! i = Some t → arcs s !! task_arc t = Some arc →
  phase t = PeerDropped ∨ phase t = DropPeer → run_task s i = Some s' → fetches_ok s'.
Proof.
  intros Hok Ht Ha Hph. unfold run_task. rewrite Ht. cbn. rewrite Ha. cbn.
  destruct (notify_peer_ok s _ _ Hok Ha) as [Hok1 Hl (arc1 & Ha1 & Hp1 & Hst) Htasks].
  revert Hok1 Hl Ha1 Hst Htasks. generalize (notify_peer (task_arc t) arc s) as s1.
  intros s1 Hok1 Hl Ha1 Hst Htasks.
  assert (tasks s1 !! i = Some t) as Ht1 by (apply Htasks; [done|by destruct Hph as [-> | ->]]).
  destruct Hph as [Hphase|Hphase]; rewrite Hphase; intros [= <-];
    apply (limiter_step_ok _ _ _ _ Ha1).
  - move_case Hok1 Ht1 Ha1 Hphase AskGlobal. intros _ _. destruct Hst as [|Hst]; [by left|right].
    pose proof (count_move_arc _ _ _ AskGlobal Ht1 is_start _ eq_refl) as He. rewrite Hphase in He.
    pose proof (starts_call (alter (set_phase AskGlobal) i (tasks s1)) (task_arc t)). cbn in He. lia.
  - move_case Hok1 Ht1 Ha1 Hphase DropGlobal. intros _ _. destruct Hst as [|Hst]; [by left|right].
    pose proof (count_move_arc _ _ _ DropGlobal Ht1 is_start _ eq_refl) as He. rewrite Hphase in He.
    pose proof (starts_call (alter (set_phase DropGlobal) i (tasks s1)) (task_arc t)). cbn in He. lia.
Qed.

(** A step that notifies the waiters for a worker first. *)
Lemma notify_global_step_ok s i t arc s' :
  fetches_ok s → tasks s !! i = Some t → arcs s !! task_arc t = Some arc →
  phase t = PassOn ∨ phase t = NotifyGlobal → run_task s i = Some s' → fetches_ok s'.
Proof.
  intros Hok Ht Ha Hph. unfold run_task. rewrite Ht. cbn. rewrite Ha. cbn.
  destruct (notify_global_ok s Hok) as [Hok1 Harcs _ _ Hst Htasks]. rewrite <- Harcs in Ha.
  revert Hok1 Harcs Ha Hst Htasks. generalize (notify_global s) as s1.
  intros s1 Hok1 Harcs Ha1 Hst Htasks.
  assert (tasks s1 !! i = Some t) as Ht1 by (apply Htasks; [done|by destruct Hph as [-> | ->]]).
  destruct Hph as [Hphase|Hphase]; rewrite Hphase; intros [= <-];
    apply (limiter_step_ok _ _ _ _ Ha1).
  - move_case Hok1 Ht1 Ha1 Hphase AskPeer. intros _. destruct Hst as [|Hst]; [by left|right].
    pose proof (count_move_in _ _ _ AskPeer Ht1 is_woken) as He. rewrite Hphase in He.
    pose proof (woken_call (alter (set_phase AskPeer) i (tasks s1))). cbn in He. lia.
  - move_case Hok1 Ht1 Ha1 Hphase DropAdmission. intros _. destruct Hst as [|Hst]; [by left|right].
    pose proof (count_move_in _ _ _ DropAdmission Ht1 is_woken) as He. rewrite Hphase in He.
    pose proof (woken_call (alter (set_phase DropAdmission) i (tasks s1))). cbn in He. lia.
Qed.

(** ** Admission and its end *)

Lemma count_peer_finish ts i t q :
  ts !! i = Some t → phase t = DropAdmission →
  count (at_peer live q) (alter (set_phase Finished) i ts) +
    Nat.b2n (bool_decide (task_peer t = q)) = count (at_peer live q) ts.
Proof.
  intros Ht Hph. pose proof (count_alter (at_peer live q) (set_phase Finished) ts i t Ht) as H.
  unfold at_peer in H at 2 4. cbn in H. rewrite Hph, andb_true_r, andb_false_r in H. cbn in H. lia.
Qed.

Lemma drop_admission_peers ts i t l n :
  ts !! i = Some t → phase t = DropAdmission → peers_ok ts (snapshot_peers l) n →
  peers_ok (alter (set_phase Finished) i ts)
    (snapshot_peers (drop_admission (task_peer t) l)) n.
Proof.
  intros Ht Hph [Htask Harc He Hinj].
  destruct (Htask i t Ht) as (e & Hp & Hsem); [by rewrite Hph|].
  destruct (He _ _ Hp) as (Hlt & Hpend & Hpos).
  pose proof (fun q => count_peer_finish ts i t q Ht Hph) as Hcount.
  set (m' := snapshot_peers (drop_admission (task_peer t) l)).
  assert (∀ q, q ≠ task_peer t → m' !! q = snapshot_peers l !! q) as Hother.
  { intros q Hq. unfold m', drop_admission. rewrite Hp. case_bool_decide; cbn.
    - by rewrite lookup_delete_ne.
    - by rewrite lookup_insert_ne. }
  assert (m' !! task_peer t = if bool_decide (pending e - 1 = 0) then None
    else Some {| semaphore := semaphore e; pending := pending e - 1 |}) as Hsame.
  { unfold m', drop_admission. rewrite Hp. case_bool_decide; cbn.
    - by rewrite lookup_delete_eq.
    - by rewrite lookup_insert_eq. }
  assert (∀ q e', m' !! q = Some e' → ∃ e0, snapshot_peers l !! q = Some e0 ∧
    semaphore e' = semaphore e0) as Hback.
  { intros q e'. destruct (decide (q = task_peer t)) as [->|Hq]; [|rewrite Hother by done; eauto].
    rewrite Hsame. case_bool_decide; [done|]. intros [= <-]. eauto. }
  split.
  - intros j u (u0 & Hu0 & -> & -> & Hj & Hi)%(moved_lookup _ _ _ _ Ht) Hlive.
    destruct (decide (j = i)) as [Heq|Hne]; [by destruct (Hi Heq) as [-> Hu]; rewrite Hu in Hlive|].
    rewrite (Hj Hne) in Hlive. destruct (Htask j u0 Hu0 Hlive) as (e0 & He0 & Hs0).
    destruct (decide (task_peer u0 = task_peer t)) as [Hq|Hq]; [|rewrite Hother by done; eauto].
    rewrite Hq in *. rewrite Hp in He0. injection He0 as <-. rewrite Hsame.
    specialize (Hcount (task_peer t)). rewrite (bool_decide_true _ eq_refl) in Hcount. cbn in Hcount.
    assert (0 < count (at_peer live (task_peer t)) (alter (set_phase Finished) i ts)).
    { apply count_pos. exists j, u0. rewrite list_lookup_alter_ne by done. split; [done|].
      unfold at_peer. by rewrite bool_decide_true. }
    rewrite bool_decide_false by lia. eauto.
  - intros j u (u0 & Hu0 & _ & -> & _)%(moved_lookup _ _ _ _ Ht). eauto.
  - intros q e' Hq. specialize (Hcount q). destruct (decide (q = task_peer t)) as [->|Hne].
    + rewrite Hsame in Hq. rewrite (bool_decide_true (task_peer t = task_peer t)) in Hcount by done.
      revert Hq. case_bool_decide; [done|]. intros [= <-]. cbn in *. lia.
    + rewrite Hother in Hq by done. rewrite bool_decide_false in Hcount by done. cbn in Hcount.
      destruct (He _ _ Hq) as (? & ? & ?). lia.
  - intros p q e1 e2 (f1 & Hf1 & ->)%Hback (f2 & Hf2 & ->)%Hback. by eapply Hinj.
Qed.

Lemma drop_admission_ok s i t arc s' :
  fetches_ok s → tasks s !! i = Some t → arcs s !! task_arc t = Some arc →
  phase t = DropAdmission → run_task s i = Some s' → fetches_ok s'.
Proof.
  intros Hok Ht Ha Hphase. unfold run_task. rewrite Ht. cbn. rewrite Ha. cbn. rewrite Hphase.
  intros [= <-]. unfold go, on_tasks, on_limiter. cbn.
  assert (snapshot_global (drop_admission (task_peer t) (limiter s)) = snapshot_global (limiter s) ∧
    snapshot_global_notify (drop_admission (task_peer t) (limiter s)) =
    snapshot_global_notify (limiter s)) as [Hl1 Hl2].
  { unfold drop_admission. by repeat case_match. }
  split; cbn.
  - intros a arc1 Ha1. destruct (fo_arcs _ Hok _ _ Ha1) as [Hp Hn Hc].
    destruct (decide (task_arc t = a)) as [<-|Hne]; [|by eapply arc_ok_other].
    counts Ht Hphase Finished. split; [lia| |called Hc].
    eapply notify_ok_same; [|exact Hn]. intros k. by eapply queued_peer_same; [|rewrite Hphase|].
  - destruct (fo_global _ Hok) as [Hgp Hgn Hgc]. counts Ht Hphase Finished.
    split; rewrite ?Hl1, ?Hl2; [lia| |called Hgc].
    eapply notify_ok_same; [|exact Hgn]. intros k. by eapply queued_global_same; [|rewrite Hphase|].
  - by apply drop_admission_peers; [| |apply Hok].
Qed.

Lemma run_task_ok s i s' : fetches_ok s → run_task s i = Some s' → fetches_ok s'.
Proof.
  intros Hok H. destruct (tasks s !! i) as [t|] eqn:Ht; [|by unfold run_task in H; rewrite Ht in H].
  destruct (arcs s !! task_arc t) as [arc|] eqn:Ha;
    [|by unfold run_task in H; rewrite Ht in H; cbn in H; rewrite Ha in H].
  destruct (phase t) eqn:Hphase.
  - by eapply start_ok.
  - eapply notify_global_step_ok; eauto.
  - by eapply ask_peer_ok.
  - unfold run_task in H. rewrite Ht in H. cbn in H. by rewrite Ha, Hphase in H.
  - by eapply has_peer_ok.
  - eapply drop_peer_ok; eauto.
  - eapply notify_peer_step_ok; eauto.
  - by eapply ask_global_ok.
  - unfold run_task in H. rewrite Ht in H. cbn in H. by rewrite Ha, Hphase in H.
  - eapply drop_peer_ok; eauto.
  - eapply notify_peer_step_ok; eauto.
  - by eapply drop_global_ok.
  - eapply notify_global_step_ok; eauto.
  - by eapply drop_admission_ok.
  - unfold run_task in H. rewrite Ht in H. cbn in H. by rewrite Ha, Hphase in H.
Qed.

Lemma queued_peer_new ts peer_id b a j :
  queued_peer (ts ++ [{| task_peer := peer_id; task_arc := b; phase := Start false |}]) a j ↔
  queued_peer ts a j.
Proof.
  unfold queued_peer. split; intros (u & Hu & Hw).
  - apply lookup_app_Some in Hu as [Hu|[_ Hu]]; [eauto|].
    apply list_lookup_singleton_Some in Hu as [_ <-]. naive_solver.
  - exists u. split; [by apply lookup_app_l_Some|done].
Qed.

Lemma queued_global_new ts peer_id b j :
  queued_global (ts ++ [{| task_peer := peer_id; task_arc := b; phase := Start false |}]) j ↔
  queued_global ts j.
Proof.
  unfold queued_global. split; intros (u & Hu & Hw).
  - apply lookup_app_Some in Hu as [Hu|[_ Hu]]; [eauto|].
    apply list_lookup_singleton_Some in Hu as [_ <-]. naive_solver.
  - exists u. split; [by apply lookup_app_l_Some|done].
Qed.

Lemma arc_ok_new ts peer_id b a arc :
  arc_ok ts a arc →
  arc_ok (ts ++ [{| task_peer := peer_id; task_arc := b; phase := Start false |}]) a arc.
Proof.
  intros [Hp Hn Hc]. split; rewrite ?count_app; unfold at_arc; cbn; rewrite ?andb_false_r; cbn.
  - unfold at_arc in Hp. lia.
  - eapply notify_ok_same; [|done]. intros j. apply queued_peer_new.
  - unfold at_arc in Hc. rewrite !Nat.add_0_r. intros ? ?. destruct Hc as [?|?]; [done|done|by left|].
    right. lia.
Qed.

Lemma arc_ok_fresh ts n :
  (∀ i t, ts !! i = Some t → task_arc t < n) →
  arc_ok ts n {| permits := 1; peer_notify := new_notify |}.
Proof.
  intros Hlt. assert (∀ f, count (at_arc f n) ts = 0) as Hz.
  { intros f. apply Nat.le_0_r, Nat.le_ngt. intros (i & t & Ht & Hf)%count_pos. unfold at_arc in Hf.
    apply andb_prop in Hf as [Hf _]. apply bool_decide_eq_true in Hf. specialize (Hlt _ _ Ht). lia. }
  split; cbn.
  - by rewrite Hz.
  - split; cbn; [done|constructor|]. intros i. split; [by intros ?%elem_of_nil|].
    intros (t & Ht & _ & Ha). specialize (Hlt _ _ Ht). lia.
  - rewrite Hz. lia.
Qed.

Lemma global_ok_new ts peer_id b l l' :
  snapshot_global l' = snapshot_global l → snapshot_global_notify l' = snapshot_global_notify l →
  global_ok ts l →
  global_ok (ts ++ [{| task_peer := peer_id; task_arc := b; phase := Start false |}]) l'.
Proof.
  intros H1 H2 [Hp Hn Hc]. split; rewrite ?H1, ?H2, ?count_app; unfold in_phase; cbn.
  - unfold in_phase in Hp. lia.
  - eapply notify_ok_same; [|done]. intros j. apply queued_global_new.
  - unfold in_phase in Hc. by rewrite !Nat.add_0_r.
Qed.

(** The table and the heap with the peer's entry, as [or_insert_with] leaves them. *)
Lemma peers_ok_admit ts peers n peer_id entry n' :
  peers_ok ts peers n → n <= n' →
  (peers !! peer_id = Some entry ∨
   peers !! peer_id = None ∧ n < n' ∧ semaphore entry = n ∧ pending entry = 0) →
  pending entry < MAX_PENDING_SNAPSHOT_FETCHES_PER_PEER →
  peers_ok (ts ++ [{| task_peer := peer_id; task_arc := semaphore entry; phase := Start false |}])
    (<[peer_id := {| semaphore := semaphore entry; pending := S (pending entry) |}]> peers) n'.
Proof.
  intros [Htask Harc He Hinj] Hn Hentry Hmax.
  assert (semaphore entry < n' ∧ pending entry = count (at_peer live peer_id) ts ∧
    ∀ q e, q ≠ peer_id → peers !! q = Some e → semaphore e ≠ semaphore entry) as (Hlt & Hpend & Hfr).
  { destruct Hentry as [Hp|(Hp & ? & Hs & H0)].
    - destruct (He _ _ Hp) as (? & ? & _). split_and!; [lia|done|].
      intros q e Hq Hqe Heq. apply Hq. by eapply Hinj.
    - rewrite Hs, H0. split_and!; [lia| |].
      + symmetry. apply Nat.le_0_r, Nat.le_ngt. intros (i & t & Ht & Hf)%count_pos.
        unfold at_peer in Hf. apply andb_prop in Hf as [Hf Hl]. apply bool_decide_eq_true in Hf.
        destruct (Htask _ _ Ht Hl) as (e & Hpe & _). congruence.
      + intros q e _ Hqe. destruct (He _ _ Hqe) as (? & _). lia. }
  split.
  - intros i t Ht Hl. destruct (decide (task_peer t = peer_id)) as [Hq|Hq].
    + rewrite Hq, lookup_insert_eq. eexists. split; [done|]. cbn.
      apply lookup_app_Some in Ht as [Ht|[_ Ht]].
      * destruct (Htask _ _ Ht Hl) as (e & Hpe & <-). rewrite Hq in Hpe.
        destruct Hentry as [Hp|(Hp & _)]; congruence.
      * apply list_lookup_singleton_Some in Ht as [_ <-]. done.
    + rewrite lookup_insert_ne by done. apply lookup_app_Some in Ht as [Ht|[_ Ht]]; [eauto|].
      apply list_lookup_singleton_Some in Ht as [_ <-]. done.
  - intros i t [Ht|[_ Ht]]%lookup_app_Some; [specialize (Harc _ _ Ht); lia|].
    apply list_lookup_singleton_Some in Ht as [_ <-]. done.
  - intros q e. rewrite count_app. unfold at_peer at 2. cbn.
    destruct (decide (peer_id = q)) as [<-|Hq].
    + rewrite lookup_insert_eq. intros [= <-]. cbn. rewrite bool_decide_true by done. cbn.
      split_and!; [done|lia|lia|exact Hmax].
    + rewrite lookup_insert_ne by done. rewrite bool_decide_false by done. cbn.
      intros Hqe. destruct (He _ _ Hqe) as (? & ? & ? & ?). split_and!; [lia|lia|lia|done].
  - intros p q e1 e2. rewrite !lookup_insert. repeat case_decide; [congruence|..].
    + intros [= <-] Hqe Hs. by destruct (Hfr q e2).
    + intros Hpe [= <-] Hs. by destruct (Hfr p e1).
    + intros ??. by eapply Hinj.
Qed.

Lemma try_admit_ok peer_id s : fetches_ok s → fetches_ok (try_admit_snapshot peer_id s).1.
Proof.
  intros Hok. unfold try_admit_snapshot.
  destruct (snapshot_peers (limiter s) !! peer_id) as [entry|] eqn:Hp.
  - destruct (_ <=? _) eqn:Hle; cbn [fst].
    + rewrite insert_id by done. destruct s as [[] ? ?], Hok. by split.
    + apply Nat.leb_gt in Hle. split; cbn.
      * intros a arc Ha. by apply arc_ok_new, Hok.
      * by eapply global_ok_new; [| |apply Hok].
      * eapply peers_ok_admit; [apply Hok|done|by left|done].
  - cbn [fst pending semaphore]. split; cbn.
    + intros a arc [Ha|[Hge Ha]]%lookup_app_Some; [by apply arc_ok_new, Hok|].
      apply list_lookup_singleton_Some in Ha as [Hz <-].
      replace a with (length (arcs s)) by lia. apply arc_ok_new, arc_ok_fresh.
      intros i t. eapply po_arc, Hok.
    + by eapply global_ok_new; [| |apply Hok].
    + rewrite length_app. cbn.
      eapply (peers_ok_admit _ _ _ _ {| semaphore := length (arcs s); pending := 0 |});
        [apply Hok|lia| |cbn; lia].
      right. cbn. split_and!; [done|lia|done|done].
Qed.

Lemma reachable_ok s : reachable s → fetches_ok s.
Proof.
  intros H. pose proof no_fetches_ok as Hok. revert Hok.
  induction H as [|? ? ? Hstep _ IH]; [done|]. intros Hok. apply IH.
  destruct Hstep; [by apply try_admit_ok|by eapply run_task_ok].
Qed.

(** ** Bounds *)

Definition fetching (p : Phase) : bool := match p with Working => true | _ => false end.

Lemma peer_holders s p :
  fetches_ok s → count (at_peer fetching p) (tasks s) <= 1.
Proof.
  intros Hok. destruct (decide (0 < count (at_peer fetching p) (tasks s))) as [Hpos|]; [|lia].
  apply count_pos in Hpos as (i & t & Ht & Hf). unfold at_peer in Hf.
  apply andb_prop in Hf as [Hp%bool_decide_eq_true Hw].
  assert (∀ u, u ∈ tasks s → at_peer fetching p u = true →
    at_arc holds_peer (task_arc t) u = true) as Hsub.
  { intros u [j Hu]%list_elem_of_lookup Hfu. unfold at_peer in Hfu.
    apply andb_prop in Hfu as [Hup%bool_decide_eq_true Huw].
    destruct (fo_peers _ Hok) as [Htask _ _ _].
    destruct (Htask _ _ Ht) as (e & He & Hs); [by destruct (phase t)|].
    destruct (Htask _ _ Hu) as (e' & He' & Hs'); [by destruct (phase u)|].
    unfold at_arc. rewrite bool_decide_true by congruence. by destruct (phase u). }
  apply count_le in Hsub.
  destruct (lookup_lt_is_Some_2 (arcs s) (task_arc t)) as [arc Ha].
  { eapply po_arc; [apply Hok|done]. }
  pose proof (ao_permits _ _ _ (fo_arcs _ Hok _ _ Ha)). lia.
Qed.

(** C35: The limiter keeps its bounds under every interleaving of announcements and tasks: at
    most four snapshots are fetched at a time and at most one from each peer, although a
    peer's semaphore is replaced when its last announcement is done; a peer has at most 32
    announcements in work, and the table has an entry for exactly the peers that have one, so
    it does not grow with the peers that were ever seen. *)
Theorem limiter_bounds s :
  reachable s →
  count (in_phase fetching) (tasks s) <= SNAPSHOT_WORKER_COUNT ∧
  ∀ p, count (at_peer fetching p) (tasks s) <= 1 ∧
    count (at_peer live p) (tasks s) <= MAX_PENDING_SNAPSHOT_FETCHES_PER_PEER ∧
    (is_Some (snapshot_peers (limiter s) !! p) ↔ 0 < count (at_peer live p) (tasks s)).
Proof.
  intros Hok%reachable_ok. split; [|intros p; split; [by apply peer_holders|]].
  - pose proof (go_permits _ _ (fo_global _ Hok)).
    assert (count (in_phase fetching) (tasks s) <= count (in_phase holds_global) (tasks s)); [|lia].
    apply count_le. intros t _. unfold in_phase. by destruct (phase t).
  - destruct (fo_peers _ Hok) as [Htask _ He _].
    assert (0 < count (at_peer live p) (tasks s) → is_Some (snapshot_peers (limiter s) !! p)) as Hex.
    { intros (i & t & Ht & Hf)%count_pos. unfold at_peer in Hf.
      apply andb_prop in Hf as [<-%bool_decide_eq_true Hl].
      destruct (Htask _ _ Ht Hl) as (e & ? & _). by exists e. }
    split; [|split; [|done]].
    + destruct (snapshot_peers (limiter s) !! p) as [e|] eqn:Hp.
      * destruct (He _ _ Hp) as (_ & <- & _ & ?). done.
      * destruct (count (at_peer live p) (tasks s)); [lia|].
        destruct Hex as [? ?]; [lia|done].
    + intros [e Hp]. destruct (He _ _ Hp) as (_ & <- & ? & _). done.
Qed.

(** ** No task waits for ever *)

Fixpoint total (w : Phase -> nat) (ts : list Task) : nat :=
  match ts with [] => 0 | t :: ts => w (phase t) + total w ts end.

Lemma total_alter w p ts i t :
  ts !! i = Some t → total w (alter (set_phase p) i ts) + w (phase t) = total w ts + w p.
Proof.
  revert i. induction ts as [|u ts IH]; intros [|i]; cbn; [done|done| |].
  - intros [= ->]. lia.
  - intros H. specialize (IH _ H). fold (alter (M:=list Task) (set_phase p) i ts). lia.
Qed.

(** Weights that a notification does not change. *)
Definition wake_neutral (w : Phase -> nat) : Prop :=
  w WaitPeer = w (Start false) ∧ w WaitGlobal = w (Start true).

Lemma notify_peer_total w s a arc :
  fetches_ok s → arcs s !! a = Some arc → wake_neutral w →
  total w (tasks (notify_peer a arc s)) = total w (tasks s).
Proof.
  intros Hok Ha [Hw _]. destruct (fo_arcs _ Hok _ _ Ha) as [_ Hn _]. unfold notify_peer, notify_one.
  destruct (waiters (peer_notify arc)) as [|j rest] eqn:Hws; [done|]. cbn.
  destruct (proj1 (no_waiters _ _ Hn j)) as (t & Ht & Hphase & _); [rewrite Hws; by left|].
  pose proof (total_alter w (Start false) _ _ _ Ht). rewrite Hphase in *. lia.
Qed.

Lemma notify_global_total w s :
  fetches_ok s → wake_neutral w → total w (tasks (notify_global s)) = total w (tasks s).
Proof.
  intros Hok [_ Hw]. destruct (fo_global _ Hok) as [_ Hn _]. unfold notify_global, notify_one.
  destruct (waiters (snapshot_global_notify (limiter s))) as [|j rest] eqn:Hws; [done|]. cbn.
  destruct (proj1 (no_waiters _ _ Hn j)) as (t & Ht & Hphase); [rewrite Hws; by left|].
  pose proof (total_alter w (Start true) _ _ _ Ht). rewrite Hphase in *. lia.
Qed.

(** The phase after the next step of a task; none when it is queued or finished. *)
Definition next (s : Fetches) (arc : PeerArc) (p : Phase) : option Phase :=
  match p with
  | Start woke =>
      Some (if permits arc =? 0 then if woke then PassOn else AskPeer else HasPeer woke)
  | PassOn => Some AskPeer
  | AskPeer => Some (if stored (peer_notify arc) then Start false else WaitPeer)
  | HasPeer _ => Some (if snapshot_global (limiter s) =? 0 then NoGlobal else Working)
  | NoGlobal => Some PeerDropped
  | PeerDropped => Some AskGlobal
  | AskGlobal =>
      Some (if stored (snapshot_global_notify (limiter s)) then Start true else WaitGlobal)
  | Working => Some DropPeer
  | DropPeer => Some DropGlobal
  | DropGlobal => Some NotifyGlobal
  | NotifyGlobal => Some DropAdmission
  | DropAdmission => Some Finished
  | WaitPeer | WaitGlobal | Finished => None
  end.

Definition run_step (s s' : Fetches) : Prop := ∃ i, run_task s i = Some s'.

Lemma run_next s i t arc p :
  fetches_ok s → tasks s !! i = Some t → arcs s !! task_arc t = Some arc →
  next s arc (phase t) = Some p →
  ∃ s', run_step s s' ∧ tasks s' !! i = Some (set_phase p t) ∧
    ∀ w, wake_neutral w → total w (tasks s') + w (phase t) = total w (tasks s) + w p.
Proof.
  intros Hok Ht Ha Hn.
  assert (∃ s1, run_task s i = Some (go i p s1) ∧ tasks s1 !! i = Some t ∧
    ∀ w, wake_neutral w → total w (tasks s1) = total w (tasks s)) as (s1 & Hrun & Ht1 & Hw).
  { unfold run_task. rewrite Ht. cbn. rewrite Ha. cbn. unfold await_notify.
    destruct (notify_peer_ok s _ _ Hok Ha) as [_ _ _ Hpt].
    destruct (notify_global_ok s Hok) as [_ _ _ _ _ Hgt].
    pose proof (fun w => notify_peer_total w s _ _ Hok Ha) as Hpw.
    pose proof (fun w => notify_global_total w s Hok) as Hgw.
    destruct (phase t) eqn:Hph; cbn in Hn; simplify_eq.
    all: try (destruct (permits arc); cbn). all: try (destruct (snapshot_global (limiter s)); cbn).
    all: try destruct (stored (peer_notify arc)).
    all: try destruct (stored (snapshot_global_notify (limiter s))).
    all: eexists; split; [reflexivity|split; [|eauto; fail]].
    all: first [done|apply Hpt; [done|by rewrite Hph]|apply Hgt; [done|by rewrite Hph]]. }
  exists (go i p s1). split_and!; [by exists i| |].
  - cbn. by rewrite list_lookup_alter_eq, Ht1.
  - intros w Hwn. pose proof (total_alter w p _ _ _ Ht1). rewrite (Hw w Hwn) in *. done.
Qed.

(** How many tasks are not finished, and how far those that found something busy are from
    waiting for a notification. *)
Definition unfinished (s : Fetches) : nat := total (fun p => Nat.b2n (live p)) (tasks s).
Definition restlessness (p : Phase) : nat :=
  match p with NoGlobal => 3 | PassOn | PeerDropped => 2 | AskPeer | AskGlobal => 1 | _ => 0 end.

(** The steps left to a task that has its permits. *)
Definition to_finish (p : Phase) : nat :=
  match p with
  | Working => 5 | DropPeer => 4 | DropGlobal => 3 | NotifyGlobal => 2 | DropAdmission => 1
  | _ => 0
  end.

Lemma task_arc_exists s i t :
  fetches_ok s → tasks s !! i = Some t → ∃ arc, arcs s !! task_arc t = Some arc.
Proof. intros Hok Ht. apply lookup_lt_is_Some. eapply po_arc; [apply Hok|done]. Qed.

Lemma run_steps_ok s s' : rtc run_step s s' → fetches_ok s → fetches_ok s'.
Proof. induction 1 as [|? ? ? [i Hi] _ IH]; [done|]. intros Hok. eapply IH, run_task_ok; done. Qed.

(** [advance p] runs a task into the phase [p]. *)
Lemma advance s i t p :
  fetches_ok s → tasks s !! i = Some t →
  (∀ arc, arcs s !! task_arc t = Some arc → next s arc (phase t) = Some p) →
  ∃ s', run_step s s' ∧ fetches_ok s' ∧ tasks s' !! i = Some (set_phase p t) ∧
    (∀ w, wake_neutral w → total w (tasks s') + w (phase t) = total w (tasks s) + w p).
Proof.
  intros Hok Ht Hn. destruct (task_arc_exists _ _ _ Hok Ht) as [arc Ha].
  destruct (run_next s i t arc p Hok Ht Ha (Hn _ Ha)) as (s' & Hs & Ht' & Hw).
  exists s'. split_and!; [done| |done|done]. destruct Hs as [j Hj]. by eapply run_task_ok.
Qed.

Lemma live_neutral : wake_neutral (fun p => Nat.b2n (live p)).
Proof. done. Qed.
Lemma rest_neutral : wake_neutral restlessness.
Proof. done. Qed.

Lemma finishes d s i t :
  fetches_ok s → tasks s !! i = Some t → to_finish (phase t) = S d →
  ∃ s', rtc run_step s s' ∧ unfinished s' < unfinished s.
Proof.
  revert s t. induction d as [|d IH]; intros s t Hok Ht Hd.
  - destruct (advance s i t Finished Hok Ht) as (s' & Hs & _ & _ & Hw).
    { intros arc _. by destruct (phase t). }
    exists s'. split; [by apply rtc_once|]. specialize (Hw _ live_neutral). unfold unfinished.
    destruct (phase t); cbn in *; lia.
  - assert (∃ p, to_finish p = S d ∧ live p = live (phase t) ∧
      ∀ arc, next s arc (phase t) = Some p) as (p & Hp & Hl & Hn).
    { destruct (phase t); cbn in Hd; simplify_eq; eexists; (split; [|split; [|done]]); done. }
    destruct (advance s i t p Hok Ht) as (s1 & Hs1 & Hok1 & Ht1 & Hw); [eauto|].
    destruct (IH s1 (set_phase p t) Hok1 Ht1 Hp) as (s' & Hs' & Hlt).
    exists s'. split; [by eapply rtc_l|]. specialize (Hw _ live_neutral). cbn in Hw.
    rewrite Hl in Hw. unfold unfinished in *. lia.
Qed.

Lemma count_total f ts : count (in_phase f) ts = total (fun p => Nat.b2n (f p)) ts.
Proof. induction ts as [|t ts IH]; cbn; [done|]. by rewrite IH. Qed.

Lemma notify_peer_length a arc s : length (tasks (notify_peer a arc s)) = length (tasks s).
Proof. unfold notify_peer, notify_one. destruct (waiters _); cbn; [done|by rewrite length_alter]. Qed.

Lemma notify_global_length s : length (tasks (notify_global s)) = length (tasks s).
Proof. unfold notify_global, notify_one. destruct (waiters _); cbn; [done|by rewrite length_alter]. Qed.

Lemma run_task_length s i s' : run_task s i = Some s' → length (tasks s') = length (tasks s).
Proof.
  unfold run_task, await_notify.
  intros (t & Ht & (arc & Ha & H)%bind_Some)%bind_Some. cbn in H.
  repeat case_match; simplify_eq; cbn; rewrite ?length_alter;
    first [done|apply notify_peer_length|apply notify_global_length].
Qed.

Lemma run_steps_length s s' : rtc run_step s s' → length (tasks s') = length (tasks s).
Proof. induction 1 as [|? ? ? [i Hi%run_task_length] _ IH]; [done|]. by rewrite IH. Qed.

(** No task has a phase of the class [f]. *)
Lemma none_in f s i t :
  count (in_phase f) (tasks s) = 0 → tasks s !! i = Some t → f (phase t) = false.
Proof.
  intros Hz Ht. destruct (f (phase t)) eqn:Hf; [|done].
  assert (0 < count (in_phase f) (tasks s)); [|lia]. apply count_pos. by exists i, t.
Qed.

Lemma find_in f s :
  (∃ i t, tasks s !! i = Some t ∧ f (phase t) = true) ∨ count (in_phase f) (tasks s) = 0.
Proof.
  destruct (decide (0 < count (in_phase f) (tasks s))) as [H|H]; [|right; lia].
  apply count_pos in H. by left.
Qed.

(** When no task holds a worker, one that has its peer finishes. *)
Lemma finishes_with_peer s i t woke :
  fetches_ok s → count (in_phase holds_global) (tasks s) = 0 →
  tasks s !! i = Some t → phase t = HasPeer woke →
  ∃ s', rtc run_step s s' ∧ unfinished s' < unfinished s.
Proof.
  intros Hok Hg Ht Hph. pose proof (go_permits _ _ (fo_global _ Hok)) as Hp.
  destruct (advance s i t Working Hok Ht) as (s1 & Hs1 & Hok1 & Ht1 & Hw).
  { intros arc _. rewrite Hph. cbn. rewrite Hg, Nat.add_0_r in Hp. by rewrite Hp. }
  destruct (finishes 4 s1 i (set_phase Working t) Hok1 Ht1 eq_refl) as (s' & Hs' & Hlt).
  exists s'. split; [by eapply rtc_l|]. specialize (Hw _ live_neutral). rewrite Hph in Hw.
  unfold unfinished in *. cbn in Hw. lia.
Qed.

(** When no task holds a permit, one at the top of its loop finishes. *)
Lemma finishes_from_start s i t woke :
  fetches_ok s → count (in_phase holds_global) (tasks s) = 0 →
  count (in_phase holds_peer) (tasks s) = 0 → tasks s !! i = Some t → phase t = Start woke →
  ∃ s', rtc run_step s s' ∧ unfinished s' < unfinished s.
Proof.
  intros Hok Hg Hz Ht Hph.
  destruct (advance s i t (HasPeer woke) Hok Ht) as (s1 & Hs1 & Hok1 & Ht1 & Hw).
  { intros arc Ha. rewrite Hph. cbn. pose proof (ao_permits _ _ _ (fo_arcs _ Hok _ _ Ha)) as Hp.
    assert (count (at_arc holds_peer (task_arc t)) (tasks s) <= count (in_phase holds_peer) (tasks s)).
    { apply count_le. intros u _ [_ Hu]%andb_prop. done. }
    by replace (permits arc) with 1 by lia. }
  assert (count (in_phase holds_global) (tasks s1) = 0) as Hg1.
  { assert (wake_neutral (fun p => Nat.b2n (holds_global p))) as Hneutral by done.
    specialize (Hw _ Hneutral). rewrite Hph in Hw. rewrite count_total in *. cbn in Hw. lia. }
  destruct (finishes_with_peer s1 i _ woke Hok1 Hg1 Ht1 eq_refl) as (s' & Hs' & Hlt).
  exists s'. split; [by eapply rtc_l|]. specialize (Hw _ live_neutral). rewrite Hph in Hw.
  unfold unfinished in *. cbn in Hw. lia.
Qed.

(** When every task is queued or finished, all are finished: somebody would have been
    notified. *)
Lemma all_queued_finished s :
  fetches_ok s → (∀ i t, tasks s !! i = Some t →
    phase t = WaitPeer ∨ phase t = WaitGlobal ∨ phase t = Finished) →
  ∀ i t, tasks s !! i = Some t → phase t = Finished.
Proof.
  intros Hok Hall i t Ht.
  assert (∀ f, f WaitPeer = false → f WaitGlobal = false → f Finished = false →
    ∀ P, (∀ u, P u = true → f (phase u) = true) → count P (tasks s) = 0) as Hz.
  { intros f H1 H2 H3 P HP. apply Nat.le_0_r, Nat.le_ngt. intros (j & u & Hu & Hf%HP)%count_pos.
    destruct (Hall _ _ Hu) as [E|[E|E]]; rewrite E in Hf; congruence. }
  destruct (Hall _ _ Ht) as [Hph|[Hph|Hph]]; [exfalso|exfalso|done].
  - destruct (task_arc_exists _ _ _ Hok Ht) as [arc Ha].
    destruct (fo_arcs _ Hok _ _ Ha) as [Hp Hn Hc].
    rewrite (Hz holds_peer eq_refl eq_refl eq_refl (at_arc holds_peer (task_arc t))) in Hp by (by intros u [_ ?]%andb_prop).
    rewrite (Hz peer_calls eq_refl eq_refl eq_refl (at_arc peer_calls (task_arc t))) in Hc by (by intros u [_ ?]%andb_prop).
    assert (stored (peer_notify arc) = true) as Hs%(no_stored _ _ Hn).
    { destruct Hc as [|]; [lia| |done|lia]. apply count_pos. exists i, t. split; [done|].
      unfold at_arc. by rewrite bool_decide_true, Hph. }
    assert (i ∈ waiters (peer_notify arc)) as Hin by (apply (no_waiters _ _ Hn); by exists t).
    rewrite Hs in Hin. by apply elem_of_nil in Hin.
  - destruct (fo_global _ Hok) as [_ Hn Hc].
    rewrite (Hz global_calls eq_refl eq_refl eq_refl (in_phase global_calls)) in Hc by done.
    assert (stored (snapshot_global_notify (limiter s)) = true) as Hs%(no_stored _ _ Hn).
    { destruct Hc as [|]; [|done|lia]. apply count_pos. exists i, t. split; [done|].
      unfold in_phase. by rewrite Hph. }
    assert (i ∈ waiters (snapshot_global_notify (limiter s))) as Hin
      by (apply (no_waiters _ _ Hn); by exists t).
    rewrite Hs in Hin. by apply elem_of_nil in Hin.
Qed.

(** Some schedule finishes a task, as long as there is one. *)
Lemma some_task_finishes s :
  fetches_ok s → 0 < unfinished s → ∃ s', rtc run_step s s' ∧ unfinished s' < unfinished s.
Proof.
  remember (total restlessness (tasks s)) as r eqn:Hr. revert s Hr.
  induction (lt_wf r) as [r _ IH]. intros s -> Hok Hpos.
  destruct (find_in (fun p => negb (to_finish p =? 0)) s) as [(i & t & Ht & Hf)|Hnf].
  { destruct (to_finish (phase t)) as [|d] eqn:Hd; [done|]. by eapply finishes. }
  assert (count (in_phase holds_global) (tasks s) = 0) as Hg.
  { rewrite <- Nat.le_0_r, <- Hnf. apply count_le. intros t _. unfold in_phase. by destruct (phase t). }
  destruct (find_in (fun p => match p with HasPeer _ => true | _ => false end) s)
    as [(i & t & Ht & Hf)|Hnp].
  { destruct (phase t) eqn:Hph; try done. by eapply finishes_with_peer. }
  destruct (find_in (fun p => negb (restlessness p =? 0)) s) as [(i & t & Ht & Hf)|Hnr].
  { destruct (task_arc_exists _ _ _ Hok Ht) as [arc Ha].
    assert (∃ p, next s arc (phase t) = Some p ∧ restlessness p < restlessness (phase t) ∧
      live p = live (phase t)) as (p & Hn & Hlt & Hl).
    { destruct (phase t); try done; cbn; eexists; (split; [reflexivity|]); try (split; [cbn; lia|done]).
      all: match goal with |- context [if ?b then _ else _] => destruct b end;
        (split; [cbn; lia|done]). }
    destruct (advance s i t p Hok Ht) as (s1 & Hs1 & Hok1 & Ht1 & Hw).
    { intros arc' Ha'. by simplify_eq. }
    pose proof (Hw _ rest_neutral) as Hw1. pose proof (Hw _ live_neutral) as Hw2. cbn in Hw2.
    rewrite Hl in Hw2. unfold unfinished in *.
    destruct (IH (total restlessness (tasks s1))) with (s := s1) as (s' & Hs' & Hlt'); [lia|done|done|lia|].
    exists s'. split; [by eapply rtc_l|lia]. }
  assert (count (in_phase holds_peer) (tasks s) = 0) as Hz.
  { apply Nat.le_0_r, Nat.le_ngt. intros (i & t & Ht & Hf)%count_pos. unfold in_phase in Hf.
    pose proof (none_in _ _ _ _ Hnf Ht). pose proof (none_in _ _ _ _ Hnp Ht).
    pose proof (none_in _ _ _ _ Hnr Ht). by destruct (phase t). }
  destruct (find_in is_start s) as [(i & t & Ht & Hf)|Hns].
  { destruct (phase t) eqn:Hph; try done. by eapply finishes_from_start. }
  exfalso. unfold unfinished in Hpos. rewrite <- count_total in Hpos.
  apply count_pos in Hpos as (i & t & Ht & Hf). unfold in_phase in Hf.
  rewrite (all_queued_finished s Hok) with (i := i) in Hf; [done| |done]. intros j u Hu.
  pose proof (none_in _ _ _ _ Hnf Hu). pose proof (none_in _ _ _ _ Hnp Hu).
  pose proof (none_in _ _ _ _ Hnr Hu). pose proof (none_in _ _ _ _ Hns Hu).
  destruct (phase u); naive_solver.
Qed.

(** C11: No wake-up is lost.  From every state that any interleaving of announcements and
    tasks can reach, the tasks alone can run to a state where every admitted announcement is
    finished; all workers are then free and the table of peers is empty.  In particular the
    limiter never reaches a state in which the tasks that are left all wait for a
    notification. *)
Theorem limiter_drains s :
  reachable s →
  ∃ s', rtc run_step s s' ∧ length (tasks s') = length (tasks s) ∧
    Forall (fun t => phase t = Finished) (tasks s') ∧
    snapshot_global (limiter s') = SNAPSHOT_WORKER_COUNT ∧ snapshot_peers (limiter s') = ∅.
Proof.
  intros Hok%reachable_ok. remember (unfinished s) as n eqn:Hn. revert s Hn Hok.
  induction (lt_wf n) as [n _ IH]. intros s -> Hok. destruct (decide (0 < unfinished s)) as [Hpos|Hz].
  - destruct (some_task_finishes s Hok Hpos) as (s1 & Hs1 & Hlt).
    destruct (IH _ Hlt s1 eq_refl) as (s' & Hs' & Hlen & Hrest); [by eapply run_steps_ok|].
    exists s'. split; [by etrans|]. split; [|done]. rewrite Hlen. by apply run_steps_length.
  - exists s. split; [done|]. split; [done|].
    unfold unfinished in Hz. rewrite <- count_total in Hz.
    assert (Forall (fun t => phase t = Finished) (tasks s)) as Hall.
    { apply Forall_lookup. intros i t Ht.
      pose proof (none_in live s i t ltac:(lia) Ht). by destruct (phase t). }
    split; [done|]. split.
    + pose proof (go_permits _ _ (fo_global _ Hok)) as Hp.
      assert (count (in_phase holds_global) (tasks s) <= count (in_phase live) (tasks s)); [|lia].
      apply count_le. intros t _. unfold in_phase. by destruct (phase t).
    + apply map_eq. intros p. rewrite lookup_empty.
      destruct (snapshot_peers (limiter s) !! p) as [e|] eqn:Hp; [|done].
      destruct (po_entry _ _ _ (fo_peers _ Hok) _ _ Hp) as (_ & He & Hpos & _).
      assert (count (at_peer live p) (tasks s) <= count (in_phase live) (tasks s)); [|lia].
      apply count_le. by intros t _ [_ ?]%andb_prop.
Qed.

(** ** A concrete schedule *)

(** An announcement of a peer, or a step of a task. *)
Definition perform (s : Fetches) (op : string + nat) : Fetches :=
  match op with
  | inl peer_id => (try_admit_snapshot peer_id s).1
  | inr i => default s (run_task s i)
  end.

Lemma perform_reachable ops s : reachable s → reachable (foldl perform s ops).
Proof.
  revert s. induction ops as [|op ops IH]; intros s Hs; [done|]. cbn. apply IH.
  destruct op as [peer_id|i]; cbn; [eapply rtc_r; [done|constructor]|].
  destruct (run_task s i) as [s'|] eqn:Hi; cbn; [|done]. by eapply rtc_r; [|eapply step_run].
Qed.

(** Two announcements of one peer and one of another: the first and the third fetch, the
    second is queued behind the first. *)
Definition sample_schedule : list (string + nat) :=
  [inl "a"; inl "a"; inl "b"; inr 0; inr 0; inr 1; inr 1; inr 2; inr 2].

Lemma limiter_bounds_witness :
  let s := foldl perform no_fetches sample_schedule in
  count (in_phase fetching) (tasks s) = 2 ∧ count (at_peer live "a") (tasks s) = 2 ∧
  count (at_peer fetching "a") (tasks s) <= 1.
Proof.
  intros s. destruct (limiter_bounds s) as [_ H].
  - apply perform_reachable, rtc_refl.
  - split; [vm_compute; reflexivity|]. split; [vm_compute; reflexivity|].
    destruct (H "a") as [Ha _]. exact Ha.
Defined.

Lemma limiter_drains_witness :
  let s := foldl perform no_fetches sample_schedule in
  unfinished s = 3 ∧ ∃ s', rtc run_step s s' ∧ Forall (fun t => phase t = Finished) (tasks s').
Proof.
  intros s. split; [vm_compute; reflexivity|]. destruct (limiter_drains s) as (s' & Hs & _ & Hf & _).
  - apply perform_reachable, rtc_refl.
  - exists s'. split; [exact Hs|exact Hf].
Defined.
