(* ===== verification/GwSync.v ===== *)
(** * Synchronisation between gateways

    Models [crates/gateway/src/gateway_sync.rs] apart from its limiter (see [Limiter]):
    the classification of gossip payloads, the draining of the outbox, the periodic
    announcement of snapshots, the handling of gossip from other gateways and the
    schedule of the loop.  The peer-to-peer runtime and the [serde] codecs of the messages
    are interfaces; what the gateway publishes is part of the state. *)

From stdpp Require Import sorting.
From S2P Require Import Prelude Str External GwValue Contracts GwModels Verify Identity UiHub GwDb GwStore Normalize Space ReadModels Ingest GwSamples Progress Limiter.

Definition SNAPSHOT_REANNOUNCE_INTERVAL : Z := seconds 30.
Definition SNAPSHOT_FULL_RECONCILE_INTERVAL : Z := seconds 300.
Definition SNAPSHOT_REANNOUNCE_BATCH_INTERVAL : Z := 100000.
Definition SNAPSHOT_REANNOUNCE_BATCH_SIZE : Z := 256.
Definition P2P_OUTBOX_BATCH_SIZE : Z := 32.
Definition P2P_OUTBOX_POLL_INTERVAL : Z := seconds 1.
Definition MAX_COMMANDS_PER_TICK : nat := 32.

(** ** Classification of payloads *)

Inductive GatewayP2pSyncLane := Snapshot | Event.

Inductive GatewayP2pSyncMessageType := SnapshotAnnounceV1Type | EventV1Type.

Definition gateway_p2p_sync_lane (message_type : GatewayP2pSyncMessageType) : GatewayP2pSyncLane :=
  match message_type with SnapshotAnnounceV1Type => Snapshot | EventV1Type => Event end.

(** [serde_json::from_slice] at the types of the header. *)
Class HeaderCodec := {
  string_from_slice : string -> result string string;
  header_from_slice : string -> result string GatewayP2pSyncMessageType;
  type_from_slice : string -> result string GatewayP2pSyncMessageType;
}.

Definition byte (n : nat) : Ascii.ascii := Ascii.ascii_of_nat n.

(** [u8::is_ascii_whitespace] *)
Definition is_ascii_whitespace (b : Ascii.ascii) : bool :=
  bool_decide (b ∈ [byte 9; byte 10; byte 12; byte 13; byte 32]).

Fixpoint str_drop (n : nat) (s : string) : string :=
  match n, s with
  | S n, String _ s => str_drop n s
  | _, _ => s
  end.

(** [&payload[start..end]], which panics out of range. *)
Definition slice (payload : string) (start stop : nat) : option string :=
  if (start <=? stop) && (stop <=? String.length payload)
  then Some (String.substring start (stop - start) payload) else None.

Fixpoint skip_from (rest : string) (index : nat) : nat :=
  match rest with
  | String b rest => if is_ascii_whitespace b then skip_from rest (S index) else index
  | EmptyString => index
  end.

Definition skip_json_whitespace (payload : string) (index : nat) : nat :=
  skip_from (str_drop index payload) index.

(** The loop of [json_string_end], from the byte at [index]. *)
Fixpoint string_end_from (rest : string) (index : nat) (escaped : bool) : result string nat :=
  match rest with
  | EmptyString => Err "gateway p2p sync payload contains an unterminated JSON string"
  | String b rest =>
      if escaped then string_end_from rest (S index) false
      else if bool_decide (b = byte 92) then string_end_from rest (S index) true
      else if bool_decide (b = byte 34) then Ok (S index)
      else string_end_from rest (S index) false
  end.

Definition json_string_end (payload : string) (start : nat) : result string nat :=
  if bool_decide (String.get start payload = Some (byte 34))
  then string_end_from (str_drop (S start) payload) (S start) false
  else Err "gateway p2p sync payload expected a JSON string".

(** A computation that may panic: [None]. *)
Definition or_panic {A B} (o : option A) (k : A -> option B) : option B := o ≫= k.

Section classify.
Context `{HC : HeaderCodec}.

(** The lane of a payload, or an error; [None] is a panic. *)
Definition classify_gossip_payload (payload : string) : option (result string GatewayP2pSyncLane) :=
  let index := skip_json_whitespace payload 0 in
  if negb (bool_decide (String.get index payload = Some (byte 123)))
  then Some (Err "gateway p2p sync payload is not a JSON object") else
  let index := skip_json_whitespace payload (S index) in
  match json_string_end payload index with
  | Err e => Some (Err e)
  | Ok key_end =>
      or_panic (slice payload index key_end) (fun key_bytes =>
      match string_from_slice key_bytes with
      | Err e => Some (Err e)
      | Ok key =>
          if negb (bool_decide (key = "type"))
          then Some (header ← header_from_slice payload; Ok (gateway_p2p_sync_lane header)) else
          let index := skip_json_whitespace payload key_end in
          if negb (bool_decide (String.get index payload = Some (byte 58)))
          then Some (Err "gateway p2p sync payload type field is missing a colon") else
          let index := skip_json_whitespace payload (S index) in
          match json_string_end payload index with
          | Err e => Some (Err e)
          | Ok value_end =>
              or_panic (slice payload index value_end) (fun type_bytes =>
              Some (message_type ← type_from_slice type_bytes;
                    Ok (gateway_p2p_sync_lane message_type)))
          end
      end)
  end.
End classify.

(** ** Messages *)

Record SnapshotOutboxPayload := {
  op_node_id : string;
  op_signer_agent_did : string;
  op_generated_at : Z;
}.

(** [TransportContactMaterial], with the fields the gateway looks at. *)
Class Transport `{SV : SerdeValue} := {
  Contact : Type;
  contact_transport : Contact -> string;
  contact_peer_id : Contact -> string;
  (** [metadata.route == TransportRoute::IrohDirect] *)
  contact_route_is_direct : Contact -> bool;
  contact_endpoint : Contact -> option string;
  contact_extra : Contact -> Value;
  (** [TransportRoute::IrohDirect.as_str()] *)
  iroh_direct : string;
}.

Inductive GatewayP2pSyncMessage `{TR : Transport} :=
| SnapshotAnnounceV1 (gateway_peer_id node_id signer_agent_did : string) (generated_at : Z)
    (transport_contact_material : Contact)
| EventV1 (gateway_peer_id : string) (event : SignedNodeEvent).

(** The [serde] codecs of the messages and of the payloads of outbox rows. *)
Class SyncCodec `{TR : Transport} := {
  message_to_vec : GatewayP2pSyncMessage -> result string string;
  message_from_slice : string -> option GatewayP2pSyncMessage;
  snapshot_payload_from_value : Value -> result string SnapshotOutboxPayload;
  signed_event_from_value : Value -> result string SignedNodeEvent;
  as_i64 : Value -> option Z;
}.

(** The peer-to-peer runtime of a gateway, by the step at which it is called. *)
Class P2p `{TR : Transport} := {
  local_peer_id : string;
  export_transport_contact_material : nat -> Z -> result string Contact;
  publish_fault : nat -> option string;
  fetch_signed_snapshot_via_iroh : nat -> Contact -> string -> result string SignedPublicClientSnapshot;
  (** [Instant::now()] in microseconds. *)
  instant : nat -> Z;
}.

(** The order of [node_id] in the database. *)
Class CollationLaws `{PC : PgCollation} : Prop := {
  collate_total a b : text_leb a b = true ∨ text_leb b a = true;
  collate_antisym a b : text_leb a b = true → text_leb b a = true → a = b;
  collate_trans a b c : text_leb a b = true → text_leb b c = true → text_leb a c = true;
  collate_empty a : text_leb "" a = true;
}.

Inductive SnapshotReannounceCursor :=
| Full (started_at : Z) (node_id : string)
| Incremental (ingested_at : Z) (node_id : string).

(** The gateway with the state of its sync task. *)
Record SyncWorld `{SV : SerdeValue} := {
  sy_gw : GwWorld;
  (** The payloads published, in order. *)
  sy_gossip : list string;
  sy_cursor : option SnapshotReannounceCursor;
  sy_next_snapshot_reannounce : Z;
  sy_next_full_reconcile : Z;
  sy_next_outbox_poll : Z;
}.

Section sync.
Context `{UJ : UiEventJson, GH : GwHost, SC : !SpaceCodec, SI : Signatures, SR : !SignedRecords,
          HX : Hex, SE : SpaceEnv, CC : ContractCodec, GN : !GwNet,
          TR : !Transport, SY : !SyncCodec, PP : !P2p, PC : PgCollation}.

Definition Y (A : Type) : Type := M SyncWorld string A.

Definition set_gw (gw : GwWorld) (w : SyncWorld) : SyncWorld := {|
  sy_gw := gw; sy_gossip := sy_gossip w; sy_cursor := sy_cursor w;
  sy_next_snapshot_reannounce := sy_next_snapshot_reannounce w;
  sy_next_full_reconcile := sy_next_full_reconcile w;
  sy_next_outbox_poll := sy_next_outbox_poll w |}.

Definition set_gossip (gossip : list string) (w : SyncWorld) : SyncWorld := {|
  sy_gw := sy_gw w; sy_gossip := gossip; sy_cursor := sy_cursor w;
  sy_next_snapshot_reannounce := sy_next_snapshot_reannounce w;
  sy_next_full_reconcile := sy_next_full_reconcile w;
  sy_next_outbox_poll := sy_next_outbox_poll w |}.

Definition set_cursor (cursor : SnapshotReannounceCursor) (w : SyncWorld) : SyncWorld := {|
  sy_gw := sy_gw w; sy_gossip := sy_gossip w; sy_cursor := Some cursor;
  sy_next_snapshot_reannounce := sy_next_snapshot_reannounce w;
  sy_next_full_reconcile := sy_next_full_reconcile w;
  sy_next_outbox_poll := sy_next_outbox_poll w |}.

Definition set_deadlines (reannounce full outbox : Z) (w : SyncWorld) : SyncWorld := {|
  sy_gw := sy_gw w; sy_gossip := sy_gossip w; sy_cursor := sy_cursor w;
  sy_next_snapshot_reannounce := reannounce; sy_next_full_reconcile := full;
  sy_next_outbox_poll := outbox |}.

(** An operation on the gateway itself. *)
Definition gw {A} (m : G A) : Y A := zoom sy_gw set_gw m.

Definition instant_now : Y Z := t ← gw gtick; mret (instant t).

(** [runtime.export_transport_contact_material(Utc::now().timestamp_millis().max(0) as u64)] *)
Definition export_contact : Y Contact :=
  now ← gw gutc;
  t ← gw gtick;
  lift (export_transport_contact_material t (Z.max (now `div` 1000) 0)).

Definition publish_sync_summary (payload : string) : Y () :=
  t ← gw gtick;
  match publish_fault t with
  | Some error => throw error
  | None => modify (fun w => set_gossip (sy_gossip w ++ [payload]) w)
  end.

(** ** The outbox *)

Definition outbox_message (contact : option Contact) (row : P2pOutboxRow) : result string string :=
  message ←
    (if bool_decide (ob_command_kind row = P2P_OUTBOX_COMMAND_SNAPSHOT) then
       payload ← snapshot_payload_from_value (ob_payload row);
       contact ← ok_or contact "snapshot outbox contact material was not exported";
       Ok (SnapshotAnnounceV1 local_peer_id (op_node_id payload) (op_signer_agent_did payload)
             (op_generated_at payload) contact)
     else if bool_decide (ob_command_kind row = P2P_OUTBOX_COMMAND_EVENT) then
       event ← signed_event_from_value (ob_payload row);
       Ok (EventV1 local_peer_id event)
     else Err ("unknown gateway p2p outbox command kind " +:+ ob_command_kind row));
  message_to_vec message.

(** The body of the loop of [drain_p2p_outbox]. *)
Definition drain_row (contact : option Contact) (row : P2pOutboxRow) : Y () :=
  match outbox_message contact row with
  | Err _ => gw (ack_p2p_outbox (ob_id row))
  | Ok message =>
      outcome ← attempt (publish_sync_summary message);
      match outcome with
      | Ok _ => gw (ack_p2p_outbox (ob_id row))
      | Err _ => _ ← gw (release_p2p_outbox (ob_id row)); mret ()
      end
  end.

Definition drain_p2p_outbox : Y () :=
  rows ← gw (claim_p2p_outbox P2P_OUTBOX_BATCH_SIZE);
  contact ←
    (if existsb (fun row => bool_decide (ob_command_kind row = P2P_OUTBOX_COMMAND_SNAPSHOT)) rows
     then contact ← export_contact; mret (Some contact)
     else mret None);
  for_each rows (drain_row contact).

(** ** Announcement of snapshots *)

(** [order by node_id] *)
Definition node_le (a b : SnapshotRow) : Prop := text_leb (sr_node_id a) (sr_node_id b) = true.
Global Instance node_le_dec : RelDecision node_le.
Proof. intros a b. unfold node_le. apply _. Defined.

(** [node_id > $1] *)
Definition node_after (node_id : string) (row : SnapshotRow) : bool :=
  negb (text_leb (sr_node_id row) node_id).

(** [order by ingested_at, node_id] *)
Definition ingested_le (a b : SnapshotRow) : Prop :=
  (sr_ingested_at a < sr_ingested_at b)%Z ∨
  (sr_ingested_at a = sr_ingested_at b ∧ text_leb (sr_node_id a) (sr_node_id b) = true).
Global Instance ingested_le_dec : RelDecision ingested_le.
Proof. intros a b. unfold ingested_le. apply _. Defined.

Definition ingested_after (ingested_at : Z) (node_id : string) (row : SnapshotRow) : bool :=
  (ingested_at <? sr_ingested_at row)%Z ||
  ((ingested_at =? sr_ingested_at row)%Z && node_after node_id row).

Definition visible_snapshots (d : GwDb) : list SnapshotRow :=
  filter (fun row => visible d (sr_source_id row) = true) (map_to_list (gd_snapshots d)).*2.

Definition page_after_node_id (d : GwDb) (node_id_after : string) (limit : Z) : list SnapshotRow :=
  limit_rows (Z.max limit 1) (merge_sort node_le
    (filter (fun row => node_after node_id_after row = true) (visible_snapshots d))).

Definition list_visible_snapshots_after_node_id (node_id_after : string) (limit : Z) :
    G (list SnapshotRow) :=
  gquery (fun _ d => page_after_node_id d node_id_after limit).

Definition list_visible_snapshots_updated_after (ingested_after_ : Z) (node_id_after : option string)
    (limit : Z) : G (list SnapshotRow) :=
  gquery (fun _ d => limit_rows (Z.max limit 1) (merge_sort ingested_le
    (filter (fun row => ingested_after ingested_after_ (default "" node_id_after) row = true)
       (visible_snapshots d)))).

Definition snapshot_payload_generated_at (payload : Value) : option Z :=
  value_get payload "generated_at" ≫= as_i64.

Definition snapshot_message (contact : Contact) (snapshot : SnapshotRow) : GatewayP2pSyncMessage :=
  SnapshotAnnounceV1 local_peer_id (sr_node_id snapshot) (sr_signer_agent_did snapshot)
    (default (timestamp_secs (sr_generated_at snapshot))
       (snapshot_payload_generated_at (sr_payload snapshot))) contact.

Definition publish_snapshot_announcements (snapshots : list SnapshotRow) : Y () :=
  if bool_decide (snapshots = []) then mret () else
  contact ← export_contact;
  for_each snapshots (fun snapshot =>
    payload ← lift (message_to_vec (snapshot_message contact snapshot));
    publish_sync_summary payload).

Definition next_full_reconcile_cursor (started_at : Z) (last_node_id : option string)
    (has_more : bool) : SnapshotReannounceCursor :=
  if has_more then Full started_at (default "" last_node_id) else Incremental started_at "".

Definition is_full (cursor : option SnapshotReannounceCursor) : bool :=
  match cursor with Some (Full _ _) => true | _ => false end.

Definition full_page (snapshots : list SnapshotRow) : bool :=
  (SNAPSHOT_REANNOUNCE_BATCH_SIZE <=? count_rows snapshots)%Z.

Definition reannounce_local_snapshots (full_reconcile : bool) : Y bool :=
  cursor ← gets sy_cursor;
  _ ← whenM (full_reconcile && negb (is_full cursor)) (
        started_at ← gw gutc; modify (set_cursor (Full started_at "")));
  cursor ← gets sy_cursor;
  match cursor with
  | Some (Full started_at node_id) =>
      snapshots ← gw (list_visible_snapshots_after_node_id node_id SNAPSHOT_REANNOUNCE_BATCH_SIZE);
      let has_more := full_page snapshots in
      _ ← publish_snapshot_announcements snapshots;
      _ ← modify (set_cursor (next_full_reconcile_cursor started_at
            (sr_node_id <$> last snapshots) has_more));
      mret has_more
  | Some (Incremental ingested_at node_id) =>
      snapshots ← gw (list_visible_snapshots_updated_after ingested_at (Some node_id)
        SNAPSHOT_REANNOUNCE_BATCH_SIZE);
      let has_more := full_page snapshots in
      _ ← match last snapshots with
          | Some row =>
              _ ← publish_snapshot_announcements snapshots;
              modify (set_cursor (Incremental (sr_ingested_at row) (sr_node_id row)))
          | None => mret ()
          end;
      mret has_more
  | None => mret true
  end.

(** ** Schedule *)

Definition next_snapshot_reannounce_deadline (now : Z) (has_more : bool) : Z :=
  (now + if has_more then SNAPSHOT_REANNOUNCE_BATCH_INTERVAL else SNAPSHOT_REANNOUNCE_INTERVAL)%Z.

Definition schedule_full_reconcile (now : Z) (w : SyncWorld) : SyncWorld :=
  set_deadlines (Z.min (sy_next_snapshot_reannounce w) now) (Z.min (sy_next_full_reconcile w) now)
    (sy_next_outbox_poll w) w.

Definition set_next_reannounce (deadline : Z) (w : SyncWorld) : SyncWorld :=
  set_deadlines deadline (sy_next_full_reconcile w) (sy_next_outbox_poll w) w.
Definition set_next_full (deadline : Z) (w : SyncWorld) : SyncWorld :=
  set_deadlines (sy_next_snapshot_reannounce w) deadline (sy_next_outbox_poll w) w.
Definition set_next_outbox (deadline : Z) (w : SyncWorld) : SyncWorld :=
  set_deadlines (sy_next_snapshot_reannounce w) (sy_next_full_reconcile w) deadline w.

Definition run_periodic_sync_work : Y () :=
  now ← instant_now;
  next_outbox_poll ← gets sy_next_outbox_poll;
  _ ← whenM (next_outbox_poll <=? now)%Z (
        _ ← modify (set_next_outbox (now + P2P_OUTBOX_POLL_INTERVAL));
        drain_p2p_outbox);
  next_snapshot_reannounce ← gets sy_next_snapshot_reannounce;
  if (now <? next_snapshot_reannounce)%Z then mret () else
  next_full_reconcile ← gets sy_next_full_reconcile;
  let full_reconcile := (next_full_reconcile <=? now)%Z in
  outcome ← attempt (reannounce_local_snapshots full_reconcile);
  match outcome with
  | Ok has_more =>
      _ ← whenM (full_reconcile && negb has_more) (
            now ← instant_now;
            modify (set_next_full (now + SNAPSHOT_FULL_RECONCILE_INTERVAL)));
      now ← instant_now;
      modify (set_next_reannounce (next_snapshot_reannounce_deadline now has_more))
  | Err error =>
      now ← instant_now;
      _ ← modify (set_next_reannounce (now + seconds 5));
      throw error
  end.

(** [drain_command_batch]: what is left of the queue, and how many were taken. *)
Definition drain_command_batch {C} (commands : list C) : list C * nat :=
  (drop MAX_COMMANDS_PER_TICK commands, Nat.min MAX_COMMANDS_PER_TICK (length commands)).

(** ** Reception *)

(** The bounded queues of the two lanes, and the payloads each had to drop. *)
Record GossipQueues := {
  event_queue : list (string * string);
  snapshot_queue : list (string * string);
  event_queue_drops : Z;
  snapshot_queue_drops : Z;
}.

Definition lane_queue (lane : GatewayP2pSyncLane) (q : GossipQueues) : list (string * string) :=
  match lane with Event => event_queue q | Snapshot => snapshot_queue q end.

Definition set_lane_queue (lane : GatewayP2pSyncLane) (l : list (string * string))
    (q : GossipQueues) : GossipQueues :=
  match lane with
  | Event => {| event_queue := l; snapshot_queue := snapshot_queue q;
                event_queue_drops := event_queue_drops q;
                snapshot_queue_drops := snapshot_queue_drops q |}
  | Snapshot => {| event_queue := event_queue q; snapshot_queue := l;
                   event_queue_drops := event_queue_drops q;
                   snapshot_queue_drops := snapshot_queue_drops q |}
  end.

(** [fetch_add] of an [AtomicU64] *)
Definition record_queue_drop (lane : GatewayP2pSyncLane) (q : GossipQueues) : GossipQueues :=
  match lane with
  | Event => {| event_queue := event_queue q; snapshot_queue := snapshot_queue q;
                event_queue_drops := (event_queue_drops q + 1) `mod` 2 ^ 64;
                snapshot_queue_drops := snapshot_queue_drops q |}
  | Snapshot => {| event_queue := event_queue q; snapshot_queue := snapshot_queue q;
                   event_queue_drops := event_queue_drops q;
                   snapshot_queue_drops := (snapshot_queue_drops q + 1) `mod` 2 ^ 64 |}
  end.

Definition enqueue_gossip (lane : GatewayP2pSyncLane) (gossip : string * string)
    (q : GossipQueues) : GossipQueues :=
  if length (lane_queue lane q) <? GOSSIP_WORK_QUEUE_CAPACITY
  then set_lane_queue lane (lane_queue lane q ++ [gossip]) q
  else record_queue_drop lane q.

(** The arm of the loop that receives gossip; [None] is a panic. *)
Definition receive_gossip `{HC : HeaderCodec} (propagation_source payload : string)
    (q : GossipQueues) : option GossipQueues :=
  match classify_gossip_payload payload with
  | None => None
  | Some (Err _) => Some q
  | Some (Ok lane) => Some (enqueue_gossip lane (propagation_source, payload) q)
  end.

(** ** Gossip from other gateways *)

Definition contact_endpoint_id (contact : Contact) : string :=
  default "" (or_else (value_get (contact_extra contact) "endpoint_id" ≫= as_str)
                (contact_endpoint contact)).

Definition validate_snapshot_announcement (propagation_source gateway_peer_id : string)
    (contact : Contact) : result string () :=
  _ ← bail_if (is_blank propagation_source) "gateway p2p gossip propagation source is empty";
  _ ← bail_if (is_blank gateway_peer_id) "gateway p2p snapshot announcement peer id is empty";
  _ ← bail_if (negb (bool_decide (contact_transport contact = iroh_direct)) ||
               negb (contact_route_is_direct contact))
        "gateway p2p snapshot announcement must use iroh_direct";
  _ ← bail_if (negb (bool_decide (contact_peer_id contact = gateway_peer_id)))
        ("gateway p2p snapshot contact peer mismatch: announced " +:+ gateway_peer_id
           +:+ ", contact " +:+ contact_peer_id contact);
  let endpoint_id := contact_endpoint_id contact in
  _ ← bail_if (bool_decide (endpoint_id = "")) "gateway p2p snapshot contact endpoint id is empty";
  bail_if (from_option (fun value => negb (bool_decide (value = endpoint_id))) false
             (contact_endpoint contact) || negb (bool_decide (endpoint_id = gateway_peer_id)))
    "gateway p2p snapshot contact endpoint does not match gateway peer".

Definition snapshot_is_current (node_id : string) (generated_at : Z) : G bool :=
  snapshot ← get_snapshot_by_node_id node_id;
  mret (match snapshot with
        | None => false
        | Some row =>
            (normalize_generated_at_millis generated_at <=? sr_generated_at row `div` 1000)%Z
        end).

Definition fetch_and_ingest_snapshot (state : AppState) (node_id signer_agent_did : string)
    (generated_at : Z) (contact : Contact) : G () :=
  _ ← lift (bail_if (negb (ap_gateway_network state)) "gateway p2p runtime is not enabled");
  t ← gtick;
  snapshot ← lift (fetch_signed_snapshot_via_iroh t contact node_id);
  let payload := sc_payload snapshot in
  _ ← lift (bail_if (negb (bool_decide (cs_node_id payload = node_id)))
        ("p2p snapshot node_id mismatch: announced " +:+ node_id +:+ ", fetched " +:+ cs_node_id payload));
  _ ← lift (bail_if (negb (bool_decide (sc_signer_agent_did snapshot = signer_agent_did)))
        ("p2p snapshot signer mismatch: announced " +:+ signer_agent_did +:+ ", fetched "
           +:+ sc_signer_agent_did snapshot));
  _ ← lift (bail_if (negb (bool_decide (cs_generated_at payload = generated_at)))
        ("p2p snapshot generated_at mismatch: announced " +:+ show_i64 generated_at
           +:+ ", fetched " +:+ show_i64 (cs_generated_at payload)));
  source ← find_node_source_for_identity (cs_node_id payload) (sc_signer_agent_did snapshot);
  _ ← ingest_signed_snapshot_without_p2p_announce state snapshot (so_id <$> source)
        (Some (sc_signer_agent_did snapshot));
  mret ().

(** The handling of a payload up to the admission of a fetch.  [None]: done. *)
Definition gossip_before_admission (state : AppState) (propagation_source payload : string) :
    G (option (string * string * Z * Contact)) :=
  match message_from_slice payload with
  | None => mret None
  | Some (SnapshotAnnounceV1 gateway_peer_id node_id signer_agent_did generated_at contact) =>
      _ ← lift (validate_snapshot_announcement propagation_source gateway_peer_id contact);
      if ap_gateway_network state && bool_decide (local_peer_id = gateway_peer_id) then mret None else
      current ← snapshot_is_current node_id generated_at;
      mret (if (current : bool) then None else Some (node_id, signer_agent_did, generated_at, contact))
  | Some (EventV1 gateway_peer_id event) =>
      if ap_gateway_network state && bool_decide (local_peer_id = gateway_peer_id) then mret None else
      _ ← persist_signed_node_event_without_p2p_announce state event None None;
      mret None
  end.

(** What a task does once the limiter has given it its permits. *)
Definition gossip_with_permits (state : AppState) (fetch : string * string * Z * Contact) : G () :=
  let '(node_id, signer_agent_did, generated_at, contact) := fetch in
  current ← snapshot_is_current node_id generated_at;
  if (current : bool) then mret tt
  else fetch_and_ingest_snapshot state node_id signer_agent_did generated_at contact.

(** [handle_gossip], with the decision of [try_admit_snapshot]. *)
Definition handle_gossip (state : AppState) (admitted : bool) (propagation_source payload : string) :
    G () :=
  fetch ← gossip_before_admission state propagation_source payload;
  match fetch with
  | Some fetch => if admitted then gossip_with_permits state fetch else mret tt
  | None => mret tt
  end.
End sync.
