(* ===== verification/Gossip.v ===== *)
(** * What gossip between gateways does

    Theorems about [GwSync]: the classification of payloads never panics and agrees with
    the messages that gateways publish, an announcement leaves the outbox only when it was
    published or cannot be, an event that one gateway publishes is the event another one
    ingests, and what arrives by gossip is not announced again. *)

From S2P Require Import Prelude Str External GwValue Contracts GwModels Verify Identity UiHub GwDb GwStore Normalize Space ReadModels Ingest GwSamples Progress Ingestion Trust Limiter GwSync.

(** ** Bytes *)

Lemma str_drop_length n s : String.length (str_drop n s) = String.length s - n.
Proof. revert n. induction s as [|b s IH]; intros [|n]; cbn; [done|done|done|apply IH]. Qed.

Lemma str_drop_get n s b rest :
  str_drop n s = String b rest ↔ String.get n s = Some b ∧ str_drop (S n) s = rest.
Proof.
  revert n. induction s as [|c s IH]; intros [|n].
  - cbn. split; [done|by intros []].
  - cbn. split; [done|by intros []].
  - cbn. split; [by intros [= -> ->]; destruct rest|intros [[= ->] <-]; by destruct s].
  - exact (IH n).
Qed.

Lemma get_lt n s b : String.get n s = Some b → n < String.length s.
Proof. revert n. induction s as [|c s IH]; intros [|n]; cbn; [done|done|lia|intros ?%IH; lia]. Qed.

Lemma skip_from_ge rest index : index <= skip_from rest index <= index + String.length rest.
Proof.
  revert index. induction rest as [|b rest IH]; intros index; cbn; [lia|].
  destruct (is_ascii_whitespace b); [specialize (IH (S index)); lia|lia].
Qed.

Lemma string_end_from_bound rest index escaped stop :
  string_end_from rest index escaped = Ok stop →
  index < stop <= index + String.length rest.
Proof.
  revert index escaped. induction rest as [|b rest IH]; intros index escaped; cbn; [done|].
  intros Hend. repeat case_match; try (apply IH in Hend); simplify_eq; lia.
Qed.

Lemma json_string_end_bound payload start stop :
  json_string_end payload start = Ok stop → start < stop <= String.length payload.
Proof.
  unfold json_string_end. case_bool_decide as Hq; [|done]. apply get_lt in Hq.
  intros H%string_end_from_bound. rewrite str_drop_length in H. lia.
Qed.

Lemma slice_in_range payload start stop :
  start < stop <= String.length payload → is_Some (slice payload start stop).
Proof.
  intros H. unfold slice. rewrite (proj2 (Nat.leb_le _ _)), (proj2 (Nat.leb_le _ _)) by lia. by eexists.
Qed.

Section classification.
Context `{HC : HeaderCodec}.

Lemma classify_total payload : is_Some (classify_gossip_payload payload).
Proof.
  unfold classify_gossip_payload, or_panic. destruct (bool_decide _); cbn [negb]; [|by eexists].
  destruct (json_string_end payload _) as [key_end|e] eqn:Hkey; [|by eexists].
  apply json_string_end_bound in Hkey. destruct (slice_in_range _ _ _ Hkey) as [key_bytes ->]. cbn.
  destruct (string_from_slice key_bytes) as [key|e]; [|by eexists].
  destruct (bool_decide (key = "type")); cbn; [|by eexists].
  destruct (bool_decide _); cbn; [|by eexists].
  destruct (json_string_end payload _) as [value_end|e] eqn:Hvalue; [|by eexists].
  apply json_string_end_bound in Hvalue. destruct (slice_in_range _ _ _ Hvalue) as [type_bytes ->].
  by eexists.
Qed.

Lemma enqueue_gossip_bound lane gossip q lane' :
  length (lane_queue lane' q) <= GOSSIP_WORK_QUEUE_CAPACITY →
  length (lane_queue lane' (enqueue_gossip lane gossip q)) <= GOSSIP_WORK_QUEUE_CAPACITY.
Proof.
  unfold enqueue_gossip. intros H. case_match eqn:Hlt; [apply Nat.ltb_lt in Hlt|by destruct lane, lane'].
  destruct lane, lane'; cbn [lane_queue set_lane_queue event_queue snapshot_queue] in *;
    rewrite ?length_app; cbn [length]; lia.
Qed.

(** C36: No payload makes the reception panic.  Whatever bytes arrive, every index that the
    classification of a payload computes is in range, so it returns a lane or an error, and
    a full queue drops the payload and leaves both queues within their capacity. *)
Theorem reception_never_panics source payload q :
  (∀ lane, length (lane_queue lane q) <= GOSSIP_WORK_QUEUE_CAPACITY) →
  ∃ q', receive_gossip source payload q = Some q' ∧
    ∀ lane, length (lane_queue lane q') <= GOSSIP_WORK_QUEUE_CAPACITY.
Proof.
  intros Hq. unfold receive_gossip. destruct (classify_total payload) as [[lane|e] ->].
  - eexists. split; [done|]. intros lane'. by apply enqueue_gossip_bound.
  - by exists q.
Qed.
End classification.

(** ** The messages gateways publish *)

(** A JSON string of characters that need no escape. *)
Definition quoted (s : string) : string := String (byte 34) s +:+ String (byte 34) "".

Fixpoint plain (s : string) : bool :=
  match s with
  | EmptyString => true
  | String b s => negb (bool_decide (b = byte 92)) && negb (bool_decide (b = byte 34)) && plain s
  end.

(** What [serde] writes and reads: an internally tagged enum is an object whose first field
    is the tag, and reading is the inverse of writing.  The latter idealises [serde_json] as
    it is built here: a float may change in its last digit when it is read (there is no
    [float_roundtrip]), and reading fails beyond 128 levels of nesting. *)
Class MessageLaws `{SY : SyncCodec, HC : HeaderCodec} : Prop := {
  written_tag message bytes :
    message_to_vec message = Ok bytes →
    ∃ rest, bytes = "{" +:+ quoted "type" +:+ ":" +:+
      quoted (match message with SnapshotAnnounceV1 _ _ _ _ _ => "snapshot_announce_v1"
                               | EventV1 _ _ => "event_v1" end) +:+ rest;
  written_read message bytes :
    message_to_vec message = Ok bytes → message_from_slice bytes = Some message;
  key_read : string_from_slice (quoted "type") = Ok "type";
  snapshot_type_read : type_from_slice (quoted "snapshot_announce_v1") = Ok SnapshotAnnounceV1Type;
  event_type_read : type_from_slice (quoted "event_v1") = Ok EventV1Type;
}.

Lemma str_app_assoc a b c : (a +:+ b) +:+ c = a +:+ (b +:+ c).
Proof. induction a as [|x a IH]; cbn; [done|by rewrite IH]. Qed.

Lemma str_drop_app a b : str_drop (String.length a) (a +:+ b) = b.
Proof. induction a as [|x a IH]; cbn; [by destruct b|exact IH]. Qed.

Lemma get_app a b : String.get (String.length a) (a +:+ b) = String.get 0 b.
Proof. induction a as [|x a IH]; cbn; [done|exact IH]. Qed.

Lemma substring_app a b c :
  String.substring (String.length a) (String.length b) (a +:+ (b +:+ c)) = b.
Proof.
  induction a as [|x a IH]; cbn; [|exact IH]. induction b as [|y b IHb]; cbn.
  - by destruct c.
  - by rewrite IHb.
Qed.

Lemma string_end_from_plain s rest index :
  plain s = true →
  string_end_from (s +:+ String (byte 34) rest) index false = Ok (index + String.length s + 1).
Proof.
  revert index. induction s as [|b s IH]; intros index.
  - intros _. cbn. f_equal. lia.
  - cbn [plain]. intros [[H1 H2]%andb_prop Hs]%andb_prop.
    change (String b s +:+ String (byte 34) rest) with (String b (s +:+ String (byte 34) rest)).
    cbn [string_end_from]. destruct (bool_decide (b = byte 92)); [done|].
    destruct (bool_decide (b = byte 34)); [done|]. rewrite IH by done. cbn [String.length]. f_equal. lia.
Qed.

(** The end of a string that starts after [pre]. *)
Lemma json_string_end_plain pre s rest :
  plain s = true →
  json_string_end (pre +:+ (quoted s +:+ rest)) (String.length pre)
    = Ok (String.length pre + String.length (quoted s)).
Proof.
  intros Hs. unfold json_string_end. rewrite get_app. rewrite bool_decide_true by done.
  replace (str_drop (S (String.length pre)) (pre +:+ (quoted s +:+ rest)))
    with (s +:+ String (byte 34) rest).
  - rewrite string_end_from_plain by done. f_equal. unfold quoted. cbn [String.length append].
    rewrite string_app_length. cbn. lia.
  - unfold quoted. cbn [append]. rewrite str_app_assoc. cbn [append].
    replace (S (String.length pre)) with (String.length (pre +:+ String (byte 34) "")).
    + change (String (byte 34) (s +:+ String (byte 34) rest))
        with (String (byte 34) "" +:+ (s +:+ String (byte 34) rest)).
      by rewrite <- str_app_assoc, str_drop_app.
    + rewrite string_app_length. cbn. lia.
Qed.

Lemma slice_app pre s rest :
  slice (pre +:+ (s +:+ rest)) (String.length pre) (String.length pre + String.length s) = Some s.
Proof.
  unfold slice. rewrite !string_app_length.
  rewrite (proj2 (Nat.leb_le _ _)), (proj2 (Nat.leb_le _ _)) by lia. cbn [andb].
  replace (_ - _) with (String.length s) by lia. by rewrite substring_app.
Qed.

(** No white space is skipped where there is none. *)
Lemma skip_nothing pre b rest :
  is_ascii_whitespace b = false →
  skip_json_whitespace (pre +:+ String b rest) (String.length pre) = String.length pre.
Proof. intros Hb. unfold skip_json_whitespace. rewrite str_drop_app. cbn. by rewrite Hb. Qed.

Lemma classify_tagged `{HC : HeaderCodec} tag rest :
  string_from_slice (quoted "type") = Ok "type" → plain tag = true →
  classify_gossip_payload ("{" +:+ quoted "type" +:+ ":" +:+ quoted tag +:+ rest)
    = Some (message_type ← type_from_slice (quoted tag); Ok (gateway_p2p_sync_lane message_type)).
Proof.
  intros Hkey Htag.
  set (tail := ":" +:+ quoted tag +:+ rest). set (payload := "{" +:+ quoted "type" +:+ tail).
  set (head := "{" +:+ quoted "type"). set (colon := head +:+ ":").
  assert (payload = head +:+ tail) as Hhead by (unfold payload, head; by rewrite str_app_assoc).
  assert (payload = colon +:+ (quoted tag +:+ rest)) as Hcolon.
  { rewrite Hhead. unfold tail, colon. by rewrite str_app_assoc. }
  assert (skip_json_whitespace payload 0 = 0) as H0 by done.
  assert (skip_json_whitespace payload 1 = 1) as H1 by done.
  assert (json_string_end payload 1 = Ok 7) as H2.
  { exact (json_string_end_plain "{" "type" tail eq_refl). }
  assert (slice payload 1 7 = Some (quoted "type")) as H3.
  { exact (slice_app "{" (quoted "type") tail). }
  assert (skip_json_whitespace payload 7 = 7) as H4.
  { rewrite Hhead. by apply (skip_nothing head ":" (quoted tag +:+ rest)). }
  assert (String.get 7 payload = Some (byte 58)) as H5.
  { rewrite Hhead. exact (get_app head tail). }
  assert (skip_json_whitespace payload 8 = 8) as H6.
  { rewrite Hcolon. by apply (skip_nothing colon (byte 34)). }
  unfold classify_gossip_payload, or_panic. rewrite H0. cbn zeta.
  rewrite (bool_decide_true (String.get 0 payload = Some (byte 123))) by done. cbn [negb].
  rewrite H1, H2, H3. cbn [mbind option_bind]. rewrite Hkey, (bool_decide_true ("type" = "type")) by done.
  cbn [negb]. rewrite H4, (bool_decide_true _ H5). cbn [negb]. rewrite H6.
  assert (json_string_end payload 8 = Ok (8 + String.length (quoted tag))) as H7.
  { rewrite Hcolon. exact (json_string_end_plain colon tag rest Htag). }
  assert (slice payload 8 (8 + String.length (quoted tag)) = Some (quoted tag)) as H8.
  { rewrite Hcolon. exact (slice_app colon (quoted tag) rest). }
  by rewrite H7, H8.
Qed.

Definition message_lane `{TR : Transport} (message : GatewayP2pSyncMessage) : GatewayP2pSyncLane :=
  match message with SnapshotAnnounceV1 _ _ _ _ _ => Snapshot | EventV1 _ _ => Event end.

Lemma classify_message `{ML : MessageLaws} message bytes :
  message_to_vec message = Ok bytes →
  classify_gossip_payload bytes = Some (Ok (message_lane message)).
Proof.
  intros H. destruct (written_tag _ _ H) as [rest ->]. rewrite classify_tagged.
  - destruct message; [by rewrite snapshot_type_read|by rewrite event_type_read].
  - apply key_read.
  - by destruct message.
Qed.

(** ** The outbox *)

Section drain.
Context `{UJ : UiEventJson, GH : GwHost, SC : !SpaceCodec, SI : Signatures, SR : !SignedRecords,
          HX : Hex, SE : SpaceEnv, CC : ContractCodec, GN : !GwNet, TR : !Transport, SY : !SyncCodec, PP : !P2p}.

Definition sy_outbox (w : SyncWorld) : gmap Z P2pOutboxRow := gd_outbox (g_db (sy_gw w)).

Lemma gw_run {A} (m : G A) w r w' :
  gw m w = (r, w') → ∃ g, m (sy_gw w) = (r, g) ∧ w' = set_gw g w.
Proof. unfold gw, zoom. destruct (m (sy_gw w)) as [r0 g]. intros [= <- <-]. eauto. Qed.

(** The same announcement: a row may be claimed in between. *)
Record same_announcement (row row' : P2pOutboxRow) : Prop := {
  sa_id : ob_id row' = ob_id row;
  sa_key : ob_dedupe_key row' = ob_dedupe_key row;
  sa_kind : ob_command_kind row' = ob_command_kind row;
  sa_payload : ob_payload row' = ob_payload row;
}.

Lemma outbox_message_same contact row row' :
  same_announcement row row' → outbox_message contact row' = outbox_message contact row.
Proof. intros [_ _ Hk Hp]. unfold outbox_message. by rewrite Hk, Hp. Qed.

(** Why a row may leave the outbox when the payloads [sent] were published: it is one of
    them, it cannot be turned into a message, or its attempts are used up. *)
Inductive settled (row : P2pOutboxRow) (sent : list string) : Prop :=
| settled_published contact message :
    outbox_message contact row = Ok message → message ∈ sent → settled row sent
| settled_malformed contact error :
    outbox_message contact row = Err error →
    (ob_command_kind row = P2P_OUTBOX_COMMAND_SNAPSHOT → contact ≠ None) → settled row sent
| settled_exhausted :
    (P2P_OUTBOX_MAX_ATTEMPTS <= ob_attempts row)%Z → settled row sent.

Lemma settled_mono row sent sent' : sent ⊆ sent' → settled row sent → settled row sent'.
Proof. intros Hs []; [eapply settled_published|eapply settled_malformed|apply settled_exhausted]; eauto. Qed.

(** What one row's turn does to the outbox. *)
Record row_turn (row : P2pOutboxRow) (w w' : SyncWorld) (sent : list string) : Prop := {
  rt_gossip : sy_gossip w' = sy_gossip w ++ sent;
  rt_other k : k ≠ ob_id row → sy_outbox w' !! k = sy_outbox w !! k;
  rt_row : (∃ row', sy_outbox w' !! ob_id row = Some row' ∧ same_announcement row row') ∨
    (sy_outbox w' !! ob_id row = None ∧ settled row sent);
}.

Lemma ack_turn row w r w' :
  gw (ack_p2p_outbox (ob_id row)) w = (r, w') →
  sy_gossip w' = sy_gossip w ∧ (sy_outbox w' = sy_outbox w ∨ sy_outbox w' = delete (ob_id row) (sy_outbox w)).
Proof.
  intros (g & H & ->)%gw_run. split; [done|]. unfold sy_outbox. cbn.
  apply gexecute_run in H as [[Hq _]|(_ & now & a & _ & [= _ Hd])].
  - left. by rewrite (qu_db _ _ Hq).
  - right. by rewrite <- Hd.
Qed.

Lemma release_turn row w r w' :
  gw (release_p2p_outbox (ob_id row)) w = (r, w') →
  sy_gossip w' = sy_gossip w ∧ (∀ k, k ≠ ob_id row → sy_outbox w' !! k = sy_outbox w !! k) ∧
  (sy_outbox w !! ob_id row = Some row →
   (∃ row', sy_outbox w' !! ob_id row = Some row' ∧ same_announcement row row') ∨
   (sy_outbox w' !! ob_id row = None ∧ (P2P_OUTBOX_MAX_ATTEMPTS <= ob_attempts row)%Z)).
Proof.
  intros (g & H & ->)%gw_run. split; [done|]. unfold sy_outbox. cbn.
  apply release_run in H as (_ & _ & [Hd|[(row0 & Hrow0 & He & Hd)|(now & Hd)]]); rewrite Hd; cbn.
  - split; [done|]. intros Hrow. left. exists row. by split.
  - split; [intros k Hk; by rewrite lookup_delete_ne|]. intros Hrow. right.
    rewrite lookup_delete_eq. split; [done|]. rewrite Hrow in Hrow0. injection Hrow0 as <-.
    by apply Z.leb_le in He.
  - split; [intros k Hk; by rewrite lookup_alter_ne|]. intros Hrow. left.
    rewrite lookup_alter_eq, Hrow. eexists. split; [done|]. by split.
Qed.

Lemma publish_run message w r w' :
  attempt (publish_sync_summary message) w = (r, w') →
  sy_outbox w' = sy_outbox w ∧
  ((r = Ok (Ok ()) ∧ sy_gossip w' = sy_gossip w ++ [message]) ∨
   (∃ e, r = Ok (Err e)) ∧ sy_gossip w' = sy_gossip w).
Proof.
  unfold attempt, publish_sync_summary, gw, zoom, sy_outbox. cbv [gtick mbind M_bind modify throw].
  cbn. destruct (publish_fault _); cbn; intros [= <- <-]; (split; [done|]); [right|left]; eauto.
Qed.

Lemma drain_row_turn contact row w r w' :
  sy_outbox w !! ob_id row = Some row →
  (ob_command_kind row = P2P_OUTBOX_COMMAND_SNAPSHOT → contact ≠ None) →
  drain_row contact row w = (r, w') → ∃ sent, row_turn row w w' sent.
Proof.
  intros Hrow Hc. unfold drain_row.
  assert (∀ w0 r0 w1 sent, sy_outbox w0 = sy_outbox w → sy_gossip w0 = sy_gossip w ++ sent →
    gw (ack_p2p_outbox (ob_id row)) w0 = (r0, w1) → settled row sent → row_turn row w w1 sent) as Hack.
  { intros w0 r0 w1 sent Ho Hg [Hg1 Ho1]%ack_turn Hs. rewrite Ho in Ho1. split; [by rewrite Hg1| |].
    - intros k Hk. destruct Ho1 as [-> | ->]; [done|by rewrite lookup_delete_ne].
    - destruct Ho1 as [-> | ->]; [left; exists row; by split|right]. by rewrite lookup_delete_eq. }
  destruct (outbox_message contact row) as [message|e] eqn:Hm.
  - intros [(e & Hp & _)|(outcome & w1 & Hp & H)]%M_bind_inv;
      apply publish_run in Hp as [Ho Hp]; [by destruct Hp as [[? _]|[(? & ?) _]]|].
    destruct Hp as [[[= ->] Hg]|[(e & [= ->]) Hg]].
    + exists [message]. eapply Hack; [exact Ho|exact Hg|exact H|].
      eapply settled_published; [exact Hm|]. by apply list_elem_of_singleton.
    + assert (∃ r1, gw (release_p2p_outbox (ob_id row)) w1 = (r1, w')) as [r1 Hrel].
      { apply M_bind_inv in H as [(? & H & _)|(? & ? & H & [= _ <-])]; eauto. }
      apply release_turn in Hrel as (Hg' & Hoth & Hr). rewrite Ho in *. exists []. split.
      * by rewrite Hg', Hg, app_nil_r.
      * done.
      * destruct (Hr Hrow) as [?|[? ?]]; [by left|right]. split; [done|]. by apply settled_exhausted.
  - intros H. exists []. eapply Hack; [done|by rewrite app_nil_r|exact H|].
    by eapply settled_malformed.
Qed.

Lemma same_announcement_refl row : same_announcement row row.
Proof. by split. Qed.

Lemma drain_rows_turn contact rows w r w' :
  NoDup (ob_id <$> rows) →
  (∀ row, row ∈ rows → sy_outbox w !! ob_id row = Some row ∧
     (ob_command_kind row = P2P_OUTBOX_COMMAND_SNAPSHOT → contact ≠ None)) →
  for_each rows (drain_row contact) w = (r, w') →
  ∃ sent, sy_gossip w' = sy_gossip w ++ sent ∧
    (∀ k, k ∉ ob_id <$> rows → sy_outbox w' !! k = sy_outbox w !! k) ∧
    ∀ row, row ∈ rows →
      (∃ row', sy_outbox w' !! ob_id row = Some row' ∧ same_announcement row row') ∨
      (sy_outbox w' !! ob_id row = None ∧ settled row sent).
Proof.
  revert w. induction rows as [|row rows IH]; intros w Hnd Hrows H; cbn in H.
  { injection H as <- <-. exists []. rewrite app_nil_r. split_and!; [done|done|].
    by intros ? ?%elem_of_nil. }
  rewrite fmap_cons in Hnd. apply NoDup_cons in Hnd as [Hni Hnd].
  destruct (Hrows row) as [Hrow Hc]; [by left|].
  assert (∃ sent w1, row_turn row w w1 sent ∧
    (w' = w1 ∨ for_each rows (drain_row contact) w1 = (r, w'))) as (sent & w1 & [Hg Hoth Hr] & Hrest).
  { apply M_bind_inv in H as [(e & H & _)|(u & w1 & H & Hrest)];
      apply drain_row_turn in H as [sent Ht]; eauto. }
  assert (∀ row0, row0 ∈ rows → ob_id row0 ≠ ob_id row) as Hdiff.
  { intros row0 Hin Heq. apply Hni. rewrite <- Heq. by apply list_elem_of_fmap_2. }
  assert (∀ row0, row0 ∈ rows → sy_outbox w1 !! ob_id row0 = Some row0 ∧
    (ob_command_kind row0 = P2P_OUTBOX_COMMAND_SNAPSHOT → contact ≠ None)) as Hrows1.
  { intros row0 Hin. rewrite Hoth by auto. apply Hrows. by right. }
  destruct Hrest as [->|Hrest].
  - exists sent. split_and!; [done|intros k Hk; apply Hoth; set_solver|].
    intros row0 [->|Hin]%elem_of_cons; [done|]. left. exists row0.
    split; [by apply Hrows1|apply same_announcement_refl].
  - destruct (IH w1 Hnd Hrows1 Hrest) as (sent' & Hg' & Hoth' & Hr').
    exists (sent ++ sent'). split_and!.
    + by rewrite Hg', Hg, app_assoc.
    + intros k Hk. rewrite Hoth' by set_solver. apply Hoth. set_solver.
    + intros row0 [->|Hin]%elem_of_cons.
      * rewrite (Hoth' _ Hni). destruct Hr as [?|[? Hs]]; [by left|right]. split; [done|].
        eapply settled_mono; [|exact Hs]. set_solver.
      * destruct (Hr' _ Hin) as [?|[? Hs]]; [by left|right]. split; [done|].
        eapply settled_mono; [|exact Hs]. set_solver.
Qed.

(** *** The rows of a claim *)

Lemma claimed_nodup now limit m : keyed m → NoDup (ob_id <$> (claim_rows now limit m).1).
Proof.
  intros Hk. unfold claim_rows. fold (candidates now limit m). cbn. rewrite marked_ids.
  by apply candidates_nodup.
Qed.

Lemma claimed_stored now limit m row :
  keyed m → row ∈ (claim_rows now limit m).1 → (claim_rows now limit m).2 !! ob_id row = Some row.
Proof.
  intros Hk Hin. unfold claim_rows in *. fold (candidates now limit m) in *. cbn in *.
  pose proof (claimed_nodup now limit m Hk) as Hn. unfold claim_rows in Hn.
  fold (candidates now limit m) in Hn. cbn in Hn.
  by rewrite mark_lookup, with_id_one by done.
Qed.

Lemma claimed_cases now limit m k row :
  keyed m → m !! k = Some row →
  (k ∉ ob_id <$> (claim_rows now limit m).1) ∧ (claim_rows now limit m).2 !! k = Some row ∨
  claim_row now row ∈ (claim_rows now limit m).1.
Proof.
  intros Hk Hrow. destruct (claim_rows_spec now limit m k row Hk Hrow) as [[Hw Hl]|(Hw & _ & _)].
  - left. split; [|done]. intros (row0 & -> & Hin)%list_elem_of_fmap.
    rewrite (with_id_one row0) in Hw; [done|by apply claimed_nodup|done].
  - right. assert (claim_row now row ∈ with_id k (claim_rows now limit m).1) as Hin
      by (rewrite Hw; by left).
    unfold with_id in Hin. by apply list_elem_of_filter in Hin as [_ ?].
Qed.

(** The run has accounted for every row of [m]. *)
Definition accounted (m : gmap Z P2pOutboxRow) (w' : SyncWorld) (sent : list string) : Prop :=
  ∀ k row, m !! k = Some row →
    (∃ row', sy_outbox w' !! k = Some row' ∧ same_announcement row row') ∨
    ∃ now, settled (claim_row now row) sent.

Lemma claimed_accounted now limit m w' :
  keyed m → sy_outbox w' = (claim_rows now limit m).2 → accounted m w' [].
Proof.
  intros Hk Ho k row Hrow. left. rewrite Ho.
  destruct (claim_rows_spec now limit m k row Hk Hrow) as [[_ Hl]|(_ & Hl & _)];
    eexists; (split; [exact Hl|by split]).
Qed.

Lemma drain_loop_accounted now limit m contact w r w' :
  keyed m → sy_outbox w = (claim_rows now limit m).2 →
  (existsb (fun row => bool_decide (ob_command_kind row = P2P_OUTBOX_COMMAND_SNAPSHOT))
     (claim_rows now limit m).1 = true → contact ≠ None) →
  for_each (claim_rows now limit m).1 (drain_row contact) w = (r, w') →
  ∃ sent, sy_gossip w' = sy_gossip w ++ sent ∧ accounted m w' sent.
Proof.
  intros Hk Ho Hc Hfor. apply drain_rows_turn in Hfor as (sent & Hg & Hoth & Hr).
  - exists sent. split; [done|]. intros k row Hrow.
    destruct (claimed_cases now limit m k row Hk Hrow) as [[Hni Hl]|Hin].
    + left. exists row. split; [|apply same_announcement_refl]. by rewrite Hoth, Ho.
    + destruct (Hr _ Hin) as [(row' & Hl & Hs)|[_ Hs]]; [left|right; eauto].
      cbn in Hl. rewrite (Hk _ _ Hrow) in Hl. exists row'. split; [done|]. destruct Hs. by split.
  - by apply claimed_nodup.
  - intros row Hin. rewrite Ho. split; [by apply claimed_stored|].
    intros Hs. apply Hc, existsb_exists. exists row. split; [by apply list_elem_of_In|].
    by apply bool_decide_eq_true.
Qed.

Lemma export_contact_run w r w' :
  export_contact w = (r, w') → sy_gossip w' = sy_gossip w ∧ sy_outbox w' = sy_outbox w.
Proof.
  unfold export_contact, gw, zoom, sy_outbox. cbv [gutc gtick mbind M_bind mret M_ret lift]. cbn.
  destruct (export_transport_contact_material _ _); by intros [= <- <-].
Qed.

Lemma drain_accounted w r w' :
  outbox_wf (sy_gw w) → drain_p2p_outbox w = (r, w') →
  ∃ sent, sy_gossip w' = sy_gossip w ++ sent ∧ accounted (sy_outbox w) w' sent.
Proof.
  intros [Hk _] H. unfold drain_p2p_outbox in H.
  apply M_bind_inv in H as [(e & H & ->)|(rows & w1 & H & Hrest)];
    apply gw_run in H as (g & H & ->); apply claim_run in H as [[Hq (? & Hx)]|(_ & _ & now & Hx & Hd)];
    simplify_eq.
  { exists []. rewrite app_nil_r. split; [done|]. intros k row Hrow. left. exists row.
    split; [|apply same_announcement_refl]. unfold sy_outbox. cbn. by rewrite (qu_db _ _ Hq). }
  assert (sy_outbox (set_gw g w) = (claim_rows now P2P_OUTBOX_BATCH_SIZE (sy_outbox w)).2) as Ho
    by (unfold sy_outbox; cbn; by rewrite Hd).
  apply M_bind_inv in Hrest as [(e & Hx & ->)|(contact & w2 & Hx & Hrest)].
  - exists []. rewrite app_nil_r. case_match; [|done].
    assert (∃ r0, export_contact (set_gw g w) = (r0, w')) as [r0 [Hg Ho']%export_contact_run].
    { apply M_bind_inv in Hx as [(? & Hx & _)|(? & ? & _ & ?)]; [eauto|done]. }
    split; [exact Hg|]. eapply claimed_accounted; [exact Hk|by rewrite Ho', Ho].
  - assert (sy_gossip w2 = sy_gossip w ∧ sy_outbox w2 = sy_outbox (set_gw g w) ∧
      (existsb (fun row => bool_decide (ob_command_kind row = P2P_OUTBOX_COMMAND_SNAPSHOT))
        (claim_rows now P2P_OUTBOX_BATCH_SIZE (sy_outbox w)).1 = true → contact ≠ None))
      as (Hg2 & Ho2 & Hc).
    { change (gd_outbox (g_db (sy_gw w))) with (sy_outbox w) in Hx. destruct (existsb _ _).
      - apply M_bind_ok in Hx as (c & w3 & [Hg Ho']%export_contact_run & [= <- <-]). by split_and!.
      - injection Hx as <- <-. by split_and!. }
    destruct (drain_loop_accounted now P2P_OUTBOX_BATCH_SIZE (sy_outbox w) contact w2 r w')
      as (sent & Hg & Ha); [done|by rewrite Ho2|done|done|].
    exists sent. by rewrite Hg, Hg2.
Qed.

(** C23: No announcement is lost in the sync task.  Whatever fails while the outbox is
    drained, the database, the export of the contact or the network: a row that was in the
    outbox is still there with the same announcement, unless its message is among the
    payloads this run published, it cannot be turned into a message at all, or it has now
    been handed out ten times. *)
Theorem drain_accounts w r w' :
  outbox_wf (sy_gw w) → drain_p2p_outbox w = (r, w') →
  ∃ sent, sy_gossip w' = sy_gossip w ++ sent ∧
    ∀ k row, sy_outbox w !! k = Some row →
      (∃ row', sy_outbox w' !! k = Some row' ∧ same_announcement row row') ∨
      ∃ now, settled (claim_row now row) sent.
Proof. apply drain_accounted. Qed.
End drain.

(** ** From one gateway to another *)

(** Reading the JSON of an event is the inverse of writing it, and an event that can be
    written as a value can be written in a message. *)
Class EventCodecLaws `{SV : SerdeValue, SC : !SpaceCodec, TR : !Transport, SY : !SyncCodec} : Prop := {
  event_read event value :
    signed_event_to_value event = Ok value → signed_event_from_value value = Ok event;
  event_written peer_id event value :
    signed_event_to_value event = Ok value →
    ∃ bytes, message_to_vec (EventV1 peer_id event) = Ok bytes;
}.

Section propagation.
Context `{UJ : UiEventJson, GH : GwHost, SC : !SpaceCodec, SI : Signatures, SR : !SignedRecords,
          HX : Hex, SE : SpaceEnv, CC : ContractCodec, GN : !GwNet, TR : !Transport,
          SY : !SyncCodec, HC : HeaderCodec, ML : !MessageLaws, EL : !EventCodecLaws}.

(** The row announces the event. *)
Definition announces (row : P2pOutboxRow) (event : SignedNodeEvent) : Prop :=
  ∃ record, event_outbox_record event = Ok record ∧
    ob_command_kind row = io_command_kind record ∧ ob_payload row = io_payload record.

Lemma event_row_message (PP : P2p) contact row event :
  announces row event →
  ∃ bytes, outbox_message contact row = Ok bytes ∧
    message_to_vec (EventV1 local_peer_id event) = Ok bytes.
Proof.
  intros (record & Hrec & Hkind & Hpay). unfold event_outbox_record in Hrec.
  apply result_bind_ok in Hrec as (value & Hv & [= <-]). cbn in Hkind, Hpay.
  destruct (event_written local_peer_id _ _ Hv) as [bytes Hb]. exists bytes. split; [|done].
  unfold outbox_message. rewrite Hkind, Hpay. cbn. by rewrite (event_read _ _ Hv).
Qed.

(** C24: An event that one gateway accepted reaches the others unchanged.  When the sync task
    of gateway [A] is done with the row of the event, and has not used up its attempts, it has
    published a payload that any other gateway [B] puts into its event lane and handles by
    ingesting exactly that signed event, under the checks of its own database and without
    announcing it again. *)
Theorem gossip_carries_event (PA PB : P2p) event k row (w : SyncWorld) r w' :
  local_peer_id (P2p:=PA) ≠ local_peer_id (P2p:=PB) →
  outbox_wf (sy_gw w) → sy_outbox w !! k = Some row → announces row event →
  (ob_attempts row + 1 < P2P_OUTBOX_MAX_ATTEMPTS)%Z →
  drain_p2p_outbox (PP:=PA) w = (r, w') → sy_outbox w' !! k = None →
  ∃ sent bytes, sy_gossip w' = sy_gossip w ++ sent ∧ bytes ∈ sent ∧
    (∀ source q, receive_gossip source bytes q = Some (enqueue_gossip Event (source, bytes) q)) ∧
    ∀ state admitted source g,
      handle_gossip (PP:=PB) state admitted source bytes g =
      (_ ← persist_signed_node_event_without_p2p_announce state event None None; mret ()) g.
Proof.
  intros Hpeer Hwf Hrow Hann Hatt Hdrain Hgone.
  destruct (drain_accounted w r w' Hwf Hdrain) as (sent & Hg & Hacc).
  destruct (Hacc k row Hrow) as [(row' & Hr' & _)|[now Hs]]; [congruence|].
  assert (announces (claim_row now row) event) as Hann' by done.
  destruct Hs as [contact message Hm Hin|contact e Hm _|Hex].
  - destruct (event_row_message PA contact _ _ Hann') as (bytes & Hb & Hv).
    rewrite Hb in Hm. injection Hm as <-. exists sent, bytes. split_and!; [done|done| |].
    + intros source q. unfold receive_gossip. by rewrite (classify_message _ _ Hv).
    + intros state admitted source g. unfold handle_gossip, gossip_before_admission.
      rewrite (written_read _ _ Hv), bool_decide_false by done. rewrite andb_false_r.
      unfold mbind, M_bind. by destruct (persist_signed_node_event_without_p2p_announce _ _ _ _ g) as [[]].
  - destruct (event_row_message PA contact _ _ Hann') as (bytes & Hb & _). congruence.
  - cbn in Hex. lia.
Qed.
End propagation.

(** ** Gossip is not echoed *)

Section echo.
Context `{UJ : UiEventJson, GH : GwHost, SC : !SpaceCodec, SI : Signatures, SR : !SignedRecords,
          HX : Hex, SE : SpaceEnv, CC : ContractCodec, GN : !GwNet, TR : !Transport,
          SY : !SyncCodec, PP : !P2p}.
Context (I : gmap Z P2pOutboxRow -> Prop).

(** A property of the outbox, as one of the database. *)
Definition of_outbox (d : GwDb) : Prop := I (gd_outbox d).

Lemma outbox_untouched d d' : gd_outbox d' = gd_outbox d → of_outbox d → of_outbox d'.
Proof. unfold of_outbox. by intros ->. Qed.

(** *** Statements that leave the outbox alone *)

Lemma insert_audit_record_outbox record : always (upholds of_outbox) (insert_audit_record record).
Proof. apply gexecute_upholds. intros now d a d' H. inv_result. by apply outbox_untouched. Qed.

Lemma update_source_sync_status_outbox id status error :
  always (upholds of_outbox) (update_source_sync_status id status error).
Proof. apply gexecute_upholds. intros now d a d' H. simplify_eq. by apply outbox_untouched. Qed.

Lemma upsert_projection_row_outbox record :
  always (upholds of_outbox) (upsert_projection_row record).
Proof.
  apply gexecute_upholds. intros now d a d'. unfold upsert_projection. intros H. inv_result.
  repeat case_match; simplify_eq; by apply outbox_untouched.
Qed.

Lemma tx_insert_event_outbox row timestamp :
  always (upholds of_outbox) (tx_insert_event row timestamp).
Proof.
  unfold tx_insert_event. apply always_bind; [apply _|by intros w [? ?]|]. intros c.
  apply gtx_execute_upholds. intros d a d' H. inv_result.
  eapply outbox_untouched, insert_event_row_outbox. by symmetry.
Qed.

Lemma tx_pure_outbox {A} (f : GwDb -> A * GwDb) :
  (∀ d a d', f d = (a, d') → gd_outbox d' = gd_outbox d) → always (upholds of_outbox) (tx_pure f).
Proof.
  intros Hf. apply gtx_execute_upholds. intros d a d' H. simplify_eq. eapply outbox_untouched, Hf. done.
Qed.

Lemma upsert_presence_outbox presence node source d b d' :
  upsert_presence presence node source d = (b, d') → gd_outbox d' = gd_outbox d.
Proof. unfold upsert_presence. intros. repeat case_match; by simplify_eq. Qed.

Lemma upsert_node_presence_outbox presence source d b d' :
  upsert_node_presence presence source d = (b, d') → gd_outbox d' = gd_outbox d.
Proof. unfold upsert_node_presence. intros. repeat case_match; by simplify_eq. Qed.

Lemma upsert_world_event_outbox payload node source d b d' :
  upsert_world_event payload node source d = Ok (b, d') → gd_outbox d' = gd_outbox d.
Proof. unfold upsert_world_event. intros. inv_result. repeat case_match; by simplify_eq. Qed.
#[local] Hint Resolve insert_audit_record_outbox update_source_sync_status_outbox
  upsert_projection_row_outbox tx_insert_event_outbox : gw_always.

Lemma tx_upsert_presence_outbox presence node source :
  always (upholds of_outbox) (tx_pure (upsert_presence presence node source)).
Proof. apply tx_pure_outbox. intros d a d'. apply upsert_presence_outbox. Qed.

Lemma tx_upsert_node_presence_outbox presence source :
  always (upholds of_outbox) (tx_pure (upsert_node_presence presence source)).
Proof. apply tx_pure_outbox. intros d a d'. apply upsert_node_presence_outbox. Qed.

Lemma tx_upsert_world_event_outbox payload node source :
  always (upholds of_outbox) (gtx_execute (upsert_world_event payload node source)).
Proof. apply gtx_execute_upholds. intros d a d' H. by eapply outbox_untouched, upsert_world_event_outbox. Qed.
#[local] Hint Resolve tx_upsert_presence_outbox tx_upsert_node_presence_outbox
  tx_upsert_world_event_outbox : gw_always.

Lemma modify_outbox f : (∀ w, g_db (f w) = g_db w ∧ g_tx (f w) = g_tx w) →
  always (upholds of_outbox) (modify f : G ()).
Proof. apply upholds_beside. Qed.

Lemma publish_ui_event_outbox event : always (upholds of_outbox) (publish_ui_event event).
Proof. by apply modify_outbox. Qed.
Lemma wake_sync_outbox : always (upholds of_outbox) wake_sync.
Proof. by apply modify_outbox. Qed.
Lemma announce_on_bus_outbox state subject payload :
  always (upholds of_outbox) (announce_on_bus state subject payload).
Proof. unfold announce_on_bus, publish_event. solve_always. Qed.
Lemma persist_snapshot_artifact_outbox snapshot :
  always (upholds of_outbox) (persist_snapshot_artifact snapshot).
Proof. unfold persist_snapshot_artifact. solve_always. Qed.
Lemma now_rfc3339_outbox : always (upholds of_outbox) now_rfc3339.
Proof. unfold now_rfc3339. solve_always. Qed.
#[local] Hint Resolve publish_ui_event_outbox wake_sync_outbox announce_on_bus_outbox
  persist_snapshot_artifact_outbox now_rfc3339_outbox : gw_always.

Lemma collect_rows_outbox {A} (items : list A) step rows :
  (∀ item, always (upholds of_outbox) (step item)) →
  always (upholds of_outbox) (collect_rows items step rows).
Proof.
  intros Hs. revert rows. induction items as [|item items IH]; intros rows; cbn; [solve_always|].
  apply always_bind; [apply _|apply Hs|]. intros row. apply IH.
Qed.

Lemma persist_snapshot_read_models_outbox source snapshot signer :
  always (upholds of_outbox) (persist_snapshot_read_models source snapshot signer).
Proof.
  unfold persist_snapshot_read_models, persist_snapshot_space, persist_seed.
  assert (∀ now source' p, always (upholds of_outbox) (snapshot_presence now source' p)).
  { intros. unfold snapshot_presence, insert_snapshot_ui_record, insert_ui_record. solve_always. }
  assert (∀ now source' p, always (upholds of_outbox) (snapshot_node_presence now source' p)).
  { intros. unfold snapshot_node_presence, insert_snapshot_ui_record, insert_ui_record. solve_always. }
  assert (∀ now source' p, always (upholds of_outbox) (snapshot_world_event now source' p)).
  { intros. unfold snapshot_world_event, insert_snapshot_ui_record, insert_ui_record. solve_always. }
  solve_always; by apply collect_rows_outbox.
Qed.
#[local] Hint Resolve persist_snapshot_read_models_outbox : gw_always.

Lemma tx_upsert_snapshot_row_outbox now record :
  always (upholds of_outbox) (gtx_execute (upsert_snapshot_row now record)).
Proof.
  apply gtx_execute_upholds. intros d a d' H. by eapply outbox_untouched, upsert_snapshot_row_outbox.
Qed.
#[local] Hint Resolve tx_upsert_snapshot_row_outbox : gw_always.

(** A snapshot that is stored without an announcement. *)
Lemma quiet_snapshot_outbox state snapshot source expected :
  always (upholds of_outbox)
    (ingest_signed_snapshot_with_options state snapshot source expected false).
Proof.
  unfold ingest_signed_snapshot_with_options, apply_snapshot, upsert_snapshot, upsert_snapshot_inner.
  cbn [andb]. solve_always.
Qed.

Lemma fetch_and_ingest_outbox state node_id signer generated_at contact :
  always (upholds of_outbox) (fetch_and_ingest_snapshot state node_id signer generated_at contact).
Proof.
  pose proof quiet_snapshot_outbox.
  unfold fetch_and_ingest_snapshot, find_node_source_for_identity,
    ingest_signed_snapshot_without_p2p_announce. solve_always.
Qed.

Lemma gossip_with_permits_outbox state fetch :
  always (upholds of_outbox) (gossip_with_permits state fetch).
Proof.
  pose proof fetch_and_ingest_outbox. destruct fetch as [[[node_id signer] generated_at] contact].
  unfold gossip_with_permits, snapshot_is_current, get_snapshot_by_node_id. solve_always.
Qed.

(** *** Events, whose gap refresh may announce a snapshot *)

Context (Hsnap : ∀ m id row, ob_command_kind row = P2P_OUTBOX_COMMAND_SNAPSHOT →
  I m → I (<[id := row]> m)).

Lemma insert_outbox_snapshot now id record d :
  io_command_kind record = P2P_OUTBOX_COMMAND_SNAPSHOT →
  of_outbox d → of_outbox (insert_outbox now id record d).
Proof. intros Hk. unfold insert_outbox. case_match; [done|]. by apply Hsnap. Qed.

Lemma announced_snapshot_outbox state snapshot source expected announce :
  always (upholds of_outbox)
    (ingest_signed_snapshot_with_options state snapshot source expected announce).
Proof.
  assert (∀ now a, always (upholds of_outbox) (tx_insert_outbox now (snapshot_outbox_record a))).
  { intros now a. unfold tx_insert_outbox. apply always_bind; [apply _|by intros w [? ?]|]. intros c.
    apply gtx_execute_upholds. intros d x d' H. simplify_eq. by apply insert_outbox_snapshot. }
  unfold ingest_signed_snapshot_with_options, apply_snapshot, upsert_snapshot,
    upsert_snapshot_with_p2p_outbox, upsert_snapshot_inner. solve_always.
Qed.
#[local] Hint Resolve announced_snapshot_outbox : gw_always.

Lemma quiet_event_outbox state event source expected :
  always (upholds of_outbox)
    (persist_signed_node_event_with_options state event source expected false).
Proof.
  unfold persist_signed_node_event_with_options, find_node_source_for_identity, refresh_before,
    max_ui_event_source_seq, try_backfill_gap, ingest_signed_snapshot, store_event, stream_ephemeral,
    persist_node_presence, insert_event, persist_event, upsert_space_record, insert_ui_record,
    insert_ui_event, insert_ui_event_inner, insert_ui_event_tx, duplicate_event,
    get_ui_event_by_id, publish_stored, materialize_event_projection, materialize_projection_row.
  cbn [andb]. solve_always.
Qed.

Lemma handle_gossip_outbox state admitted source payload :
  always (upholds of_outbox) (handle_gossip state admitted source payload).
Proof.
  pose proof quiet_event_outbox. pose proof gossip_with_permits_outbox.
  unfold handle_gossip, gossip_before_admission, persist_signed_node_event_without_p2p_announce,
    snapshot_is_current, get_snapshot_by_node_id. solve_always.
Qed.
End echo.

Section not_echoed.
Context `{UJ : UiEventJson, GH : GwHost, SC : !SpaceCodec, SI : Signatures, SR : !SignedRecords,
          HX : Hex, SE : SpaceEnv, CC : ContractCodec, GN : !GwNet, TR : !Transport,
          SY : !SyncCodec, PP : !P2p}.

(** Gossip is not echoed.  Whatever payload arrives from another gateway and whatever
    fails on the way: the event announcements in the outbox afterwards are those that were
    there before, so an event does not go round between gateways; and a payload that
    announces a snapshot leaves the outbox as it was.  (An event may still queue a snapshot of
    its node, when the gateway refreshes the gap before it from the node's own export.) *)
Theorem gossip_not_echoed state admitted source payload g r g' :
  g_tx g = g_db g → handle_gossip state admitted source payload g = (r, g') →
  (∀ k row, gd_outbox (g_db g') !! k = Some row →
     ob_command_kind row = P2P_OUTBOX_COMMAND_EVENT → gd_outbox (g_db g) !! k = Some row) ∧
  (∀ peer node signer generated_at contact,
     message_from_slice payload = Some (SnapshotAnnounceV1 peer node signer generated_at contact) →
     gd_outbox (g_db g') = gd_outbox (g_db g)).
Proof.
  intros Htx H. split.
  - set (I := fun m : gmap Z P2pOutboxRow => ∀ k row, m !! k = Some row →
      ob_command_kind row = P2P_OUTBOX_COMMAND_EVENT → gd_outbox (g_db g) !! k = Some row).
    apply (always_run (upholds (of_outbox I))) in H.
    + destruct H as [Hd _]; [|exact Hd]. split; [|rewrite Htx]; by intros k row.
    + apply handle_gossip_outbox. intros m id row Hk HI k row'. rewrite lookup_insert.
      case_decide; [|apply HI]. intros [= <-] He. by rewrite Hk in He.
  - intros peer node signer generated_at contact Hm.
    set (I := fun m => m = gd_outbox (g_db g)). apply (always_run (upholds (of_outbox I))) in H.
    + destruct H as [Hd _]; [|exact Hd]. split; [done|]. by rewrite Htx.
    + unfold handle_gossip, gossip_before_admission. rewrite Hm.
      pose proof (gossip_with_permits_outbox I).
      unfold snapshot_is_current, get_snapshot_by_node_id. solve_always.
Qed.

Lemma gtick_quiet : always quiet gtick.
Proof. intros w. by split. Qed.

Lemma snapshot_is_current_quiet node_id generated_at :
  always quiet (snapshot_is_current node_id generated_at).
Proof.
  unfold snapshot_is_current, get_snapshot_by_node_id.
  apply always_bind; [apply _|apply gquery_quiet|]. intros ?. solve_always.
Qed.

(** The checks on an announcement. *)
Lemma validate_announcement_ok source peer contact :
  validate_snapshot_announcement source peer contact = Ok () →
  contact_peer_id contact = peer ∧ contact_endpoint_id contact = peer ∧
  contact_route_is_direct contact = true.
Proof.
  unfold validate_snapshot_announcement. intros H. inv_result.
  repeat match goal with H : bail_if _ _ = Ok _ |- _ => apply bail_if_ok in H end.
  repeat match goal with H : _ || _ = false |- _ => apply orb_false_iff in H as [? ?] end.
  repeat match goal with H : negb _ = false |- _ => apply negb_false_iff in H end.
  repeat match goal with H : bool_decide _ = true |- _ => apply bool_decide_eq_true in H end.
  by split_and!.
Qed.

Lemma fetch_bound state node signer generated_at contact g r g' :
  fetch_and_ingest_snapshot state node signer generated_at contact g = (r, g') →
  quiet g g' ∨
  ∃ t snapshot, fetch_signed_snapshot_via_iroh t contact node = Ok snapshot ∧
    cs_node_id (sc_payload snapshot) = node ∧ sc_signer_agent_did snapshot = signer ∧
    cs_generated_at (sc_payload snapshot) = generated_at ∧ snapshot_authentic snapshot (Some signer).
Proof.
  unfold fetch_and_ingest_snapshot. intros H.
  apply lift_first in H as [[-> _]|([] & _ & H)]; [by left|].
  apply (always_step quiet g) in H as [[? _]|(t & g1 & Hq & _ & H)]; [by left| |done|apply gtick_quiet].
  apply lift_first in H as [[-> _]|(snapshot & Hf & H)]; [by left|].
  apply lift_first in H as [[-> _]|([] & Hn & H)]; [by left|].
  apply lift_first in H as [[-> _]|([] & Hs & H)]; [by left|].
  apply lift_first in H as [[-> _]|([] & Hg & H)]; [by left|].
  apply bail_if_ok, negb_false_iff, bool_decide_eq_true in Hn, Hs, Hg. subst.
  apply (always_step quiet g) in H as [[? _]|(found & g2 & Hq2 & _ & H)];
    [by left| |done|apply gquery_quiet].
  apply M_bind_inv in H as [(e & H & _)|(b & g3 & H & [= _ <-])];
    apply snapshot_guarded in H as [H|H]; try (left; by etrans); right; eauto 8.
Qed.

(** C37: A snapshot that arrives by gossip is the announced one, from the gateway that
    announced it.  If handling a snapshot announcement stores, publishes or streams
    anything, then the contact it carries is a direct address of the very peer that is named
    as the announcer, the snapshot fetched there has the announced node, signer and time, and
    it carries a valid signature of that signer. *)
Theorem gossiped_snapshot_bound state admitted source payload peer node signer generated_at contact
    g r g' :
  message_from_slice payload = Some (SnapshotAnnounceV1 peer node signer generated_at contact) →
  handle_gossip state admitted source payload g = (r, g') →
  quiet g g' ∨
  (contact_peer_id contact = peer ∧ contact_endpoint_id contact = peer ∧
   contact_route_is_direct contact = true ∧
   ∃ t snapshot, fetch_signed_snapshot_via_iroh t contact node = Ok snapshot ∧
     cs_node_id (sc_payload snapshot) = node ∧ sc_signer_agent_did snapshot = signer ∧
     cs_generated_at (sc_payload snapshot) = generated_at ∧
     snapshot_authentic snapshot (Some signer)).
Proof.
  intros Hm H. unfold handle_gossip, gossip_before_admission in H. rewrite Hm in H.
  apply M_bind_inv in H as [(e & H & _)|(fetch & g1 & H & Hrest)].
  { left. apply lift_first in H as [[-> _]|([] & _ & H)]; [done|].
    revert H. apply always_run. pose proof snapshot_is_current_quiet. solve_always. }
  apply lift_first in H as [[-> (? & [=])]|([] & Hv & H)].
  assert (quiet g g1 ∧ (fetch = None ∨ fetch = Some (node, signer, generated_at, contact))) as [Hq Hf].
  { split.
    - revert H. apply always_run. pose proof snapshot_is_current_quiet. solve_always.
    - destruct (ap_gateway_network state && _); [cbv [mret M_ret] in H; simplify_eq; by left|].
      apply M_bind_ok in H as (current & g2 & _ & [= <- _]). destruct current; auto. }
  destruct Hf as [-> | ->]; [cbv [mret M_ret] in Hrest; simplify_eq; by left|].
  destruct admitted; [|cbv [mret M_ret] in Hrest; simplify_eq; by left]. unfold gossip_with_permits in Hrest.
  apply (always_step quiet g) in Hrest as [[? _]|(current & g2 & Hq2 & _ & Hrest)];
    [by left| |done|apply snapshot_is_current_quiet].
  destruct current; [cbv [mret M_ret] in Hrest; simplify_eq; by left|].
  apply fetch_bound in Hrest as [?|Hb]; [left; by transitivity g2|right].
  apply validate_announcement_ok in Hv as (? & ? & ?). by split_and!.
Qed.
End not_echoed.

(** ** Two gateways *)

Section samples.
Local Existing Instances json_impl_value ui_event_json_impl frozen_gw_host codec_impl hex_impl
  signatures_impl space_env_impl gw_net_impl.

Global Instance event_scope_eq_dec : EqDecision EventScope.
Proof. solve_decision. Defined.

(** The event that goes from one gateway to the other, and the snapshot. *)
Definition gossip_event : SignedNodeEvent := sample_event "e1" BoardActivity 1 JNull.

Definition event_fields (event : SignedNodeEvent) :=
  let p := sn_payload event in
  (ne_event_id p, ne_node_id p, ne_public_key p, ne_signer_agent_did p, ne_seq p, ne_timestamp p,
   ne_data_kind p, ne_event_kind p, ne_visibility p, ne_provisional_policy p, ne_scope p,
   ne_identity_key p, sn_signature event).

Definition is_gossip_event (event : SignedNodeEvent) : bool :=
  match ne_payload (sn_payload event) with
  | JNull => bool_decide (event_fields event = event_fields gossip_event)
  | _ => false
  end.

Lemma is_gossip_event_eq event : is_gossip_event event = true → event = gossip_event.
Proof.
  unfold is_gossip_event. destruct event as [[] ?]. unfold event_fields. cbn.
  case_match; try done. intros Heq%bool_decide_eq_true. by simplify_eq.
Qed.

Definition gossip_signer : string := "did:key:" +:+ node_key.

Definition gossip_snapshot : SignedPublicClientSnapshot := {|
  sc_payload := {|
    cs_generated_at := 5; cs_node_id := "node"; cs_agent_identity := None; cs_public_id := None;
    cs_public_key := dotted node_key; cs_network_name := None; cs_network_org_name := None;
    cs_network_status := JNull; cs_nodes := None; cs_peers := []; cs_operator := JNull;
    cs_rpc_logs := []; cs_public_blocks := []; cs_public_topics := [];
    cs_public_topic_messages := []; cs_public_board_messages := []; cs_space_presences := [];
    cs_node_presence := None; cs_world_events := []; cs_swarm_task_activity := JNull;
    cs_tasks := []; cs_organizations := []; cs_leaderboard := [] |};
  sc_signature := dotted (toy_sign node_key "node"); sc_signer_agent_did := gossip_signer |}.

(** A codec that can write these two. *)
Definition gossip_codec_impl : SpaceCodec := {|
  node_presence_from_value := decode_node_presence;
  node_presence_to_value presence := Ok (JString (np_node_id presence));
  space_presence_from_value v := Err "unknown record";
  space_presence_to_value presence := Ok (JString (pr_agent_did (ss_record presence)));
  world_event_from_value := decode_world_event;
  world_event_to_value := encode_world_event;
  announcement_from_value := decode_announcement;
  signed_event_to_value event :=
    if is_gossip_event event then Ok (JString "event") else Err "unknown event";
  UnsignedAnnouncement := string;
  unsigned_payload announcement := ea_announcement_id announcement;
  validate_activity activity := Ok () |}.

Definition gossip_records_impl : SignedRecords (SC:=gossip_codec_impl) := {|
  jcs_event payload := Some (ne_event_id payload);
  jcs_snapshot snapshot := Some (cs_node_id snapshot);
  jcs_presence record := Some (pr_agent_did record);
  jcs_announcement := (fun text : string => Some text) : Jcs (@UnsignedAnnouncement _ gossip_codec_impl) |}.

(** The contact of a gateway is its peer id. *)
Definition transport_impl : Transport := {|
  Contact := string; contact_transport c := "iroh_direct"; contact_peer_id c := c;
  contact_route_is_direct c := true; contact_endpoint c := Some c; contact_extra c := JNull;
  iroh_direct := "iroh_direct" |}.
Local Existing Instances gossip_codec_impl gossip_records_impl transport_impl.

Definition tagged (tag : string) : string :=
  "{" +:+ quoted "type" +:+ ":" +:+ quoted tag.

Definition sync_codec_impl : SyncCodec := {|
  message_to_vec message :=
    match message with
    | EventV1 peer event =>
        if is_gossip_event event then Ok (tagged "event_v1" +:+ peer) else Err "unknown event"
    | SnapshotAnnounceV1 peer node signer generated_at contact =>
        if bool_decide (node = "node" ∧ signer = gossip_signer ∧ generated_at = 5%Z ∧
                        (contact : string) = peer)
        then Ok (tagged "snapshot_announce_v1" +:+ peer) else Err "unknown snapshot"
    end;
  message_from_slice bytes :=
    match strip_prefix (tagged "event_v1") bytes with
    | Some peer => Some (EventV1 peer gossip_event)
    | None =>
        peer ← strip_prefix (tagged "snapshot_announce_v1") bytes;
        Some (SnapshotAnnounceV1 peer "node" gossip_signer 5 (peer : string))
    end;
  snapshot_payload_from_value v := Err "unknown payload";
  signed_event_from_value v :=
    match v with JString "event" => Ok gossip_event | _ => Err "unknown event" end;
  as_i64 v := match v with JNumber n => Some n | _ => None end |}.

Definition header_codec_impl : HeaderCodec := {|
  string_from_slice bytes := if bool_decide (bytes = quoted "type") then Ok "type" else Ok "";
  header_from_slice bytes := Err "missing field `type`";
  type_from_slice bytes :=
    if bool_decide (bytes = quoted "event_v1") then Ok EventV1Type
    else if bool_decide (bytes = quoted "snapshot_announce_v1") then Ok SnapshotAnnounceV1Type
    else Err "unknown variant" |}.
Local Existing Instances sync_codec_impl header_codec_impl.

Lemma message_laws_impl : MessageLaws.
Proof.
  split; try done.
  - intros [peer node signer generated_at contact|peer event] bytes; cbn [message_to_vec sync_codec_impl].
    + case_bool_decide; intros [= <-]. by exists peer.
    + case_match; intros [= <-]. by exists peer.
  - intros [peer node signer generated_at contact|peer event] bytes; cbn [message_to_vec sync_codec_impl].
    + case_bool_decide as H; intros [= <-]. destruct H as (-> & -> & -> & ->). done.
    + destruct (is_gossip_event event) eqn:He; intros [= <-]. apply is_gossip_event_eq in He as ->.
      change (match strip_prefix (tagged "event_v1") (tagged "event_v1" +:+ peer) with
              | Some p => Some (EventV1 p gossip_event)
              | None => p ← strip_prefix (tagged "snapshot_announce_v1") (tagged "event_v1" +:+ peer);
                        Some (SnapshotAnnounceV1 p "node" gossip_signer 5 (p : string))
              end = Some (EventV1 peer gossip_event)).
      by rewrite (proj2 (strip_prefix_Some (tagged "event_v1") _ peer) eq_refl).
Qed.

Lemma event_codec_laws_impl : EventCodecLaws.
Proof.
  split.
  - intros event value. cbn. destruct (is_gossip_event event) eqn:He; intros [= <-].
    by rewrite (is_gossip_event_eq _ He).
  - intros peer event value. cbn. destruct (is_gossip_event event); [by eexists|done].
Qed.
Local Existing Instances message_laws_impl event_codec_laws_impl.

Definition p2p_impl (peer : string) : P2p := {|
  local_peer_id := peer;
  export_transport_contact_material t now := Ok peer;
  publish_fault t := None;
  fetch_signed_snapshot_via_iroh t contact node := Ok gossip_snapshot;
  instant t := seconds (Z.of_nat t) |}.

Definition sync_world (g : GwWorld) : SyncWorld := {|
  sy_gw := g; sy_gossip := []; sy_cursor := None; sy_next_snapshot_reannounce := 0;
  sy_next_full_reconcile := 0; sy_next_outbox_poll := 0 |}.

(** Gateway [a] after it has accepted the event. *)
Definition pushed_world : GwWorld :=
  (ingest_node_event sample_app_state gossip_event (gw_world empty_gw_db)).2.

Lemma reception_never_panics_witness :
  let q := {| event_queue := []; snapshot_queue := []; event_queue_drops := 0;
              snapshot_queue_drops := 0 |} in
  ∃ q', receive_gossip "b" "{" q = Some q' ∧
    length (lane_queue Event q') <= GOSSIP_WORK_QUEUE_CAPACITY.
Proof.
  intros q. destruct (reception_never_panics "b" "{" q) as (q' & Hq & Hlen).
  - intros []; vm_compute; lia.
  - exists q'. split; [exact Hq|exact (Hlen Event)].
Defined.

Lemma pushed_outbox_wf : outbox_wf pushed_world.
Proof.
  assert (gd_outbox (g_db pushed_world) = {[1%Z := {| ob_id := 1; ob_dedupe_key := "event:e1";
    ob_command_kind := P2P_OUTBOX_COMMAND_EVENT; ob_payload := JString "event"; ob_attempts := 0;
    ob_claimed_until := None; ob_created_at := seconds 2 |}]}) as Ho.
  { vm_compute. reflexivity. }
  assert (g_outbox_seq pushed_world = 2%Z) as Hs by (vm_compute; reflexivity).
  split; rewrite Ho.
  - intros k row [<- <-]%lookup_singleton_Some. reflexivity.
  - intros k [row [<- _]%lookup_singleton_Some]. rewrite Hs. lia.
Qed.

Lemma drain_accounts_witness :
  let run := drain_p2p_outbox (PP:=p2p_impl "a") (sync_world pushed_world) in
  sy_gossip run.2 = [tagged "event_v1" +:+ "a"] ∧ sy_outbox run.2 !! 1%Z = None ∧
  ∃ sent, sy_gossip run.2 = [] ++ sent.
Proof.
  intros run. split; [vm_compute; reflexivity|]. split; [vm_compute; reflexivity|].
  destruct (drain_accounts (PP:=p2p_impl "a") (sync_world pushed_world) run.1 run.2)
    as (sent & Hs & _).
  - exact pushed_outbox_wf.
  - apply surjective_pairing.
  - exists sent. exact Hs.
Defined.

Lemma gossip_carries_event_witness :
  ∃ bytes, ∀ state admitted source g,
    handle_gossip (PP:=p2p_impl "b") state admitted source bytes g =
    (_ ← persist_signed_node_event_without_p2p_announce state gossip_event None None; mret ()) g.
Proof.
  assert (∃ row, sy_outbox (sync_world pushed_world) !! 1%Z = Some row ∧ announces row gossip_event ∧
    (ob_attempts row + 1 < P2P_OUTBOX_MAX_ATTEMPTS)%Z) as (row & Hrow & Hann & Hatt).
  { eexists. split; [vm_compute; reflexivity|]. split; [|vm_compute; reflexivity].
    eexists. split; [vm_compute; reflexivity|]. split; vm_compute; reflexivity. }
  destruct (gossip_carries_event (p2p_impl "a") (p2p_impl "b") gossip_event 1 row
    (sync_world pushed_world) _ _ ltac:(discriminate) pushed_outbox_wf Hrow Hann Hatt
    (surjective_pairing _)) as (sent & bytes & _ & _ & _ & Hb).
  - vm_compute. reflexivity.
  - exists bytes. exact Hb.
Defined.

Lemma gossip_not_echoed_witness :
  let bytes := tagged "event_v1" +:+ "a" in
  let g' := (handle_gossip (PP:=p2p_impl "b") sample_app_state true "a" bytes (gw_world empty_gw_db)).2 in
  (er_event_id <$> gd_ui_events (g_db g')) = ["e1"] ∧
  ∀ k row, gd_outbox (g_db g') !! k = Some row →
    ob_command_kind row = P2P_OUTBOX_COMMAND_EVENT → (∅ : gmap Z P2pOutboxRow) !! k = Some row.
Proof.
  intros bytes g'. split; [vm_compute; reflexivity|].
  destruct (gossip_not_echoed (PP:=p2p_impl "b") sample_app_state true "a" bytes
    (gw_world empty_gw_db) _ g' eq_refl (surjective_pairing _)) as [H _].
  exact H.
Defined.

Lemma gossiped_snapshot_bound_witness :
  let bytes := tagged "snapshot_announce_v1" +:+ "a" in
  let run := handle_gossip (PP:=p2p_impl "b") sample_app_state true "a" bytes (gw_world empty_gw_db) in
  is_Some (gd_snapshots (g_db run.2) !! "node") ∧
  (quiet (gw_world empty_gw_db) run.2 ∨ contact_peer_id "a" = "a").
Proof.
  intros bytes run. split; [vm_compute; eexists; reflexivity|].
  destruct (gossiped_snapshot_bound (PP:=p2p_impl "b") sample_app_state true "a" bytes "a" "node"
    gossip_signer 5 "a" (gw_world empty_gw_db) run.1 run.2) as [H|(H & _)].
  - vm_compute. reflexivity.
  - apply surjective_pairing.
  - left. exact H.
  - right. exact H.
Defined.
End samples.
