(* ===== verification/Reconcile.v ===== *)
(** * Every snapshot is announced again

    The periodic reconciliation of [GwSync] announcement_of all snapshots to the other gateways,
    a page at a time.  A pass that ends has announced every snapshot that was there
    throughout, whatever was ingested, removed or failed between its pages; and without
    failures a pass ends, after one page more than there are full pages. *)

From stdpp Require Import sorting.
From S2P Require Import Prelude Str External GwValue Contracts GwModels Verify Identity UiHub GwDb GwStore Normalize Space ReadModels Ingest GwSamples Progress Ingestion Trust Limiter GwSync Gossip.

(** ** Pages *)

Section pages.
Context `{SV : SerdeValue, PC : PgCollation, CL : !CollationLaws}.

(** Snapshots are stored under their node. *)
Definition snapshots_keyed (d : GwDb) : Prop :=
  ∀ node_id row, gd_snapshots d !! node_id = Some row → sr_node_id row = node_id.

Global Instance node_le_trans : Transitive node_le.
Proof. intros a b c. unfold node_le. apply collate_trans. Qed.
Global Instance node_le_total : Total node_le.
Proof. intros a b. unfold node_le. apply collate_total. Qed.

(** The rows after a node, in order. *)
Definition rows_after (d : GwDb) (node_id : string) : list SnapshotRow :=
  merge_sort node_le (filter (fun row => node_after node_id row = true) (visible_snapshots d)).

Lemma page_is_prefix d node_id :
  page_after_node_id d node_id SNAPSHOT_REANNOUNCE_BATCH_SIZE = take 256 (rows_after d node_id).
Proof. done. Qed.

Lemma rows_after_elem d node_id row :
  row ∈ rows_after d node_id ↔ node_after node_id row = true ∧ row ∈ visible_snapshots d.
Proof. unfold rows_after. by rewrite merge_sort_Permutation, list_elem_of_filter. Qed.

Lemma visible_inj d a b :
  snapshots_keyed d → a ∈ visible_snapshots d → b ∈ visible_snapshots d →
  sr_node_id a = sr_node_id b → a = b.
Proof.
  intros Hk. unfold visible_snapshots. rewrite !list_elem_of_filter, !list_elem_of_fmap.
  intros (_ & [i x] & -> & Hx%elem_of_map_to_list) (_ & [j y] & -> & Hy%elem_of_map_to_list). cbn.
  rewrite (Hk _ _ Hx), (Hk _ _ Hy). intros ->. congruence.
Qed.

Lemma visible_nodup d : snapshots_keyed d → NoDup (visible_snapshots d).
Proof.
  intros Hk. apply NoDup_filter, NoDup_fmap_2_strong; [|apply NoDup_map_to_list].
  intros [i x] [j y] Hx%elem_of_map_to_list Hy%elem_of_map_to_list [= <-]. cbn in *.
  by rewrite <- (Hk _ _ Hx), <- (Hk _ _ Hy).
Qed.

Lemma rows_after_sorted d node_id : StronglySorted node_le (rows_after d node_id).
Proof. apply (StronglySorted_merge_sort node_le). Qed.

Lemma rows_after_nodup d node_id : snapshots_keyed d → NoDup (rows_after d node_id).
Proof.
  intros Hk. unfold rows_after. rewrite merge_sort_Permutation. by apply NoDup_filter, visible_nodup.
Qed.

(** What is not on a page comes after its last row. *)
Lemma page_split d node_id row :
  snapshots_keyed d → row ∈ rows_after d node_id →
  row ∈ take 256 (rows_after d node_id) ∨
  ∃ final, last (take 256 (rows_after d node_id)) = Some final ∧
    node_after (sr_node_id final) row = true ∧ 256 <= length (take 256 (rows_after d node_id)).
Proof.
  intros Hk Hin. set (l := rows_after d node_id) in *.
  rewrite <- (take_drop 256 l) in Hin. apply elem_of_app in Hin as [Hin|Hin]; [by left|right].
  assert (256 < length l) as Hlen.
  { destruct (decide (256 < length l)) as [|Hge]; [done|]. rewrite drop_ge in Hin by lia.
    by apply elem_of_nil in Hin. }
  destruct (last (take 256 l)) as [final|] eqn:Hl.
  2:{ apply last_None in Hl. assert (length (take 256 l) = 0) as H0 by (by rewrite Hl).
      rewrite length_take in H0. lia. }
  exists final. split; [done|]. split; [|rewrite length_take; lia].
  assert (final ∈ take 256 l) as Hf by (by apply last_Some_elem_of).
  pose proof (rows_after_sorted d node_id) as Hs. fold l in Hs.
  rewrite <- (take_drop 256 l) in Hs.
  assert (text_leb (sr_node_id final) (sr_node_id row) = true) as Hle.
  { by eapply (StronglySorted_app_1_elem_of node_le). }
  unfold node_after. apply negb_true_iff. destruct (text_leb (sr_node_id row) (sr_node_id final)) eqn:Hr;
    [|done]. exfalso.
  pose proof (collate_antisym _ _ Hle Hr) as Heq.
  pose proof (rows_after_nodup d node_id Hk) as Hn. fold l in Hn. rewrite <- (take_drop 256 l) in Hn.
  apply NoDup_app in Hn as (_ & Hn & _). apply (Hn final Hf).
  replace final with row; [done|]. apply (visible_inj d); [done| | |done].
  - apply (rows_after_elem d node_id). fold l. rewrite <- (take_drop 256 l). apply elem_of_app. by right.
  - apply (rows_after_elem d node_id). fold l. rewrite <- (take_drop 256 l). apply elem_of_app. by left.
Qed.
End pages.

(** ** One call *)

Section calls.
Context `{UJ : UiEventJson, GH : GwHost, SC : !SpaceCodec, SI : Signatures, SR : !SignedRecords,
          HX : Hex, SE : SpaceEnv, CC : ContractCodec, GN : !GwNet,
          TR : !Transport, SY : !SyncCodec, PP : !P2p, PC : PgCollation, CL : !CollationLaws}.

Definition sy_db (w : SyncWorld) : GwDb := g_db (sy_gw w).

(** Only payloads were published. *)
Record publishes (w w' : SyncWorld) : Prop := {
  pb_db : sy_db w' = sy_db w;
  pb_cursor : sy_cursor w' = sy_cursor w;
  pb_gossip : sy_gossip w `prefix_of` sy_gossip w';
}.

Global Instance publishes_preorder : PreOrder publishes.
Proof.
  split; [by split|]. intros a b c [] []. split; [congruence|congruence|by etrans].
Qed.

Lemma gw_tick_publishes : always publishes (gw gtick).
Proof. by intros w. Qed.

Lemma gw_utc_publishes : always publishes (gw gutc).
Proof. by intros w. Qed.
#[local] Hint Resolve gw_tick_publishes gw_utc_publishes : gw_always.

Lemma gw_query_publishes {A} (f : Z -> GwDb -> A) : always publishes (gw (gquery f)).
Proof.
  intros w. unfold gw, zoom. destruct (gquery f (sy_gw w)) as [r g] eqn:H.
  apply gquery_run in H as [Hq _]. split; [apply (qu_db _ _ Hq)|done|done].
Qed.

Lemma gw_gossip {A} (m : G A) w r w' : gw m w = (r, w') → sy_gossip w' = sy_gossip w.
Proof. unfold gw, zoom. destruct (m (sy_gw w)). by intros [= <- <-]. Qed.

Lemma export_contact_gossip w contact w' :
  export_contact w = (Ok contact, w') → sy_gossip w' = sy_gossip w.
Proof.
  unfold export_contact. intros (now & w1 & H1%gw_gossip & H)%M_bind_ok.
  apply M_bind_ok in H as (t & w2 & H2%gw_gossip & H). apply lift_ok in H as [_ ->]. congruence.
Qed.

Lemma export_contact_publishes : always publishes export_contact.
Proof. unfold export_contact. solve_always. Qed.

Lemma publish_sync_summary_publishes payload : always publishes (publish_sync_summary payload).
Proof.
  unfold publish_sync_summary. apply always_bind; [apply _|solve_always|]. intros t.
  destruct (publish_fault t); [solve_always|]. apply always_modify. intros w.
  split; [done|done|by apply prefix_app_r].
Qed.
#[local] Hint Resolve export_contact_publishes publish_sync_summary_publishes : gw_always.

Lemma publish_snapshot_announcements_publishes rows :
  always publishes (publish_snapshot_announcements rows).
Proof. unfold publish_snapshot_announcements. solve_always. Qed.

(** A payload in [gossip] announcement_of the row. *)
Definition row_announced (gossip : list string) (row : SnapshotRow) : Prop :=
  ∃ contact bytes, message_to_vec (snapshot_message contact row) = Ok bytes ∧ bytes ∈ gossip.

Lemma row_announced_prefix gossip gossip' row :
  gossip `prefix_of` gossip' → row_announced gossip row → row_announced gossip' row.
Proof. intros [l ->] (c & b & ? & ?). exists c, b. rewrite elem_of_app. auto. Qed.

Lemma publish_sync_summary_ok payload w w' :
  publish_sync_summary payload w = (Ok (), w') → sy_gossip w' = sy_gossip w ++ [payload].
Proof.
  unfold publish_sync_summary, gw, zoom. cbv [gtick mbind M_bind modify throw]. cbn.
  by destruct (publish_fault _); intros [= <-].
Qed.

(** The payloads published are those that announce the rows, one for each, in order. *)
Definition announcement_of (row : SnapshotRow) (payload : string) : Prop :=
  ∃ contact, message_to_vec (snapshot_message contact row) = Ok payload.
Definition announced_in_order (rows : list SnapshotRow) (gossip gossip' : list string) : Prop :=
  ∃ payloads, gossip' = gossip ++ payloads ∧ Forall2 announcement_of rows payloads.

Lemma announced_in_order_app rows rows' g1 g2 g3 :
  announced_in_order rows g1 g2 → announced_in_order rows' g2 g3 →
  announced_in_order (rows ++ rows') g1 g3.
Proof.
  intros (p1 & -> & H1) (p2 & -> & H2). exists (p1 ++ p2). rewrite app_assoc.
  split; [done|by apply Forall2_app].
Qed.

Lemma announced_in_order_elem rows g g' row :
  announced_in_order rows g g' → row ∈ rows → row_announced g' row.
Proof.
  intros (ps & -> & H) [i Hi]%list_elem_of_lookup_1.
  destruct (Forall2_lookup_l _ _ _ _ _ H Hi) as (p & Hp%list_elem_of_lookup_2 & [contact Hc]).
  exists contact, p. rewrite elem_of_app. auto.
Qed.

Lemma publish_rows_announced contact rows w w' :
  for_each rows (fun row =>
    payload ← lift (message_to_vec (snapshot_message contact row));
    publish_sync_summary payload) w = (Ok (), w') →
  announced_in_order rows (sy_gossip w) (sy_gossip w').
Proof.
  revert w. induction rows as [|row rows IH]; intros w H.
  { injection H as <-. exists []. by rewrite app_nil_r. }
  cbn in H. apply M_bind_ok in H as ([] & w1 & H1 & H2).
  apply (announced_in_order_app [row] _ _ (sy_gossip w1)); [|by apply IH].
  apply M_bind_ok in H1 as (bytes & w2 & Hb & Hp). apply lift_ok in Hb as [Hb ->].
  apply publish_sync_summary_ok in Hp. exists [bytes]. split; [done|].
  constructor; [by exists contact|constructor].
Qed.

Lemma announcements_ok rows w w' :
  publish_snapshot_announcements rows w = (Ok (), w') →
  announced_in_order rows (sy_gossip w) (sy_gossip w').
Proof.
  unfold publish_snapshot_announcements. case_bool_decide as Hnil.
  - intros [= <-]. rewrite Hnil. exists []. by rewrite app_nil_r.
  - intros (contact & w1 & Hc & H)%M_bind_ok. apply publish_rows_announced in H.
    by rewrite (export_contact_gossip _ _ _ Hc) in H.
Qed.

(** Where a call of the full reconciliation starts. *)
Definition position (flag : bool) (w : SyncWorld) : option string :=
  match sy_cursor w with
  | Some (Full _ node_id) => Some node_id
  | _ => if flag then Some "" else None
  end.

(** What a call that starts at [node_id] leaves. *)
Record page_call (node_id : string) (w : SyncWorld) (r : result string bool) (w' : SyncWorld) : Prop := {
  pc_db : sy_db w' = sy_db w;
  pc_gossip : sy_gossip w `prefix_of` sy_gossip w';
  pc_failed e : r = Err e → ∃ started_at, sy_cursor w' = Some (Full started_at node_id);
  pc_announced more : r = Ok more →
    announced_in_order (take 256 (rows_after (sy_db w) node_id)) (sy_gossip w) (sy_gossip w');
  pc_more : r = Ok true → ∃ started_at final, last (take 256 (rows_after (sy_db w) node_id)) = Some final ∧
    sy_cursor w' = Some (Full started_at (sr_node_id final));
  pc_last : r = Ok false → length (take 256 (rows_after (sy_db w) node_id)) < 256 ∧
    ∃ started_at, sy_cursor w' = Some (Incremental started_at "");
}.

Lemma full_page_length (rows : list SnapshotRow) : full_page rows = (256 <=? length rows).
Proof.
  unfold full_page, SNAPSHOT_REANNOUNCE_BATCH_SIZE, count_rows.
  destruct (Nat.leb_spec 256 (length rows)); [apply Z.leb_le|apply Z.leb_gt]; lia.
Qed.

Lemma page_failed started_at node_id w e w' :
  sy_cursor w = Some (Full started_at node_id) → publishes w w' → page_call node_id w (Err e) w'.
Proof. intros Hc [Hd Hcu Hg]. split; try done. intros ? _. exists started_at. congruence. Qed.

Lemma page_rows node_id w rows w' :
  gw (list_visible_snapshots_after_node_id node_id SNAPSHOT_REANNOUNCE_BATCH_SIZE) w = (Ok rows, w') →
  rows = take 256 (rows_after (sy_db w) node_id).
Proof.
  unfold gw, zoom. destruct (list_visible_snapshots_after_node_id _ _ (sy_gw w)) as [q g] eqn:Hq.
  intros [= -> _]. apply gquery_run in Hq as [_ [[e [=]]|[now [= ->]]]]. apply page_is_prefix.
Qed.

Lemma page_step started_at node_id w r w' :
  sy_cursor w = Some (Full started_at node_id) →
  (snapshots ← gw (list_visible_snapshots_after_node_id node_id SNAPSHOT_REANNOUNCE_BATCH_SIZE);
   _ ← publish_snapshot_announcements snapshots;
   _ ← modify (set_cursor (next_full_reconcile_cursor started_at (sr_node_id <$> last snapshots)
         (full_page snapshots)));
   mret (full_page snapshots)) w = (r, w') →
  page_call node_id w r w'.
Proof.
  intros Hc H. apply M_bind_inv in H as [(e & H1 & ->)|(rows & w1 & H1 & H)].
  { apply (page_failed started_at); [done|]. by eapply always_run, H1; apply gw_query_publishes. }
  pose proof (always_run publishes _ _ _ _ (gw_query_publishes _) H1) as Hp1.
  pose proof (page_rows _ _ _ _ H1) as Hrows.
  apply M_bind_inv in H as [(e & H2 & ->)|([] & w2 & H2 & H)].
  { apply (page_failed started_at); [done|]. etrans; [exact Hp1|].
    by eapply always_run, H2; apply publish_snapshot_announcements_publishes. }
  pose proof (announcements_ok _ _ _ H2) as Hann. rewrite Hrows in Hann.
  rewrite (gw_gossip _ _ _ _ H1) in Hann.
  apply (always_run publishes) in H2; [|apply publish_snapshot_announcements_publishes].
  assert (publishes w w2) as [Hd2 Hc2 Hg2] by (by etrans).
  cbv [mbind M_bind modify mret M_ret] in H. cbn in H. injection H as <- <-.
  rewrite Hrows, full_page_length.
  destruct (Nat.leb_spec 256 (length (take 256 (rows_after (sy_db w) node_id)))) as [Hm|Hm];
    (split; [done|done|done|by intros ? _|..]); [intros _|done..|intros _].
  - exists started_at.
    destruct (last (take 256 (rows_after (sy_db w) node_id))) as [final|] eqn:Hl; [by exists final|].
    apply last_None in Hl. rewrite Hl in Hm. cbn in Hm. lia.
  - split; [done|]. by exists started_at.
Qed.

Lemma page_call_from node_id w w1 r w' :
  sy_db w1 = sy_db w → sy_gossip w1 = sy_gossip w → page_call node_id w1 r w' → page_call node_id w r w'.
Proof. intros Hd Hg []. rewrite Hd, Hg in *. by split. Qed.

(** The call begins a pass when it has to, and goes on where the last one stopped. *)
Lemma reannounce_start flag node_id w :
  position flag w = Some node_id →
  ∃ started_at w1, whenM (flag && negb (is_full (sy_cursor w))) (
      started_at ← gw gutc; modify (set_cursor (Full started_at ""))) w = (Ok (), w1) ∧
    sy_cursor w1 = Some (Full started_at node_id) ∧ sy_db w1 = sy_db w ∧ sy_gossip w1 = sy_gossip w.
Proof.
  unfold position, is_full. destruct (sy_cursor w) as [[t id|t id]|] eqn:Hc.
  - intros [= <-]. rewrite andb_false_r. by exists t, w.
  - destruct flag; intros [= <-]. by eexists _, _.
  - destruct flag; intros [= <-]. by eexists _, _.
Qed.

Lemma reannounce_page flag node_id w r w' :
  position flag w = Some node_id → reannounce_local_snapshots flag w = (r, w') →
  page_call node_id w r w'.
Proof.
  intros (started_at & w1 & Hw & Hc & Hd & Hg)%reannounce_start H.
  apply (page_call_from _ _ w1); [done..|]. apply (page_step started_at); [done|]. rewrite <- H.
  symmetry. unfold reannounce_local_snapshots.
  rewrite (M_bind_run _ _ w (sy_cursor w) w) by done. rewrite (M_bind_run _ _ _ _ _ Hw).
  rewrite (M_bind_run _ _ w1 (sy_cursor w1) w1) by done. by rewrite Hc.
Qed.

(** ** A pass *)

(** Between two calls the cursor stays, and what was published stays published; anything
    may happen to the database. *)
Record meanwhile (w w' : SyncWorld) : Prop := {
  mw_cursor : sy_cursor w' = sy_cursor w;
  mw_gossip : sy_gossip w `prefix_of` sy_gossip w';
}.

(** The calls up to the one that reports the end of the pass, with the database each of them
    was made on.  A call that fails is made again. *)
Inductive full_pass : bool -> SyncWorld -> list GwDb -> SyncWorld -> Prop :=
| pass_end flag w w' :
    reannounce_local_snapshots flag w = (Ok false, w') → full_pass flag w [sy_db w] w'
| pass_page flag w w1 w2 flag' dbs w' :
    reannounce_local_snapshots flag w = (Ok true, w1) → meanwhile w1 w2 →
    full_pass flag' w2 dbs w' → full_pass flag w (sy_db w :: dbs) w'
| pass_retry flag w e w1 w2 flag' dbs w' :
    reannounce_local_snapshots flag w = (Err e, w1) → meanwhile w1 w2 →
    full_pass flag' w2 dbs w' → full_pass flag w (sy_db w :: dbs) w'.

(** The node has a visible snapshot in the database. *)
Definition serves (node_id : string) (d : GwDb) : Prop :=
  ∃ row, row ∈ visible_snapshots d ∧ sr_node_id row = node_id.

(** A payload announcement_of a snapshot of the node that one of the databases held. *)
Definition node_announced (dbs : list GwDb) (gossip : list string) (node_id : string) : Prop :=
  ∃ d row, d ∈ dbs ∧ row ∈ visible_snapshots d ∧ sr_node_id row = node_id ∧ row_announced gossip row.

Lemma node_announced_later d dbs gossip node_id :
  node_announced dbs gossip node_id → node_announced (d :: dbs) gossip node_id.
Proof. intros (d' & row & Hd & ?). exists d', row. rewrite elem_of_cons. eauto. Qed.

(** Where the call after an unfinished one starts. *)
Lemma position_kept flag w w' t node_id :
  sy_cursor w = Some (Full t node_id) → meanwhile w w' → position flag w' = Some node_id.
Proof. intros Hc [Hm _]. unfold position. by rewrite Hm, Hc. Qed.

Lemma pass_gossip flag w dbs w' start :
  position flag w = Some start → full_pass flag w dbs w' → sy_gossip w `prefix_of` sy_gossip w'.
Proof.
  intros Hp Hpass. revert start Hp.
  induction Hpass as [flag w w' H|flag w w1 w2 flag' dbs w' H Hm _ IH
    |flag w e w1 w2 flag' dbs w' H Hm _ IH]; intros start Hp;
    apply (reannounce_page flag start) in H; try done.
  - apply (pc_gossip _ _ _ _ H).
  - destruct (pc_more _ _ _ _ H eq_refl) as (t & final & _ & Hc).
    etrans; [apply (pc_gossip _ _ _ _ H)|]. etrans; [apply (mw_gossip _ _ Hm)|].
    eapply IH, position_kept; done.
  - destruct (pc_failed _ _ _ _ H e eq_refl) as [t Hc].
    etrans; [apply (pc_gossip _ _ _ _ H)|]. etrans; [apply (mw_gossip _ _ Hm)|].
    eapply IH, position_kept; done.
Qed.

Lemma page_announces start w more w' gossip row :
  page_call start w (Ok more) w' → sy_gossip w' `prefix_of` gossip →
  row ∈ visible_snapshots (sy_db w) → row ∈ take 256 (rows_after (sy_db w) start) →
  node_announced [sy_db w] gossip (sr_node_id row).
Proof.
  intros H Hg Hv Hin. exists (sy_db w), row. split; [by left|]. split; [done|]. split; [done|].
  eapply row_announced_prefix; [exact Hg|]. by eapply announced_in_order_elem, Hin; apply (pc_announced _ _ _ _ H more).
Qed.

Lemma pass_covers flag w dbs w' start node_id :
  position flag w = Some start → full_pass flag w dbs w' → Forall snapshots_keyed dbs →
  text_leb node_id start = false → Forall (serves node_id) dbs →
  node_announced dbs (sy_gossip w') node_id.
Proof.
  intros Hp Hpass. revert start Hp.
  induction Hpass as [flag w w' H|flag w w1 w2 flag' dbs w' H Hm Hpass IH
    |flag w e w1 w2 flag' dbs w' H Hm _ IH]; intros start Hp [Hk Hks]%Forall_cons Hlt
    [(row & Hv & Hid) Hss]%Forall_cons; apply (reannounce_page flag start) in H; try done.
  - assert (row ∈ rows_after (sy_db w) start) as Hin.
    { apply rows_after_elem. split; [|done]. unfold node_after. by rewrite Hid, Hlt. }
    destruct (pc_last _ _ _ _ H eq_refl) as [Hlen _].
    apply page_split in Hin as [Hin|(? & _ & _ & ?)]; [|lia|done]. rewrite <- Hid.
    by eapply page_announces.
  - destruct (pc_more _ _ _ _ H eq_refl) as (t & final & Hf & Hc).
    assert (position flag' w2 = Some (sr_node_id final)) as Hp2 by (by eapply position_kept).
    assert (row ∈ rows_after (sy_db w) start) as Hin.
    { apply rows_after_elem. split; [|done]. unfold node_after. by rewrite Hid, Hlt. }
    apply page_split in Hin as [Hin|(final' & Hf' & Hafter & _)]; [| |done].
    + rewrite <- Hid. destruct (page_announces start w true w1 (sy_gossip w') row H) as (d & r & Hd & Hr);
        [|done|done|exists d, r; split; [|done]; apply list_elem_of_singleton in Hd as ->; by left].
      etrans; [apply (mw_gossip _ _ Hm)|by eapply pass_gossip].
    + apply node_announced_later, (IH _ Hp2); [done| |done].
      unfold node_after in Hafter. rewrite Hid in Hafter. simplify_eq. by apply negb_true_iff.
  - destruct (pc_failed _ _ _ _ H e eq_refl) as [t Hc].
    apply node_announced_later, (IH start); [by eapply position_kept|done..].
Qed.

(** C16: a full reconciliation announcement_of everything.  From the call that begins it to the call
    that reports its end, with calls that fail and are repeated, and with any change of the
    database between the calls, every node that has a visible snapshot throughout is announced
    to the other gateways with a snapshot the database held. *)
Theorem full_reconcile_covers w dbs w' :
  is_full (sy_cursor w) = false → full_pass true w dbs w' → Forall snapshots_keyed dbs →
  ∀ node_id, node_id ≠ "" → Forall (serves node_id) dbs → node_announced dbs (sy_gossip w') node_id.
Proof.
  intros Hc Hpass Hk node_id Hne Hs.
  apply (pass_covers true w dbs w' ""); [|done..| |done].
  - unfold position. destruct (sy_cursor w) as [[]|]; done.
  - destruct (text_leb node_id "") eqn:Hcol; [|done].
    by pose proof (collate_antisym _ _ Hcol (collate_empty node_id)).
Qed.

(** ** The end of a pass *)

(** The calls of a pass one after the other, at most [fuel] of them: whether it ended. *)
Fixpoint full_reconcile (fuel : nat) : Y bool :=
  match fuel with
  | O => mret false
  | S fuel =>
      has_more ← reannounce_local_snapshots true;
      if has_more : bool then full_reconcile fuel else mret true
  end.

Lemma page_below_last d node_id final row :
  last (take 256 (rows_after d node_id)) = Some final → row ∈ take 256 (rows_after d node_id) →
  text_leb (sr_node_id row) (sr_node_id final) = true.
Proof.
  intros [l Hl]%last_Some Hin. pose proof (rows_after_sorted d node_id) as Hs.
  rewrite <- (take_drop 256 (rows_after d node_id)) in Hs. apply StronglySorted_app_1_l in Hs.
  rewrite Hl in Hs, Hin. apply elem_of_app in Hin as [Hin| ->%list_elem_of_singleton].
  - eapply (StronglySorted_app_1_elem_of node_le); [exact Hs|done|by left].
  - destruct (collate_total (sr_node_id final) (sr_node_id final)); done.
Qed.

Lemma after_trans start final row :
  text_leb start final = true → node_after final row = true → node_after start row = true.
Proof.
  unfold node_after. rewrite !negb_true_iff. intros Hle Hf.
  destruct (text_leb (sr_node_id row) start) eqn:Hr; [|done].
  by rewrite (collate_trans _ _ _ Hr Hle) in Hf.
Qed.

(** The next page begins with the row after this one. *)
Lemma rows_after_last d node_id final :
  snapshots_keyed d → last (take 256 (rows_after d node_id)) = Some final →
  rows_after d (sr_node_id final) ≡ₚ drop 256 (rows_after d node_id).
Proof.
  intros Hk Hf. apply NoDup_Permutation; [by apply rows_after_nodup| |].
  { eapply sublist_NoDup; [by apply rows_after_nodup|apply sublist_drop]. }
  assert (final ∈ rows_after d node_id) as Hfin.
  { apply last_Some_elem_of in Hf. by eapply elem_of_take in Hf as (? & ?%list_elem_of_lookup_2 & _). }
  intros row. rewrite rows_after_elem. split.
  - intros [Ha Hv]. assert (row ∈ rows_after d node_id) as Hin.
    { apply rows_after_elem. split; [|done]. eapply after_trans, Ha.
      apply rows_after_elem in Hfin as [Hn _]. unfold node_after in Hn. apply negb_true_iff in Hn.
      destruct (collate_total node_id (sr_node_id final)) as [?|Hr]; [done|by rewrite Hr in Hn]. }
    rewrite <- (take_drop 256 (rows_after d node_id)) in Hin.
    apply elem_of_app in Hin as [Hin|]; [|done].
    apply (page_below_last _ _ _ _ Hf) in Hin. unfold node_after in Ha. by rewrite Hin in Ha.
  - intros Hin. assert (row ∈ rows_after d node_id) as Hall.
    { rewrite <- (take_drop 256 (rows_after d node_id)). apply elem_of_app. by right. }
    split; [|by apply rows_after_elem in Hall as [_ ?]].
    apply page_split in Hall as [Hall|(final' & Hf' & Ha & _)]; [|by simplify_eq|done].
    exfalso. pose proof (rows_after_nodup d node_id Hk) as Hn.
    rewrite <- (take_drop 256 (rows_after d node_id)) in Hn. apply NoDup_app in Hn as (_ & Hn & _).
    by apply (Hn row).
Qed.

(** Nothing fails: the database answers, the transport publishes and knows the contact, and
    the announcements of the snapshots of [d] can be written down. *)
Record faultless (d : GwDb) : Prop := {
  fl_statement t : gw_fault t = None;
  fl_publish t : publish_fault t = None;
  fl_contact t now : ∃ contact, export_transport_contact_material t now = Ok contact;
  fl_encode t now contact row :
    export_transport_contact_material t now = Ok contact → row ∈ visible_snapshots d →
    ∃ bytes, message_to_vec (snapshot_message contact row) = Ok bytes;
}.

Lemma publish_sync_summary_succeeds payload w :
  (∀ t, publish_fault t = None) →
  ∃ w', publish_sync_summary payload w = (Ok (), w').
Proof.
  intros Hf. unfold publish_sync_summary. cbv [mbind M_bind]. cbn. rewrite Hf. by eexists.
Qed.

Lemma publish_rows_succeed contact rows w :
  (∀ t, publish_fault t = None) →
  (∀ row, row ∈ rows → ∃ bytes, message_to_vec (snapshot_message contact row) = Ok bytes) →
  ∃ w', for_each rows (fun row =>
      payload ← lift (message_to_vec (snapshot_message contact row));
      publish_sync_summary payload) w = (Ok (), w').
Proof.
  intros Hf. revert w. induction rows as [|row rows IH]; intros w He; [by exists w|].
  destruct (He row) as [bytes Hb]; [by left|].
  destruct (publish_sync_summary_succeeds bytes w Hf) as (w1 & H1).
  destruct (IH w1) as (w2 & H2); [intros; apply He; by right|].
  exists w2. cbn [for_each].
  rewrite (M_bind_run _ _ w () w1); [exact H2|].
  apply M_bind_ok. exists bytes, w. split; [by apply lift_ok|done].
Qed.

Lemma export_contact_succeeds d w :
  faultless d → ∃ contact w' t now, export_contact w = (Ok contact, w') ∧
    export_transport_contact_material t now = Ok contact.
Proof.
  intros Hf. unfold export_contact. cbv [gw zoom gutc gtick mbind M_bind mret M_ret lift]. cbn.
  edestruct (fl_contact _ Hf) as [contact Hc]. rewrite Hc. by eexists _, _, _, _.
Qed.

Lemma announcements_succeed d rows w :
  faultless d → (∀ row, row ∈ rows → row ∈ visible_snapshots d) →
  ∃ w', publish_snapshot_announcements rows w = (Ok (), w').
Proof.
  intros Hf Hin. unfold publish_snapshot_announcements. case_bool_decide as Hnil; [by exists w|].
  destruct (export_contact_succeeds d w Hf) as (contact & w1 & t & now & Hc & Ht).
  rewrite (M_bind_run _ _ _ _ _ Hc). apply publish_rows_succeed; [apply (fl_publish _ Hf)|].
  intros row Hrow. eapply fl_encode; [done..|]. by apply Hin.
Qed.

Lemma page_succeeds start w :
  faultless (sy_db w) → position true w = Some start →
  ∃ w', reannounce_local_snapshots true w = (Ok (256 <=? length (rows_after (sy_db w) start)), w').
Proof.
  intros Hf (started_at & w1 & Hw & Hc & Hd & Hg)%reannounce_start.
  unfold reannounce_local_snapshots. rewrite (M_bind_run _ _ w (sy_cursor w) w) by done.
  rewrite (M_bind_run _ _ _ _ _ Hw). rewrite (M_bind_run _ _ w1 (sy_cursor w1) w1) by done. rewrite Hc.
  set (page := take 256 (rows_after (sy_db w) start)).
  assert (∃ w2, gw (list_visible_snapshots_after_node_id start SNAPSHOT_REANNOUNCE_BATCH_SIZE) w1
    = (Ok page, w2)) as [w2 H2].
  { unfold gw, zoom, list_visible_snapshots_after_node_id, gquery, gstatement.
    cbv [gtick mbind M_bind mret M_ret gets]. cbn [fst snd]. rewrite (fl_statement _ Hf).
    cbn beta iota. unfold sy_db in Hd. unfold page, sy_db. rewrite <- Hd, <- page_is_prefix. by eexists. }
  rewrite (M_bind_run _ _ _ _ _ H2).
  destruct (announcements_succeed (sy_db w) page w2 Hf) as (w3 & H3).
  { intros row Hrow. unfold page in Hrow. apply elem_of_take in Hrow as (i & Hi & _).
    by apply list_elem_of_lookup_2, rows_after_elem in Hi as [_ ?]. }
  assert (length page = Nat.min 256 (length (rows_after (sy_db w) start))) as Hlen by apply length_take.
  assert (full_page page = (256 <=? length (rows_after (sy_db w) start))) as ->.
  { rewrite full_page_length, Hlen. apply eq_bool_prop_intro. rewrite !Is_true_true, !Nat.leb_le. lia. }
  rewrite (M_bind_run _ _ _ _ _ H3). by eexists.
Qed.

(** How far [fuel] calls get, and what they have published when the pass has ended. *)
Lemma full_reconcile_progress fuel : ∀ start w,
  faultless (sy_db w) → snapshots_keyed (sy_db w) → position true w = Some start →
  let n := length (rows_after (sy_db w) start) in
  ∃ w', full_reconcile fuel w = (Ok (n <? 256 * fuel), w') ∧ sy_db w' = sy_db w ∧
    (n < 256 * fuel → ∃ rows, rows ≡ₚ rows_after (sy_db w) start ∧
       announced_in_order rows (sy_gossip w) (sy_gossip w')).
Proof.
  induction fuel as [|fuel IH]; intros start w Hf Hk Hp n.
  { exists w. split; [|split; [done|lia]]. cbn [full_reconcile]. unfold mret, M_ret. do 2 f_equal. }
  destruct (page_succeeds start w Hf Hp) as (w1 & H1).
  pose proof (reannounce_page _ _ _ _ _ Hp H1) as Hpage. pose proof (pc_db _ _ _ _ Hpage) as Hd.
  pose proof (pc_announced _ _ _ _ Hpage _ eq_refl) as Hann.
  cbn [full_reconcile]. rewrite (M_bind_run _ _ _ _ _ H1). fold n.
  destruct (Nat.leb_spec 256 n) as [Hle|Hlt]; unfold n in *; cbn iota.
  - destruct (pc_more _ _ _ _ Hpage) as (t & final & Hlast & Hc);
      [by rewrite (proj2 (Nat.leb_le _ _) Hle)|].
    pose proof (rows_after_last _ _ _ Hk Hlast) as Hperm.
    pose proof (Permutation_length Hperm) as Hlen. rewrite length_drop in Hlen.
    destruct (IH (sr_node_id final) w1) as (w' & H & Hd' & Hl'); [by rewrite Hd..| |].
    { unfold position. by rewrite Hc. }
    rewrite Hd, Hlen in *. exists w'. rewrite H. split; [|split; [congruence|]].
    { do 2 f_equal. apply eq_bool_prop_intro. rewrite !Is_true_true, !Nat.ltb_lt. lia. }
    intros Hfuel. destruct Hl' as (rows & Hrows & Hin); [lia|].
    exists (take 256 (rows_after (sy_db w) start) ++ rows). split; [|by eapply announced_in_order_app].
    by rewrite Hrows, Hperm, take_drop.
  - exists w1. split; [|split; [done|]].
    + unfold mret, M_ret. do 2 f_equal. symmetry. apply Nat.ltb_lt. lia.
    + intros _. exists (rows_after (sy_db w) start). split; [done|].
      by rewrite take_ge in Hann by lia.
Qed.

(** C17: a full reconciliation ends.  When nothing fails and the database stays, the pass over
    [n] snapshots takes exactly [n / 256 + 1] calls: that many report the end of the pass, one
    less does not.  The payloads published by then are one announcement for each visible
    snapshot the pass had before it, no snapshot twice and nothing else. *)
Theorem full_reconcile_terminates w start :
  faultless (sy_db w) → snapshots_keyed (sy_db w) → position true w = Some start →
  let n := length (rows_after (sy_db w) start) in
  (∃ w' rows, full_reconcile (n / 256 + 1) w = (Ok true, w') ∧ sy_db w' = sy_db w ∧
     announced_in_order rows (sy_gossip w) (sy_gossip w') ∧ NoDup rows ∧ length rows = n ∧
     ∀ row, row ∈ rows ↔ row ∈ visible_snapshots (sy_db w) ∧ node_after start row = true) ∧
  ∃ w', full_reconcile (n / 256) w = (Ok false, w').
Proof.
  intros Hf Hk Hp n. pose proof (Nat.div_mod_eq n 256). pose proof (Nat.mod_upper_bound n 256).
  split.
  - destruct (full_reconcile_progress (n / 256 + 1) start w Hf Hk Hp) as (w' & H' & Hd & Hl).
    fold n in H', Hl. destruct Hl as (rows & Hrows & Hann); [lia|]. exists w', rows.
    rewrite (proj2 (Nat.ltb_lt _ _)) in H' by lia. split_and!; try done.
    + rewrite Hrows. by apply rows_after_nodup.
    + by rewrite Hrows.
    + intros row. rewrite Hrows, rows_after_elem. tauto.
  - destruct (full_reconcile_progress (n / 256) start w Hf Hk Hp) as (w' & H' & _).
    fold n in H'. exists w'. by rewrite (proj2 (Nat.ltb_ge _ _)) in H' by lia.
Qed.
End calls.

(** ** A pass over one snapshot *)

Section samples.
Local Existing Instances json_impl_value ui_event_json_impl frozen_gw_host gossip_codec_impl hex_impl
  signatures_impl gossip_records_impl space_env_impl gw_net_impl transport_impl sync_codec_impl.

Definition byte_order : PgCollation := {| text_leb := String.leb |}.
Local Existing Instance byte_order.

Lemma leb_trans a : ∀ b c, String.leb a b = true → String.leb b c = true → String.leb a c = true.
Proof.
  induction a as [|x a IH]; intros [|y b] [|z c]; try done.
  unfold String.leb. cbn [String.compare]. unfold Ascii.compare.
  destruct (N.compare_spec (N_of_ascii x) (N_of_ascii y)) as [Hxy|Hxy|Hxy],
    (N.compare_spec (N_of_ascii y) (N_of_ascii z)) as [Hyz|Hyz|Hyz],
    (N.compare_spec (N_of_ascii x) (N_of_ascii z)) as [Hxz|Hxz|Hxz]; try done; try lia.
  apply (IH b c).
Qed.

Lemma byte_order_laws : CollationLaws.
Proof.
  split; cbn [text_leb byte_order].
  - intros a b. destruct (String.leb_total a b); auto.
  - intros a b. apply String.leb_antisym.
  - intros a b c. apply leb_trans.
  - by intros [].
Qed.
Local Existing Instance byte_order_laws.

Definition snapshot_row : SnapshotRow := {|
  sr_source_id := None; sr_node_id := "node"; sr_signer_agent_did := gossip_signer;
  sr_public_key := dotted node_key; sr_generated_at := 5000000; sr_ingested_at := 6000000;
  sr_payload := JNull; sr_signature := dotted (toy_sign node_key "node") |}.

Definition one_snapshot : SyncWorld :=
  sync_world (gw_world (on_snapshots <["node" := snapshot_row]> empty_gw_db)).

Lemma one_snapshot_keyed : snapshots_keyed (sy_db one_snapshot).
Proof.
  intros node_id row. cbn. intros [[<- <-]|[_ ?]]%lookup_insert_Some; done.
Qed.

Lemma one_snapshot_visible : visible_snapshots (sy_db one_snapshot) = [snapshot_row].
Proof. vm_compute. reflexivity. Qed.

Lemma full_reconcile_covers_witness :
  let run := reannounce_local_snapshots (PP:=p2p_impl "a") true one_snapshot in
  node_announced (SY:=sync_codec_impl) (PP:=p2p_impl "a") [sy_db one_snapshot] (sy_gossip run.2) "node".
Proof.
  intros run.
  apply (full_reconcile_covers (PP:=p2p_impl "a") one_snapshot [sy_db one_snapshot] run.2).
  - reflexivity.
  - constructor. refine (M_run_ok _ _ _ _). vm_compute. reflexivity.
  - constructor; [exact one_snapshot_keyed|constructor].
  - discriminate.
  - constructor; [|constructor]. exists snapshot_row. split; [|reflexivity].
    rewrite one_snapshot_visible. left.
Defined.

Lemma one_snapshot_faultless : faultless (PP:=p2p_impl "a") (sy_db one_snapshot).
Proof.
  split; [done..|intros t now; by exists "a"|].
  intros t now contact row [= <-]. rewrite one_snapshot_visible. intros ->%list_elem_of_singleton.
  by eexists.
Qed.

Lemma full_reconcile_terminates_witness :
  let run := full_reconcile (PP:=p2p_impl "a") 1 one_snapshot in
  run.1 = Ok true ∧ ∃ w' rows, full_reconcile (PP:=p2p_impl "a") 1 one_snapshot = (Ok true, w') ∧
    announced_in_order (PP:=p2p_impl "a") rows (sy_gossip one_snapshot) (sy_gossip w') ∧
    length rows = 1.
Proof.
  intros run. split; [vm_compute; reflexivity|].
  destruct (full_reconcile_terminates (PP:=p2p_impl "a") one_snapshot "" one_snapshot_faultless
    one_snapshot_keyed eq_refl) as [(w' & rows & H & _ & Ha & _ & Hl & _) _].
  assert (length (rows_after (sy_db one_snapshot) "") = 1) as Hn by (vm_compute; reflexivity).
  rewrite Hn in H, Hl. exists w', rows. split; [exact H|]. split; [exact Ha|exact Hl].
Defined.
End samples.
