(* ===== verification/PublicApi.v ===== *)
(** * The public interface of the gateway

    Models [crates/gateway/src/public_api.rs]: the views of peers, nodes, hives, boards,
    missions and rankings, which a gateway computes from its own projections and snapshots
    and from what the gateways it federates with answer.  The answers of the other gateways
    are arbitrary JSON.  Number and date parsing, URLs and the HTTP client are an
    interface. *)

From stdpp Require Import sorting.
From S2P Require Import Prelude Str External GwValue Contracts GwModels Verify Identity NetworkNode UiHub GwDb GwStore Normalize Space ReadModels Ingest Registry.

(** ** Lists *)

(** [iter().find_map(f)] *)
Fixpoint find_map {A B} (f : A -> option B) (l : list A) : option B :=
  match l with
  | [] => None
  | a :: l => match f a with Some b => Some b | None => find_map f l end
  end.

(** [sort_by_key(|a| Reverse(key(a)))], which is stable. *)
Fixpoint insert_desc {A} (key : A -> Z) (a : A) (l : list A) : list A :=
  match l with
  | [] => [a]
  | b :: l' => if (key b <=? key a)%Z then a :: l else b :: insert_desc key a l'
  end.

Definition sort_desc {A} (key : A -> Z) (l : list A) : list A := foldr (insert_desc key) [] l.

(** [seen] with [values.retain(|value| ..seen.insert(identity))] *)
Fixpoint retain_new {A} (key : A -> option string) (seen : gset string) (l : list A) : list A :=
  match l with
  | [] => []
  | a :: l =>
      match key a with
      | None => a :: retain_new key seen l
      | Some name =>
          if bool_decide (name ∈ seen) then retain_new key seen l
          else a :: retain_new key ({[name]} ∪ seen) l
      end
  end.

(** ** Interfaces *)

Class PublicEnv `{SV : SerdeValue} := {
  (** [Value::as_i64], [as_u64], [as_bool], [as_f64] *)
  number_i64 : Value -> option Z;
  number_u64 : Value -> option Z;
  as_bool : Value -> option bool;
  F64 : Type;
  as_f64 : Value -> option F64;
  (** [(lower..=upper).contains(&x)] *)
  f64_contains : Z -> Z -> F64 -> bool;
  (** [serde_json::to_string] *)
  value_to_string : Value -> result string string;
  (** [DateTime::parse_from_rfc3339(s).ok()] in seconds. *)
  parse_rfc3339 : string -> option Z;
  (** [reqwest::Url] *)
  Url : Type;
  url_parse : string -> option Url;
  append_pair : string -> string -> Url -> Url;
  url_to_string : Url -> string;
  (** The [info] of the handle of the peer-to-peer runtime. *)
  runtime_info : GatewayNetworkInfo;
}.

(** [GET] of another gateway: the JSON body of a response with a success status. *)
Class FederationNet `{SV : SerdeValue} := http_get_json : nat -> string -> option Value.

Record ListQuery := { lq_limit : option nat; lq_federation : option string }.

Record TopicQuery := {
  tq_limit : option nat;
  tq_network_id : option string;
  tq_hive_id : option string;
  tq_topic_id : option string;
  tq_organization_id : option string;
  tq_federation : option string;
}.

Record TopicMessageQuery := {
  mq_limit : option nat;
  mq_network_id : option string;
  mq_hive_id : option string;
  mq_topic_id : option string;
  mq_organization_id : option string;
  mq_author_id : option string;
}.

Record BoardQuery := {
  bq_limit : option nat;
  bq_network_id : option string;
  bq_source : option string;
  bq_category : option string;
  bq_search : option string;
  bq_service_name : option string;
  bq_author_id : option string;
  bq_federation : option string;
}.

(** The route, the state and the time of a subscriber's latest subscription. *)
Abbreviation Subscription := (string * bool * Z)%type.

(** ** Values *)

Section values.
Context `{SV : SerdeValue, PE : !PublicEnv}.

(** [value.get(a).or_else(|| value.get(b))..] *)
Definition get_first (value : Value) (keys : list string) : option Value :=
  find_map (value_get value) keys.

(** The first of the keys that has a string. *)
Definition first_str (value : Value) (keys : list string) : option string :=
  find_map (fun key => value_get value key ≫= as_str) keys.

Definition non_empty (s : string) : option string := if is_empty s then None else Some s.

Definition string_field (value : Value) (key : string) : option string :=
  (trim <$> (value_get value key ≫= as_str)) ≫= non_empty.

Definition matches_optional_string_filter (value : Value) (keys : list string)
    (expected : option string) : bool :=
  match expected with
  | None => true
  | Some expected => bool_decide (first_str value keys = Some expected)
  end.

Definition value_to_timestamp (value : Value) : option Z :=
  or_else (number_i64 value) (as_str value ≫= parse_rfc3339).

Definition first_timestamp (value : Value) (keys : list string) : option Z :=
  find_map (fun key => value_get value key ≫= value_to_timestamp) keys.

Definition topic_sort_timestamp (value : Value) : Z :=
  default 0%Z (first_timestamp value ["last_message_at"; "updated_at"; "created_at"; "timestamp";
    "sent_at"; "snapshot_generated_at"]).

Definition timestamp_with_fallback (fallback_keys : list string) (value : Value) : Z :=
  let primary := topic_sort_timestamp value in
  if negb (primary =? 0)%Z then primary else default 0%Z (first_timestamp value fallback_keys).

Definition sort_values_desc_by_timestamp (values : list Value) : list Value :=
  sort_desc topic_sort_timestamp values.

Definition sort_values_desc_by_timestamp_with_fallback (fallback_keys : list string)
    (values : list Value) : list Value :=
  sort_desc (timestamp_with_fallback fallback_keys) values.

Definition dedupe_values_by_key (key : Value -> option string) (values : list Value) : list Value :=
  retain_new key ∅ values.

(** *** Under which identity a value is shown once *)

Definition topic_key_from_value (value : Value) (keys : list string) : option string :=
  first_str value keys.

Definition network_scoped_topic_key (value : Value) (keys : list string) : option string :=
  topic_id ← topic_key_from_value value keys;
  match (trim <$> (get_first value ["network_id"; "networkId"] ≫= as_str)) ≫= non_empty with
  | None => Some topic_id
  | Some network_id => Some (network_id +:+ ":" +:+ topic_id)
  end.

Definition topic_identity_key (value : Value) : option string :=
  network_scoped_topic_key value ["topic_id"; "id"].

Definition topic_message_identity_key (value : Value) : option string :=
  or_else (topic_key_from_value value ["message_id"; "id"])
    (topic_id ← network_scoped_topic_key value ["topic_id"; "topicId"];
     let author_id := default "unknown"
       (get_first value ["author_id"; "authorId"; "sender_id"; "senderId"] ≫= as_str) in
     let body := default "" (get_first value ["body"; "content"] ≫= as_str) in
     Some (topic_id +:+ ":" +:+ author_id +:+ ":" +:+ show_i64 (topic_sort_timestamp value)
             +:+ ":" +:+ body)).

Definition board_message_identity_key (value : Value) : option string :=
  topic_key_from_value value ["message_id"; "id"].

Definition peer_identity_key (value : Value) : option string :=
  topic_key_from_value value
    ["node_id"; "peer_id"; "id"; "public_id"; "agent_did"; "source_node_id"].

Definition mission_identity_key (value : Value) : option string :=
  topic_key_from_value value ["mission_id"; "task_id"; "id"].

Definition ranking_identity_key (value : Value) : option string :=
  topic_key_from_value value ["agent_did"; "public_id"; "agent_id"; "id"].

Definition task_activity_task_identity_key (value : Value) : option string :=
  topic_key_from_value value ["task_id"; "id"].

Definition task_activity_run_identity_key (value : Value) : option string :=
  or_else (topic_key_from_value value ["run_id"; "id"])
    (let task_id := default "unknown" (value_get value "task_id" ≫= as_str) in
     let status := default "unknown" (value_get value "status" ≫= as_str) in
     Some (task_id +:+ ":" +:+ status +:+ ":"
             +:+ show_i64 (timestamp_with_fallback ["updated_at"; "created_at"] value))).

(** *** Filters *)

Definition matches_hive_filters (query : TopicQuery) (value : Value) : bool :=
  matches_optional_string_filter value ["network_id"; "networkId"] (tq_network_id query) &&
  matches_optional_string_filter value ["hive_id"; "topic_id"; "id"] (tq_hive_id query) &&
  matches_optional_string_filter value ["topic_id"; "hive_id"; "id"] (tq_topic_id query) &&
  matches_optional_string_filter value ["organization_id"; "organizationId"] (tq_organization_id query).

Definition matches_hive_message_filters (query : TopicMessageQuery) (value : Value) : bool :=
  matches_optional_string_filter value ["network_id"; "networkId"] (mq_network_id query) &&
  matches_optional_string_filter value ["hive_id"; "topic_id"; "topicId"] (mq_hive_id query) &&
  matches_optional_string_filter value ["topic_id"; "topicId"; "hive_id"] (mq_topic_id query) &&
  matches_optional_string_filter value ["organization_id"; "organizationId"] (mq_organization_id query) &&
  matches_optional_string_filter value ["author_id"; "authorId"; "sender_id"; "senderId"]
    (mq_author_id query).

Definition matches_search (search : option string) (value : Value) : bool :=
  match (trim <$> search) ≫= non_empty with
  | None => true
  | Some search =>
      match value_to_string value with
      | Ok serialized => contains (to_ascii_lowercase serialized) (to_ascii_lowercase search)
      | Err _ => false
      end
  end.

Definition matches_board_filters (query : BoardQuery) (value : Value) : bool :=
  match bq_source query with
  | None => true
  | Some expected =>
      matches_optional_string_filter value ["source"]
        (Some (if bool_decide (expected = "services") then "service" else expected))
  end &&
  matches_search (bq_search query) value &&
  matches_optional_string_filter value ["network_id"; "networkId"] (bq_network_id query) &&
  matches_optional_string_filter value ["category"] (bq_category query) &&
  matches_optional_string_filter value ["service_name"] (bq_service_name query) &&
  matches_optional_string_filter value
    ["author_id"; "author_public_id"; "author_node_id"; "authorId"] (bq_author_id query).

(** *** Rewritten values *)

(** [if let Some(object) = value.as_object_mut() { .. } value] *)
Definition on_object (f : gmap string Value -> gmap string Value) (value : Value) : Value :=
  match as_object value with Some object => VObject (f object) | None => value end.

Definition attach_source (source_node_id : string) (value : Value) : Value :=
  on_object <["source_node_id" := VString source_node_id]> value.

Definition attach_snapshot_generated_at (generated_at : Z) (value : Value) : Value :=
  on_object (or_insert "snapshot_generated_at" (VNumber generated_at)) value.

Definition normalize_hive_value (value : Value) : Value :=
  match get_first value ["hive_id"; "topic_id"; "id"] ≫= as_str with
  | Some hive_id => on_object (or_insert "hive_id" (VString hive_id)) value
  | None => value
  end.

(** *** Members of a hive *)

Definition unit_separator : string := String (Ascii.ascii_of_nat 31) "".

Definition hive_route_key (value : Value) : option string :=
  feed_key ← string_field value "feed_key";
  scope_hint ← string_field value "scope_hint";
  let network_id := default "" (string_field value "network_id") in
  Some (network_id +:+ unit_separator +:+ feed_key +:+ unit_separator +:+ scope_hint).

Definition numeric_timestamp (value : Value) (keys : list string) : Z :=
  default 0%Z (find_map (fun key => value_get value key ≫= fun value =>
    or_else (number_u64 value) ((fun raw => Z.max raw 0) <$> number_i64 value)) keys).

Definition add_subscription (latest : gmap string Subscription) (value : Value) :
    gmap string Subscription :=
  match hive_route_key value, string_field value "subscriber_node_id" with
  | Some route_key, Some subscriber_node_id =>
      let subscription_key := route_key +:+ unit_separator +:+ subscriber_node_id in
      let active := default false (value_get value "active" ≫= as_bool) in
      let updated_at := numeric_timestamp value ["updated_at"; "snapshot_generated_at"] in
      if match latest !! subscription_key with
         | None => true
         | Some (_, _, existing_updated_at) => (existing_updated_at <=? updated_at)%Z
         end
      then <[subscription_key := (route_key, active, updated_at)]> latest
      else latest
  | _, _ => latest
  end.

Definition count_subscription (counts : gmap string nat) (subscription : Subscription) :
    gmap string nat :=
  let '(route_key, active, _) := subscription in
  if active : bool then <[route_key := S (default 0 (counts !! route_key))]> counts else counts.

Definition hive_member_counts (subscription_values : list Value) : gmap string nat :=
  foldl count_subscription ∅ (map_to_list (foldl add_subscription ∅ subscription_values)).*2.

Definition attach_hive_member_count (member_counts : gmap string nat) (value : Value) : Value :=
  match hive_route_key value ≫= fun route_key => member_counts !! route_key with
  | Some count => on_object <["member_count" := VNumber (Z.of_nat count)]> value
  | None => on_object (or_insert "member_count" (VNumber 0)) value
  end.

(** *** Nodes on the map *)

Definition geo_pair (value : Value) : option F64 * option F64 :=
  (get_first value ["latitude"; "lat"] ≫= as_f64,
   get_first value ["longitude"; "lng"; "lon"] ≫= as_f64).

Definition has_valid_geo (value : Value) : bool :=
  match geo_pair value with
  | (Some latitude, Some longitude) =>
      f64_contains (-90) 90 latitude && f64_contains (-180) 180 longitude
  | _ => false
  end.

Definition snapshot_geo_node (node_id source_node_id : string) (generated_at : Z) (value : Value) :
    Value :=
  on_object (fun object =>
    or_insert "snapshot_generated_at" (VNumber generated_at)
      (or_insert "source_node_id" (VString source_node_id)
        (or_insert "node_id" (VString node_id) object))) value.

Definition snapshot_geo_nodes (payload : Value) (source_node_id : string) (generated_at : Z) :
    list Value :=
  match value_get payload "operator" with
  | Some operator => [snapshot_geo_node source_node_id source_node_id generated_at operator]
  | None => []
  end ++
  match value_get payload "peers" ≫= as_array with
  | Some peers =>
      (fun peer =>
        let id := default source_node_id (value_get peer "id" ≫= as_str) in
        snapshot_geo_node id source_node_id generated_at peer) <$> peers
  | None => []
  end.

(** The identity of a node; nodes without one are not shown. *)
Definition node_id_of (value : Value) : string :=
  default "" (get_first value ["node_id"; "id"; "source_node_id"] ≫= as_str).

Definition dedupe_nodes_by_id (values : list Value) : list Value :=
  retain_new (fun value => Some (node_id_of value)) ∅
    (filter (fun value => is_empty (node_id_of value) = false) values).

(** *** Network status *)

(** The one string among the values, when they agree. *)
Definition shared_string (values : list string) : Value :=
  match dedup (merge_sort str_le (filter (fun value => is_empty value = false) (trim <$> values))) with
  | [value] => VString value
  | _ => VNull
  end.

Definition single_shared_string (payloads : list Value) (key : string) : Value :=
  shared_string (omap (fun payload => as_str (value_index payload key)) payloads).

Definition single_shared_status_string (statuses : list Value) (key : string) : Value :=
  shared_string (omap (fun status => value_get status key ≫= as_str) statuses).

(** The length of an array field, over all payloads. *)
Definition total_entries (payloads : list Value) (key : string) : Z :=
  Z.of_nat (sum_list_with (fun payload =>
    from_option length 0 (as_array (value_index payload key))) payloads).

Definition count_keys : list string :=
  ["nodes"; "peers"; "tasks"; "organizations"; "topics"; "topic_messages"; "public_blocks"].

(** [iter().map(..).sum::<u64>()] in a release build *)
Definition summed (statuses : list Value) (key : string) : Z :=
  as_u64 (foldr Z.add 0%Z
    ((fun status => default 0%Z (value_get status key ≫= number_u64)) <$> statuses)).

Definition merge_network_status_values (now : string) (local : Value) (remotes : list Value) : Value :=
  let statuses := local :: remotes in
  on_object (fun object =>
    <["updated_at" := VString now]>
    (<["federated_gateways" := VNumber (Z.of_nat (length statuses - 1))]>
    (<["network_org_name" := single_shared_status_string statuses "network_org_name"]>
    (<["network_name" := single_shared_status_string statuses "network_name"]>
    (<["network_id" := single_shared_status_string statuses "network_id"]>
    (foldl (fun object key => <[key := VNumber (summed statuses key)]> object) object count_keys)))))) local.
End values.

(** ** Federation *)

Definition FEDERATION_LOCAL : string := "local".

Definition federation_enabled (value : option string) : bool :=
  match (fun value => to_ascii_lowercase (trim value)) <$> value with
  | Some value => negb (bool_decide (value ∈ [FEDERATION_LOCAL; "none"; "false"; "0"]))
  | None => true
  end.

Definition normalize_gateway_base_url (value : string) : string :=
  trim_end_matches "/" (trim value).

Definition dedupe_and_filter_gateway_base_urls (base_urls : list string)
    (self_base_url : option string) : list string :=
  let self_base_url := normalize_gateway_base_url <$> self_base_url in
  retain_new Some ∅ (filter (fun base_url =>
    is_empty base_url = false ∧ self_base_url ≠ Some base_url)
    (normalize_gateway_base_url <$> base_urls)).

Definition gateway_supports_endpoint (endpoint : string) (gateway : GatewayRegistryEntry) : bool :=
  bool_decide (ge_status gateway = "approved") &&
  bool_decide ("query" ∈ ge_roles gateway) &&
  existsb (fun candidate => bool_decide (candidate = endpoint) || bool_decide (candidate = "*"))
    (ge_supported_endpoints gateway).

Section federation.
Context `{UJ : UiEventJson, GH : GwHost, SC : !SpaceCodec, SI : Signatures, SG : !Signing,
          SR : !SignedRecords, HX : Hex, SE : SpaceEnv, CC : ContractCodec, PC : PgCollation,
          JM : !Jcs GatewayManifest, GN : !GwNet, RN : RegistryNet, PE : !PublicEnv, FN : !FederationNet}.
Context (state : AppState) (gateway_identity : option GatewayIdentity).

Definition federated_gateway_url (base_url endpoint : string) (params : list (string * string)) :
    option string :=
  let base_url := normalize_gateway_base_url base_url in
  if is_empty base_url then None else
  url ← url_parse (base_url +:+ endpoint);
  let url := foldl (fun url '(key, value) =>
    if is_blank value then url else append_pair key value url) url params in
  Some (url_to_string (append_pair "federation" FEDERATION_LOCAL url)).

(** The gateways of the bootstrap registries that answer. *)
Fixpoint bootstrap_gateways (registry_urls : list string) : G (list GatewayRegistryEntry) :=
  match registry_urls with
  | [] => mret []
  | registry_url :: registry_urls =>
      entries ← attempt (fetch_public_gateways registry_url);
      gateways ← bootstrap_gateways registry_urls;
      mret (match entries with Ok entries => entries ++ gateways | Err _ => gateways end)
  end.

Definition federated_gateway_base_urls (endpoint : string) : G (list string) :=
  let base_urls := from_option id_federation_peers [] gateway_identity in
  let self_base_url := id_base_url <$> gateway_identity in
  if from_option (fun identity => negb (allows_registry_federation identity)) false gateway_identity
  then mret (dedupe_and_filter_gateway_base_urls base_urls self_base_url)
  else
    entries ← attempt (list_gateway_registry_entries (Some "approved") None None (Some "query"));
    bootstrap ← bootstrap_gateways (ap_bootstrap_registry_urls state);
    let gateways := match entries with Ok entries => entries | Err _ => [] end ++ bootstrap in
    mret (dedupe_and_filter_gateway_base_urls
      (base_urls ++ (ge_base_url <$> filter (fun gateway =>
         gateway_supports_endpoint endpoint gateway = true) gateways)) self_base_url).

(** What the gateways at [base_urls] answer, as far as it has the right form. *)
Fixpoint fetch_each (accept : Value -> list Value) (endpoint : string)
    (params : list (string * string)) (base_urls : list string) : G (list Value) :=
  match base_urls with
  | [] => mret []
  | base_url :: base_urls =>
      items ← match federated_gateway_url base_url endpoint params with
              | None => mret []
              | Some url =>
                  t ← gtick;
                  mret (from_option accept [] (http_get_json t url))
              end;
      values ← fetch_each accept endpoint params base_urls;
      mret (items ++ values)
  end.

Definition fetch_federated_arrays (endpoint : string) (params : list (string * string)) :
    G (list Value) :=
  base_urls ← federated_gateway_base_urls endpoint;
  fetch_each (fun value => default [] (as_array value)) endpoint params base_urls.

Definition fetch_federated_objects (endpoint : string) (params : list (string * string)) :
    G (list Value) :=
  base_urls ← federated_gateway_base_urls endpoint;
  fetch_each (fun value => match as_object value with Some _ => [value] | None => [] end) endpoint params base_urls.

(** ** Endpoints *)

(** The answer of an endpoint: its value, or 500 with the error. *)
Definition respond {A} (m : G A) : G (Reply A) :=
  outcome ← attempt m;
  mret (match outcome with Ok body => Answered 200 body | Err error => Refused 500 error end).

Definition projection_values (data_kind : DataKind) : G (list Value) :=
  data_kind_string ← lift (data_kind_name data_kind);
  rows ← list_projection_rows data_kind_string;
  mret ((fun row => attach_source (pj_source_node_id row) (pj_payload row)) <$> rows).

Definition limit_param (limit : nat) : string * string := ("limit", show_i64 (Z.of_nat limit)).

Definition optional_param (key : string) (value : option string) : list (string * string) :=
  match value with Some value => [(key, value)] | None => [] end.

(** [if federation_enabled(..) { values.extend(..) }] *)
Definition with_federated (federation : option string) (endpoint : string)
    (params : list (string * string)) (values : list Value) : G (list Value) :=
  if federation_enabled federation
  then remote ← fetch_federated_arrays endpoint params; mret (values ++ remote)
  else mret values.

Definition peer_health_value (entry : GatewayPeerHealth) : Value :=
  json_object [
    ("peer", VString (ph_peer entry));
    ("score", VNumber (ph_score entry));
    ("blacklisted", VBool (ph_blacklisted entry));
    ("reputation_tier", VString (ph_reputation_tier entry));
    ("quarantined", VBool (ph_quarantined entry));
    ("quarantine_remaining_ms", VNumber (ph_quarantine_remaining_ms entry));
    ("ban_remaining_ms", VNumber (ph_ban_remaining_ms entry));
    ("throttle_factor_percent", VNumber (ph_throttle_factor_percent entry))].

Definition gateway_runtime_status (info : GatewayNetworkInfo) : Value :=
  json_object [
    ("peer_id", VString (gi_peer_id info));
    ("listen_addrs", VArray (VString <$> gi_listen_addrs info));
    ("transport_capabilities", gi_transport_capabilities info);
    ("transport_contact_material", json_opt id (gi_transport_contact_material info));
    ("nat_status", VString (gi_nat_status info));
    ("nat_public_address", json_opt VString (gi_nat_public_address info));
    ("nat_confidence", VNumber (gi_nat_confidence info));
    ("relay_reservations", VArray (VString <$> gi_relay_reservations info));
    ("peer_health", VArray (peer_health_value <$> gi_peer_health info))].

Definition local_network_status_value : G Value :=
  rows ← list_visible_snapshots;
  let snapshots := sr_payload <$> rows in
  projections ← projection_values NetworkProjection;
  let network_metadata :=
    ((fun payload => value_index payload "network_status") <$> snapshots) ++
    (projections ≫= fun payload => [payload; value_index payload "network_status"]) in
  updated_at ← now_rfc3339;
  mret (json_object [
    ("status", VString "ok");
    ("nodes", VNumber (Z.of_nat (length snapshots)));
    ("peers", VNumber (total_entries snapshots "peers"));
    ("tasks", VNumber (total_entries snapshots "tasks"));
    ("organizations", VNumber (total_entries snapshots "organizations"));
    ("topics", VNumber (total_entries snapshots "public_topics"));
    ("topic_messages", VNumber (total_entries snapshots "public_topic_messages"));
    ("public_blocks", VNumber (total_entries snapshots "public_blocks"));
    ("network_name", single_shared_string snapshots "network_name");
    ("network_org_name", single_shared_string snapshots "network_org_name");
    ("network_id", single_shared_string network_metadata "network_id");
    ("gateway_runtime", if ap_gateway_network state then gateway_runtime_status runtime_info else VNull);
    ("updated_at", VString updated_at)]).

Definition network_status (federation : option string) : G (Reply Value) :=
  respond (
    status ← local_network_status_value;
    if federation_enabled federation
    then
      remote_statuses ← fetch_federated_objects "/api/network/status" [];
      now ← now_rfc3339;
      mret (merge_network_status_values now status remote_statuses)
    else mret status).

Definition local_snapshot_array_values (limit : nat) (key : string)
    (transform : string -> Value -> Value) : G (list Value) :=
  rows ← list_visible_snapshots;
  mret (take limit (rows ≫= fun row =>
    transform (sr_node_id row) <$> take limit (default [] (as_array (value_index (sr_payload row) key))))).

Definition peers (query : ListQuery) : G (Reply (list Value)) :=
  let limit := default 200 (lq_limit query) in
  respond (
    values ← local_snapshot_array_values limit "peers" attach_source;
    values ← (if federation_enabled (lq_federation query)
              then remote ← fetch_federated_arrays "/api/peers" [limit_param limit];
                   mret (dedupe_values_by_key peer_identity_key (values ++ remote))
              else mret values);
    mret (take limit values)).

Definition local_network_node_values : G (list Value) :=
  values ← projection_values NetworkProjection;
  rows ← list_visible_snapshots;
  mret (values ++ (rows ≫= fun row =>
    snapshot_geo_nodes (sr_payload row) (sr_node_id row) (timestamp_secs (sr_generated_at row)))).

Definition network_nodes (query : ListQuery) : G (Reply (list Value)) :=
  let limit := default 200 (lq_limit query) in
  respond (
    values ← local_network_node_values;
    values ← with_federated (lq_federation query) "/api/network/nodes" [limit_param limit] values;
    let values := sort_values_desc_by_timestamp_with_fallback ["snapshot_generated_at"] values in
    let values := filter (fun value => has_valid_geo value = true) values in
    mret (take limit (dedupe_nodes_by_id values))).

Definition aggregate_federated_projection_endpoint (limit : nat) (federation : option string)
    (data_kind : DataKind) (endpoint : string) (identity_key : Value -> option string)
    (sort_keys : list string) : G (Reply (list Value)) :=
  respond (
    values ← projection_values data_kind;
    values ← (if federation_enabled federation
              then remote ← fetch_federated_arrays endpoint [limit_param limit];
                   mret (dedupe_values_by_key identity_key
                     (sort_values_desc_by_timestamp_with_fallback sort_keys (values ++ remote)))
              else mret values);
    mret (take limit values)).

Definition missions (query : ListQuery) : G (Reply (list Value)) :=
  aggregate_federated_projection_endpoint (default 200 (lq_limit query)) (lq_federation query)
    TaskSummary "/api/missions" mission_identity_key
    ["updated_at"; "created_at"; "snapshot_generated_at"].

Definition leaderboard (query : ListQuery) : G (Reply (list Value)) :=
  aggregate_federated_projection_endpoint (default 200 (lq_limit query)) (lq_federation query)
    RankingProjection "/api/leaderboard" ranking_identity_key
    ["score"; "watt"; "updated_at"; "created_at"; "snapshot_generated_at"].

Definition aggregate_projection_endpoint (limit : nat) (data_kind : DataKind) :
    G (Reply (list Value)) :=
  respond (values ← projection_values data_kind; mret (take limit values)).

Definition public_blocks (query : ListQuery) : G (Reply (list Value)) :=
  aggregate_projection_endpoint (default 200 (lq_limit query)) PublicBlock.

Definition organizations (query : ListQuery) : G (Reply (list Value)) :=
  aggregate_projection_endpoint (default 200 (lq_limit query)) OrganizationSummary.

(** The tasks or the runs of the snapshots. *)
Definition activity_entries (key : string) (row : SnapshotRow) : list Value :=
  let activity := value_index (sr_payload row) "swarm_task_activity" in
  let generated_at := default (timestamp_secs (sr_generated_at row))
    (number_i64 (value_index activity "generated_at")) in
  (fun value => attach_source (sr_node_id row) (attach_snapshot_generated_at generated_at value))
    <$> default [] (as_array (value_index activity key)).

Definition activity_view (limit : nat) (identity_key : Value -> option string)
    (values : list Value) : list Value :=
  take limit (dedupe_values_by_key identity_key (sort_values_desc_by_timestamp_with_fallback
    ["updated_at"; "created_at"; "snapshot_generated_at"] values)).

Definition mission_activity (query : ListQuery) : G (Reply Value) :=
  let limit := default 200 (lq_limit query) in
  respond (
    rows ← list_visible_snapshots;
    let tasks := activity_view limit task_activity_task_identity_key
      (rows ≫= activity_entries "tasks") in
    let runs := activity_view limit task_activity_run_identity_key
      (rows ≫= activity_entries "runs") in
    generated_at ← now_rfc3339;
    mret (json_object [("generated_at", VString generated_at); ("tasks", VArray tasks);
                       ("runs", VArray runs)])).

Definition aggregate_public_hives_endpoint (query : TopicQuery) : G (Reply (list Value)) :=
  let limit := default 200 (tq_limit query) in
  respond (
    values ← projection_values HiveMetadata;
    subscriptions ← projection_values HiveSubscription;
    let member_counts := hive_member_counts subscriptions in
    values ← with_federated (tq_federation query) "/api/hives"
      ([limit_param limit] ++ optional_param "network_id" (tq_network_id query)
       ++ optional_param "hive_id" (tq_hive_id query)
       ++ optional_param "topic_id" (tq_topic_id query)
       ++ optional_param "organization_id" (tq_organization_id query)) values;
    let values := filter (fun value => matches_hive_filters query value = true) values in
    let values := dedupe_values_by_key topic_identity_key (sort_values_desc_by_timestamp values) in
    mret ((fun value => attach_hive_member_count member_counts (normalize_hive_value value))
            <$> take limit values)).

Definition aggregate_public_hive_messages_endpoint (query : TopicMessageQuery) :
    G (Reply (list Value)) :=
  respond (
    values ← projection_values HiveActivity;
    let values := filter (fun value => matches_hive_message_filters query value = true) values in
    let values := dedupe_values_by_key topic_message_identity_key
      (sort_values_desc_by_timestamp values) in
    mret (normalize_hive_value <$> take (default 500 (mq_limit query)) values)).

(** [query.limit.unwrap_or(500).clamp(1, 500)] *)
Definition board_limit (query : BoardQuery) : nat :=
  Nat.min 500 (Nat.max 1 (default 500 (bq_limit query))).

Definition aggregate_public_board_messages_endpoint (query : BoardQuery) : G (Reply (list Value)) :=
  let limit := board_limit query in
  respond (
    values ← projection_values BoardActivity;
    values ← with_federated (bq_federation query) "/api/board"
      ([limit_param limit] ++ optional_param "network_id" (bq_network_id query)
       ++ optional_param "source" (bq_source query)
       ++ optional_param "category" (bq_category query)
       ++ optional_param "search" (bq_search query)
       ++ optional_param "service_name" (bq_service_name query)
       ++ optional_param "author_id" (bq_author_id query)) values;
    let values := trusted_board_messages values in
    let values := filter (fun value => matches_board_filters query value = true) values in
    let values := dedupe_values_by_key board_message_identity_key
      (sort_values_desc_by_timestamp_with_fallback ["created_at"; "sequence"; "snapshot_generated_at"]
         values) in
    mret (take limit values)).

Definition public_hives (query : TopicQuery) : G (Reply (list Value)) :=
  aggregate_public_hives_endpoint query.
Definition public_hive_messages_by_query (query : TopicMessageQuery) : G (Reply (list Value)) :=
  aggregate_public_hive_messages_endpoint query.
Definition public_board (query : BoardQuery) : G (Reply (list Value)) :=
  aggregate_public_board_messages_endpoint query.
End federation.
