(* ===== verification/Federation.v ===== *)
(** * What the public interface shows

    Theorems about [PublicApi]: a view that gathers values from several gateways shows the
    newest value of each record once, in order; boards show no announcement that the Network
    Authority has not signed, whatever other gateways answer; the members of a hive are the
    subscribers whose latest subscription is active; and a gateway only asks the gateways it
    is configured with or that are approved, which do not ask others in turn. *)

From stdpp Require Import sorting.
From S2P Require Import Prelude Str External GwValue Contracts GwModels Verify Identity NetworkNode UiHub GwDb GwStore Normalize Space ReadModels Ingest GwSamples Progress Ingestion Trust Registry PublicApi.

(** ** Sorting and deduplication *)

Section sorting.
Context {A : Type} (ts : A -> Z).
Implicit Types (l : list A).

Definition newer (a b : A) : Prop := (ts b <= ts a)%Z.

Lemma insert_desc_perm a l : insert_desc ts a l ≡ₚ a :: l.
Proof.
  induction l as [|b l IH]; [done|]. cbn. destruct (_ <=? _)%Z; [done|].
  rewrite IH. apply Permutation_swap.
Qed.

Lemma sort_desc_perm l : sort_desc ts l ≡ₚ l.
Proof. induction l as [|a l IH]; [done|]. cbn. by rewrite insert_desc_perm, IH. Qed.

Lemma insert_desc_sorted a l : StronglySorted newer l → StronglySorted newer (insert_desc ts a l).
Proof.
  induction 1 as [|b l Hs IH Hb]; cbn; [by repeat constructor|].
  destruct (Z.leb_spec (ts b) (ts a)).
  - constructor; [by constructor|]. constructor; [done|].
    eapply Forall_impl; [exact Hb|]. unfold newer. intros; lia.
  - constructor; [done|]. rewrite insert_desc_perm. constructor; [unfold newer; lia|done].
Qed.

Lemma sort_desc_sorted l : StronglySorted newer (sort_desc ts l).
Proof. induction l; cbn; [constructor|by apply insert_desc_sorted]. Qed.

(** Of two values with the same key the first stays first. *)
Lemma sort_desc_stable k l : filter (fun a => ts a = k) (sort_desc ts l) = filter (fun a => ts a = k) l.
Proof.
  assert (∀ a l, filter (fun a => ts a = k) (insert_desc ts a l) =
    filter (fun a => ts a = k) (a :: l)) as Hins.
  { clear l. intros a l. induction l as [|b l IH]; [done|]. cbn [insert_desc].
    destruct (Z.leb_spec (ts b) (ts a)); [done|]. rewrite filter_cons, IH, !filter_cons.
    repeat case_decide; try done. lia. }
  induction l as [|a l IH]; [done|]. cbn [sort_desc foldr]. fold (sort_desc ts l).
  by rewrite Hins, !filter_cons, IH.
Qed.

End sorting.

Section dedupe.
Context {A : Type} (key : A -> option string).
Implicit Types (l : list A).

Lemma retain_new_sublist seen l : retain_new key seen l `sublist_of` l.
Proof.
  revert seen. induction l as [|a l IH]; intros seen; cbn; [constructor|].
  destruct (key a); [case_bool_decide|]; by constructor.
Qed.

Lemma retain_new_nodup seen l :
  NoDup (omap key (retain_new key seen l)) ∧
  ∀ n, n ∈ omap key (retain_new key seen l) → n ∉ seen.
Proof.
  revert seen. induction l as [|a l IH]; intros seen; cbn; [split; [constructor|set_solver]|].
  destruct (key a) as [n|] eqn:Hk; [case_bool_decide|]; cbn; rewrite ?Hk; [apply IH| |apply IH].
  destruct (IH ({[n]} ∪ seen)) as [Hn Hs]. split.
  - constructor; [|done]. intros Hin%Hs. set_solver.
  - intros m [->|Hin]%elem_of_cons; [done|]. apply Hs in Hin. set_solver.
Qed.

Lemma retain_new_unnamed seen l a : a ∈ l → key a = None → a ∈ retain_new key seen l.
Proof.
  intros Hin Ha. revert seen. induction l as [|b l IH]; intros seen; [by apply elem_of_nil in Hin|].
  apply elem_of_cons in Hin as [<-|Hin]; cbn; [rewrite Ha; by left|].
  destruct (key b); [case_bool_decide|]; [by apply IH|right; by apply IH..].
Qed.

Lemma retain_new_first (R : relation A) seen l a n :
  StronglySorted R l → a ∈ l → key a = Some n → n ∉ seen →
  ∃ u, u ∈ retain_new key seen l ∧ key u = Some n ∧ (u = a ∨ R u a).
Proof.
  intros Hs Hin Ha. revert seen.
  induction Hs as [|b l Hs IH Hb]; intros seen Hn; [by apply elem_of_nil in Hin|]. cbn.
  destruct (decide (key b = Some n)) as [Hk|Hk].
  - exists b. rewrite Hk, bool_decide_eq_false_2 by done. split; [by left|]. split; [done|].
    apply elem_of_cons in Hin as [->|Hin]; [by left|right]. by eapply Forall_forall in Hb.
  - apply elem_of_cons in Hin as [->|Hin]; [done|].
    destruct (key b) as [m|]; [case_bool_decide as Hm|].
    + by apply IH.
    + destruct (IH Hin ({[m]} ∪ seen)) as (u & ? & ? & ?); [set_solver|].
      exists u. split; [by right|done].
    + destruct (IH Hin seen Hn) as (u & ? & ? & ?). exists u. split; [by right|done].
Qed.

Lemma StronglySorted_sublist (R : relation A) l1 l2 :
  l1 `sublist_of` l2 → StronglySorted R l2 → StronglySorted R l1.
Proof.
  induction 1 as [|a l1 l2 H IH|a l1 l2 H IH]; [done| |];
    intros [Hs Ha]%StronglySorted_inv; [|by apply IH].
  constructor; [by apply IH|]. eapply Forall_forall. intros b Hb.
  eapply Forall_forall in Ha; [exact Ha|]. eapply elem_of_submseteq; [done|]. by apply sublist_submseteq.
Qed.

End dedupe.

Section views.
Context {A : Type} (key : A -> option string) (ts : A -> Z).

(** [out] shows the candidates: nothing else, newest first, a record once, and each record
    with a value at least as new as any candidate. *)
Record newest_view (candidates out : list A) : Prop := {
  nv_from a : a ∈ out → a ∈ candidates;
  nv_sorted : StronglySorted (newer ts) out;
  nv_once : NoDup (omap key out);
  nv_unnamed a : a ∈ candidates → key a = None → a ∈ out;
  nv_newest a n : a ∈ candidates → key a = Some n → ∃ u, u ∈ out ∧ key u = Some n ∧ newer ts u a;
}.

Lemma sorted_view candidates : newest_view candidates (retain_new key ∅ (sort_desc ts candidates)).
Proof.
  pose proof (sort_desc_sorted ts candidates) as Hs. split.
  - intros a Ha. rewrite <- (sort_desc_perm ts candidates).
    eapply elem_of_submseteq; [done|]. apply sublist_submseteq, retain_new_sublist.
  - eapply StronglySorted_sublist, Hs. apply retain_new_sublist.
  - apply retain_new_nodup.
  - intros a Ha Hk. apply retain_new_unnamed; [|done]. by rewrite sort_desc_perm.
  - intros a n Ha Hk. destruct (retain_new_first key (newer ts) ∅ (sort_desc ts candidates) a n) as (u & Hu & Hn & HR);
      [done|by rewrite sort_desc_perm|done|set_solver|].
    exists u. split; [done|]. split; [done|]. destruct HR as [->|]; [unfold newer; lia|done].
Qed.
End views.

(** ** Answers of other gateways *)

Section federation.
Context `{UJ : UiEventJson, GH : GwHost, SC : !SpaceCodec, SI : Signatures, SG : !Signing,
          SR : !SignedRecords, HX : Hex, SE : SpaceEnv, CC : ContractCodec, PC : PgCollation,
          JM : !Jcs GatewayManifest, GN : !GwNet, RN : RegistryNet, PE : !PublicEnv,
          FN : !FederationNet}.
Context (state : AppState) (gateway_identity : option GatewayIdentity).

(** What one gateway contributes: nothing when it cannot be asked, does not answer or
    answers something else. *)
Definition contributes (accept : Value -> list Value) (endpoint : string)
    (params : list (string * string)) (base_url : string) (items : list Value) : Prop :=
  match federated_gateway_url base_url endpoint params with
  | None => items = []
  | Some url => ∃ t, items = from_option accept [] (http_get_json t url)
  end.

Lemma fetch_each_run accept endpoint params urls w r w' :
  fetch_each accept endpoint params urls w = (r, w') →
  quiet w w' ∧ ∃ parts, r = Ok (concat parts) ∧ Forall2 (contributes accept endpoint params) urls parts.
Proof.
  revert w r w'. induction urls as [|url urls IH]; intros w r w' H; cbn in H.
  { injection H as <- <-. split; [by split|]. exists []. by split; [|constructor]. }
  apply M_bind_inv in H as [(e & H1 & ->)|(items & w1 & H1 & H)].
  { exfalso. by destruct (federated_gateway_url url endpoint params). }
  assert (quiet w w1 ∧ contributes accept endpoint params url items) as [Hq Hc].
  { unfold contributes. destruct (federated_gateway_url url endpoint params).
    - cbv [gtick mbind M_bind mret M_ret] in H1. cbn in H1. injection H1 as <- <-. split; [by split|eauto].
    - injection H1 as <- <-. split; [by split|done]. }
  apply M_bind_inv in H as [(e & H2 & ->)|(values & w2 & H2 & H)];
    apply IH in H2 as [Hq2 (parts & Hp & Hf)]; [done|].
  injection Hp as ->. injection H as <- <-. split; [by etrans|].
  exists (items :: parts). by split; [|constructor].
Qed.

(** ** Which gateways are asked *)

Definition registry_federation : Prop :=
  match gateway_identity with
  | Some identity => id_federation_mode identity = Open
  | None => True
  end.

(** A registry entry that an endpoint may be asked of. *)
Record federates (endpoint : string) (entry : GatewayRegistryEntry) : Prop := {
  fe_approved : ge_status entry = "approved";
  fe_query : "query" ∈ ge_roles entry;
  fe_endpoint : endpoint ∈ ge_supported_endpoints entry ∨ "*" ∈ ge_supported_endpoints entry;
}.

Lemma gateway_supports_endpoint_ok endpoint entry :
  gateway_supports_endpoint endpoint entry = true → federates endpoint entry.
Proof.
  unfold gateway_supports_endpoint. rewrite !andb_true_iff, !bool_decide_eq_true, existsb_exists.
  intros [[Hs Hr] (c & Hc%list_elem_of_In & He)]. split; [done..|].
  apply orb_true_iff in He. rewrite !bool_decide_eq_true in He. destruct He as [-> | ->]; auto.
Qed.

Inductive may_ask (d : GwDb) (endpoint : string) : string -> Prop :=
| ask_peer identity peer :
    gateway_identity = Some identity → peer ∈ id_federation_peers identity →
    may_ask d endpoint (normalize_gateway_base_url peer)
| ask_registered entry :
    registry_federation → entry ∈ (map_to_list (gd_registry d)).*2 → federates endpoint entry →
    may_ask d endpoint (normalize_gateway_base_url (ge_base_url entry))
| ask_discovered t registry_url entries entry :
    registry_federation → registry_url ∈ ap_bootstrap_registry_urls state →
    http_get_gateways t (normalized_registry_list_url registry_url) = Ok entries →
    entry ∈ entries → federates endpoint entry →
    may_ask d endpoint (normalize_gateway_base_url (ge_base_url entry)).

Lemma bootstrap_gateways_run urls w r w' :
  bootstrap_gateways urls w = (r, w') →
  quiet w w' ∧ ∃ gateways, r = Ok gateways ∧ ∀ entry, entry ∈ gateways →
    ∃ t url entries, url ∈ urls ∧ http_get_gateways t (normalized_registry_list_url url) = Ok entries ∧
      entry ∈ entries.
Proof.
  revert w r w'. induction urls as [|url urls IH]; intros w r w' H; cbn in H.
  { injection H as <- <-. split; [by split|]. exists []. split; [done|]. by intros ? ?%elem_of_nil. }
  apply attempt_bind in H as (r1 & w1 & H1 & H).
  unfold fetch_public_gateways in H1. cbv [gtick mbind M_bind lift] in H1. cbn in H1.
  injection H1 as <- <-.
  apply M_bind_inv in H as [(e & H2 & ->)|(gateways & w2 & H2 & H)];
    apply IH in H2 as [Hq (gs & Hgs & Hin)]; [done|]. injection Hgs as <-. injection H as <- <-.
  split; [etrans; [|exact Hq]; by split|]. eexists. split; [done|]. intros entry Hentry.
  assert (entry ∈ gateways → ∃ t u entries, u ∈ url :: urls ∧
    http_get_gateways t (normalized_registry_list_url u) = Ok entries ∧ entry ∈ entries) as Hrest.
  { intros (t & u & es & Hu & ?)%Hin. exists t, u, es. split; [by right|done]. }
  destruct (http_get_gateways (g_tick w) (normalized_registry_list_url url)) as [entries|e] eqn:Hget;
    [|by apply Hrest].
  apply elem_of_app in Hentry as [He|He]; [|by apply Hrest].
  exists (g_tick w), url, entries. split; [by left|done].
Qed.

Lemma retain_strings_elem (l : list string) s : s ∈ retain_new Some ∅ l ↔ s ∈ l.
Proof.
  split; [intros Hs; eapply elem_of_sublist; [exact Hs|apply retain_new_sublist]|].
  intros Hs. destruct (retain_new_first Some (fun _ _ => True) ∅ l s s) as (u & Hu & [= ->] & _);
    [|done|done|set_solver|done].
  clear Hs. induction l; constructor; [done|]. by apply Forall_forall.
Qed.

Lemma retain_strings_nodup (l : list string) : NoDup (retain_new Some ∅ l).
Proof.
  destruct (retain_new_nodup Some ∅ l) as [Hn _].
  assert (∀ l : list string, omap Some l = l) as Hid by (induction l0; cbn; congruence).
  by rewrite Hid in Hn.
Qed.

Lemma base_urls_kept urls self url :
  url ∈ dedupe_and_filter_gateway_base_urls urls self ↔
  url ≠ "" ∧ normalize_gateway_base_url <$> self ≠ Some url ∧
  ∃ u, u ∈ urls ∧ url = normalize_gateway_base_url u.
Proof.
  unfold dedupe_and_filter_gateway_base_urls.
  rewrite retain_strings_elem, list_elem_of_filter, list_elem_of_fmap.
  assert (is_empty url = false ↔ url ≠ "") as -> by (destruct url; naive_solver). naive_solver.
Qed.

Lemma base_urls_run endpoint w r w' :
  federated_gateway_base_urls state gateway_identity endpoint w = (r, w') →
  quiet w w' ∧ ∃ more, r = Ok (dedupe_and_filter_gateway_base_urls
      (from_option id_federation_peers [] gateway_identity ++ more) (id_base_url <$> gateway_identity)) ∧
    ∀ u, u ∈ more → may_ask (g_db w) endpoint (normalize_gateway_base_url u).
Proof.
  unfold federated_gateway_base_urls. intros H.
  destruct (from_option _ false gateway_identity) eqn:Hmode.
  { injection H as <- <-. split; [by split|]. exists []. rewrite app_nil_r. split; [done|].
    by intros ? ?%elem_of_nil. }
  assert (registry_federation) as Hfed.
  { unfold registry_federation. destruct gateway_identity as [identity|]; [|done]. cbn in Hmode.
    unfold allows_registry_federation in Hmode. by destruct (id_federation_mode identity). }
  apply attempt_bind in H as (r1 & w1 & H1 & H). apply gquery_run in H1 as [Hq1 H1].
  apply M_bind_inv in H as [(e & H2 & ->)|(bootstrap & w2 & H2 & H)];
    apply bootstrap_gateways_run in H2 as [Hq2 (gs & Hgs & Hb)]; [done|].
  injection Hgs as <-. injection H as <- <-. split; [by etrans|]. eexists. split; [done|].
  intros u (entry & -> & [Hsup Hin]%list_elem_of_filter)%list_elem_of_fmap.
  apply gateway_supports_endpoint_ok in Hsup. apply elem_of_app in Hin as [Hin|Hin].
  - destruct H1 as [[e ->]|[now ->]]; [by apply elem_of_nil in Hin|].
    apply ask_registered; [done| |done].
    rewrite merge_sort_Permutation in Hin. by apply list_elem_of_filter in Hin as [_ ?].
  - apply Hb in Hin as (t & url & entries & Hu & Hg & Hin). by eapply ask_discovered.
Qed.

(** C20: a gateway only asks gateways it may ask, and itself never.  Whatever the registries
    answer and whatever fails, the list of gateways to ask is computed without failing and
    without a change to the database.  It holds no address twice, not the own one, and only
    configured federation peers and, unless the gateway is restricted to those, gateways
    that a registry has approved for queries on this endpoint; no configured peer is
    missing. *)
Theorem federation_confined endpoint w :
  ∃ urls w', federated_gateway_base_urls state gateway_identity endpoint w = (Ok urls, w') ∧
    g_db w' = g_db w ∧ NoDup urls ∧
    (∀ url, url ∈ urls → url ≠ "" ∧
       normalize_gateway_base_url <$> (id_base_url <$> gateway_identity) ≠ Some url ∧
       may_ask (g_db w) endpoint url) ∧
    (∀ identity peer, gateway_identity = Some identity → peer ∈ id_federation_peers identity →
       let url := normalize_gateway_base_url peer in
       url ≠ "" → normalize_gateway_base_url (id_base_url identity) ≠ url → url ∈ urls).
Proof.
  destruct (federated_gateway_base_urls state gateway_identity endpoint w) as [r w'] eqn:H.
  apply base_urls_run in H as (Hq & more & -> & Hmore). eexists _, w'. split; [done|].
  split; [apply Hq|]. split; [apply retain_strings_nodup|]. split.
  - intros url (Hne & Hself & u & Hu & ->)%base_urls_kept. split; [done|]. split; [done|].
    apply elem_of_app in Hu as [Hu|Hu]; [|by apply Hmore].
    destruct gateway_identity as [identity|] eqn:Hid; [|by apply elem_of_nil in Hu].
    by eapply ask_peer.
  - intros identity peer Hid Hp url Hne Hself. apply base_urls_kept. split; [done|].
    rewrite Hid. split; [cbn; congruence|]. exists peer. split; [|done]. apply elem_of_app. by left.
Qed.

(** ** Views *)

(** The projected records of a kind, with the node they come from. *)
Definition local_values (d : GwDb) (data_kind : DataKind) : result string (list Value) :=
  name ← data_kind_name data_kind;
  Ok ((fun row => attach_source (pj_source_node_id row) (pj_payload row)) <$>
    merge_sort projection_before
      (filter (fun row => bool_decide (pj_data_kind row = name) &&
                          visible d (pj_source_id row) = true) (map_to_list (gd_projections d)).*2)).

(** What the other gateways answer to a request made in [w]. *)
Definition gathered (endpoint : string) (params : list (string * string)) (w : GwWorld)
    (remote : list Value) : Prop :=
  ∃ urls w' parts,
    federated_gateway_base_urls state gateway_identity endpoint w = (Ok urls, w') ∧
    Forall2 (contributes (fun value => default [] (as_array value)) endpoint params) urls parts ∧
    remote = concat parts.

Lemma projection_values_ok data_kind w values :
  local_values (g_db w) data_kind = Ok values → gw_fault (g_tick w) = None →
  ∃ w', projection_values data_kind w = (Ok values, w') ∧ quiet w w'.
Proof.
  unfold local_values, projection_values. intros Hl Hf.
  destruct (data_kind_name data_kind) as [name|e] eqn:Hn; [|done]. injection Hl as <-.
  unfold list_projection_rows, gquery, gstatement. cbv [lift gtick mbind M_bind mret M_ret gets].
  cbn. rewrite Hf. eexists. split; [done|by split].
Qed.

Lemma fetch_federated_arrays_ok endpoint params w :
  ∃ remote w', fetch_federated_arrays state gateway_identity endpoint params w = (Ok remote, w') ∧
    quiet w w' ∧ gathered endpoint params w remote.
Proof.
  unfold fetch_federated_arrays.
  destruct (federated_gateway_base_urls state gateway_identity endpoint w) as [r w1] eqn:Hu.
  pose proof Hu as (Hq & more & -> & _)%base_urls_run. rewrite (M_bind_run _ _ _ _ _ Hu).
  destruct (fetch_each _ _ _ _ w1) as [r w2] eqn:Hf.
  pose proof Hf as (Hq2 & parts & -> & Hall)%fetch_each_run.
  exists (concat parts), w2. split; [done|]. split; [by etrans|]. by eexists _, _, _.
Qed.

Lemma with_federated_ok federation endpoint params values w :
  ∃ remote w', with_federated state gateway_identity federation endpoint params values w
      = (Ok (values ++ remote), w') ∧ quiet w w' ∧
    if federation_enabled federation then gathered endpoint params w remote else remote = [].
Proof.
  unfold with_federated. destruct (federation_enabled federation).
  - destruct (fetch_federated_arrays_ok endpoint params w) as (remote & w' & H & Hq & Hg).
    exists remote, w'. by rewrite (M_bind_run _ _ _ _ _ H).
  - exists [], w. rewrite app_nil_r. split; [done|]. split; [by split|done].
Qed.

Lemma respond_ok {A} (m : G A) w a w' : m w = (Ok a, w') → respond m w = (Ok (Answered 200 a), w').
Proof. intros H. unfold respond. cbv [attempt mbind M_bind mret M_ret]. by rewrite H. Qed.

(** C31: missions and rankings show the newest value of each record once.  When the database
    answers, the endpoint does, whatever the registries and the other gateways do: with the
    records of its own projections and all records that the gateways it asks answer, newest
    first, each record once and with a value at least as new as any of the gathered ones, up
    to the limit; with its own projections alone when the request is not federated. *)
Theorem federated_view_newest limit federation data_kind endpoint key sort_keys w local :
  local_values (g_db w) data_kind = Ok local → gw_fault (g_tick w) = None →
  ∃ out w', aggregate_federated_projection_endpoint state gateway_identity limit federation data_kind
      endpoint key sort_keys w = (Ok (Answered 200 (take limit out)), w') ∧ quiet w w' ∧
    if federation_enabled federation
    then ∃ w1 remote, quiet w w1 ∧ gathered endpoint [limit_param limit] w1 remote ∧
      newest_view key (timestamp_with_fallback sort_keys) (local ++ remote) out
    else out = local.
Proof.
  intros Hl Hf. destruct (projection_values_ok _ _ _ Hl Hf) as (w1 & H1 & Hq1).
  unfold aggregate_federated_projection_endpoint. destruct (federation_enabled federation).
  - destruct (fetch_federated_arrays_ok endpoint [limit_param limit] w1) as (remote & w2 & H2 & Hq2 & Hg).
    eexists _, w2. split; [|split; [by etrans|exists w1, remote; split; [done|]; split; [done|apply sorted_view]]].
    apply respond_ok. rewrite (M_bind_run _ _ _ _ _ H1). cbn beta.
    apply M_bind_ok. eexists _, w2. split; [|done]. by rewrite (M_bind_run _ _ _ _ _ H2).
  - exists local, w1. split; [|done]. apply respond_ok. by rewrite (M_bind_run _ _ _ _ _ H1).
Qed.

(** What a board view is made of: the trusted forms of the gathered messages that pass the
    filters. *)
Definition board_candidates (query : BoardQuery) (values : list Value) : list Value :=
  filter (fun value => matches_board_filters query value = true) (trusted_board_messages values).

Lemma board_candidates_trusted `{SL : !SerdeValueLaws} query values message :
  message ∈ board_candidates query values →
  board_trusted message ∧ matches_board_filters query message = true.
Proof.
  unfold board_candidates, trusted_board_messages. rewrite list_elem_of_filter, list_elem_of_omap.
  intros [Hf (value & _ & Hv)]. split; [|done].
  destruct (trusted_board_message value) eqn:Ht; [|done]. injection Hv as <-.
  by eapply trusted_board_message_ok.
Qed.

Definition board_params (query : BoardQuery) : list (string * string) :=
  [limit_param (board_limit query)] ++ optional_param "network_id" (bq_network_id query)
    ++ optional_param "source" (bq_source query) ++ optional_param "category" (bq_category query)
    ++ optional_param "search" (bq_search query)
    ++ optional_param "service_name" (bq_service_name query)
    ++ optional_param "author_id" (bq_author_id query).

(** C21: a board shows nothing in the name of the Network Authority that it has not signed.
    Whatever the other gateways answer: when the database answers, the board is shown; each
    message that shows a world event shows the content of an announcement signed by the
    authority pinned for its network, and passes the filters of the request; and the
    messages, at most 500, are the newest of all gathered ones that can be shown, each once
    and newest first. *)
Theorem board_view_trusted `{SL : !SerdeValueLaws} query w local :
  local_values (g_db w) BoardActivity = Ok local → gw_fault (g_tick w) = None →
  ∃ remote out w1 w', public_board state gateway_identity query w = (Ok (Answered 200 out), w') ∧
    quiet w w1 ∧ quiet w w' ∧
    Forall (fun message => board_trusted message ∧ matches_board_filters query message = true) out ∧
    length out <= 500 ∧
    (if federation_enabled (bq_federation query)
     then gathered "/api/board" (board_params query) w1 remote else remote = []) ∧
    ∃ all, out = take (board_limit query) all ∧ newest_view board_message_identity_key
      (timestamp_with_fallback ["created_at"; "sequence"; "snapshot_generated_at"])
      (board_candidates query (local ++ remote)) all.
Proof.
  intros Hl Hf. destruct (projection_values_ok _ _ _ Hl Hf) as (w1 & H1 & Hq1).
  destruct (with_federated_ok (bq_federation query) "/api/board" (board_params query) local w1)
    as (remote & w2 & H2 & Hq2 & Hg).
  set (all := dedupe_values_by_key board_message_identity_key
    (sort_values_desc_by_timestamp_with_fallback ["created_at"; "sequence"; "snapshot_generated_at"]
       (board_candidates query (local ++ remote)))).
  assert (newest_view board_message_identity_key
      (timestamp_with_fallback ["created_at"; "sequence"; "snapshot_generated_at"])
      (board_candidates query (local ++ remote)) all) as Hview by apply sorted_view.
  exists remote, (take (board_limit query) all), w1, w2.
  split_and!; [|done|by etrans|..|done|by exists all].
  - apply respond_ok. rewrite (M_bind_run _ _ _ _ _ H1). cbn beta.
    by rewrite (M_bind_run _ _ _ _ _ H2).
  - apply Forall_take, Forall_forall. intros message Hm%(nv_from _ _ _ _ Hview).
    by eapply board_candidates_trusted.
  - rewrite length_take. unfold board_limit. lia.
Qed.

(** Federation does not spread.  Every request to another gateway ends with the
    parameter that asks for its own data, and a request with that parameter is answered
    without asking a registry or a gateway: the answer does not depend on what they would
    say. *)
Theorem federation_one_hop (RN' : RegistryNet) (FN' : FederationNet) :
  (∀ base_url endpoint params,
     match federated_gateway_url base_url endpoint params with
     | Some url => ∃ u, url = url_to_string (append_pair "federation" "local" u)
     | None => True
     end) ∧
  network_status state gateway_identity (Some "local") =
    network_status (RN:=RN') (FN:=FN') state gateway_identity (Some "local") ∧
  ∀ limit network_id hive_id topic_id organization_id source category search service_name author_id,
  let list := {| lq_limit := limit; lq_federation := Some "local" |} in
  let hives := {| tq_limit := limit; tq_network_id := network_id; tq_hive_id := hive_id;
                  tq_topic_id := topic_id; tq_organization_id := organization_id;
                  tq_federation := Some "local" |} in
  let board := {| bq_limit := limit; bq_network_id := network_id; bq_source := source;
                  bq_category := category; bq_search := search; bq_service_name := service_name;
                  bq_author_id := author_id; bq_federation := Some "local" |} in
  peers state gateway_identity list = peers (RN:=RN') (FN:=FN') state gateway_identity list ∧
  network_nodes state gateway_identity list =
    network_nodes (RN:=RN') (FN:=FN') state gateway_identity list ∧
  missions state gateway_identity list = missions (RN:=RN') (FN:=FN') state gateway_identity list ∧
  leaderboard state gateway_identity list =
    leaderboard (RN:=RN') (FN:=FN') state gateway_identity list ∧
  public_hives state gateway_identity hives =
    public_hives (RN:=RN') (FN:=FN') state gateway_identity hives ∧
  public_board state gateway_identity board =
    public_board (RN:=RN') (FN:=FN') state gateway_identity board.
Proof.
  split; [|split; [done|intros; by split_and!]].
  intros base_url endpoint params. unfold federated_gateway_url.
  destruct (is_empty _); [done|]. destruct (url_parse _); [|done]. by eexists.
Qed.
End federation.

(** ** Members of a hive *)

Section members.
Context `{SV : SerdeValue, PE : !PublicEnv}.
Implicit Types (values : list Value) (latest : gmap string Subscription).

(** The route, the subscriber, the state and the time of a subscription. *)
Definition subscription_of (value : Value) : option (string * string * bool * Z) :=
  route_key ← hive_route_key value;
  subscriber ← string_field value "subscriber_node_id";
  Some (route_key, subscriber, default false (value_get value "active" ≫= as_bool),
        numeric_timestamp value ["updated_at"; "snapshot_generated_at"]).

(** The last of the newest subscriptions of a subscriber has this state and time. *)
Definition decided_by values (route subscriber : string) (active : bool) (time : Z) : Prop :=
  ∃ before v after, values = before ++ v :: after ∧
    subscription_of v = Some (route, subscriber, active, time) ∧
    (∀ u a t, u ∈ before → subscription_of u = Some (route, subscriber, a, t) → (t <= time)%Z) ∧
    (∀ u a t, u ∈ after → subscription_of u = Some (route, subscriber, a, t) → (t < time)%Z).

Definition subscribed values (route subscriber : string) : Prop :=
  ∃ time, decided_by values route subscriber true time.

(** No subscriber id has the separator of the keys. *)
Definition separable values : Prop :=
  ∀ v route subscriber active time, v ∈ values →
    subscription_of v = Some (route, subscriber, active, time) →
    has_char (Ascii.ascii_of_nat 31) subscriber = false.

Definition subscription_key (route subscriber : string) : string :=
  route +:+ unit_separator +:+ subscriber.

Lemma subscription_key_inj r s r' s' :
  has_char (Ascii.ascii_of_nat 31) s = false → has_char (Ascii.ascii_of_nat 31) s' = false →
  subscription_key r s = subscription_key r' s' → r = r' ∧ s = s'.
Proof.
  intros Hs Hs' H. apply (f_equal (rsplit_once (Ascii.ascii_of_nat 31))) in H.
  unfold subscription_key, unit_separator in H. cbn [String.append] in H.
  rewrite !rsplit_once_app in H by done. by injection H.
Qed.

Lemma add_subscription_spec latest v :
  add_subscription latest v =
  match subscription_of v with
  | None => latest
  | Some (r, s, a, t) =>
      match latest !! subscription_key r s with
      | Some (_, _, t') => if (t' <=? t)%Z then <[subscription_key r s := (r, a, t)]> latest else latest
      | None => <[subscription_key r s := (r, a, t)]> latest
      end
  end.
Proof.
  unfold add_subscription, subscription_of, subscription_key.
  destruct (hive_route_key v) as [r|]; [|done]. cbn.
  destruct (string_field v "subscriber_node_id") as [s|]; [|done]. cbn.
  by destruct (latest !! _) as [[[] ?]|].
Qed.

Abbreviation separated s := (has_char (Ascii.ascii_of_nat 31) s = false).

Record latest_ok values latest : Prop := {
  lk_decided r s r' a t : separated s → latest !! subscription_key r s = Some (r', a, t) →
    r' = r ∧ decided_by values r s a t;
  lk_absent r s v a t : separated s → latest !! subscription_key r s = None → v ∈ values →
    subscription_of v ≠ Some (r, s, a, t);
  lk_keys k e : latest !! k = Some e → ∃ r s, separated s ∧ k = subscription_key r s;
}.

(** A later value that is about another subscriber, or older, decides nothing. *)
Lemma decided_snoc values v r s a t :
  decided_by values r s a t →
  (∀ a' t', subscription_of v = Some (r, s, a', t') → (t' < t)%Z) →
  decided_by (values ++ [v]) r s a t.
Proof.
  intros (before & u & after & -> & Hu & Hb & Ha) Hv. exists before, u, (after ++ [v]).
  rewrite <- app_assoc. split; [done|]. split; [done|]. split; [done|].
  intros x a' t' [Hx| ->%list_elem_of_singleton]%elem_of_app; [by eapply Ha|by apply Hv].
Qed.

Lemma decided_bound values r s a t v a' t' :
  decided_by values r s a t → v ∈ values → subscription_of v = Some (r, s, a', t') → (t' <= t)%Z.
Proof.
  intros (before & u & after & -> & Hu & Hb & Ha) [Hv|[->|Hv]%elem_of_cons]%elem_of_app Hs.
  - by eapply Hb.
  - simplify_eq. lia.
  - apply Z.lt_le_incl. by eapply Ha.
Qed.

Lemma latest_same values latest v :
  latest_ok values latest →
  (∀ r s a t, subscription_of v = Some (r, s, a, t) →
     ∃ r' a' t', latest !! subscription_key r s = Some (r', a', t') ∧ (t < t')%Z) →
  separable (values ++ [v]) → latest_ok (values ++ [v]) latest.
Proof.
  intros [Hd Ha Hk] Hold Hsep. split; [|..|done].
  - intros r s r' a t Hs Hl. destruct (Hd _ _ _ _ _ Hs Hl) as [-> Hdec]. split; [done|].
    apply decided_snoc; [done|]. intros a' t' (r2 & a2 & t2 & Hl2 & Hlt)%Hold. by simplify_eq.
  - intros r s u a t Hs Hl [Hu| ->%list_elem_of_singleton]%elem_of_app; [by apply Ha|].
    intros (r2 & a2 & t2 & Hl2 & _)%Hold. congruence.
Qed.

Lemma latest_replaced values latest v r s a t :
  latest_ok values latest → separable (values ++ [v]) → subscription_of v = Some (r, s, a, t) →
  (∀ r' a' t', latest !! subscription_key r s = Some (r', a', t') → (t' <= t)%Z) →
  latest_ok (values ++ [v]) (<[subscription_key r s := (r, a, t)]> latest).
Proof.
  intros [Hd Ha Hk] Hsep Hv Hnew.
  assert (separated s) as Hs by (eapply Hsep, Hv; apply elem_of_app; right; by left).
  split.
  - intros r1 s1 r' a1 t1 Hs1 [[Hkey Heq]|[Hkey Hl]]%lookup_insert_Some.
    + apply subscription_key_inj in Hkey as [<- <-]; [|done..]. simplify_eq. split; [done|].
      exists values, v, []. split; [done|]. split; [done|]. split; [|by intros ??? ?%elem_of_nil].
      intros u a' t' Hu Hsub. destruct (latest !! subscription_key r' s) as [[[r2 a2] t2]|] eqn:Hl.
      * destruct (Hd _ _ _ _ _ Hs Hl) as [-> Hdec]. etrans; [by eapply decided_bound|by eapply Hnew].
      * by destruct (Ha _ _ _ _ _ Hs Hl Hu Hsub).
    + destruct (Hd _ _ _ _ _ Hs1 Hl) as [-> Hdec]. split; [done|].
      apply decided_snoc; [done|]. intros a' t' Hsub. simplify_eq.
  - intros r1 s1 u a1 t1 Hs1 [Hl Hkey]%lookup_insert_None [Hu| ->%list_elem_of_singleton]%elem_of_app;
      [by apply Ha|]. rewrite Hv. by intros [= <- <- _ _].
  - intros k e [[<- _]|[_ Hl]]%lookup_insert_Some; [by exists r, s|by eapply Hk].
Qed.

Lemma latest_spec values : separable values → latest_ok values (foldl add_subscription ∅ values).
Proof.
  induction values as [|v values IH] using rev_ind; intros Hsep.
  { split; intros *; rewrite ?lookup_empty; try done. intros _ _ ?%elem_of_nil. done. }
  assert (separable values) as Hsep'.
  { intros u r s a t Hu. apply Hsep, elem_of_app. by left. }
  specialize (IH Hsep'). rewrite foldl_snoc, add_subscription_spec.
  set (latest := foldl add_subscription ∅ values) in *.
  destruct (subscription_of v) as [[[[r s] a] t]|] eqn:Hv.
  2:{ apply latest_same; [done|by intros; simplify_eq|done]. }
  destruct (latest !! subscription_key r s) as [[[r2 a2] t2]|] eqn:Hl.
  - destruct (Z.leb_spec t2 t).
    + apply latest_replaced; [done..|]. intros. by simplify_eq.
    + apply latest_same; [done| |done]. intros r1 s1 a1 t1 Hs1. simplify_eq. by eexists _, _, _.
  - apply latest_replaced; [done..|]. intros. congruence.
Qed.

Definition counted (route : string) (e : Subscription) : Prop := e.1.1 = route ∧ e.1.2 = true.

Global Instance counted_dec route e : Decision (counted route e).
Proof. unfold counted. apply _. Defined.

Lemma count_subscription_spec route (entries : list Subscription) counts :
  default 0 (foldl count_subscription counts entries !! route) =
  default 0 (counts !! route) + length (filter (counted route) entries).
Proof.
  revert counts. induction entries as [|[[r a] t] entries IH]; intros counts; [cbn; lia|].
  cbn [foldl]. rewrite IH, filter_cons. unfold count_subscription, counted. cbn [fst snd].
  destruct a, (decide (r = route)) as [->|Hne]; cbn [andb].
  - rewrite lookup_insert_eq, decide_True by done. cbn. lia.
  - rewrite lookup_insert_ne, decide_False by (done || by intros [? ?]). done.
  - rewrite decide_False by (by intros [? ?]). done.
  - rewrite decide_False by (by intros [? ?]). done.
Qed.

(** The subscribers behind the counted entries of a route. *)
Definition route_members latest (route : string) : list string :=
  (fun ke => from_option snd "" (rsplit_once (Ascii.ascii_of_nat 31) ke.1)) <$>
    filter (fun ke => counted route ke.2) (map_to_list latest).

Lemma route_members_key values latest route k e :
  latest_ok values latest → (k, e) ∈ filter (fun ke => counted route ke.2) (map_to_list latest) →
  ∃ s time, separated s ∧ k = subscription_key route s ∧ decided_by values route s true time ∧
    from_option snd "" (rsplit_once (Ascii.ascii_of_nat 31) k) = s.
Proof.
  intros Hok [[Hr Ha] Hl%elem_of_map_to_list]%list_elem_of_filter. cbn in *.
  destruct (lk_keys _ _ Hok _ _ Hl) as (r & s & Hs & ->). destruct e as [[r' a] t]. cbn in *. subst.
  destruct (lk_decided _ _ Hok _ _ _ _ _ Hs Hl) as [-> Hd]. exists s, t.
  split; [done|]. split; [done|]. split; [done|].
  unfold subscription_key, unit_separator. cbn [String.append]. by rewrite rsplit_once_app.
Qed.

Lemma route_members_nodup values latest route :
  latest_ok values latest → NoDup (route_members latest route).
Proof.
  intros Hok. apply NoDup_fmap_2_strong; [|apply NoDup_filter, NoDup_map_to_list].
  intros [k e] [k' e'] Hx Hy Heq. cbn in Heq.
  pose proof (route_members_key _ _ _ _ _ Hok Hx) as (s & t & _ & Hk & _ & Hs).
  pose proof (route_members_key _ _ _ _ _ Hok Hy) as (s' & t' & _ & Hk' & _ & Hs').
  assert (k = k') as -> by congruence.
  apply list_elem_of_filter in Hx as [_ Hx%elem_of_map_to_list].
  apply list_elem_of_filter in Hy as [_ Hy%elem_of_map_to_list]. congruence.
Qed.

Lemma split_cases {A} (b1 a1 b2 a2 : list A) v1 v2 :
  b1 ++ v1 :: a1 = b2 ++ v2 :: a2 → v1 = v2 ∨ (v1 ∈ b2 ∧ v2 ∈ a1) ∨ (v2 ∈ b1 ∧ v1 ∈ a2).
Proof.
  revert b2. induction b1 as [|x b1 IH]; intros [|y b2]; cbn; intros [= -> H].
  - by left.
  - right. left. split; [by left|]. rewrite H. apply elem_of_app. right. by left.
  - right. right. split; [by left|]. rewrite <- H. apply elem_of_app. right. by left.
  - destruct (IH _ H) as [?|[[? ?]|[? ?]]]; [by left|right; left|right; right]; split; (done || by right).
Qed.

Lemma decided_unique values r s a t a' t' :
  decided_by values r s a t → decided_by values r s a' t' → a = a'.
Proof.
  intros (b1 & v1 & a1 & -> & Hv1 & Hb1 & Ha1) (b2 & v2 & a2 & Heq & Hv2 & Hb2 & Ha2).
  destruct (split_cases _ _ _ _ _ _ Heq) as [->|[[H1 H2]|[H1 H2]]]; [congruence|exfalso..].
  - pose proof (Hb2 _ _ _ H1 Hv1). pose proof (Ha1 _ _ _ H2 Hv2). lia.
  - pose proof (Hb1 _ _ _ H1 Hv2). pose proof (Ha2 _ _ _ H2 Hv1). lia.
Qed.

Lemma route_members_spec values latest route s :
  latest_ok values latest → separable values →
  s ∈ route_members latest route ↔ subscribed values route s.
Proof.
  intros Hok Hsep. unfold route_members. rewrite list_elem_of_fmap. split.
  - intros ([k e] & -> & Hin).
    destruct (route_members_key _ _ _ _ _ Hok Hin) as (s & t & _ & _ & Hd & Heq).
    exists t. cbn. by rewrite Heq.
  - intros [t Hd].
    assert (∃ v, v ∈ values ∧ subscription_of v = Some (route, s, true, t)) as (v & Hv & Hsub).
    { destruct Hd as (before & v & after & -> & Hv & _). exists v. split; [|done].
      apply elem_of_app. right. by left. }
    pose proof (Hsep _ _ _ _ _ Hv Hsub) as Hs.
    destruct (latest !! subscription_key route s) as [[[r a] t']|] eqn:Hl;
      [|by destruct (lk_absent _ _ Hok _ _ _ _ _ Hs Hl Hv Hsub)].
    destruct (lk_decided _ _ Hok _ _ _ _ _ Hs Hl) as [-> Hd'].
    pose proof (decided_unique _ _ _ _ _ _ _ Hd Hd') as <-.
    exists (subscription_key route s, (route, true, t')). cbn. split.
    + unfold subscription_key, unit_separator. cbn [String.append]. by rewrite rsplit_once_app.
    + apply list_elem_of_filter. split; [done|by apply elem_of_map_to_list].
Qed.

(** C30: the member count of a hive is the number of its members.  A member is a subscriber
    whose latest subscription of the route is an active one, the last of them where two have
    the same time; each is counted once, however many of its subscriptions there are.  This
    needs the ids of the subscribers to be free of the separator U+001F, by which the code
    joins route and subscriber ([separator_collision] shows what happens otherwise). *)
Theorem hive_member_counts_exact values route :
  separable values →
  ∃ members : gset string, (∀ s, s ∈ members ↔ subscribed values route s) ∧
    default 0 (hive_member_counts values !! route) = size members.
Proof.
  intros Hsep. pose proof (latest_spec values Hsep) as Hok.
  set (latest := foldl add_subscription ∅ values) in *.
  exists (list_to_set (route_members latest route)). split.
  - intros s. rewrite elem_of_list_to_set. by apply (route_members_spec values).
  - rewrite size_list_to_set by (by eapply route_members_nodup). unfold hive_member_counts.
    rewrite count_subscription_spec. unfold route_members. rewrite length_fmap. fold latest.
    rewrite lookup_empty. cbn. induction (map_to_list latest) as [|[k e] l IH]; [done|].
    cbn [fmap list_fmap]. rewrite !filter_cons. cbn [snd]. destruct (decide (counted route e)); cbn; lia.
Qed.
End members.

(** ** Network status *)

Section status.
Context `{SV : SerdeValue, PE : !PublicEnv}.

(** The names that the statuses give, without blanks. *)
Definition names_given (statuses : list Value) (key : string) : list string :=
  filter (fun value => is_empty value = false)
    (trim <$> omap (fun status => value_get status key ≫= as_str) statuses).

(** All names are [name], and there is one. *)
Definition agreed (name : string) (names : list string) : Prop :=
  names ≠ [] ∧ ∀ other, other ∈ names → other = name.

Global Instance agreed_proper name : Proper ((≡ₚ) ==> iff) (agreed name).
Proof.
  assert (∀ l l' : list string, l ≡ₚ l' → agreed name l → agreed name l') as Himp.
  { intros l l' Hp [Hne H]. split; [|intros other Ho; apply H; by rewrite Hp].
    intros ->. by apply Permutation_nil_r in Hp. }
  intros l l' Hp. split; by apply Himp.
Qed.

Lemma dedup_sorted_single (l : list string) name : dedup l = [name] ↔ agreed name l.
Proof.
  unfold agreed. induction l as [|a l IH]; [cbn; naive_solver|]. cbn [dedup].
  destruct l as [|b l].
  - split; [intros [= ->]; split; [done|by intros ? ->%list_elem_of_singleton]|].
    intros [_ H]. f_equal. apply H. by left.
  - case_bool_decide as Hab.
    + subst. rewrite IH. split; intros [_ H]; (split; [done|]).
      * intros other [->|Ho]%elem_of_cons; apply H; [by left|done].
      * intros other Ho. apply H. by right.
    + split.
      * intros [= -> Hd]. by destruct (dedup_nonempty (b :: l) ltac:(done)).
      * intros [_ H]. destruct Hab. rewrite (H a), (H b); [done|right; by left|by left].
Qed.

Lemma shared_string_spec values :
  let names := filter (fun value => is_empty value = false) (trim <$> values) in
  (∃ name, shared_string values = VString name ∧ agreed name names) ∨
  (shared_string values = VNull ∧ ∀ name, ¬ agreed name names).
Proof.
  intros names. unfold shared_string. fold names.
  assert (∀ name, agreed name (merge_sort str_le names) ↔ agreed name names) as Hperm.
  { intros name. by rewrite (merge_sort_Permutation str_le names). }
  destruct (dedup (merge_sort str_le names)) as [|name [|other rest]] eqn:Hd.
  - right. split; [done|]. intros name Ha%Hperm%dedup_sorted_single. congruence.
  - left. exists name. split; [done|]. by apply Hperm, dedup_sorted_single.
  - right. split; [done|]. intros n Ha%Hperm%dedup_sorted_single. congruence.
Qed.

Definition name_keys : list string := ["network_id"; "network_name"; "network_org_name"].

(** C32: the status of a federation is well formed and states no name that is in dispute.
    Whatever the other gateways answer, the merged status is an object whose counts are
    64-bit numbers, the sums of the counts of all statuses as long as these fit, whose names
    are the ones on which all statuses that give one agree and null when there is no such
    name, and which keeps every other field of the gateway's own status but the time. *)
Theorem merged_status_typed now local object remotes :
  as_object local = Some object →
  ∃ merged, merge_network_status_values now local remotes = VObject merged ∧
    (∀ key, key ∈ count_keys → ∃ n, merged !! key = Some (VNumber n) ∧ is_u64 n ∧
       let counts := (fun status => default 0%Z (value_get status key ≫= number_u64))
                       <$> local :: remotes in
       (is_u64 (foldr Z.add 0%Z counts) → n = foldr Z.add 0%Z counts)) ∧
    (∀ key, key ∈ name_keys → ∃ v, merged !! key = Some v ∧
       ((∃ name, v = VString name ∧ agreed name (names_given (local :: remotes) key)) ∨
        (v = VNull ∧ ∀ name, ¬ agreed name (names_given (local :: remotes) key)))) ∧
    merged !! "federated_gateways" = Some (VNumber (Z.of_nat (length remotes))) ∧
    (∀ key, key ∉ count_keys → key ∉ name_keys → key ∉ ["federated_gateways"; "updated_at"] →
       merged !! key = object !! key).
Proof.
  intros Ho. unfold merge_network_status_values, on_object. rewrite Ho. eexists. split; [done|].
  cbn [foldl count_keys]. split_and!.
  - intros key Hk. exists (summed (local :: remotes) key). split; [|split; [apply as_u64_range|]].
    + unfold count_keys in Hk.
      repeat (apply elem_of_cons in Hk as [->|Hk]; [by simplify_map_eq|]). by apply elem_of_nil in Hk.
    + intros Hc. by apply as_u64_small.
  - intros key Hk. exists (single_shared_status_string (local :: remotes) key). split.
    + unfold name_keys in Hk.
      repeat (apply elem_of_cons in Hk as [->|Hk]; [by simplify_map_eq|]). by apply elem_of_nil in Hk.
    + apply shared_string_spec.
  - simplify_map_eq. by rewrite Nat.sub_0_r.
  - intros key Hc Hn Hf. unfold count_keys, name_keys in *. rewrite !not_elem_of_cons in *.
    destruct_and!. by rewrite !lookup_insert_ne by done.
Qed.
End status.

(** ** A federation of two gateways *)

Section samples.
Local Existing Instances json_impl_value ui_event_json_impl frozen_gw_host codec_impl hex_impl
  signatures_impl signing_impl manifest_text space_codec_impl signed_records_impl space_env_impl
  gw_net_impl registry_net_impl json_impl_value_laws.

Definition byte_collation : PgCollation := {| text_leb := String.leb |}.

(** A [URL] is its text; an [f64] is an integer. *)
Definition public_env_impl : PublicEnv := {|
  number_i64 v := match v with JNumber n => Some n | _ => None end;
  number_u64 v := match v with JNumber n => if (0 <=? n)%Z then Some n else None | _ => None end;
  as_bool v := match v with JBool b => Some b | _ => None end;
  F64 := Z;
  as_f64 v := match v with JNumber n => Some n | _ => None end;
  f64_contains lower upper x := (lower <=? x)%Z && (x <=? upper)%Z;
  value_to_string v := Ok "";
  parse_rfc3339 s := None;
  Url := string;
  url_parse s := Some s;
  append_pair key value url := url +:+ "&" +:+ key +:+ "=" +:+ value;
  url_to_string url := url;
  runtime_info := {|
    gi_peer_id := "peer"; gi_listen_addrs := []; gi_transport_capabilities := JNull;
    gi_transport_contact_material := None; gi_nat_status := "unknown"; gi_nat_public_address := None;
    gi_nat_confidence := 0; gi_relay_reservations := []; gi_peer_health := [] |};
|}.
Local Existing Instances byte_collation public_env_impl.

Definition board_message (id : string) (created_at : Z) (fields : list (string * json)) : json :=
  json_object ([("message_id", JString id); ("created_at", JNumber created_at)] ++ fields).

(** The other gateway answers with a message, an older version of it, one that claims a
    world event without an announcement and one with a forged announcement. *)
Definition forging_gateway : FederationNet := fun _ _ => Some (JArray [
  board_message "m1" 1 []; board_message "m1" 5 [];
  board_message "m2" 3 [("world_event", JString "party")];
  board_message "m3" 4 [("global_kind", JString "EventAnnouncement")]]).
Local Existing Instance forging_gateway.

Definition federated_identity : GatewayIdentity := {|
  id_gateway_id := "gw"; id_display_name := "Gateway"; id_base_url := "https://own";
  id_region := None; id_operator_did := None; id_roles := []; id_supported_endpoints := [];
  id_federation_mode := Trusted; id_federation_peers := ["https://peer/"; "https://own/"];
  id_allows_public_ingest := true; id_signing_key := fit 32 "gateway" |}.

Definition every_message : BoardQuery := {|
  bq_limit := None; bq_network_id := None; bq_source := None; bq_category := None; bq_search := None;
  bq_service_name := None; bq_author_id := None; bq_federation := None |}.

Lemma database_answers : gw_fault (g_tick (gw_world empty_gw_db)) = None.
Proof. reflexivity. Qed.

Lemma no_board_messages : local_values (g_db (gw_world empty_gw_db)) BoardActivity = Ok [].
Proof. vm_compute. reflexivity. Qed.

Lemma no_missions : local_values (g_db (gw_world empty_gw_db)) TaskSummary = Ok [].
Proof. vm_compute. reflexivity. Qed.

Lemma board_view_trusted_witness :
  let run := public_board sample_app_state (Some federated_identity) every_message
               (gw_world empty_gw_db) in
  ∃ out, run.1 = Ok (Answered 200 out) ∧
    out = [board_message "m1" 5 []; board_message "m2" 3 []] ∧ Forall board_trusted out.
Proof.
  intros run.
  destruct (board_view_trusted sample_app_state (Some federated_identity) every_message
    (gw_world empty_gw_db) [] no_board_messages database_answers) as (remote & out & w1 & w' & H & _ & _ & Hall & _).
  exists out. split; [unfold run; rewrite H; reflexivity|]. split.
  - assert (run.1 = Ok (Answered 200 [board_message "m1" 5 []; board_message "m2" 3 []])) as Hrun
      by (vm_compute; reflexivity).
    unfold run in Hrun. rewrite H in Hrun. apply (answered_inj Hrun).
  - apply (Forall_impl _ _ _ Hall). intros message Hm. apply Hm.
Defined.

Lemma federated_view_newest_witness :
  ∃ out w', missions sample_app_state (Some federated_identity)
      {| lq_limit := Some 3; lq_federation := None |} (gw_world empty_gw_db)
      = (Ok (Answered 200 (take 3 out)), w').
Proof.
  destruct (federated_view_newest sample_app_state (Some federated_identity) 3 None TaskSummary
    "/api/missions" mission_identity_key ["updated_at"; "created_at"; "snapshot_generated_at"]
    (gw_world empty_gw_db) [] no_missions database_answers) as (out & w' & H & _).
  exists out, w'. exact H.
Defined.

Definition subscription_on (scope subscriber : string) (active : bool) (updated_at : Z) : json :=
  json_object [
    ("feed_key", JString "feed"); ("scope_hint", JString scope);
    ("subscriber_node_id", JString subscriber); ("active", JBool active);
    ("updated_at", JNumber updated_at)].

Definition subscription : string -> bool -> Z -> json := subscription_on "scope".

(** A subscriber whose id has the separator loses its place to the subscriber of another
    hive: the two subscriptions have one key, so the member of [s] is no longer counted. *)
Example separator_collision :
  let values := [subscription_on "s" ("x" +:+ unit_separator +:+ "y") true 1;
                 subscription_on ("s" +:+ unit_separator +:+ "x") "y" true 2] in
  let route := unit_separator +:+ "feed" +:+ unit_separator +:+ "s" in
  subscribed values route ("x" +:+ unit_separator +:+ "y") ∧
  hive_member_counts values !! route = None.
Proof.
  intros values route. split; [|vm_compute; reflexivity].
  exists 1%Z, [], (subscription_on "s" ("x" +:+ unit_separator +:+ "y") true 1),
    [subscription_on ("s" +:+ unit_separator +:+ "x") "y" true 2].
  split; [reflexivity|]. split; [vm_compute; reflexivity|]. split.
  - intros u a t Hu. by apply elem_of_nil in Hu.
  - intros u a t Hu%list_elem_of_singleton Hs. subst u. vm_compute in Hs. discriminate Hs.
Qed.

Lemma hive_member_counts_exact_witness :
  let values := [subscription "a" true 1; subscription "b" true 1; subscription "b" false 2;
                 subscription "a" true 3] in
  let route := unit_separator +:+ "feed" +:+ unit_separator +:+ "scope" in
  hive_member_counts values !! route = Some 1 ∧
  ∃ members : gset string, size members = 1 ∧ ∀ s, s ∈ members ↔ subscribed values route s.
Proof.
  intros values route. split; [vm_compute; reflexivity|].
  destruct (hive_member_counts_exact (SV:=json_impl_value) values route) as (members & Hm & Hs).
  - unfold separable, values. intros v r s a t Hv Hsub.
    repeat (apply elem_of_cons in Hv as [->|Hv];
      [vm_compute in Hsub; injection Hsub as _ <- _ _; reflexivity|]).
    by apply elem_of_nil in Hv.
  - exists members. split; [rewrite <- Hs; vm_compute; reflexivity|exact Hm].
Defined.

Definition own_status : json := JObject {["nodes" := JNumber 2]}.
Definition other_status : json :=
  JObject (<["network_id" := JString "a"]> {["nodes" := JNumber 3]}).

Lemma merged_status_typed_witness :
  ∃ merged, merge_network_status_values "now" own_status [other_status] = VObject merged ∧
    merged !! "federated_gateways" = Some (VNumber 1).
Proof.
  destruct (merged_status_typed (SV:=json_impl_value) "now" own_status {["nodes" := JNumber 2]}
    [other_status] eq_refl) as (merged & H & _ & _ & Hf & _).
  exists merged. split; [exact H|exact Hf].
Defined.
End samples.
