(* ===== verification/Sources.v ===== *)
(** * Sources that the gateway pulls from

    Models the handlers of [crates/gateway/src/http.rs] on node sources (registration, the
    list of nodes and the synchronisation, which fetches the snapshot of each source) and
    [crates/gateway/src/collectors.rs], which collects the read models of a source's local
    node.  The HTTP client, the peer-to-peer fetch and the codecs of transport records are
    interfaces. *)

From S2P Require Import Prelude Str External GwValue Contracts GwModels Verify Identity UiHub GwDb GwStore Normalize Space ReadModels Ingest Registry PublicApi.

(** ** Records *)

Record RegisterNodeResponse := {
  nd_source_id : string;
  nd_name : string;
  nd_export_url : string;
  nd_source_status : SourceStatus;
}.

Record SyncResult := {
  yr_source_id : option string;
  yr_node_id : string;
  yr_signer_agent_did : string;
  yr_generated_at : Z;
  yr_sync_status : string;
  yr_wattswarm_collect_error : option string;
}.

Record WattswarmNetworkProjectionSnapshot `{PE : PublicEnv} := {
  wn_generated_at : Z;
  wn_node_id : string;
  wn_display_name : string;
  wn_org_id : string;
  wn_network_id : string;
  wn_running : bool;
  wn_mode : string;
  wn_latitude : option F64;
  wn_longitude : option F64;
  wn_peer_protocol_distribution : gmap string Z;
  wn_peers : list string;
}.

Record WattswarmTopicMessageView `{SV : SerdeValue} := {
  wm_message_id : string;
  wm_network_id : string;
  wm_feed_key : string;
  wm_scope_hint : string;
  wm_author_node_id : string;
  wm_content : Value;
  wm_reply_to_message_id : option string;
  wm_created_at : Z;
}.

(** The fields that are read; the others are decoded and dropped. *)
Record WattswarmTopicActivitySnapshot `{SV : SerdeValue} := {
  wa_generated_at : Z;
  wa_messages : list WattswarmTopicMessageView;
}.

Record WattswarmTopicSubscriptionRow := {
  ws_network_id : string;
  ws_subscriber_node_id : string;
  ws_feed_key : string;
  ws_scope_hint : string;
  ws_active : bool;
  ws_updated_at : Z;
}.

Record WattswarmTopicSubscriptionSnapshot := {
  wt_generated_at : Z;
  wt_network_id : string;
  wt_subscriptions : list WattswarmTopicSubscriptionRow;
}.

(** The intents that are named, with their size and whether they need a stream. *)
Inductive TransferKind := ControlMessage | BackfillChunk | ArtifactBlob | CheckpointSnapshot.

Record TransferIntent := {
  ti_kind : TransferKind;
  ti_payload_bytes : Z;
  ti_requires_streaming : bool;
}.

Class SourceNet `{PE : PublicEnv} := {
  (** The transport records of a source, as they are sent and as JSON. *)
  Capabilities : Type;
  ContactMaterial : Type;
  capabilities_to_value : Capabilities -> result string Value;
  contact_to_value : ContactMaterial -> result string Value;
  (** [TransportRouter::select(..).as_str()] for stored capabilities. *)
  select_route : TransferIntent -> Value -> string;
  (** The JSON of an [f64] and of a [DateTime<Utc>]. *)
  f64_value : F64 -> Value;
  datetime_value : Z -> Value;
  (** [fetch_signed_snapshot_via_iroh] with a stored contact. *)
  fetch_via_iroh : nat -> Value -> string -> result string SignedPublicClientSnapshot;
  (** [NodeClient::fetch_json] at the three types it is used at. *)
  fetch_network : nat -> string -> result string WattswarmNetworkProjectionSnapshot;
  fetch_activity : nat -> string -> list (string * string) ->
    result string WattswarmTopicActivitySnapshot;
  fetch_subscriptions : nat -> string -> list (string * string) ->
    result string WattswarmTopicSubscriptionSnapshot;
}.

Record RegisterNodeRequest `{SN : SourceNet} := {
  rn_name : string;
  rn_export_url : option string;
  rn_wattetheria_snapshot_export_url : option string;
  rn_wattetheria_events_export_url : option string;
  rn_wattswarm_ui_base_url : option string;
  rn_wattswarm_sync_grpc_endpoint : option string;
  rn_region : option string;
  rn_expected_signer_agent_did : option string;
  rn_expected_wattswarm_node_id : option string;
  rn_source_status : option SourceStatus;
  rn_transport_capabilities : option Capabilities;
  rn_transport_contact_material : option ContactMaterial;
}.

(** [i64::try_from(n).unwrap_or(i64::MAX)] of a [u64]. *)
Definition i64_or_max (n : Z) : Z := Z.min n i64_max.

(** [.map(str::trim).filter(|value| !value.is_empty())] *)
Definition trimmed (value : option string) : option string := (trim <$> value) ≫= non_empty.

Definition source_status_name (status : SourceStatus) : string :=
  match status with
  | SourceActive => "active"
  | SourceSuspended => "suspended"
  | SourceRejected => "rejected"
  end.

Definition topic_subscription_identity (subscription : WattswarmTopicSubscriptionRow) : string :=
  ws_network_id subscription +:+ unit_separator +:+ ws_feed_key subscription +:+ unit_separator
    +:+ ws_scope_hint subscription +:+ unit_separator +:+ ws_subscriber_node_id subscription.

Section sources.
Context `{UJ : UiEventJson, GH : GwHost, SC : !SpaceCodec, SI : Signatures, SR : !SignedRecords,
          HX : Hex, SE : SpaceEnv, CC : ContractCodec, PC : PgCollation, GN : !GwNet,
          PE : !PublicEnv, SN : !SourceNet}.

(** ** Registration *)

(** [.map(serde_json::to_value).transpose().unwrap_or(None)] *)
Definition value_or_none {A} (to_value : A -> result string Value) (a : option A) : option Value :=
  a ≫= fun a => match to_value a with Ok v => Some v | Err _ => None end.

Definition new_source (source_id export_url : string) (body : RegisterNodeRequest) (now : Z) :
    NodeSourceRow := {|
  so_id := source_id;
  so_name := trim (rn_name body);
  so_export_url := export_url;
  so_wattetheria_snapshot_export_url := Some export_url;
  so_wattetheria_events_export_url := trimmed (rn_wattetheria_events_export_url body);
  so_wattswarm_ui_base_url := trimmed (rn_wattswarm_ui_base_url body);
  so_wattswarm_sync_grpc_endpoint := trimmed (rn_wattswarm_sync_grpc_endpoint body);
  so_region := rn_region body;
  so_expected_signer_agent_did := rn_expected_signer_agent_did body;
  so_expected_wattswarm_node_id := rn_expected_wattswarm_node_id body;
  so_source_status := source_status_name (default SourceActive (rn_source_status body));
  so_created_at := now;
  so_updated_at := now;
  so_last_sync_at := None;
  so_last_sync_status := None;
  so_last_error := None;
  so_transport_capabilities := value_or_none capabilities_to_value (rn_transport_capabilities body);
  so_transport_contact_material :=
    value_or_none contact_to_value (rn_transport_contact_material body) |}.

Definition register_node (state : AppState) (body : RegisterNodeRequest) :
    G (Reply RegisterNodeResponse) :=
  let snapshot_export_url :=
    trimmed (or_else (rn_wattetheria_snapshot_export_url body) (rn_export_url body)) in
  match snapshot_export_url with
  | Some export_url =>
      if is_blank (rn_name body)
      then mret (Refused 400 "name and a wattetheria snapshot export URL are required")
      else
        source_id ← gnew_v4;
        outcome ← attempt (insert_node_source (new_source source_id export_url body));
        match outcome with
        | Err error => mret (Refused 400 error)
        | Ok _ =>
            timestamp ← now_rfc3339;
            _ ← announce_on_bus state "gateway.node.registered" (json_object [
                  ("event", VString "gateway.node.registered");
                  ("source_id", VString source_id);
                  ("name", VString (trim (rn_name body)));
                  ("export_url", VString export_url);
                  ("region", json_opt VString (rn_region body));
                  ("timestamp", VString timestamp)]);
            mret (Answered 201 {|
              nd_source_id := source_id; nd_name := rn_name body; nd_export_url := export_url;
              nd_source_status := default SourceActive (rn_source_status body) |})
        end
  | None => mret (Refused 400 "name and a wattetheria snapshot export URL are required")
  end.

(** ** Collected read models *)

Definition persist_projection (data_kind : DataKind) (identity_key source_node_id source_id : string)
    (generated_at : Z) (payload : Value) : G () :=
  data_kind_string ← lift (data_kind_name data_kind);
  upsert_projection_row {|
    up_data_kind := data_kind_string; up_identity_key := identity_key;
    up_source_node_id := source_node_id; up_source_id := Some source_id;
    up_generated_at := generated_at; up_visibility := "public"; up_payload := payload;
    up_provenance := json_object [
      ("source_node_id", VString source_node_id); ("source_cursor_or_seq", VNull);
      ("ingest_path", VString "wattswarm_pull"); ("last_confirmed_at", VNumber generated_at);
      ("last_provisional_at", VNull)] |}.

Definition persist_network_projection (source : NodeSourceRow)
    (snapshot : WattswarmNetworkProjectionSnapshot) : G () :=
  let payload := json_object [
    ("node_id", VString (wn_node_id snapshot));
    ("display_name", VString (wn_display_name snapshot));
    ("org_id", VString (wn_org_id snapshot));
    ("network_id", VString (wn_network_id snapshot));
    ("running", VBool (wn_running snapshot));
    ("mode", VString (wn_mode snapshot));
    ("latitude", json_opt f64_value (wn_latitude snapshot));
    ("longitude", json_opt f64_value (wn_longitude snapshot));
    ("peer_protocol_distribution", VObject (VNumber <$> wn_peer_protocol_distribution snapshot));
    ("peers", VArray (VString <$> wn_peers snapshot));
    ("snapshot_generated_at", VNumber (wn_generated_at snapshot))] in
  persist_projection NetworkProjection
    (projection_identity_key NetworkProjection payload (wn_node_id snapshot))
    (wn_node_id snapshot) (so_id source) (i64_or_max (wn_generated_at snapshot)) payload.

(** The message of a topic that [row] describes. *)
Definition message_payload (row : ProjectionRow) (generated_at : Z)
    (message : WattswarmTopicMessageView) : Value :=
  json_object [
    ("message_id", VString (wm_message_id message));
    ("network_id", VString (wm_network_id message));
    ("feed_key", VString (wm_feed_key message));
    ("scope_hint", VString (wm_scope_hint message));
    ("author_node_id", VString (wm_author_node_id message));
    ("content", wm_content message);
    ("reply_to_message_id", json_opt VString (wm_reply_to_message_id message));
    ("created_at", VNumber (wm_created_at message));
    ("topic_id", value_index (pj_payload row) "topic_id");
    ("organization_id", value_index (pj_payload row) "organization_id");
    ("snapshot_generated_at", VNumber generated_at)].

Definition collect_message (source : NodeSourceRow) (row : ProjectionRow)
    (generated_at : Z) (message : WattswarmTopicMessageView) : G () :=
  let payload := message_payload row generated_at message in
  let source_node_id :=
    default (pj_source_node_id row) (so_expected_wattswarm_node_id source ≫= non_empty) in
  persist_projection HiveActivity (projection_identity_key HiveActivity payload source_node_id)
    source_node_id (so_id source) (i64_or_max generated_at) payload.

Definition collect_topic (source : NodeSourceRow) (base_url : string) (row : ProjectionRow) : G () :=
  match value_get (pj_payload row) "feed_key" ≫= as_str,
        value_get (pj_payload row) "scope_hint" ≫= as_str with
  | Some feed_key, Some scope_hint =>
      let query := [("feed_key", feed_key); ("scope_hint", scope_hint); ("limit", "50")]
        ++ match trimmed (value_get (pj_payload row) "network_id" ≫= as_str) with
           | Some network_id => [("network_id", network_id)]
           | None => []
           end in
      t ← gtick;
      activity ← lift (fetch_activity t (base_url +:+ "/api/wattetheria/topic/activity") query);
      for_each (wa_messages activity) (collect_message source row (wa_generated_at activity))
  | _, _ => mret ()
  end.

Definition collect_topic_activity_read_models (source : NodeSourceRow) (base_url : string) : G () :=
  rows ← list_projection_rows "hive_metadata";
  for_each (filter (fun row => pj_source_id row = Some (so_id source)) rows)
    (collect_topic source base_url).

Definition subscription_payload (generated_at : Z) (subscription : WattswarmTopicSubscriptionRow) :
    Value :=
  json_object [
    ("subscription_id", VString (topic_subscription_identity subscription));
    ("network_id", VString (ws_network_id subscription));
    ("subscriber_node_id", VString (ws_subscriber_node_id subscription));
    ("feed_key", VString (ws_feed_key subscription));
    ("scope_hint", VString (ws_scope_hint subscription));
    ("active", VBool (ws_active subscription));
    ("updated_at", VNumber (ws_updated_at subscription));
    ("snapshot_generated_at", VNumber generated_at)].

Definition collect_subscription (source : NodeSourceRow) (generated_at : Z)
    (subscription : WattswarmTopicSubscriptionRow) : G () :=
  let payload := subscription_payload generated_at subscription in
  let source_node_id := default (so_name source)
    (as_str (value_index payload "subscriber_node_id") ≫= non_empty) in
  persist_projection HiveSubscription
    (projection_identity_key HiveSubscription payload source_node_id)
    source_node_id (so_id source) (i64_or_max (ws_updated_at subscription)) payload.

Definition collect_topic_subscription_read_models (source : NodeSourceRow)
    (base_url network_id : string) : G () :=
  t ← gtick;
  snapshot ← lift (fetch_subscriptions t (base_url +:+ "/api/wattetheria/topic/subscriptions")
                     [("network_id", network_id)]);
  for_each (wt_subscriptions snapshot) (collect_subscription source (wt_generated_at snapshot)).

Definition collect_wattswarm_read_models (source : NodeSourceRow) : G () :=
  match trimmed (so_wattswarm_ui_base_url source) with
  | None => mret ()
  | Some base_url =>
      t ← gtick;
      network ← lift (fetch_network t (base_url +:+ "/api/wattetheria/network/snapshot"));
      _ ← persist_network_projection source network;
      _ ← attempt (collect_topic_subscription_read_models source base_url (wn_network_id network));
      collect_topic_activity_read_models source base_url
  end.

(** ** Synchronisation *)

Definition resolve_sources (source_id : option string) :
    G (result (Z * string) (list NodeSourceRow)) :=
  match source_id with
  | Some source_id =>
      outcome ← attempt (get_node_source source_id);
      mret (match outcome with
            | Ok (Some source) =>
                if bool_decide (so_source_status source = "active") then Ok [source]
                else Err (409%Z, "source is not active")
            | Ok None => Err (404%Z, "unknown source_id")
            | Err error => Err (500%Z, error)
            end)
  | None =>
      outcome ← attempt list_node_sources;
      mret (match outcome with
            | Ok sources =>
                let active := filter (fun source => so_source_status source = "active") sources in
                if bool_decide (active = []) then Err (400%Z, "no active node sources registered")
                else Ok active
            | Err error => Err (500%Z, error)
            end)
  end.

Definition try_fetch_snapshot_via_iroh (state : AppState) (source : NodeSourceRow)
    (known_snapshot : option SnapshotRow) : G (option SignedPublicClientSnapshot) :=
  match ap_gateway_network state, so_transport_contact_material source, known_snapshot with
  | true, Some contact, Some snapshot =>
      t ← gtick;
      fetched ← lift (fetch_via_iroh t contact (sr_node_id snapshot));
      mret (Some fetched)
  | _, _, _ => mret None
  end.

Definition fetch_snapshot_for_source (state : AppState) (source : NodeSourceRow)
    (known_snapshot : option SnapshotRow) : G SignedPublicClientSnapshot :=
  snapshot ← try_fetch_snapshot_via_iroh state source known_snapshot;
  match snapshot with
  | Some snapshot => mret snapshot
  | None =>
      t ← gtick;
      lift (fetch_signed_snapshot t
        (default (so_export_url source) (so_wattetheria_snapshot_export_url source)))
  end.

(** [let _ = db::update_source_sync_status(..)] *)
Definition note_sync_status (source : NodeSourceRow) (status : string) (error : option string) : G () :=
  _ ← attempt (update_source_sync_status (so_id source) status error); mret ().

(** One source: its result, or the status and the message of the response. *)
Definition sync_source (state : AppState) (known_snapshots : list SnapshotRow)
    (source : NodeSourceRow) : G (result (Z * string) SyncResult) :=
  let known_snapshot := list_find (fun row => sr_source_id row = Some (so_id source)) known_snapshots in
  fetched ← attempt (fetch_snapshot_for_source state source (snd <$> known_snapshot));
  match fetched with
  | Err message =>
      _ ← note_sync_status source "error" (Some message);
      mret (Err (502%Z, message))
  | Ok fetched =>
      match verify_signed_snapshot fetched (so_expected_signer_agent_did source) with
      | Err message =>
          _ ← note_sync_status source "invalid" (Some message);
          mret (Err (400%Z, message))
      | Ok _ =>
          ingested ← attempt (ingest_signed_snapshot state fetched (Some (so_id source)) None);
          match ingested with
          | Err message =>
              _ ← note_sync_status source "error" (Some message);
              mret (Err (500%Z, message))
          | Ok _ =>
              collected ← attempt (collect_wattswarm_read_models source);
              let collect_error := match collected with Ok _ => None | Err message => Some message end in
              let status := match collected with Ok _ => "ok" | Err _ => "partial" end in
              _ ← note_sync_status source status collect_error;
              mret (Ok {|
                yr_source_id := Some (so_id source);
                yr_node_id := cs_node_id (sc_payload fetched);
                yr_signer_agent_did := sc_signer_agent_did fetched;
                yr_generated_at := cs_generated_at (sc_payload fetched);
                yr_sync_status := status; yr_wattswarm_collect_error := collect_error |})
          end
      end
  end.

Fixpoint sync_each (state : AppState) (known_snapshots : list SnapshotRow)
    (sources : list NodeSourceRow) (results : list SyncResult) : G (Reply (list SyncResult)) :=
  match sources with
  | [] => mret (Answered 200 results)
  | source :: sources =>
      outcome ← sync_source state known_snapshots source;
      match outcome with
      | Err (status, message) => mret (RefusedFor status message ("source_id", so_id source))
      | Ok result => sync_each state known_snapshots sources (results ++ [result])
      end
  end.

Definition sync_nodes (state : AppState) (source_id : option string) : G (Reply (list SyncResult)) :=
  sources ← resolve_sources source_id;
  match sources with
  | Err (status, error) => mret (Refused status error)
  | Ok sources =>
      known_snapshots ← attempt list_snapshots;
      match known_snapshots with
      | Err error => mret (Refused 500 error)
      | Ok known_snapshots => sync_each state known_snapshots sources []
      end
  end.

(** ** The list of nodes *)

Definition route_for (capabilities : Value) (kind : TransferKind) (payload_bytes : Z)
    (requires_streaming : bool) : string :=
  select_route {| ti_kind := kind; ti_payload_bytes := payload_bytes;
                  ti_requires_streaming := requires_streaming |} capabilities.

Definition recommended_routes (capabilities : Value) : Value :=
  json_object [
    ("control_message", VString (route_for capabilities ControlMessage 512 false));
    ("backfill_chunk", VString (route_for capabilities BackfillChunk (128 * 1024) false));
    ("artifact_blob", VString (route_for capabilities ArtifactBlob (128 * 1024) true));
    ("checkpoint_snapshot", VString (route_for capabilities CheckpointSnapshot (128 * 1024) true))].

Definition snapshot_entry (row : SnapshotRow) : Value :=
  json_object [
    ("node_id", VString (sr_node_id row));
    ("signer_agent_did", VString (sr_signer_agent_did row));
    ("generated_at", datetime_value (sr_generated_at row));
    ("ingested_at", datetime_value (sr_ingested_at row));
    ("network_name", value_index (sr_payload row) "network_name");
    ("network_org_name", value_index (sr_payload row) "network_org_name")].

Definition source_entry (snapshots : list SnapshotRow) (source : NodeSourceRow) : Value :=
  let snapshot := list_find (fun row => sr_source_id row = Some (so_id source)) snapshots in
  json_object [
    ("source_id", VString (so_id source));
    ("name", VString (so_name source));
    ("export_url", VString (so_export_url source));
    ("wattetheria_snapshot_export_url", json_opt VString (so_wattetheria_snapshot_export_url source));
    ("wattetheria_events_export_url", json_opt VString (so_wattetheria_events_export_url source));
    ("wattswarm_ui_base_url", json_opt VString (so_wattswarm_ui_base_url source));
    ("wattswarm_sync_grpc_endpoint", json_opt VString (so_wattswarm_sync_grpc_endpoint source));
    ("region", json_opt VString (so_region source));
    ("expected_signer_agent_did", json_opt VString (so_expected_signer_agent_did source));
    ("expected_wattswarm_node_id", json_opt VString (so_expected_wattswarm_node_id source));
    ("source_status", VString (so_source_status source));
    ("last_sync_at", json_opt datetime_value (so_last_sync_at source));
    ("last_sync_status", json_opt VString (so_last_sync_status source));
    ("last_error", json_opt VString (so_last_error source));
    ("transport_capabilities", json_opt id (so_transport_capabilities source));
    ("transport_contact_material", json_opt id (so_transport_contact_material source));
    ("recommended_routes", json_opt recommended_routes (so_transport_capabilities source));
    ("snapshot", json_opt (fun found => snapshot_entry found.2) snapshot)].

(** A snapshot that was pushed without a registered source. *)
Definition pushed_entry (row : SnapshotRow) : Value :=
  json_object [
    ("source_id", VNull); ("name", VString (sr_node_id row)); ("export_url", VNull);
    ("wattetheria_snapshot_export_url", VNull); ("wattetheria_events_export_url", VNull);
    ("wattswarm_ui_base_url", VNull); ("wattswarm_sync_grpc_endpoint", VNull); ("region", VNull);
    ("expected_signer_agent_did", VNull); ("expected_wattswarm_node_id", VNull);
    ("source_status", VString "push"); ("last_sync_at", datetime_value (sr_ingested_at row));
    ("last_sync_status", VString "push"); ("last_error", VNull);
    ("transport_capabilities", VNull); ("transport_contact_material", VNull);
    ("recommended_routes", VNull); ("snapshot", snapshot_entry row)].

Definition list_nodes : G (Reply (list Value)) :=
  respond (
    sources ← list_node_sources;
    snapshots ← list_snapshots;
    mret ((source_entry snapshots <$> sources) ++
          (pushed_entry <$> filter (fun row => sr_source_id row = None) snapshots))).
End sources.
