(* ===== verification/Pull.v ===== *)
(** * What pulling from sources does

    Theorems about [Sources]: a synchronisation keeps the invariants of the gateway's
    database and never replaces newer data, what it reports has been verified and stored,
    registering a node adds one source and changes no other, and a collected subscription is
    the subscription that the public interface counts. *)

From stdpp Require Import sorting.
From S2P Require Import Prelude Str External GwValue Contracts GwModels Verify Identity UiHub GwDb GwStore Normalize Space ReadModels Ingest GwSamples Progress Ingestion Trust Registry Limiter GwSync Gossip PublicApi Federation Sources.

(** ** Nothing is lost *)

Section sync.
Context `{UJ : UiEventJson, GH : GwHost, SC : !SpaceCodec, SI : Signatures, SR : !SignedRecords,
          HX : Hex, SE : SpaceEnv, CC : ContractCodec, PC : PgCollation, GN : !GwNet,
          PE : !PublicEnv, SN : !SourceNet}.

Lemma persist_projection_progress kind key node source generated_at payload :
  always progress (persist_projection kind key node source generated_at payload).
Proof. unfold persist_projection. solve_always. Qed.
#[local] Hint Resolve persist_projection_progress : gw_always.

Lemma collect_progress source : always progress (collect_wattswarm_read_models source).
Proof.
  unfold collect_wattswarm_read_models, persist_network_projection,
    collect_topic_subscription_read_models, collect_topic_activity_read_models, collect_topic,
    collect_message, collect_subscription, list_projection_rows. solve_always.
Qed.
#[local] Hint Resolve collect_progress ingest_signed_snapshot_progress : gw_always.

Lemma sync_source_progress state known source : always progress (sync_source state known source).
Proof.
  unfold sync_source, fetch_snapshot_for_source, try_fetch_snapshot_via_iroh, note_sync_status,
    ingest_signed_snapshot. solve_always.
Qed.
#[local] Hint Resolve sync_source_progress : gw_always.

Lemma sync_each_progress state known sources results :
  always progress (sync_each state known sources results).
Proof.
  revert results. induction sources as [|source sources IH]; intros results; cbn; solve_always.
Qed.
#[local] Hint Resolve sync_each_progress : gw_always.

Lemma sync_nodes_progress state id : always progress (sync_nodes state id).
Proof.
  unfold sync_nodes, resolve_sources, get_node_source, list_node_sources, list_snapshots. solve_always.
Qed.
End sync.

(** ** What is reported has been stored *)

Section reports.
Context `{UJ : UiEventJson, GH : GwHost, SC : !SpaceCodec, SI : Signatures, SR : !SignedRecords,
          HX : Hex, SE : SpaceEnv, CC : ContractCodec, PC : PgCollation, GN : !GwNet,
          PE : !PublicEnv, SN : !SourceNet}.

#[local] Hint Resolve publish_ui_event_progress wake_sync_progress announce_on_bus_progress
  persist_snapshot_artifact_progress now_rfc3339_progress collect_progress
  ingest_signed_snapshot_progress : gw_always.

(** The database has a snapshot of the node that is not older. *)
Definition holds_snapshot (d : GwDb) (node_id : string) (generated_at : Z) : Prop :=
  ∃ row, gd_snapshots d !! node_id = Some row ∧ (generated_at <= sr_generated_at row)%Z.

Lemma holds_snapshot_grows d d' node_id generated_at :
  grows d d' → holds_snapshot d node_id generated_at → holds_snapshot d' node_id generated_at.
Proof.
  intros Hg (row & Hr & Hle). destruct (gr_snapshots _ _ Hg _ _ Hr) as (row' & Hr' & Hle').
  exists row'. split; [done|lia].
Qed.

Lemma upsert_snapshot_row_holds now record d applied d' :
  upsert_snapshot_row now record d = Ok (applied, d') →
  ∃ generated_at, generated_at_column (us_generated_at record) = Ok generated_at ∧
    holds_snapshot d' (us_node_id record) generated_at.
Proof.
  unfold upsert_snapshot_row. intros H. inv_result. eexists. split; [done|].
  destruct (gd_snapshots d !! us_node_id record) as [old|] eqn:Hold.
  - case_match eqn:Hle; simplify_eq; apply Z.leb_le in Hle || apply Z.leb_gt in Hle.
    + eexists. cbn. rewrite lookup_insert_eq. split; [done|]. cbn. lia.
    + exists old. split; [done|lia].
  - simplify_eq. eexists. cbn. rewrite lookup_insert_eq. split; [done|]. cbn. lia.
Qed.

Lemma ingest_stored state snapshot source expected announce w applied w' :
  gw_ok w →
  ingest_signed_snapshot_with_options state snapshot source expected announce w = (Ok applied, w') →
  ∃ generated_at, generated_at_column (cs_generated_at (sc_payload snapshot)) = Ok generated_at ∧
    holds_snapshot (g_db w') (cs_node_id (sc_payload snapshot)) generated_at.
Proof.
  intros Hok H. unfold ingest_signed_snapshot_with_options in H.
  apply M_bind_ok in H as (u & w1 & H1 & H). apply lift_ok in H1 as [_ ->].
  apply M_bind_ok in H as (payload & w1 & H1 & H). apply lift_ok in H1 as [_ ->].
  apply M_bind_ok in H as (u2 & w1 & H1 & H).
  apply (always_run progress) in H1; [|solve_always].
  destruct (ps_ok _ _ H1 Hok) as [Hok1 _].
  apply M_bind_ok in H as (b & w2 & H2 & H).
  set (record := snapshot_record snapshot source payload) in *.
  assert (∃ announcement, upsert_snapshot_inner record announcement w1 = (Ok b, w2)) as [ann Hu].
  { destruct (announce && ap_gateway_sync_tx state); by eexists. }
  assert (gw_ok w2) as Hok2.
  { eapply (ps_ok w1); [|done]. eapply always_run, Hu. apply upsert_snapshot_inner_progress. }
  apply upsert_snapshot_run in Hu as [[_ [e [=]]]|(now & b' & d & _ & Hrow & Hc)].
  apply upsert_snapshot_row_holds in Hrow as (g & Hg & row & Hr & Hle).
  exists g. split; [done|]. apply M_bind_ok in H as (u3 & w3 & H3 & H). injection H as <- <-.
  apply (holds_snapshot_grows (g_db w2)).
  2: { exists row. by rewrite (cm_db _ _ _ _ _ Hc), announced_snapshots. }
  eapply (ps_ok w2); [|done]. eapply always_run, H3.
  unfold apply_snapshot, persist_snapshot_read_models, persist_seed. solve_always.
Qed.
(** What a result promises about its source in the database [d]. *)
Definition reported (d : GwDb) (source : NodeSourceRow) (result : SyncResult) : Prop :=
  yr_source_id result = Some (so_id source) ∧
  ∃ snapshot generated_at,
    verify_signed_snapshot snapshot (so_expected_signer_agent_did source) = Ok () ∧
    yr_node_id result = cs_node_id (sc_payload snapshot) ∧
    yr_signer_agent_did result = sc_signer_agent_did snapshot ∧
    yr_generated_at result = cs_generated_at (sc_payload snapshot) ∧
    generated_at_column (yr_generated_at result) = Ok generated_at ∧
    holds_snapshot d (yr_node_id result) generated_at.

Lemma reported_grows d d' source result :
  grows d d' → reported d source result → reported d' source result.
Proof.
  intros Hg (Hid & snapshot & g & H). split; [done|]. exists snapshot, g.
  destruct_and! H. split_and!; try done. by eapply holds_snapshot_grows.
Qed.

Lemma progress_grows {A} (m : G A) w r w' :
  always progress m → gw_ok w → m w = (r, w') → gw_ok w' ∧ grows (g_db w) (g_db w').
Proof. intros Hm Hok H. exact (ps_ok _ _ (always_run _ _ _ _ _ Hm H) Hok). Qed.

Lemma sync_source_reported state known source w result w' :
  gw_ok w → sync_source state known source w = (Ok (Ok result), w') →
  reported (g_db w') source result.
Proof.
  intros Hok H. unfold sync_source in H.
  apply attempt_bind in H as (r1 & w1 & Hf & H).
  apply progress_grows in Hf as [Hok1 _];
    [|unfold fetch_snapshot_for_source, try_fetch_snapshot_via_iroh; solve_always|done].
  destruct r1 as [fetched|message]; [|by apply M_bind_ok in H as (? & ? & _ & [=])].
  destruct (verify_signed_snapshot _ _) as [[]|message] eqn:Hv;
    [|by apply M_bind_ok in H as (? & ? & _ & [=])].
  apply attempt_bind in H as (r2 & w2 & Hi & H).
  pose proof Hi as Hp. apply progress_grows in Hp as [Hok2 _];
    [|unfold ingest_signed_snapshot; solve_always|done].
  destruct r2 as [applied|message]; [|by apply M_bind_ok in H as (? & ? & _ & [=])].
  apply ingest_stored in Hi as (g & Hg & Hs); [|done].
  pose proof H as Hp. apply progress_grows in Hp as [_ Hp];
    [|unfold note_sync_status; solve_always|done].
  apply attempt_bind in H as (r3 & w3 & _ & H). apply M_bind_ok in H as (? & ? & _ & H).
  injection H as <- <-. split; [done|]. exists fetched, g. split_and!; try done.
  by eapply holds_snapshot_grows.
Qed.
Lemma sync_each_reported state known sources results w results' w' :
  gw_ok w → sync_each state known sources results w = (Ok (Answered 200 results'), w') →
  ∃ new, results' = results ++ new ∧ Forall2 (reported (g_db w')) sources new.
Proof.
  revert results w. induction sources as [|source sources IH]; intros results w Hok H; cbn in H.
  { injection H as <- <-. exists []. by rewrite app_nil_r. }
  apply M_bind_ok in H as (outcome & w1 & H1 & H).
  pose proof H1 as Hp. apply progress_grows in Hp as [Hok1 _]; [|apply sync_source_progress|done].
  destruct outcome as [result|[status message]]; [|done].
  apply sync_source_reported in H1; [|done].
  pose proof H as Hp. apply progress_grows in Hp as [_ Hg]; [|apply sync_each_progress|done].
  apply IH in H as (new & -> & Hnew); [|done].
  exists (result :: new). split; [by rewrite <-app_assoc|].
  constructor; [by eapply reported_grows|done].
Qed.

(** A source that fails ends the synchronisation: those before it are reported to nobody,
    and those after it are not tried. *)
Lemma sync_each_stops state known sources results w status message subject w' :
  sync_each state known sources results w = (Ok (RefusedFor status message subject), w') →
  ∃ before source after results' w1, sources = before ++ source :: after ∧
    sync_each state known before results w = (Ok (Answered 200 results'), w1) ∧
    sync_source state known source w1 = (Ok (Err (status, message)), w') ∧
    subject = ("source_id", so_id source).
Proof.
  revert results w. induction sources as [|source sources IH]; intros results w H; cbn in H; [done|].
  apply M_bind_ok in H as (outcome & w1 & H1 & H). destruct outcome as [result|[status' message']].
  - apply IH in H as (before & source' & after & results' & w2 & -> & Hb & Hs & ->).
    exists (source :: before), source', after, results', w2. split_and!; try done.
    cbn. by rewrite (M_bind_run _ _ _ _ _ H1).
  - injection H as <- <- <- <-. exists [], source, sources, results, w. done.
Qed.

(** The sources that a synchronisation is asked for. *)
Definition asked_sources (source_id : option string) (d : GwDb) (sources : list NodeSourceRow) : Prop :=
  match source_id with
  | Some id => ∃ source, gd_sources d !! id = Some source ∧ so_source_status source = "active" ∧
      sources = [source]
  | None => sources ≠ [] ∧
      sources ≡ₚ filter (fun source => so_source_status source = "active") (map_to_list (gd_sources d)).*2
  end.

Lemma resolve_sources_asked source_id w sources w' :
  resolve_sources source_id w = (Ok (Ok sources), w') → asked_sources source_id (g_db w) sources.
Proof.
  unfold resolve_sources. destruct source_id as [id|]; intros H;
    apply attempt_bind in H as (r1 & w1 & Hq & H);
    apply gquery_run in Hq as [_ [[e ->]|[now ->]]]; try done; cbn in H.
  - destruct (gd_sources (g_db w) !! id) as [source|] eqn:Hs; [|done]. case_bool_decide; [|done].
    injection H as <- <-. by exists source.
  - case_bool_decide as Ha; [done|]. injection H as <- <-. split; [done|].
    apply filter_Permutation, merge_sort_Permutation.
Qed.

End reports.

(** ** What is served stays signed *)

Section trust.
Context `{UJ : UiEventJson, SVL : !SerdeValueLaws, GH : GwHost, SC : !SpaceCodec, SI : Signatures,
          SR : !SignedRecords, HX : Hex, SE : SpaceEnv, CC : ContractCodec, CCL : !ContractCodecLaws,
          PC : PgCollation, GN : !GwNet, PE : !PublicEnv, SN : !SourceNet}.
#[local] Hint Resolve update_source_sync_status_upholds ingest_signed_snapshot_upholds : gw_always.

(** Collected records are not board messages. *)
Lemma persist_projection_upholds kind key node source generated_at payload :
  kind ≠ BoardActivity →
  always (upholds trusted) (persist_projection kind key node source generated_at payload).
Proof.
  intros Hkind. unfold persist_projection.
  apply (always_bind_post _ (fun name => data_kind_name kind = Ok name));
    [solve_always|intros w a w' H; by apply lift_ok in H as [? _]|].
  intros name Hname. apply upsert_projection_row_upholds. intros Hboard. destruct Hkind.
  by eapply data_kind_name_inj.
Qed.

#[local] Hint Extern 1 (always (upholds trusted) (persist_projection _ _ _ _ _ _)) =>
  apply persist_projection_upholds; discriminate : gw_always.

Lemma collect_upholds source : always (upholds trusted) (collect_wattswarm_read_models source).
Proof.
  unfold collect_wattswarm_read_models, persist_network_projection,
    collect_topic_subscription_read_models, collect_topic_activity_read_models, collect_topic,
    collect_message, collect_subscription, list_projection_rows. solve_always.
Qed.
#[local] Hint Resolve collect_upholds : gw_always.

Lemma sync_source_upholds state known source :
  always (upholds trusted) (sync_source state known source).
Proof.
  unfold sync_source, fetch_snapshot_for_source, try_fetch_snapshot_via_iroh, note_sync_status,
    ingest_signed_snapshot. solve_always.
Qed.
#[local] Hint Resolve sync_source_upholds : gw_always.

Lemma sync_each_upholds state known sources results :
  always (upholds trusted) (sync_each state known sources results).
Proof.
  revert results. induction sources as [|source sources IH]; intros results; cbn; solve_always.
Qed.
#[local] Hint Resolve sync_each_upholds : gw_always.

Lemma sync_nodes_upholds state id : always (upholds trusted) (sync_nodes state id).
Proof.
  unfold sync_nodes, resolve_sources, get_node_source, list_node_sources, list_snapshots. solve_always.
Qed.

(** C18: a synchronisation is as safe as a push.  Whatever the sources serve and whatever
    fails, also in the middle, a synchronisation keeps the event log and the sequences
    consistent, replaces snapshots and projections only by rows at least as new, removes
    nothing and changes no registered gateway and of the sources only the outcome of the
    last synchronisation; and the presences, world events and board messages in the
    database stay signed by the right keys. *)
Theorem sync_never_loses state source_id w r w' :
  gw_ok w → sync_nodes state source_id w = (r, w') →
  gw_ok w' ∧ grows (g_db w) (g_db w') ∧ (trusted (g_db w) → trusted (g_tx w) → trusted (g_db w')).
Proof.
  intros Hok H. pose proof (always_run _ _ _ _ _ (sync_nodes_progress state source_id) H) as Hp.
  pose proof (always_run _ _ _ _ _ (sync_nodes_upholds state source_id) H) as Ht.
  destruct (ps_ok _ _ Hp Hok) as [Hok' Hg]. split; [done|]. split; [done|].
  intros Hd Hx. by apply Ht.
Qed.
End trust.

(** ** Registration *)

Section registration.
Context `{UJ : UiEventJson, GH : GwHost, SC : !SpaceCodec, SI : Signatures, SR : !SignedRecords,
          HX : Hex, SE : SpaceEnv, CC : ContractCodec, PC : PgCollation, GN : !GwNet,
          PE : !PublicEnv, SN : !SourceNet}.
#[local] Hint Resolve gtick_same announce_same now_rfc3339_same : gw_always.

(** The keys of the table of sources: its id, and the export URL. *)
Record sources_ok (sources : gmap string NodeSourceRow) : Prop := {
  sk_id id source : sources !! id = Some source → so_id source = id;
  sk_url id id' source source' : sources !! id = Some source → sources !! id' = Some source' →
    so_export_url source = so_export_url source' → id = id';
}.

Lemma insert_node_source_run row w r w' :
  insert_node_source row w = (r, w') →
  (g_db w' = g_db w ∧ ∃ e, r = Err e) ∨
  ∃ now, r = Ok () ∧ gd_sources (g_db w) !! so_id (row now) = None ∧
    (∀ id other, gd_sources (g_db w) !! id = Some other → so_export_url other ≠ so_export_url (row now)) ∧
    g_db w' = on_sources <[so_id (row now) := row now]> (g_db w).
Proof.
  intros H. apply gexecute_run in H as [[Hq He]|[_ (now & [] & -> & H)]].
  { left. by rewrite (qu_db _ _ Hq). }
  right. exists now. cbn in H. destruct (_ || _) eqn:Hx; [done|]. injection H as Hd.
  apply orb_false_iff in Hx as [Hid Hurl]. apply bool_decide_eq_false in Hid.
  split_and!; [done|by apply eq_None_not_Some| |done].
  intros id other Hother Heq. apply not_true_iff_false in Hurl. destruct Hurl.
  apply existsb_exists. exists other. split; [|by apply bool_decide_eq_true].
  apply list_elem_of_In, list_elem_of_fmap. exists (id, other). split; [done|].
  by apply elem_of_map_to_list.
Qed.

Lemma sources_ok_insert sources row :
  sources_ok sources → sources !! so_id row = None →
  (∀ id other, sources !! id = Some other → so_export_url other ≠ so_export_url row) →
  sources_ok (<[so_id row := row]> sources).
Proof.
  intros [Hid Hurl] Hnew Hother. split.
  - intros id source [[<- <-]|[_ H]]%lookup_insert_Some; [done|by apply Hid].
  - intros id id' source source' [[<- <-]|[_ H]]%lookup_insert_Some
      [[<- <-]|[_ H']]%lookup_insert_Some Heq; [done| | |by eapply Hurl].
    + by destruct (Hother _ _ H').
    + by destruct (Hother _ _ H).
Qed.

(** An announcement on the bus neither fails nor changes the database. *)
Lemma announced_on_bus {A} state subject (payload : string -> Value) (reply : A) w :
  ∃ w', (timestamp ← now_rfc3339; _ ← announce_on_bus state subject (payload timestamp); mret reply) w =
    (Ok reply, w') ∧ same_db w w'.
Proof.
  match goal with |- ∃ w', ?m w = _ ∧ _ => destruct (m w) as [r w'] eqn:H end. exists w'.
  split; [|revert H; apply always_run; solve_always].
  unfold now_rfc3339, gutc, announce_on_bus, publish_event, attempt in H.
  cbv [mbind M_bind gtick mret M_ret] in H. by destruct (whenM _ _ _) as [? ?]; injection H as <- <-.
Qed.

(** The address that a request gives for the snapshots of a node. *)
Definition requested_url (body : RegisterNodeRequest) : option string :=
  trimmed (or_else (rn_wattetheria_snapshot_export_url body) (rn_export_url body)).

End registration.

(** ** Collected subscriptions are the ones that are counted *)

(** What the public interface relies on for booleans and numbers. *)
Class PublicEnvLaws `{PE : PublicEnv} : Prop := {
  as_bool_bool b : as_bool (VBool b) = Some b;
  number_u64_number n : is_u64 n → number_u64 (VNumber n) = Some n;
}.

Section subscriptions.
Context `{UJ : UiEventJson, SVL : !SerdeValueLaws, GH : GwHost, SC : !SpaceCodec, SI : Signatures,
          SR : !SignedRecords, HX : Hex, SE : SpaceEnv, CC : ContractCodec, PC : PgCollation,
          GN : !GwNet, PE : !PublicEnv, PL : !PublicEnvLaws, SN : !SourceNet}.

(** A field without white space around it, and not empty. *)
Definition tidy (s : string) : Prop := trim s = s ∧ is_empty s = false.

Record tidy_subscription (s : WattswarmTopicSubscriptionRow) : Prop := {
  td_network : tidy (ws_network_id s);
  td_feed : tidy (ws_feed_key s);
  td_scope : tidy (ws_scope_hint s);
  td_subscriber : tidy (ws_subscriber_node_id s);
  td_updated_at : is_u64 (ws_updated_at s);
}.

Definition subscription_route (s : WattswarmTopicSubscriptionRow) : string :=
  ws_network_id s +:+ unit_separator +:+ ws_feed_key s +:+ unit_separator +:+ ws_scope_hint s.

Lemma tidy_field object key s :
  object !! key = Some (VString s) → tidy s → string_field (VObject object) key = Some s.
Proof.
  intros Ho [Ht He]. unfold string_field. rewrite value_get_object, Ho. cbn.
  rewrite (proj2 (as_str_spec _ _) eq_refl). cbn. unfold non_empty. by rewrite Ht, He.
Qed.

Lemma collected_subscription_of node generated_at s :
  tidy_subscription s →
  subscription_of (attach_source node (subscription_payload generated_at s)) =
  Some (subscription_route s, ws_subscriber_node_id s, ws_active s, ws_updated_at s).
Proof.
  intros [Hn Hf Hs Hi Hu]. unfold attach_source, on_object, subscription_payload, json_object.
  rewrite (proj2 (as_object_spec _ _) eq_refl).
  set (object := <[_ := _]> _).
  assert (object !! "feed_key" = Some (VString (ws_feed_key s))) as Hf' by reflexivity.
  assert (object !! "scope_hint" = Some (VString (ws_scope_hint s))) as Hs' by reflexivity.
  assert (object !! "network_id" = Some (VString (ws_network_id s))) as Hn' by reflexivity.
  assert (object !! "subscriber_node_id" = Some (VString (ws_subscriber_node_id s))) as Hi'
    by reflexivity.
  assert (object !! "active" = Some (VBool (ws_active s))) as Ha by reflexivity.
  assert (object !! "updated_at" = Some (VNumber (ws_updated_at s))) as Hu' by reflexivity.
  unfold subscription_of, hive_route_key, numeric_timestamp. cbn -[value_get string_field object].
  rewrite (tidy_field _ _ _ Hf' Hf), (tidy_field _ _ _ Hs' Hs), (tidy_field _ _ _ Hn' Hn),
    (tidy_field _ _ _ Hi' Hi), !value_get_object, Ha, Hu'. cbn.
  by rewrite as_bool_bool, number_u64_number.
Qed.

(** The record that a collected subscription becomes. *)
Lemma collected_key s generated_at node :
  projection_identity_key HiveSubscription (subscription_payload generated_at s) node =
  topic_subscription_identity s.
Proof.
  apply (identity_key_of_field HiveSubscription); [done|reflexivity|].
  apply (is_blank_visible (Ascii.ascii_of_nat 31)); [done|done|].
  unfold topic_subscription_identity, unit_separator. rewrite has_char_app. cbn. apply orb_true_r.
Qed.

Lemma collected_node source s generated_at :
  tidy_subscription s →
  default (so_name source)
    (as_str (value_index (subscription_payload generated_at s) "subscriber_node_id") ≫= non_empty) =
  ws_subscriber_node_id s.
Proof.
  intros [_ _ _ [_ Hi] _]. unfold value_index, subscription_payload, json_object.
  rewrite value_get_object. change (list_to_map _ !! _) with (Some (VString (ws_subscriber_node_id s))).
  cbn. rewrite (proj2 (as_str_spec _ _) eq_refl). cbn. unfold non_empty. by rewrite Hi.
Qed.

(** A record that no newer one stands against is stored. *)
Lemma upsert_projection_stored now record d d' source_id :
  upsert_projection now record d = Ok ((), d') → up_source_id record = Some source_id →
  (∀ old at_, gd_projections d !! projection_key record = Some old →
     generated_at_column (up_generated_at record) = Ok at_ → (pj_generated_at old <= at_)%Z) →
  ∃ row, gd_projections d' !! projection_key record = Some row ∧
    pj_data_kind row = up_data_kind record ∧ pj_source_node_id row = up_source_node_id record ∧
    pj_payload row = up_payload record ∧ pj_source_id row = Some source_id ∧
    gd_sources d' = gd_sources d.
Proof.
  unfold upsert_projection. intros H Hs Hold. inv_result.
  destruct (gd_projections d !! projection_key record) as [old|] eqn:Ho.
  - case_match eqn:Hle; [|apply Z.leb_gt, Z.lt_nge in Hle; destruct Hle; by eapply Hold]. simplify_eq.
    eexists. cbn. rewrite lookup_insert_eq, Hs. done.
  - simplify_eq. eexists. cbn. rewrite lookup_insert_eq, Hs. done.
Qed.

(** A collected subscription is the one that is counted.  When a source reports a
    subscription and it is stored, and the gateway has no newer record of it, then, the source
    being active, the records that the hives are counted from have one for exactly this
    route, subscriber, state and time. *)
Theorem collected_subscription_counted source generated_at s w w' values :
  tidy_subscription s →
  collect_subscription source generated_at s w = (Ok (), w') →
  source_active (g_db w) (so_id source) = true →
  (∀ name old at_, data_kind_name HiveSubscription = Ok name →
     gd_projections (g_db w) !! (name, topic_subscription_identity s, ws_subscriber_node_id s) = Some old →
     generated_at_column (i64_or_max (ws_updated_at s)) = Ok at_ → (pj_generated_at old <= at_)%Z) →
  local_values (g_db w') HiveSubscription = Ok values →
  ∃ v, v ∈ values ∧ subscription_of v =
    Some (subscription_route s, ws_subscriber_node_id s, ws_active s, ws_updated_at s).
Proof.
  intros Ht H Hsrc Hold Hv. unfold collect_subscription in H. cbv zeta in H.
  rewrite collected_key, collected_node in H by done.
  unfold persist_projection in H. apply M_bind_ok in H as (name & w1 & Hn & H).
  apply lift_ok in Hn as [Hn ->].
  apply gexecute_run in H as [[_ (e & [=])]|[_ (now & [] & _ & H)]].
  eapply upsert_projection_stored in H as (row & Hrow & Hkind & Hnode & Hpay & Hsrc' & Hvis); [|done|].
  2: { cbn. intros old at_ Ho Ha. by eapply Hold. }
  exists (attach_source (pj_source_node_id row) (pj_payload row)).
  split; [|rewrite Hnode, Hpay; by apply collected_subscription_of].
  unfold local_values in Hv. rewrite Hn in Hv. injection Hv as <-.
  apply list_elem_of_fmap. exists row. split; [done|]. rewrite merge_sort_Permutation.
  apply list_elem_of_filter. split.
  - rewrite Hkind, Hsrc', bool_decide_true by done. cbn. unfold source_active in *. by rewrite Hvis.
  - apply list_elem_of_fmap. eexists (_, row). split; [done|]. by apply elem_of_map_to_list.
Qed.
End subscriptions.

(** ** Concrete runs *)

Section samples.
Local Existing Instances json_impl_value ui_event_json_impl frozen_gw_host codec_impl codec_impl_laws
  hex_impl signatures_impl space_codec_impl signed_records_impl space_env_impl json_impl_value_laws
  byte_collation public_env_impl.

(** One node answers at its address; the other address is dead. *)
Definition one_node_net : GwNet := {|
  bus_fault t := None; artifact_fault t := None;
  fetch_signed_snapshot t url :=
    if bool_decide (url = "http://node/export") then Ok gossip_snapshot else Err "connection refused";
  snapshot_to_value snapshot := Ok (JString (cs_node_id snapshot));
  to_rfc3339 us := pretty us |}.

Definition node_subscription : WattswarmTopicSubscriptionRow := {|
  ws_network_id := "net"; ws_subscriber_node_id := "node"; ws_feed_key := "feed";
  ws_scope_hint := "scope"; ws_active := true; ws_updated_at := 7 |}.

Definition source_net_impl : SourceNet := {|
  Capabilities := json; ContactMaterial := json;
  capabilities_to_value := Ok; contact_to_value := Ok;
  select_route intent v := "iroh_direct"; f64_value := JNumber; datetime_value := JNumber;
  fetch_via_iroh t contact node_id := Err "unreachable";
  fetch_network t url := Err "not found";
  fetch_activity t url query := Err "not found";
  fetch_subscriptions t url query := Ok {|
    wt_generated_at := 7; wt_network_id := "net"; wt_subscriptions := [node_subscription] |} |}.
Local Existing Instances one_node_net source_net_impl.

Lemma public_env_impl_laws : PublicEnvLaws (PE:=public_env_impl).
Proof.
  split; [done|]. intros n [Hn _]. cbn. by rewrite (proj2 (Z.leb_le _ _) Hn).
Qed.
Local Existing Instance public_env_impl_laws.

Definition node_request (name url : string) : RegisterNodeRequest := {|
  rn_name := name; rn_export_url := Some url; rn_wattetheria_snapshot_export_url := None;
  rn_wattetheria_events_export_url := None; rn_wattswarm_ui_base_url := None;
  rn_wattswarm_sync_grpc_endpoint := None; rn_region := None;
  rn_expected_signer_agent_did := Some gossip_signer; rn_expected_wattswarm_node_id := None;
  rn_source_status := None; rn_transport_capabilities := None;
  rn_transport_contact_material := None |}.

(** A gateway with the node as a source, and one with the dead address before it. *)
Definition node_source : NodeSourceRow :=
  new_source "s1" "http://node/export" (node_request "node" "http://node/export") 1.
Definition dead_source : NodeSourceRow :=
  new_source "s0" "http://dead/export" (node_request "dead" "http://dead/export") 0.
Definition registered_world : GwWorld :=
  gw_world (on_sources <["s1" := node_source]> empty_gw_db).
Definition two_sources_world : GwWorld :=
  gw_world (on_sources <["s0" := dead_source]> (on_sources <["s1" := node_source]> empty_gw_db)).

Lemma no_sources_ok : sources_ok (gd_sources (g_db (gw_world empty_gw_db))).
Proof. by split; intros *; cbn; rewrite lookup_empty. Qed.


Lemma registered_world_ok : gw_ok registered_world.
Proof. by split; [split; [constructor|constructor|constructor|apply map_Forall_empty]..|]. Qed.

Lemma empty_world_trusted : trusted (g_db registered_world) ∧ trusted (g_tx registered_world).
Proof. by split; split; apply map_Forall_empty. Qed.

Lemma sync_never_loses_witness :
  let w' := (sync_nodes sample_app_state None registered_world).2 in
  gw_ok w' ∧ grows (g_db registered_world) (g_db w') ∧ trusted (g_db w') ∧
  sr_generated_at <$> (map_to_list (gd_snapshots (g_db w'))).*2 = [5000000%Z].
Proof.
  intros w'. destruct (sync_never_loses sample_app_state None registered_world
    (sync_nodes sample_app_state None registered_world).1 w' registered_world_ok
    (surjective_pairing _)) as (Hok & Hg & Ht).
  split; [exact Hok|]. split; [exact Hg|]. split; [apply Ht; apply empty_world_trusted|].
  vm_compute. reflexivity.
Defined.


(** One dead source and no other source is tried: the node that answers is not stored. *)
Lemma dead_source_stops :
  let run := sync_nodes sample_app_state None two_sources_world in
  (∃ message subject, run.1 = Ok (RefusedFor 502 message subject)) ∧ gd_snapshots (g_db run.2) = ∅.
Proof. intros run. split; [do 2 eexists; vm_compute; reflexivity|vm_compute; reflexivity]. Qed.


Lemma node_subscription_tidy : tidy_subscription node_subscription.
Proof. split; [by split..|by vm_compute]. Qed.

Definition collected_world : GwWorld := (collect_subscription node_source 7 node_subscription registered_world).2.

Lemma subscription_collected :
  collect_subscription node_source 7 node_subscription registered_world = (Ok (), collected_world).
Proof.
  unfold collected_world. rewrite (surjective_pairing (collect_subscription _ _ _ _)) at 1. by f_equal.
Qed.

Definition collected_values : list json :=
  match local_values (g_db collected_world) HiveSubscription with Ok values => values | Err _ => [] end.

Lemma collected_subscription_counted_witness :
  ∃ v, v ∈ collected_values ∧
    subscription_of v = Some (subscription_route node_subscription, "node", true, 7%Z).
Proof.
  apply (collected_subscription_counted node_source 7 node_subscription registered_world collected_world
    collected_values node_subscription_tidy subscription_collected).
  - reflexivity.
  - intros name old at_ _ Hold. cbn in Hold. by rewrite lookup_empty in Hold.
  - vm_compute. reflexivity.
Defined.
End samples.
