(* ===== verification/SpaceQuery.v ===== *)
(** * Queries on the space

    The handlers of crates/gateway/src/space.rs that show presences and world events
    ([presences], [agent_presence], [agent_presence_record], [events]) as replies with the
    fields of their JSON bodies, on top of the statements of [Space], and what they show. *)

From stdpp Require Import sorting.
From S2P Require Import Prelude Str External GwValue Contracts GwModels Verify Identity UiHub GwDb GwStore Normalize Space ReadModels Ingest GwSamples Progress Ingestion Trust Registry Limiter GwSync Gossip Reconcile.

(** ** Replies *)

Record SpaceQuery := {
  sq_network_id : string;
  sq_space_id : option string;
  sq_place_id : option string;
}.

Record PresenceIdentity := {
  pi_network_id : string;
  pi_agent_did : string;
  pi_node_id : string;
  pi_display_name : option string;
}.

Record PresencesResponse := {
  px_network_id : option string;
  px_space_id : option string;
  px_server_time_ms : Z;
  px_presences : list SignedSpacePresence;
  px_identities : list PresenceIdentity;
  px_node_presences : list NodePresence;
}.

Record AgentPresenceResponse := {
  ax_network_id : string;
  ax_space_id : string;
  ax_server_time_ms : Z;
  ax_presence : SignedSpacePresence;
  ax_source_node_ids : gmap string string;
  ax_node_presences : list NodePresence;
}.

Record EventsResponse `{SV : SerdeValue} := {
  ex_network_id : option string;
  ex_space_id : option string;
  ex_server_time_ms : Z;
  ex_events : list Value;
}.

(** The operator [->>] of the database: the text of a field. *)
Class JsonText `{SV : SerdeValue} := json_text : Value -> option string.

(** [btrim(s) <> ''] *)
Definition has_text (s : string) : bool := negb (is_empty (trim_start_matches " " s)).

Section queries.
Context `{UJ : UiEventJson, GH : GwHost, SC : !SpaceCodec, SI : Signatures, SR : !SignedRecords,
          HX : Hex, SE : SpaceEnv, CC : ContractCodec, PC : PgCollation, JT : !JsonText}.

(** ** Handlers *)

Definition place_refused : string :=
  "presence place_id filtering requires geometry owned by Main/Client".

(** [Utc::now().timestamp_millis()] *)
Definition now_ms : G Z := now ← gutc; mret (now `div` 1000)%Z.

(** The display names of the operators: the row of the select for each presence. *)
Definition display_name_row (d : GwDb) (entry : SignedSpacePresence * string) :
    option (string * string * string) :=
  let record := ss_record entry.1 in
  row ← gd_snapshots d !! entry.2;
  let payload := sr_payload row in
  let display_name := value_index (value_index payload "operator") "display_name" in
  name ← as_str display_name;
  if bool_decide (sr_signer_agent_did row = pr_agent_did record) &&
     bool_decide (json_text (value_index (value_index payload "network_status") "network_id") =
                  Some (pr_network_id record)) &&
     visible d (sr_source_id row) && has_text name
  then Some (pr_network_id record, pr_agent_did record, name) else None.

Definition display_names (values : list (SignedSpacePresence * string)) :
    G (gmap (string * string) string) :=
  names ← gquery (fun _ d => omap (display_name_row d) values);
  mret (list_to_map (reverse names)).

Definition presence_identity (names : gmap (string * string) string)
    (entry : SignedSpacePresence * string) : PresenceIdentity :=
  let record := ss_record entry.1 in {|
    pi_network_id := pr_network_id record; pi_agent_did := pr_agent_did record;
    pi_node_id := entry.2; pi_display_name := names !! (pr_network_id record, pr_agent_did record) |}.

Definition presences (query : SpaceObservationQuery) : G (Reply PresencesResponse) :=
  match validate_observation_query query with
  | Err error => mret (Refused 400 error)
  | Ok _ =>
      if bool_decide (is_Some (oq_place_id query)) then mret (Refused 400 place_refused)
      else
        values ← attempt (presence_values (oq_network_id query) (oq_space_id query));
        match values with
        | Err error => mret (Refused 500 error)
        | Ok values =>
            heartbeats ← attempt node_presences;
            match heartbeats with
            | Err error => mret (Refused 500 error)
            | Ok heartbeats =>
                now ← now_ms;
                let values := filter (fun entry => present heartbeats now entry = true) values in
                names ← attempt (display_names values);
                match names with
                | Err error => mret (Refused 500 error)
                | Ok names => mret (Answered 200 {|
                    px_network_id := oq_network_id query; px_space_id := oq_space_id query;
                    px_server_time_ms := now; px_presences := values.*1;
                    px_identities := presence_identity names <$> values;
                    px_node_presences := heartbeats |})
                end
            end
        end
  end.

Definition validate_network_query (query : SpaceQuery) : result string () :=
  _ ← bail_if (is_blank (sq_network_id query)) "network_id must not be empty";
  bail_if (from_option is_blank false (sq_space_id query)) "space_id must not be empty".

Definition validate_presence_query (query : SpaceQuery) : result string () :=
  _ ← validate_network_query query;
  bail_if (bool_decide (is_Some (sq_place_id query))) place_refused.

Definition agent_presence (agent_id : string) (query : SpaceQuery) :
    G (Reply AgentPresenceResponse) :=
  match validate_presence_query query with
  | Err error => mret (Refused 400 error)
  | Ok _ =>
      now ← now_ms;
      values ← attempt (presence_values (Some (sq_network_id query)) (sq_space_id query));
      match values with
      | Err error => mret (Refused 500 error)
      | Ok values =>
          match snd <$> list_find (fun entry => pr_agent_did (ss_record entry.1) = agent_id ∧
                                   pr_entered (ss_record entry.1) = true) values with
          | Some (presence, node) =>
              heartbeats ← attempt node_presences;
              match heartbeats with
              | Err error => mret (Refused 500 error)
              | Ok heartbeats => mret (Answered 200 {|
                  ax_network_id := sq_network_id query;
                  ax_space_id := pr_space_id (ss_record presence);
                  ax_server_time_ms := now; ax_presence := presence;
                  ax_source_node_ids := {[ pr_agent_did (ss_record presence) := node ]};
                  ax_node_presences := heartbeats |})
              end
          | None => mret (Refused 404 "agent presence not found")
          end
      end
  end.

(** [select payload .. order by seq desc, space_id limit 1] *)
Definition newest_record (d : GwDb) (network_id agent_did : string) (space_id : option string) :
    option SignedSpacePresence :=
  sw_payload ∘ snd <$> head (merge_sort presence_before
    (filter (fun '((n, s, a), row) => n = network_id ∧ a = agent_did ∧ unset_or space_id s = true)
      (map_to_list (gd_space_presence d)))).

Definition agent_presence_record (agent_id : string) (query : SpaceQuery) :
    G (Reply SignedSpacePresence) :=
  if bool_decide (is_Some (sq_place_id query)) then mret (Refused 400 place_refused)
  else if from_option is_blank false (sq_space_id query)
  then mret (Refused 400 "space_id must not be empty")
  else
    row ← attempt (gquery (fun _ d => newest_record d (sq_network_id query) agent_id (sq_space_id query)));
    mret (match row with
          | Ok (Some presence) => Answered 200 presence
          | Ok None => Refused 404 "agent presence not found"
          | Err error => Refused 500 error
          end).

Definition events (query : SpaceObservationQuery) : G (Reply EventsResponse) :=
  match validate_observation_query query with
  | Err error => mret (Refused 400 error)
  | Ok _ =>
      values ← attempt (gquery (fun _ d =>
        (fun entry => sv_payload entry.2) <$> merge_sort (text_le2 fst)
          (filter (fun entry => unset_or (oq_network_id query) entry.1.1 &&
              unset_or (oq_space_id query) (sv_space_id entry.2) &&
              unset_or (oq_place_id query) (sv_place_id entry.2) &&
              visible d (sv_source_id entry.2) = true)
            (map_to_list (gd_space_events d)))));
      match values with
      | Err error => mret (Refused 500 error)
      | Ok values =>
          now ← now_ms;
          mret (Answered 200 {|
            ex_network_id := oq_network_id query; ex_space_id := oq_space_id query;
            ex_server_time_ms := now; ex_events := values |})
      end
  end.
End queries.

(** ** What is shown *)

Section shown.
Context `{UJ : UiEventJson, GH : GwHost, SC : !SpaceCodec, SI : Signatures, SR : !SignedRecords,
          HX : Hex, SE : SpaceEnv, CC : ContractCodec, PC : PgCollation, CL : !CollationLaws,
          JT : !JsonText}.

(** The row is the newest of its agent in its network: the last position that the agent
    signed, in whichever space. *)
Definition newest_row (d : GwDb) (n s a : string) (row : SpacePresenceRow) : Prop :=
  gd_space_presence d !! (n, s, a) = Some row ∧
  ∀ s' row', gd_space_presence d !! (n, s', a) = Some row' →
    (sw_seq row' < sw_seq row)%Z ∨ (sw_seq row' = sw_seq row ∧ text_leb s s' = true).

#[local] Instance presence_before_trans : Transitive presence_before.
Proof.
  unfold presence_before. intros x y z [H1|[E1 H1]] [H2|[E2 H2]]; try (left; lia).
  right. split; [lia|]. by eapply collate_trans.
Qed.

#[local] Instance presence_before_total : Total presence_before.
Proof.
  unfold presence_before. intros x y. destruct (Z.lt_trichotomy (sw_seq x.2) (sw_seq y.2)) as [H|[H|H]]; auto.
  destruct (collate_total x.1.1.2 y.1.1.2); auto.
Qed.

Lemma agent_rows_elem d n a entry :
  entry ∈ agent_rows d n a ↔
  gd_space_presence d !! entry.1 = Some entry.2 ∧ entry.1.1.1 = n ∧ entry.1.2 = a.
Proof.
  unfold agent_rows. rewrite merge_sort_Permutation, list_elem_of_filter.
  destruct entry as [[[n' s'] a'] row]. rewrite elem_of_map_to_list. cbn. tauto.
Qed.

Lemma agent_rows_head d n a x entry :
  head (agent_rows d n a) = Some x → entry ∈ agent_rows d n a → x = entry ∨ presence_before x entry.
Proof.
  pose proof (StronglySorted_merge_sort presence_before
    (filter (fun '((n', s, a'), row) => n' = n ∧ a' = a) (map_to_list (gd_space_presence d)))) as Hs.
  fold (agent_rows d n a) in Hs. destruct (agent_rows d n a) as [|y l]; [done|]. intros [= ->].
  apply StronglySorted_inv in Hs as [_ Hall]. rewrite Forall_forall in Hall.
  intros [->|Hin]%elem_of_cons; auto.
Qed.

Lemma newest_of_agent_spec d n s a row :
  gd_space_presence d !! (n, s, a) = Some row →
  newest_of_agent d ((n, s, a), row) = true ↔ newest_row d n s a row.
Proof.
  intros Hrow. assert (((n, s, a), row) ∈ agent_rows d n a) as Hin by (by apply agent_rows_elem).
  unfold newest_of_agent. cbn [fst snd].
  destruct (head (agent_rows d n a)) as [x|] eqn:Hx; 
    [|destruct (agent_rows d n a); [by apply elem_of_nil in Hin|done]].
  assert (x ∈ agent_rows d n a) as Hxin by (destruct (agent_rows d n a); [done|injection Hx as ->; by left]).
  apply agent_rows_elem in Hxin as (Hxd & Hxn & Hxa). rewrite bool_decide_eq_true. split.
  - intros Hkey. destruct x as [key xrow]. cbn in *. subst key. split; [done|]. intros s' row' Hrow'.
    assert (((n, s', a), row') ∈ agent_rows d n a) as Hin' by (by apply agent_rows_elem).
    destruct (agent_rows_head _ _ _ _ _ Hx Hin') as [[= -> ->]|[H|[H H']]]; cbn in *; simplify_eq;
      [right; split; [done|by destruct (collate_total s' s')]|by left|by right].
  - intros [_ Hnew]. destruct x as [[[xn xs] xa] xrow]. cbn in *. subst xn xa.
    destruct (agent_rows_head _ _ _ _ _ Hx Hin) as [[= -> _]|Hb]; [done|].
    destruct (Hnew _ _ Hxd) as [H|[H H']]; destruct Hb as [Hb|[Hb Hb']]; cbn in *; try lia.
    by rewrite (collate_antisym _ _ Hb' H').
Qed.

(** Whether a presence is asked for. *)
Definition asked_for (network space : option string) (record : SpacePresenceRecord) : Prop :=
  unset_or network (pr_network_id record) = true ∧ pr_network_id record ≠ "" ∧
  unset_or space (pr_space_id record) = true.

(** The presence is the newest of its agent in its network, and its source is active. *)
Definition shown_at (d : GwDb) (presence : SignedSpacePresence) (node : string) : Prop :=
  let record := ss_record presence in
  ∃ row, newest_row d (pr_network_id record) (pr_space_id record) (pr_agent_did record) row ∧
    sw_payload row = presence ∧ sw_source_node_id row = node ∧ visible d (sw_source_id row) = true.

(** The node of the agent has a heartbeat that is current. *)
Definition online (d : GwDb) (node agent_did : string) (now : Z) : Prop :=
  ∃ row, gd_node_presence d !! (node, agent_did) = Some row ∧
    visible d (nr_source_id row) = true ∧ heartbeat_is_current (nr_payload row) now = true.

Definition presence_list (d : GwDb) (network space : option string) : list (SignedSpacePresence * string) :=
  (fun entry => (sw_payload entry.2, sw_source_node_id entry.2)) <$>
  merge_sort (text_le2 (fun entry => (entry.1.1.1, entry.1.2)))
    (filter (fun entry => newest_of_agent d entry && unset_or network entry.1.1.1 &&
        negb (bool_decide (entry.1.1.1 = "")) && unset_or space entry.1.1.2 &&
        visible d (sw_source_id entry.2) = true)
      (map_to_list (gd_space_presence d))).

Lemma presence_list_elem d network space presence node :
  trusted d →
  (presence, node) ∈ presence_list d network space ↔
  asked_for network space (ss_record presence) ∧ shown_at d presence node.
Proof.
  intros Ht. unfold presence_list. rewrite list_elem_of_fmap. setoid_rewrite merge_sort_Permutation.
  setoid_rewrite list_elem_of_filter. split.
  - intros ([[[n s] a] row] & [= -> ->] & Hf & Hin). apply elem_of_map_to_list in Hin.
    destruct (tr_presence _ Ht _ _ Hin) as (Hkey & _ & _). injection Hkey as Hn Hs Ha.
    rewrite !andb_true_iff, negb_true_iff, bool_decide_eq_false in Hf. cbn [fst snd] in Hf.
    destruct Hf as ((((Hnew & Hnet) & Hne) & Hsp) & Hvis). apply newest_of_agent_spec in Hnew; [|done].
    unfold asked_for, shown_at. rewrite <- Hn, <- Hs, <- Ha. eauto 10.
  - intros ((Hnet & Hne & Hsp) & row & [Hrow Hnew] & <- & <- & Hvis).
    set (record := ss_record (sw_payload row)) in *.
    exists ((pr_network_id record, pr_space_id record, pr_agent_did record), row). split; [done|].
    split; [|by apply elem_of_map_to_list]. cbn [fst snd].
    rewrite Hnet, Hsp, Hvis, bool_decide_false by done.
    rewrite (proj2 (newest_of_agent_spec d _ _ _ _ Hrow)); [done|by split].
Qed.

Lemma heartbeat_online d now presence node :
  trusted d →
  present ((fun entry => nr_payload entry.2) <$> merge_sort (text_le2 fst)
      (filter (fun entry => visible d (nr_source_id entry.2) = true)
        (map_to_list (gd_node_presence d)))) now (presence, node) = true ↔
  pr_entered (ss_record presence) = true ∧ online d node (pr_agent_did (ss_record presence)) now.
Proof.
  intros Ht. unfold present. rewrite andb_true_iff. cbn [fst snd]. apply and_iff_compat_l.
  rewrite existsb_exists. unfold online. split.
  - intros (heartbeat & Hin & Hh). apply list_elem_of_In, list_elem_of_fmap in Hin as ([key row] & -> & Hin).
    rewrite merge_sort_Permutation, list_elem_of_filter, elem_of_map_to_list in Hin.
    destruct Hin as [Hvis Hrow]. destruct (tr_heartbeat _ Ht _ _ Hrow) as [Hkey _].
    rewrite !andb_true_iff, !bool_decide_eq_true in Hh. destruct Hh as [[<- <-] Hc]. cbn in *. subst key. eauto.
  - intros (row & Hrow & Hvis & Hc). destruct (tr_heartbeat _ Ht _ _ Hrow) as [Hkey _].
    injection Hkey as Hn Ha. exists (nr_payload row). split.
    + apply list_elem_of_In, list_elem_of_fmap. eexists (_, row). split; [done|].
      by rewrite merge_sort_Permutation, list_elem_of_filter, elem_of_map_to_list.
    + by rewrite <- Hn, <- Ha, !bool_decide_true, Hc.
Qed.

Lemma gquery_ok {A} (f : Z -> GwDb -> A) w a w' :
  gquery f w = (Ok a, w') → g_db w' = g_db w ∧ ∃ now, a = f now (g_db w).
Proof.
  intros H. apply gquery_run in H as [Hq [[e [=]]|[now [= ->]]]]. split; [apply (qu_db _ _ Hq)|by exists now].
Qed.

Lemma shown_signed d presence node : trusted d → shown_at d presence node → agent_signed presence.
Proof. intros Ht (row & [Hrow _] & <- & _). by apply (tr_presence _ Ht) in Hrow as (_ & _ & ?). Qed.

Lemma presences_run query w response w' :
  presences query w = (Ok (Answered 200 response), w') →
  ∃ values, px_presences response = values.*1 ∧
    values = filter (fun entry => present (px_node_presences response) (px_server_time_ms response) entry = true)
      (presence_list (g_db w) (oq_network_id query) (oq_space_id query)) ∧
    px_node_presences response = (fun entry => nr_payload entry.2) <$> merge_sort (text_le2 fst)
      (filter (fun entry => visible (g_db w) (nr_source_id entry.2) = true)
        (map_to_list (gd_node_presence (g_db w)))).
Proof.
  unfold presences. destruct (validate_observation_query query) as [[]|e]; [|done].
  case_bool_decide as Hplace; [done|]. intros (r1 & w1 & H1 & H)%attempt_bind.
  destruct r1 as [values|e]; [|done]. apply gquery_ok in H1 as (Hw1 & n1 & ->).
  apply attempt_bind in H as (r2 & w2 & H2 & H). destruct r2 as [heartbeats|e]; [|done].
  apply gquery_ok in H2 as (Hw2 & n2 & ->). rewrite Hw1 in *.
  apply M_bind_ok in H as (now & w3 & _ & H). apply attempt_bind in H as (r4 & w4 & _ & H).
  destruct r4 as [names|e]; [|done]. injection H as <- _. cbn. by eexists.
Qed.

(** C19: the presences that are shown are exactly the present ones.  When the gateway lists the
    presences of a space, every one that it shows carries a valid signature of its agent, and
    a presence is shown if and only if the query asks for it, it is the newest that its agent
    has signed in that network (so that an agent is shown in one space at a time), it says
    that the agent has entered, its source is active, and the node that reported it has a
    current heartbeat for that agent. *)
Theorem presence_view_exact query w response w' :
  trusted (g_db w) → presences query w = (Ok (Answered 200 response), w') →
  Forall agent_signed (px_presences response) ∧
  ∀ presence, presence ∈ px_presences response ↔
    asked_for (oq_network_id query) (oq_space_id query) (ss_record presence) ∧
    pr_entered (ss_record presence) = true ∧
    ∃ node, shown_at (g_db w) presence node ∧
      online (g_db w) node (pr_agent_did (ss_record presence)) (px_server_time_ms response).
Proof.
  intros Ht H. apply presences_run in H as (values & Hp & Hv & Hh).
  assert (∀ presence, presence ∈ px_presences response ↔
    asked_for (oq_network_id query) (oq_space_id query) (ss_record presence) ∧
    pr_entered (ss_record presence) = true ∧
    ∃ node, shown_at (g_db w) presence node ∧
      online (g_db w) node (pr_agent_did (ss_record presence)) (px_server_time_ms response)) as Hiff.
  { intros presence. rewrite Hp, list_elem_of_fmap. setoid_rewrite Hv. setoid_rewrite list_elem_of_filter.
    rewrite Hh. split.
    - intros ([presence' node] & -> & Hpres & Hin). cbn. apply heartbeat_online in Hpres as [He Ho]; [|done].
      apply presence_list_elem in Hin as [Ha Hs]; [|done]. eauto.
    - intros (Ha & He & node & Hs & Ho). exists (presence, node). split; [done|].
      split; [by apply heartbeat_online|by apply presence_list_elem]. }
  split; [|done]. apply Forall_forall. intros presence (_ & _ & node & Hs & _)%Hiff.
  by eapply shown_signed.
Qed.

(** The answer about one agent is its newest presence in the network. *)
Lemma agent_presence_newest agent_id query w response w' :
  trusted (g_db w) → agent_presence agent_id query w = (Ok (Answered 200 response), w') →
  pr_agent_did (ss_record (ax_presence response)) = agent_id ∧
  pr_entered (ss_record (ax_presence response)) = true ∧
  agent_signed (ax_presence response) ∧
  ∃ node, shown_at (g_db w) (ax_presence response) node ∧
    ax_source_node_ids response = {[ agent_id := node ]} ∧
    ax_space_id response = pr_space_id (ss_record (ax_presence response)).
Proof.
  intros Ht. unfold agent_presence. destruct (validate_presence_query query) as [[]|e]; [|done].
  intros (now & w1 & Hnow & H)%M_bind_ok. apply attempt_bind in H as (r1 & w2 & H1 & H).
  assert (g_db w1 = g_db w) as Hw1 by (by injection Hnow as _ <-).
  destruct r1 as [values|e]; [|done]. apply gquery_ok in H1 as (_ & n1 & ->). rewrite Hw1 in H.
  fold (presence_list (g_db w) (Some (sq_network_id query)) (sq_space_id query)) in H.
  destruct (list_find _ _) as [[k [presence node]]|] eqn:Hf; cbn in H; [|done].
  apply list_find_Some in Hf as (Hin & [Hagent Hent] & _). apply list_elem_of_lookup_2 in Hin.
  apply presence_list_elem in Hin as [_ Hs]; [|done].
  apply attempt_bind in H as (r2 & w3 & _ & H). destruct r2 as [heartbeats|e]; [|done].
  injection H as <- _. cbn in *. split; [done|]. split; [done|]. split; [by eapply shown_signed|].
  exists node. by rewrite Hagent.
Qed.

(** Events are shown as they were signed, those that are asked for and of active sources. *)
Lemma events_signed query w response w' :
  trusted (g_db w) → events query w = (Ok (Answered 200 response), w') →
  Forall authority_signed (ex_events response) ∧
  ∀ key row, gd_space_events (g_db w) !! key = Some row →
    unset_or (oq_network_id query) key.1 = true → unset_or (oq_space_id query) (sv_space_id row) = true →
    unset_or (oq_place_id query) (sv_place_id row) = true → visible (g_db w) (sv_source_id row) = true →
    sv_payload row ∈ ex_events response.
Proof.
  intros Ht. unfold events. destruct (validate_observation_query query) as [[]|e]; [|done].
  intros (r1 & w1 & H1 & H)%attempt_bind. destruct r1 as [values|e]; [|done].
  apply gquery_ok in H1 as (_ & n1 & ->). apply M_bind_ok in H as (now & w2 & _ & H).
  injection H as <- _. cbn [ex_events]. split.
  - apply Forall_fmap, Forall_forall. intros [key row].
    rewrite merge_sort_Permutation, list_elem_of_filter, elem_of_map_to_list. intros [_ Hrow].
    by apply (tr_world _ Ht) in Hrow.
  - intros key row Hrow H1 H2 H3 H4. apply list_elem_of_fmap. exists (key, row). split; [done|].
    rewrite merge_sort_Permutation, list_elem_of_filter, elem_of_map_to_list. cbn.
    by rewrite H1, H2, H3, H4.
Qed.
End shown.

(** ** Concrete runs *)

Section samples.
Local Existing Instances json_impl_value ui_event_json_impl frozen_gw_host codec_impl hex_impl
  signatures_impl space_codec_impl signed_records_impl space_env_impl byte_order byte_order_laws.

Definition json_text_impl : JsonText := fun v => match v with JString s => Some s | _ => None end.
Local Existing Instance json_text_impl.

Definition agent : string := "did:key:" +:+ node_key.

(** The agent has entered a space, after an earlier one. *)
Definition presence_in (space : string) (seq : Z) : SignedSpacePresence := {|
  ss_record := {|
    pr_agent_did := agent; pr_avatar_id := None; pr_network_id := "net"; pr_space_id := space;
    pr_space_version := "1"; pr_seq := seq; pr_entered := true; pr_from_tile := (0, 0)%Z;
    pr_path := ""; pr_depart_at := 0; pr_destination_place_id := ""; pr_activity := "idle";
    pr_object_place_id := None; pr_updated_at := 0 |};
  ss_public_key := dotted node_key; ss_signature := dotted (toy_sign node_key agent) |}.

Definition presence_row (source : option string) (space : string) (seq : Z) : SpacePresenceRow := {|
  sw_seq := seq; sw_source_node_id := "node"; sw_source_id := source; sw_payload := presence_in space seq |}.

Definition agent_heartbeat : NodePresenceRow := {|
  nr_last_heartbeat_ms := 0; nr_source_id := None;
  nr_payload := {| np_node_id := "node"; np_agent_did := agent; np_last_heartbeat_ms := 0;
                   np_heartbeat_interval_sec := 60 |} |}.

Definition space_db (source : option string) : GwDb :=
  on_node_presence <[("node", agent) := agent_heartbeat]>
    (on_space_presence <[("net", "hall", agent) := presence_row source "hall" 2]>
      (on_space_presence <[("net", "yard", agent) := presence_row source "yard" 1]> empty_gw_db)).

Lemma presence_in_signed space seq : agent_signed (presence_in space seq).
Proof. split; [vm_compute; reflexivity|]. apply verify_canonical_signature_ok with "". vm_compute. reflexivity. Qed.

Lemma space_db_trusted : trusted (space_db None).
Proof.
  split; try apply map_Forall_empty.
  - apply map_Forall_insert_2; [split_and!; [done..|apply presence_in_signed]|].
    apply map_Forall_insert_2; [split_and!; [done..|apply presence_in_signed]|apply map_Forall_empty].
  - apply map_Forall_insert_2; [|apply map_Forall_empty]. split; [done|cbn; lia].
Qed.

Definition everywhere : SpaceObservationQuery := {|
  oq_network_id := Some "net"; oq_space_id := None; oq_place_id := None |}.

Lemma presence_view_exact_witness :
  ∃ response w', presences everywhere (gw_world (space_db None)) = (Ok (Answered 200 response), w') ∧
    px_presences response = [presence_in "hall" 2] ∧ Forall agent_signed (px_presences response).
Proof.
  destruct (presences everywhere (gw_world (space_db None))) as [r w'] eqn:H.
  assert (∃ response, r = Ok (Answered 200 response) ∧ px_presences response = [presence_in "hall" 2])
    as (response & -> & Hr).
  { apply (f_equal fst) in H. cbn [fst] in H. rewrite <- H. eexists. split; vm_compute; reflexivity. }
  exists response, w'. split; [reflexivity|]. split; [exact Hr|].
  destruct (presence_view_exact everywhere (gw_world (space_db None)) response w' space_db_trusted H) as [Hs _].
  exact Hs.
Defined.

(** The record endpoint returns the newest record whether or not its source is active. *)
Lemma inactive_source_record_served :
  let w := gw_world (space_db (Some "suspended")) in
  let query := {| sq_network_id := "net"; sq_space_id := None; sq_place_id := None |} in
  (agent_presence_record agent query w).1 = Ok (Answered 200 (presence_in "hall" 2)) ∧
  (agent_presence agent query w).1 = Ok (Refused 404 "agent presence not found").
Proof. split; vm_compute; reflexivity. Qed.
End samples.
